(* ===== verification/_CoqProject ===== *)
-Q . S2P
Prelude.v
CInt.v
FsLayout.v
Image.v
Fsck.v
FsckSpec.v
FsckProof.v
FsckTheorems.v
Lsfs.v
LsfsProof.v
LsfsTheorems.v
Mkfs.v
MkfsTheorems.v
MkfsHost.v
MkfsTyped.v
MkfsLinks.v
MkfsPhysical.v
MkfsTree.v
MkfsCopy.v
MkfsShows.v
MkfsAddDir.v
MkfsReads.v
MkfsConsistent.v
MkfsFaithful.v
ProcText.v
CpuTracker.v
CpuTrackerTheorems.v
RmsSched.v
RmsTheorems.v
RmsTime.v
Profiler.v
ProfilerTheorems.v
Monitor.v
Clients.v
TrackerClientTheorems.v
RmsClientTheorems.v
WorkTheorems.v
ProfilerSession.v
