(* ===== verification/Prelude.v ===== *)
(** * Linux_Kernel_Dev: a verification development

    The repository holds four independent systems projects in C.

    - Myfsck: a small Unix-like file system.  mkfs.c builds an image from a
      host directory, myfsck.c checks an image, lsfs.c lists one; fs.h,
      stat.h and types.h give the on-disk layout, log.h the reports.
    - CPU_Usage_Tracker: mp1.c, a kernel module that tracks the user time of
      registered processes through /proc/mp1/status; userapp.c, its client.
    - RMS_Linux_Schedular: mp2.c, a kernel module that schedules periodic
      tasks by rate-monotonic priority through /proc/mp2/status, with a
      dispatcher thread, one timer per task and an admission test; userapp.c,
      a periodic task.
    - Virtual_Memory_Page_Fault_Profiler: mp3.c, a kernel module that samples
      page faults and CPU time of registered processes into a buffer mapped
      by monitor.c; work.c, a process to be profiled.

    ** Files

    - Prelude.v (this file): outcomes of C programs ([Done], [Exit] for an
      early exit, [Fault] for undefined behaviour such as an access outside
      an object), their notations, the judgement [wp] with its rules, C
      arrays, the tactics [facts] and [len] and the hint databases.
    - CInt.v: fixed-width integers as [Z] with wrap-around, little-endian
      encoding, C strings.
    - FsLayout.v: fs.h and stat.h, the structures and their encodings, with
      decode/encode round trips.  Image.v: the memory-mapped image of
      myfsck.c and lsfs.c, with [Fault] outside the mapped pages.
    - Fsck.v: myfsck.c, function by function.  FsckSpec.v: what a consistent
      image is, independently of the checker.  FsckProof.v: the proof that
      the checker decides it.  FsckTheorems.v: the results.
    - Lsfs.v (Module Ls): lsfs.c.  LsfsProof.v: the directories of a
      consistent image as a tree, and the walk of lsfs.c as a recursion over
      it.  LsfsTheorems.v: the results.
    - Mkfs.v: mkfs.c (sectors, inodes, block allocation, appending,
      recursive directory copy, hard-link list with its pointers, [main]);
      the interface [Malloc] is all that is known of the allocator: a block
      that is not in use, with any contents.
      MkfsTheorems.v: inodes, the bitmap and appending, and its defects;
      three allocators (zeroed, dirty and reused blocks).
      MkfsHost.v: host trees, their demand, which trees fit.  MkfsTyped.v:
      the image file keeps its shape.  MkfsLinks.v: the nodes of the
      hard-link list represent a table of links, up to the pointer that the
      last of them was given by [malloc].  MkfsPhysical.v: the invariant of
      sectors and blocks.
      MkfsTree.v: the invariant of entries and link counts.  MkfsCopy.v: every
      operation keeps both.  MkfsShows.v: what it means that an inode holds a
      host tree, and that later operations do not disturb it.  MkfsAddDir.v:
      the recursive copy completes and its result holds the host tree.
      MkfsReads.v: the same sectors seen through the mapped image.
      MkfsConsistent.v: the images are right, and what myfsck says of them.  MkfsFaithful.v: a reader
      of the image, and lsfs, find the host tree.
    - ProcText.v: text at the proc interface, shared by the three modules:
      decimal printing, [strim], [kstrtoint], [sscanf], and the formatting
      loop and window of the read handlers against the interface
      [ProcEntry], which each module instantiates.
    - CpuTracker.v (Module Mp1) and CpuTrackerTheorems.v: mp1.c.
    - RmsSched.v (Module Mp2) and RmsTheorems.v: mp2.c.  RmsTime.v: the same
      transition system under a clock.
    - Profiler.v (Module Mp3) and ProfilerTheorems.v: mp3.c.
    - Monitor.v (Module Mon): monitor.c.
    - Clients.v (Modules App1, App2, Work): the two userapp.c and work.c,
      written against the interface [ProcFile] of a proc file, with what the
      rest of the system does between two calls as an argument.
      TrackerClientTheorems.v, RmsClientTheorems.v and WorkTheorems.v put the
      modules Mp1, Mp2 and Mp3 behind the interface.
    - ProfilerSession.v (Module Session): mp3.c, work.c's registration and
      monitor.c composed: load, register, sample, map, print.

    ** How code becomes definitions

    A C function is a definition with the function's name that returns an
    [outcome]; global variables are the fields of a state record, passed
    explicitly.  Loops over a range or a list are [mfor] or structural
    fixpoints; the loops that are neither have fuel, and a theorem says that
    the fuel used is enough: [follow_dotdot] (number of inodes),
    [append_loop] (bytes left), [drain] (48001, the longs the monitor can
    reach), [ls_dir] (the depth of the stack; the number of inodes is enough
    on a consistent image), [read_stream] (the size of the kernel buffer).  Integers keep their C width where the code can overflow.

    For the kernel modules a critical section under the module's mutex is one
    transition, and what a handler does outside it is a transition of its
    own; [reachable] closes the initial state under all of them in any order,
    so a theorem about reachable states is about every interleaving.  In mp2
    the dispatcher thread is split further, into its single statements,
    because timer callbacks do not take the mutex; its pcbs are shared by
    location in a heap, so that use after free is a [Fault].  What the kernel
    supplies (outcomes of allocations and user copies, the process table,
    [jiffies], [msecs_to_jiffies], page frames) is an argument.  A pending
    timer or queued work item may run at any moment; RmsTime.v adds a clock to
    mp2, with timers that are not early.

    ** What the theorems show

    - myfsck: it accepts exactly the consistent images, each report names a
      violation that is present, it never leaves the mapping or its arrays on
      a well-mapped image, its loops terminate and its counters do not
      overflow; and three kinds of damaged image it misses or mishandles.
    - lsfs: on an image that is consistent but for sizes the recursion ends,
      stays inside the mapping and lists every inode in use once per reference, directories
      exactly once, with its true fields; without consistency it need not end.
    - mkfs: inodes are stored where they are read, appending to a file keeps
      the old bytes and adds the new ones through direct and indirect blocks
      without touching anything else, the bitmap marks exactly the used
      blocks; every finished image has exactly its 1024 sectors; every host
      tree that fits is copied completely unless the copy reads a pointer
      that [malloc] left in a fresh node ([reads_no_garbage]; what happens
      then is [garbage_followed]: a fault, or a loop without end), with the names, the order and the
      contents of the host tree, and lsfs prints the outline of that tree;
      myfsck accepts the image exactly if no directory fills its blocks to
      the last byte, and otherwise reports the size of a directory; the
      hard-link list is, under the same condition, a map from host inodes to
      inodes, but forgets everything when its first entry is used up.
    - mp1: the list refines a finite map, the invariant holds in every
      reachable state, reads and writes round-trip, loading and unloading
      are clean, except for the window in which the cache is gone and the
      proc entry is not.
    - mp2: the invariant and the absence of faults under every interleaving,
      rate-monotonic optimality of a round of the dispatcher thread, the
      admission test (exact for positive arguments; negative ones wrap and
      count for at most one thousandth), the command round trip, read windows,
      unloading (every listed task is freed after its timer has been stopped;
      objects that are not listed are leaked; a task registered before the
      proc entry goes survives the module); periodic releases without drift;
      and two schedules in which a wake-up is lost.
    - mp3 and the monitor: buffer safety, exactness of the samples, sampling
      goes on unless a registration races with a deregistration (and then it
      can stop), the mapping, the round trip from the profiler's writes to
      the monitor's output (and what is left unread once the ring has
      wrapped), the termination of the monitor on any buffer (it leaves the
      device open when the mapping fails), and a whole session from loading the module to the lines the monitor prints.
    - the clients: the tracker's client prints exactly what the module holds;
      the scheduler's client, under any interference, ends with its task
      deregistered, or ends with exit code 1 because it did not find its pid
      in the list it read, or sleeps for ever in a yield; its test for admission is characterised exactly
      (it can mistake another pid for its own); the workload stays inside its
      memory, frees all of it, and is registered from its start to its end,
      or for good when it runs out of memory.

    ** Not modelled

    The busy loops of the two userapp.c, the bytes work.c stores, opening and
    mapping files other than their outcome (ProfilerSession.v has the mmap of
    the mp3 device), the text of log messages of the kernel modules.  In
    mkfs.c [malloc] (whose contents are arbitrary), [fchdir] and [write] are
    taken to succeed.
*)
From stdpp Require Export base tactics list numbers option strings sets gmap.
From Stdlib Require Export ZArith Lia.

#[export] Set Default Goal Selector "!".
#[export] Set Warnings "-clear-no-such-hyp".
Open Scope Z_scope.

(** ** Outcomes of a C program that can exit or leave its memory

    [Done a]: normal completion with value [a].
    [Exit e]: the program called [exit] (or returned an error code) with [e].
    [Fault]: an access outside the object the C code indexes, or a
    dereference of memory that is not allocated: the behaviour of the
    program is undefined from there on. *)
Inductive outcome (E A : Type) : Type :=
| Done (a : A)
| Exit (e : E)
| Fault.
Arguments Done {E A} a.
Arguments Exit {E A} e.
Arguments Fault {E A}.

Definition obind {E A B} (m : outcome E A) (k : A → outcome E B) : outcome E B :=
  match m with
  | Done a => k a
  | Exit e => Exit e
  | Fault => Fault
  end.

Declare Scope outcome_scope.
Delimit Scope outcome_scope with outcome.
Notation "'let!' x := m 'in' k" := (obind m (λ x, k))
  (at level 10, x pattern, m at level 100, k at level 200) : outcome_scope.
Notation "m ';;!' k" := (obind m (λ _, k))
  (at level 100, k at level 200, right associativity) : outcome_scope.
Open Scope outcome_scope.

(** A [for] loop over the list of its index values. *)
Fixpoint mfor {E S X} (l : list X) (f : X → S → outcome E S) (s : S) : outcome E S :=
  match l with
  | [] => Done s
  | x :: l' => let! s' := f x s in mfor l' f s'
  end.

Lemma mfor_app {E S X} (l1 l2 : list X) (f : X → S → outcome E S) (s : S) :
  mfor (l1 ++ l2) f s = let! s' := mfor l1 f s in mfor l2 f s'.
Proof. revert s. induction l1 as [|x l1 IH]; intros s; simpl; [done|]. destruct (f x s); simpl; auto. Qed.

(** C array access: reading or writing outside the array is a [Fault]. *)
Definition aget {E A} (a : list A) (i : Z) : outcome E A :=
  if decide (0 ≤ i) then
    match a !! Z.to_nat i with
    | Some x => Done x
    | None => Fault
    end
  else Fault.

Definition aset {E A} (a : list A) (i : Z) (x : A) : outcome E (list A) :=
  if decide (0 ≤ i < Z.of_nat (length a)) then Done (<[Z.to_nat i := x]> a) else Fault.

(** ** The correctness judgement

    [wp Safe V m Q]: when [m] completes, its value satisfies [Q]; when it
    exits with [e], the condition [V e] holds (the report is truthful); it
    faults only when [Safe] is false.  One judgement carries soundness,
    truthful reports and memory safety. *)
Definition wp {E A} (Safe : Prop) (V : E → Prop) (m : outcome E A) (Q : A → Prop) : Prop :=
  match m with
  | Done a => Q a
  | Exit e => V e
  | Fault => ¬ Safe
  end.

Create HintDb outcome.
Create Rewrite HintDb lengths.
#[export] Hint Rewrite @length_app @length_take @length_drop @length_replicate @length_fmap
  @length_seqZ @length_insert @length_reverse : lengths.

(** Arithmetic side conditions about the lengths of lists. *)
Ltac len := autorewrite with lengths; first [lia|simpl; lia].

Section wp.
Context {E : Type} (Safe : Prop) (V : E → Prop).

Lemma wp_done {A} (a : A) (Q : A → Prop) : Q a → wp Safe V (Done a) Q.
Proof. done. Qed.

Lemma wp_exit {A} (e : E) (Q : A → Prop) : V e → wp Safe V (Exit e) Q.
Proof. done. Qed.

Lemma wp_mono {A} (m : outcome E A) (P Q : A → Prop) :
  wp Safe V m P → (∀ a, P a → Q a) → wp Safe V m Q.
Proof. destruct m; simpl; auto. Qed.

Lemma wp_bind {A B} (m : outcome E A) (k : A → outcome E B) (Q : B → Prop) :
  wp Safe V m (λ a, wp Safe V (k a) Q) → wp Safe V (obind m k) Q.
Proof. by destruct m. Qed.

(** A loop keeps an invariant indexed by the iterations already done. *)
Lemma wp_mfor {X S} (I : list X → S → Prop) (l : list X) (f : X → S → outcome E S) (s : S)
    (Q : S → Prop) :
  I [] s →
  (∀ l1 x l2 s, l = l1 ++ x :: l2 → I l1 s → wp Safe V (f x s) (I (l1 ++ [x]))) →
  (∀ s, I l s → Q s) →
  wp Safe V (mfor l f s) Q.
Proof.
  intros H0 Hstep HQ.
  assert (∀ l2 l1 s, l = l1 ++ l2 → I l1 s → wp Safe V (mfor l2 f s) (I l)) as Hgen.
  { induction l2 as [|x l2 IH]; intros l1 s1 Hl HI; simpl.
    - rewrite Hl, app_nil_r. done.
    - apply wp_bind. eapply wp_mono; [by eapply Hstep|].
      intros s2 HI2. apply (IH (l1 ++ [x])); [by rewrite <- app_assoc|done]. }
  eapply wp_mono; [by apply (Hgen l [])|done].
Qed.

(** Deciding a guard whose positive branch exits. *)
Lemma wp_guard {A} (C : Prop) `{Decision C} (e : E) (m : outcome E A) (Q : A → Prop) :
  (C → V e) → (¬ C → wp Safe V m Q) →
  wp Safe V (if decide C then Exit e else m) Q.
Proof. intros He Hm. destruct (decide C) as [HC|HC]; [by apply He|by apply Hm]. Qed.

Lemma wp_safe {A} (m : outcome E A) (Q : A → Prop) :
  Safe → (∀ e, ¬ V e) → wp Safe V m Q → ∃ a, m = Done a ∧ Q a.
Proof. intros HS HV. destruct m; simpl; [eauto|by intros ?%HV|done]. Qed.
End wp.

#[export] Hint Resolve wp_done wp_exit wp_guard : outcome.

(** Conjunctions of routine facts. *)
Ltac facts := split_and!; auto; try lia; try congruence; try set_solver.

(** ** Lists *)
Lemma filter_all {A} (P : A → Prop) `{∀ x, Decision (P x)} (l : list A) :
  (∀ x, x ∈ l → P x) → filter P l = l.
Proof.
  induction l as [|x l IH]; intros Hl; [done|]. rewrite filter_cons, decide_True by (apply Hl; left).
  f_equal. apply IH. intros. apply Hl. by right.
Qed.

Lemma filter_none {A} (P : A → Prop) `{∀ x, Decision (P x)} (l : list A) :
  (∀ x, x ∈ l → ¬ P x) → filter P l = [].
Proof.
  induction l as [|x l IH]; intros Hl; [done|]. rewrite filter_cons, decide_False by (apply Hl; left).
  apply IH. intros. apply Hl. by right.
Qed.

(** ** Arrays tabulated by a function of the index *)
Definition tab {A} (n : Z) (f : Z → A) : list A := f <$> seqZ 0 n.

Lemma length_tab {A} n (f : Z → A) : length (tab n f) = Z.to_nat n.
Proof. unfold tab. by rewrite length_fmap, length_seqZ. Qed.

#[export] Hint Rewrite @length_tab : lengths.

Lemma lookup_tab {A} n (f : Z → A) i :
  0 ≤ i < n → tab n f !! Z.to_nat i = Some (f i).
Proof.
  intros Hi. unfold tab. rewrite list_lookup_fmap, (lookup_seqZ_lt 0 n) by lia.
  simpl. do 2 f_equal. lia.
Qed.

Lemma tab_ext {A} n (f g : Z → A) :
  (∀ i, 0 ≤ i < n → f i = g i) → tab n f = tab n g.
Proof.
  intros Hfg. unfold tab. apply list_fmap_ext. intros k x Hk.
  apply lookup_seqZ in Hk. apply Hfg. lia.
Qed.

Lemma insert_tab {A} n (f : Z → A) i v :
  0 ≤ i < n → <[Z.to_nat i := v]> (tab n f) = tab n (λ k, if decide (k = i) then v else f k).
Proof.
  intros Hi. apply list_eq. intros k.
  destruct (decide (Z.of_nat k < n)) as [Hk|Hk].
  - destruct (decide (k = Z.to_nat i)) as [->|Hne].
    + rewrite list_lookup_insert_eq by len.
      rewrite lookup_tab by lia. by rewrite decide_True by done.
    + rewrite list_lookup_insert_ne by done.
      replace k with (Z.to_nat (Z.of_nat k)) by lia.
      rewrite !lookup_tab by lia. by rewrite decide_False by lia.
  - rewrite !lookup_ge_None_2; [done|..]; rewrite ?length_insert, length_tab; lia.
Qed.

Lemma aget_tab {E A} n (f : Z → A) i :
  0 ≤ i < n → aget (E:=E) (tab n f) i = Done (f i).
Proof. intros Hi. unfold aget. rewrite decide_True by lia. by rewrite lookup_tab. Qed.

Lemma aset_tab {E A} n (f : Z → A) i v :
  0 ≤ i < n →
  aset (E:=E) (tab n f) i v = Done (tab n (λ k, if decide (k = i) then v else f k)).
Proof.
  intros Hi. unfold aset. rewrite decide_True by len.
  by rewrite insert_tab.
Qed.

Section wp_arrays.
Context {E A : Type} (Safe : Prop) (V : E → Prop).

Lemma wp_aget_tab n (f : Z → A) i (Q : A → Prop) :
  (Safe → 0 ≤ i < n) → (0 ≤ i < n → Q (f i)) → wp Safe V (aget (tab n f) i) Q.
Proof.
  intros HS HQ. destruct (decide (0 ≤ i < n)) as [Hi|Hi].
  - rewrite aget_tab by done. by apply HQ.
  - unfold aget. case_decide; [|by intros ?%HS].
    rewrite lookup_ge_None_2 by len. by intros ?%HS.
Qed.

Lemma wp_aset_tab n (f : Z → A) i v (Q : list A → Prop) :
  (Safe → 0 ≤ i < n) →
  (0 ≤ i < n → Q (tab n (λ k, if decide (k = i) then v else f k))) →
  wp Safe V (aset (tab n f) i v) Q.
Proof.
  intros HS HQ. destruct (decide (0 ≤ i < n)) as [Hi|Hi].
  - rewrite aset_tab by done. by apply HQ.
  - unfold aset. rewrite decide_False by len. by intros ?%HS.
Qed.
End wp_arrays.
