(* ===== verification/CInt.v ===== *)
(** * C integers and byte strings

    The integer types the sources use, kept as [Z] with the conversions of
    the C language written out: [u8], [u16], [u32] and [u64] reduce modulo
    the width, [s8], [s16] and [s32] are the two's complement readings of
    the same bits.  Little-endian encoding and decoding of these integers,
    and the C string functions that compare fixed-width names. *)
From S2P Require Import Prelude.

(** ** Conversions *)
Definition wrap (w x : Z) : Z := x mod 2 ^ w.
Definition swrap (w x : Z) : Z := (x + 2 ^ (w - 1)) mod 2 ^ w - 2 ^ (w - 1).

Abbreviation u8 := (wrap 8).
Abbreviation u16 := (wrap 16).
Abbreviation u32 := (wrap 32).
Abbreviation u64 := (wrap 64).
Abbreviation s8 := (swrap 8).
Abbreviation s16 := (swrap 16).
Abbreviation s32 := (swrap 32).

Lemma wrap_range w x : 0 ≤ w → 0 ≤ wrap w x < 2 ^ w.
Proof. intros. apply Z.mod_pos_bound. by apply Z.pow_pos_nonneg. Qed.

Lemma wrap_small w x : 0 ≤ x < 2 ^ w → wrap w x = x.
Proof. apply Z.mod_small. Qed.

Lemma wrap_wrap w x : 0 ≤ w → wrap w (wrap w x) = wrap w x.
Proof. intros. apply wrap_small. by apply wrap_range. Qed.

Lemma swrap_range w x : 0 < w → - 2 ^ (w - 1) ≤ swrap w x < 2 ^ (w - 1).
Proof.
  intros. unfold swrap.
  assert (2 ^ w = 2 * 2 ^ (w - 1)) as Hw.
  { rewrite <- Z.pow_succ_r by lia. f_equal. lia. }
  pose proof (Z.mod_pos_bound (x + 2 ^ (w - 1)) (2 ^ w)) as Hb.
  assert (0 < 2 ^ (w - 1)) by (apply Z.pow_pos_nonneg; lia). lia.
Qed.

Lemma swrap_small w x : 0 < w → - 2 ^ (w - 1) ≤ x < 2 ^ (w - 1) → swrap w x = x.
Proof.
  intros Hw Hx. unfold swrap.
  assert (2 ^ w = 2 * 2 ^ (w - 1)) as Hp.
  { rewrite <- Z.pow_succ_r by lia. f_equal. lia. }
  rewrite Z.mod_small by lia. lia.
Qed.

(** The signed and the unsigned reading of a word have the same bits. *)
Lemma wrap_swrap w x : 0 < w → wrap w (swrap w x) = wrap w x.
Proof.
  intros. unfold wrap, swrap.
  rewrite Zminus_mod_idemp_l. f_equal. lia.
Qed.

Lemma swrap_wrap w x : 0 ≤ w → swrap w (wrap w x) = swrap w x.
Proof. intros. unfold wrap, swrap. by rewrite Zplus_mod_idemp_l. Qed.

(** ** Little-endian integers *)
Fixpoint le_combine (l : list Z) : Z :=
  match l with
  | [] => 0
  | b :: l' => b + 256 * le_combine l'
  end.

Fixpoint le_split (n : nat) (x : Z) : list Z :=
  match n with
  | O => []
  | S n' => u8 x :: le_split n' (x / 256)
  end.

Definition is_byte (b : Z) : Prop := 0 ≤ b < 256.

Lemma length_le_split n x : length (le_split n x) = n.
Proof. revert x. induction n; intros; simpl; auto. Qed.

#[export] Hint Rewrite length_le_split : lengths.

Lemma le_split_bytes n x : Forall is_byte (le_split n x).
Proof.
  revert x. induction n as [|n IH]; intros x; simpl; constructor; [|done].
  by apply (wrap_range 8).
Qed.

Lemma le_combine_split n x : le_combine (le_split n x) = wrap (8 * Z.of_nat n) x.
Proof.
  revert x. induction n as [|n IH]; intros x; simpl le_split; simpl le_combine.
  - unfold wrap. by rewrite Z.mod_1_r.
  - rewrite IH. unfold wrap.
    replace (8 * Z.of_nat (S n)) with (8 + 8 * Z.of_nat n) by lia.
    rewrite Z.pow_add_r, Z.rem_mul_r by lia. done.
Qed.

Lemma le_combine_range l :
  Forall is_byte l → 0 ≤ le_combine l < 2 ^ (8 * Z.of_nat (length l)).
Proof.
  induction 1 as [|b l Hb Hl IH]; simpl; [done|].
  replace (8 * Z.of_nat (S (length l))) with (8 + 8 * Z.of_nat (length l)) by lia.
  rewrite Z.pow_add_r by lia. unfold is_byte in Hb. lia.
Qed.

Lemma le_split_combine l : Forall is_byte l → le_split (length l) (le_combine l) = l.
Proof.
  induction 1 as [|b l Hb Hl IH]; simpl; [done|]. unfold is_byte in Hb.
  f_equal.
  - unfold wrap. change (2 ^ 8) with 256.
    rewrite (Z.mul_comm 256), Z.mod_add by lia. by apply Z.mod_small.
  - etrans; [|exact IH]. f_equal.
    by rewrite (Z.mul_comm 256), Z.div_add, Z.div_small, Z.add_0_l by lia.
Qed.

(** ** strncmp

    [strncmp a b n] on byte strings read up to their terminating NUL: the
    difference of the first bytes that differ within the first [n], 0 when
    there is none.  A string whose bytes are exhausted is read as ended. *)
Fixpoint strncmp (a b : list Z) (n : nat) : Z :=
  match n with
  | O => 0
  | S n' =>
      let ca := default 0 (head a) in
      let cb := default 0 (head b) in
      if decide (ca = cb) then
        if decide (ca = 0) then 0 else strncmp (tail a) (tail b) n'
      else ca - cb
  end.

(** The C string a fixed-width field holds: its bytes before the first NUL. *)
Fixpoint cstring (l : list Z) : list Z :=
  match l with
  | [] => []
  | b :: l' => if decide (b = 0) then [] else b :: cstring l'
  end.

(** [strncmp] is zero exactly when the two strings agree on the first [n]
    bytes of their C strings. *)
Lemma strncmp_zero a b n :
  strncmp a b n = 0 ↔ take n (cstring a) = take n (cstring b).
Proof.
  revert a b. induction n as [|n IH]; intros a b; [done|].
  destruct a as [|x a], b as [|y b]; simpl; repeat case_decide; simplify_eq;
    simpl; try (split; intros; simplify_eq; lia || done); try lia.
  rewrite IH. split; [intros ->|intros]; by simplify_eq.
Qed.
