(* ===== verification/FsLayout.v ===== *)
(** * On-disk layout of the file system (src/Myfsck/fs.h, stat.h)

    The constants, the three on-disk structures with their byte encodings,
    and the memory-mapped image the checker and the lister read. *)
From S2P Require Import Prelude CInt.

(** ** Constants of fs.h and stat.h *)
Definition ROOTINO : Z := 1.
Definition BSIZE : Z := 512.
Definition NDIRECT : Z := 12.
Definition sizeof_uint : Z := 4.
Definition NINDIRECT : Z := BSIZE / sizeof_uint.
Definition MAXFILE : Z := NDIRECT + NINDIRECT.
Definition DIRSIZ : Z := 14.
Definition sizeof_dinode : Z := 64.
Definition sizeof_dirent : Z := 16.
Definition IPB : Z := BSIZE / sizeof_dinode.
Definition IBLOCK (i : Z) : Z := i / IPB + 2.
Definition BPB : Z := BSIZE * 8.
Definition BBLOCK (b ninodes : Z) : Z := b / BPB + ninodes / IPB + 3.

Definition T_DIR : Z := 1.
Definition T_FILE : Z := 2.
Definition T_DEV : Z := 3.

(** ** Structures *)
Record superblock := Superblock {
  sb_size : Z;      (* Size of file system image (blocks) *)
  sb_nblocks : Z;   (* Number of data blocks *)
  sb_ninodes : Z;   (* Number of inodes *)
}.

Record dinode := Dinode {
  di_type : Z;
  di_major : Z;
  di_minor : Z;
  di_nlink : Z;
  di_size : Z;
  di_addrs : list Z;   (* NDIRECT + 1 entries *)
}.

Record dirent := Dirent {
  de_inum : Z;
  de_name : list Z;    (* DIRSIZ bytes *)
}.

#[export] Instance dirent_eq_dec : EqDecision dirent.
Proof. solve_decision. Defined.
#[export] Instance dinode_eq_dec : EqDecision dinode.
Proof. solve_decision. Defined.

(** Encodings: the bytes of a structure in memory, fields in order, with
    natural alignment leaving no padding in any of the three. *)
Definition encode_superblock (sb : superblock) : list Z :=
  le_split 4 (sb_size sb) ++ le_split 4 (sb_nblocks sb) ++ le_split 4 (sb_ninodes sb).

Definition encode_dinode (d : dinode) : list Z :=
  le_split 2 (di_type d) ++ le_split 2 (di_major d) ++
  le_split 2 (di_minor d) ++ le_split 2 (di_nlink d) ++
  le_split 4 (di_size d) ++ concat (le_split 4 <$> di_addrs d).

Definition encode_dirent (e : dirent) : list Z :=
  le_split 2 (de_inum e) ++ de_name e.

(** Slices of a byte string. *)
Definition slice (off len : nat) (l : list Z) : list Z := take len (drop off l).

Definition get16 (l : list Z) (off : nat) : Z := le_combine (slice off 2 l).
Definition get32 (l : list Z) (off : nat) : Z := le_combine (slice off 4 l).

Definition decode_dinode (l : list Z) : dinode :=
  Dinode (s16 (get16 l 0)) (s16 (get16 l 2)) (s16 (get16 l 4)) (s16 (get16 l 6))
         (get32 l 8) ((λ k, get32 l (12 + 4 * k)) <$> seq 0 13).

Definition decode_dirent (l : list Z) : dirent :=
  Dirent (get16 l 0) (slice 2 14 l).

(** The values the C types of the fields can hold. *)
Definition is_short (x : Z) : Prop := - 2 ^ 15 ≤ x < 2 ^ 15.
Definition is_ushort (x : Z) : Prop := 0 ≤ x < 2 ^ 16.
Definition is_uint (x : Z) : Prop := 0 ≤ x < 2 ^ 32.

Record dinode_wf (d : dinode) : Prop := {
  wf_type : is_short (di_type d);
  wf_major : is_short (di_major d);
  wf_minor : is_short (di_minor d);
  wf_nlink : is_short (di_nlink d);
  wf_size : is_uint (di_size d);
  wf_addrs_len : length (di_addrs d) = 13%nat;
  wf_addrs : Forall is_uint (di_addrs d);
}.

Record dirent_wf (e : dirent) : Prop := {
  wf_inum : is_ushort (de_inum e);
  wf_name_len : length (de_name e) = 14%nat;
  wf_name : Forall is_byte (de_name e);
}.

(** *** Slices of concatenated fields *)
Lemma slice_app_here l1 l2 l3 off len :
  off = length l1 → len = length l2 → slice off len (l1 ++ l2 ++ l3) = l2.
Proof. intros -> ->. unfold slice. by rewrite drop_app_length, take_app_length. Qed.

Lemma slice_app_r l1 l2 off len :
  (length l1 ≤ off)%nat → slice off len (l1 ++ l2) = slice (off - length l1) len l2.
Proof. intros. unfold slice. by rewrite drop_app_ge by lia. Qed.

Lemma slice_app_l l1 l2 off len :
  (off + len ≤ length l1)%nat → slice off len (l1 ++ l2) = slice off len l1.
Proof.
  intros. unfold slice. rewrite drop_app_le by lia.
  by rewrite take_app_le by len.
Qed.

Lemma length_slice off len l :
  (off + len ≤ length l)%nat → length (slice off len l) = len.
Proof. intros. unfold slice. rewrite length_take, length_drop. lia. Qed.

Lemma length_concat_fixed {A} (f : A → list Z) (n : nat) (xs : list A) :
  (∀ x, length (f x) = n) → length (concat (f <$> xs)) = (n * length xs)%nat.
Proof.
  intros Hf. induction xs as [|x xs IH]; csimpl; [lia|].
  rewrite length_app, IH, Hf. lia.
Qed.

Lemma slice_concat_fixed {A} (f : A → list Z) (n k : nat) (xs : list A) x :
  (∀ x, length (f x) = n) → xs !! k = Some x →
  slice (n * k) n (concat (f <$> xs)) = f x.
Proof.
  intros Hf. revert k. induction xs as [|y xs IH]; intros [|k] Hk; simplify_eq/=; csimpl.
  - rewrite Nat.mul_0_r. apply (slice_app_here []); [done|by rewrite Hf].
  - rewrite slice_app_r by (rewrite Hf; lia). rewrite Hf.
    replace (n * S k - n)%nat with (n * k)%nat by lia. by apply IH.
Qed.

Lemma length_encode_superblock sb : length (encode_superblock sb) = 12%nat.
Proof. done. Qed.

Lemma length_encode_dinode d :
  length (di_addrs d) = 13%nat → length (encode_dinode d) = Z.to_nat sizeof_dinode.
Proof.
  intros Hl. unfold encode_dinode. rewrite !length_app, !length_le_split.
  rewrite (length_concat_fixed _ 4), Hl by apply length_le_split. done.
Qed.

Lemma length_encode_dirent e :
  length (de_name e) = 14%nat → length (encode_dirent e) = Z.to_nat sizeof_dirent.
Proof. intros Hl. unfold encode_dirent. by rewrite length_app, length_le_split, Hl. Qed.

(** *** Round trips *)
Lemma get32_app l1 l2 off x :
  off = length l1 → get32 (l1 ++ le_split 4 x ++ l2) off = u32 x.
Proof.
  intros ->. unfold get32. rewrite slice_app_here by (by rewrite ?length_le_split).
  by rewrite le_combine_split.
Qed.

Lemma get16_app l1 l2 off x :
  off = length l1 → get16 (l1 ++ le_split 2 x ++ l2) off = u16 x.
Proof.
  intros ->. unfold get16. rewrite slice_app_here by (by rewrite ?length_le_split).
  by rewrite le_combine_split.
Qed.

Lemma get16_head l2 x : get16 (le_split 2 x ++ l2) 0 = u16 x.
Proof. by apply (get16_app []). Qed.

Lemma s16_u16 x : is_short x → s16 (u16 x) = x.
Proof. intros Hx. rewrite swrap_wrap by lia. by apply swrap_small. Qed.

(** Reading the addresses back from an encoded inode. *)
Lemma get32_addr_encode d k a :
  dinode_wf d → di_addrs d !! k = Some a → get32 (encode_dinode d) (12 + 4 * k) = a.
Proof.
  intros Hwf Hk. unfold get32, encode_dinode. rewrite !app_assoc.
  rewrite slice_app_r by len.
  rewrite !length_app, !length_le_split.
  replace (12 + 4 * k - (2 + 2 + 2 + 2 + 4))%nat with (4 * k)%nat by lia.
  rewrite (slice_concat_fixed _ _ _ _ a) by (done || apply length_le_split).
  rewrite le_combine_split. apply wrap_small.
  pose proof (wf_addrs d Hwf) as Ha. rewrite Forall_lookup in Ha.
  by apply Ha in Hk.
Qed.

Lemma decode_encode_dinode d : dinode_wf d → decode_dinode (encode_dinode d) = d.
Proof.
  intros Hwf. destruct Hwf as [Ht Hmaj Hmin Hnl Hsz Hlen Ha] eqn:E; clear E.
  unfold decode_dinode.
  assert (∀ k, (k < 13)%nat → ∃ a, di_addrs d !! k = Some a ∧
            get32 (encode_dinode d) (12 + 4 * k) = a) as Haddr.
  { intros k Hk. destruct (lookup_lt_is_Some_2 (di_addrs d) k) as [a Hka]; [lia|].
    exists a. split; [done|]. by apply get32_addr_encode. }
  assert ((λ k, get32 (encode_dinode d) (12 + 4 * k)) <$> seq 0 13 = di_addrs d) as ->.
  { apply list_eq. intros k. rewrite list_lookup_fmap.
    destruct (decide (k < 13)%nat) as [Hk|Hk].
    - rewrite lookup_seq_lt by lia. simpl. destruct (Haddr k Hk) as (a & -> & <-). done.
    - rewrite lookup_seq_ge, lookup_ge_None_2 by lia. done. }
  unfold encode_dinode.
  rewrite get16_head.
  rewrite (get16_app (le_split 2 (di_type d))) by done.
  rewrite (app_assoc (le_split 2 (di_type d))), get16_app by done.
  rewrite (app_assoc (le_split 2 (di_type d) ++ _)), get16_app by done.
  rewrite (app_assoc ((le_split 2 (di_type d) ++ _) ++ _)), get32_app by done.
  rewrite !s16_u16 by done. rewrite wrap_small by done. by destruct d.
Qed.

Lemma decode_encode_dirent e : dirent_wf e → decode_dirent (encode_dirent e) = e.
Proof.
  intros [Hi Hl Hn]. unfold decode_dirent, encode_dirent.
  rewrite get16_head. rewrite wrap_small by done.
  rewrite slice_app_r by len.
  rewrite length_le_split, Nat.sub_diag. unfold slice. rewrite drop_0.
  rewrite take_ge by lia. by destruct e.
Qed.
