(* ===== verification/Image.v ===== *)
(** * The memory-mapped image

    myfsck.c and lsfs.c map the image file read-only with [mmap] and read
    structures through pointers into the mapping.  A mapping covers whole
    pages: the bytes between the end of the file and the end of its last
    page read as zero, an access past that page is a [Fault]. *)
From S2P Require Import Prelude CInt FsLayout.

Definition PAGE_SIZE : Z := 4096.

Record image := Image {
  st_size : Z;            (* length of the file in bytes *)
  file_byte : Z → Z;      (* its contents *)
}.

Definition map_len (img : image) : Z := (st_size img + (PAGE_SIZE - 1)) / PAGE_SIZE * PAGE_SIZE.

(** The byte the mapping shows at an offset. *)
Definition img_byte (img : image) (off : Z) : Z :=
  if decide (off < st_size img) then u8 (file_byte img off) else 0.

Definition mapped (img : image) (off len : Z) : Prop := 0 ≤ off ∧ off + len ≤ map_len img.

(** Loads through a pointer. *)
Definition load8 {E} (img : image) (off : Z) : outcome E Z :=
  if decide (0 ≤ off < map_len img) then Done (img_byte img off) else Fault.

Fixpoint load_bytes {E} (img : image) (off : Z) (n : nat) : outcome E (list Z) :=
  match n with
  | O => Done []
  | S n' =>
      let! b := load8 img off in
      let! l := load_bytes img (off + 1) n' in
      Done (b :: l)
  end.

Definition load16 {E} (img : image) (off : Z) : outcome E Z :=
  let! l := load_bytes img off 2 in Done (le_combine l).
Definition load32 {E} (img : image) (off : Z) : outcome E Z :=
  let! l := load_bytes img off 4 in Done (le_combine l).

(** The same reads as total functions, for specifications. *)
Fixpoint rd_bytes (img : image) (off : Z) (n : nat) : list Z :=
  match n with
  | O => []
  | S n' => img_byte img off :: rd_bytes img (off + 1) n'
  end.
Definition rd16 (img : image) (off : Z) : Z := le_combine (rd_bytes img off 2).
Definition rd32 (img : image) (off : Z) : Z := le_combine (rd_bytes img off 4).

(** An image given by the list of its blocks, as mkfs writes it. *)
Definition image_of_blocks (bs : list (list Z)) : image :=
  Image (BSIZE * Z.of_nat (length bs))
        (λ off, default 0 (default [] (bs !! Z.to_nat (off / BSIZE)) !! Z.to_nat (off mod BSIZE))).

Lemma img_byte_range img off : is_byte (img_byte img off).
Proof.
  unfold img_byte, is_byte. case_decide; [|lia]. by apply (wrap_range 8).
Qed.

Lemma rd_bytes_range img off n : Forall is_byte (rd_bytes img off n).
Proof. revert off. induction n; intros; simpl; constructor; auto using img_byte_range. Qed.

Lemma length_rd_bytes img off n : length (rd_bytes img off n) = n.
Proof. revert off. induction n; intros; simpl; auto. Qed.

Lemma rd16_range img off : 0 ≤ rd16 img off < 2 ^ 16.
Proof. apply (le_combine_range (rd_bytes img off 2)), rd_bytes_range. Qed.

Lemma rd32_range img off : 0 ≤ rd32 img off < 2 ^ 32.
Proof. apply (le_combine_range (rd_bytes img off 4)), rd_bytes_range. Qed.

Section loads.
Context {E : Type} (Safe : Prop) (V : E → Prop) (img : image).

Lemma wp_load8 off (Q : Z → Prop) :
  (Safe → mapped img off 1) → Q (img_byte img off) → wp Safe V (load8 img off) Q.
Proof.
  intros Hs HQ. unfold load8. case_decide as Hd; [done|].
  intros HS. apply Hs in HS. unfold mapped in HS. lia.
Qed.

Lemma wp_load_bytes off n (Q : list Z → Prop) :
  (Safe → mapped img off (Z.of_nat n)) → Q (rd_bytes img off n) →
  wp Safe V (load_bytes img off n) Q.
Proof.
  revert off Q. induction n as [|n IH]; intros off Q Hs HQ; simpl; [done|].
  apply wp_bind, wp_load8.
  { intros HS. apply Hs in HS. unfold mapped in *. lia. }
  apply wp_bind, IH; [|done].
  intros HS. apply Hs in HS. unfold mapped in *. lia.
Qed.

Lemma wp_load16 off (Q : Z → Prop) :
  (Safe → mapped img off 2) → Q (rd16 img off) → wp Safe V (load16 img off) Q.
Proof. intros Hs HQ. by apply wp_bind, wp_load_bytes. Qed.

Lemma wp_load32 off (Q : Z → Prop) :
  (Safe → mapped img off 4) → Q (rd32 img off) → wp Safe V (load32 img off) Q.
Proof. intros Hs HQ. by apply wp_bind, wp_load_bytes. Qed.
End loads.

(** Loads inside the mapping return the bytes it shows. *)
Section mapped_loads.
Context {E : Type} (img : image).

Lemma load_bytes_mapped off n :
  mapped img off (Z.of_nat n) → load_bytes (E := E) img off n = Done (rd_bytes img off n).
Proof.
  intros Hm. pose proof (wp_load_bytes (E := E) True (λ _, False) img off n
    (λ l, l = rd_bytes img off n) (λ _, Hm) eq_refl) as H.
  destruct (load_bytes img off n); simpl in H; [by subst|done|tauto].
Qed.

Lemma load16_mapped off : mapped img off 2 → load16 (E := E) img off = Done (rd16 img off).
Proof. intros Hm. unfold load16. by rewrite load_bytes_mapped. Qed.

Lemma load32_mapped off : mapped img off 4 → load32 (E := E) img off = Done (rd32 img off).
Proof. intros Hm. unfold load32. by rewrite load_bytes_mapped. Qed.
End mapped_loads.
