(* ===== verification/Fsck.v ===== *)
(** * The checker (src/Myfsck/myfsck.c, log.h)

    Every function of myfsck.c, in the order of the file.  The globals the
    program sets from the superblock are a record [globals]; the arrays of
    [helper] (variable-length arrays on the C stack) are lists of the length
    the code gives them, accessed with bounds ([aget], [aset]); [exit(1)]
    after a message of log.h is [Exit] with that message's error. *)
From S2P Require Import Prelude CInt FsLayout Image.

(** The reports of log.h, and the four exits of [main] that precede the
    checks. *)
Inductive fsck_error :=
| superblock_error
| bad_inode_error
| bad_directory_format_error
| bad_direct_address_error
| bad_direct_address_once_error
| bad_inode_referred_marked_error
| bad_indirect_address_error
| bad_file_size_error
| bad_directory_once_error
| bad_reference_count_error
| bad_bitmap_marked_used_error
| bad_used_inode_not_found_error
| bad_used_address_error
| bad_parent_directory_error
| bad_directory_error
| bad_indirect_address_once_error
| usage_error
| image_not_found_error
| fstat_error
| mmap_error.

#[export] Instance fsck_error_eq_dec : EqDecision fsck_error.
Proof. solve_decision. Defined.

(** The text each report prints on stderr; the fstat and mmap exits print
    nothing. *)
Definition log_message (e : fsck_error) : string :=
  match e with
  | superblock_error => "MP4_ERR: superblock is corrupted."
  | bad_inode_error => "MP4_ERR: bad inode."
  | bad_directory_format_error => "MP4_ERR: directory not properly formatted."
  | bad_direct_address_error => "MP4_ERR: bad direct address in inode."
  | bad_direct_address_once_error => "MP4_ERR: direct address used more than once."
  | bad_inode_referred_marked_error => "MP4_ERR: inode referred to in directory but marked free."
  | bad_indirect_address_error => "MP4_ERR: bad indirect address in inode."
  | bad_file_size_error => "MP4_ERR: incorrect file size in inode."
  | bad_directory_once_error => "MP4_ERR: directory appears more than once in file system."
  | bad_reference_count_error => "MP4_ERR: bad reference count for file."
  | bad_bitmap_marked_used_error => "MP4_ERR: bitmap marks block in use but it is not in use."
  | bad_used_inode_not_found_error => "MP4_ERR: inode marked used but not found in a directory."
  | bad_used_address_error => "MP4_ERR: address used by inode but marked free in bitmap."
  | bad_parent_directory_error => "MP4_ERR: parent directory mismatch."
  | bad_directory_error => "MP4_ERR: inaccessible directory."
  | bad_indirect_address_once_error => "MP4_ERR: indirect address used more than once."
  | usage_error => "Usage: myfsck <file_system_image>"
  | image_not_found_error => "image not found."
  | fstat_error => ""
  | mmap_error => ""
  end.

Abbreviation M := (outcome fsck_error).

(** sbsize, nblocks, ninodes, datblkstnum, datblkednum. *)
Record globals := Globals {
  sbsize : Z;
  nblocks : Z;
  ninodes : Z;
  datblkstnum : Z;
  datblkednum : Z;
}.

(** [check_size]: all five variables are [uint]; [ninodes/IPB] is computed
    in [size_t] and stored in a [uint]. *)
Definition check_size (sbsize nblocks ninodes : Z) : M globals :=
  let inodezie := u32 (ninodes / IPB + 1) in
  let bitmapsize := u32 (sbsize / BPB + 1) in
  let datblkstnum := u32 (inodezie + bitmapsize + 2) in
  let datblkednum := u32 (nblocks + datblkstnum) in
  if decide (sbsize ≠ datblkednum) then Exit superblock_error
  else Done (Globals sbsize nblocks ninodes datblkstnum datblkednum).

(** The counters and arrays [traverse_dirent] updates through pointers. *)
Record dirstate := DirState {
  curcnt : Z;
  parcnt : Z;
  inodeindirent : list Z;
  parentdotdot : list Z;
  parententry : list Z;
}.

(** What the loops of [check_direct_address] and [check_indirect_address]
    carry: the block count, the visited array, and the directory state. *)
Record walk := Walk {
  blkcnt : Z;
  visited : list bool;
  dirs : dirstate;
}.

(** The arrays of [helper] that live through its first loop. *)
Record scan := Scan {
  blkvisited : list bool;
  usedinode : list bool;
  scan_inodeindirent : list Z;
  scan_parentdotdot : list Z;
  scan_parententry : list Z;
}.

Definition name_dot : list Z := [46; 0].
Definition name_dotdot : list Z := [46; 46; 0].

Section Myfsck.
Variable img : image.

(** [startinode + i]: the inode table starts two blocks into the image. *)
Definition startinode : Z := BSIZE + BSIZE.
Definition inode_at (i : Z) : Z := startinode + i * sizeof_dinode.

(** Field reads through a [struct dinode *]. *)
Definition load_type (ino : Z) : M Z := let! x := load16 img ino in Done (s16 x).
Definition load_nlink (ino : Z) : M Z := let! x := load16 img (ino + 6) in Done (s16 x).
Definition load_size (ino : Z) : M Z := load32 img (ino + 8).
Definition load_addr (ino k : Z) : M Z := load32 img (ino + 12 + k * sizeof_uint).

Definition check_node_type (ino : Z) : M unit :=
  let! type := load_type ino in
  if decide (type ≠ 0 ∧ type ≠ 1 ∧ type ≠ 2 ∧ type ≠ 3) then Exit bad_inode_error
  else Done tt.

Section Checks.
Variable g : globals.

(** [BBLOCK(blknum,ninodes)*BSIZE] is computed in [size_t]; the byte is a
    (signed) [char], promoted to [int] by [&]. *)
Definition bit_is_used (blknum : Z) : M bool :=
  let start := BBLOCK blknum (ninodes g) * BSIZE in
  let bytepos := blknum mod BPB / 8 in
  let bitpos := blknum mod 8 in
  let! c := load8 img (start + bytepos) in
  Done (bool_decide (Z.land (s8 c) (Z.shiftl 1 bitpos) ≠ 0)).

(** One iteration of the loop of [traverse_dirent], on the entry at
    offset [e]. *)
Definition traverse_entry (currinodenum e : Z) (s : dirstate) : M dirstate :=
  let! inum := load16 img e in
  if decide (inum ≠ 0) then
    let! name := load_bytes img (e + 2) (Z.to_nat DIRSIZ) in
    if decide (strncmp name_dot name (Z.to_nat DIRSIZ) = 0) then
      if decide (inum ≠ currinodenum) then Exit bad_directory_format_error
      else
        let! refs :=
          (if decide (currinodenum = ROOTINO) then
             let! c := aget (inodeindirent s) ROOTINO in
             aset (inodeindirent s) ROOTINO (c + 1)
           else Done (inodeindirent s)) in
        Done (DirState (curcnt s + 1) (parcnt s) refs (parentdotdot s) (parententry s))
    else if decide (strncmp name_dotdot name (Z.to_nat DIRSIZ) = 0) then
      let! pdd := aset (parentdotdot s) currinodenum inum in
      Done (DirState (curcnt s) (parcnt s + 1) (inodeindirent s) pdd (parententry s))
    else
      let! c := aget (inodeindirent s) inum in
      let! refs := aset (inodeindirent s) inum (c + 1) in
      let! type := load_type (inode_at inum) in
      let! pe :=
        (if decide (type = 1) then aset (parententry s) inum currinodenum
         else Done (parententry s)) in
      Done (DirState (curcnt s) (parcnt s) refs (parentdotdot s) pe)
  else Done s.

(** The block offset [blknum*BSIZE] is a product of type [uint]. *)
Definition traverse_dirent (blknum currinodenum : Z) (s : dirstate) : M dirstate :=
  let startptr := u32 (blknum * BSIZE) in
  let nentry := BSIZE / sizeof_dirent in
  mfor (seqZ 0 nentry)
       (λ i s, traverse_entry currinodenum (startptr + i * sizeof_dirent) s) s.

(** The body the loops over the direct and over the indirect addresses
    share, with the two reports that differ. *)
Definition visit_address (range_error once_error : fsck_error)
    (type currinodenum addr : Z) (w : walk) : M walk :=
  if decide (addr ≠ 0 ∧ (addr < datblkstnum g ∨ addr >= datblkednum g)) then Exit range_error
  else
    if decide (addr ≠ 0) then
      let! seen := aget (visited w) addr in
      if seen : bool then Exit once_error
      else
        let! used := bit_is_used addr in
        if negb used then Exit bad_used_address_error
        else
          let! v := aset (visited w) addr true in
          let! d :=
            (if decide (type = 1) then traverse_dirent addr currinodenum (dirs w)
             else Done (dirs w)) in
          Done (Walk (blkcnt w + 1) v d)
    else Done w.

Definition check_direct_address (ino currinodenum : Z) (w : walk) : M walk :=
  let! type := load_type ino in
  mfor (seqZ 0 NDIRECT)
       (λ i w, let! addr := load_addr ino i in
               visit_address bad_direct_address_error bad_direct_address_once_error
                             type currinodenum addr w) w.

(** The indirect block itself is marked visited but not counted. *)
Definition check_indirect_address (ino currinodenum : Z) (w : walk) : M walk :=
  let! type := load_type ino in
  let! ndirblknum := load_addr ino NDIRECT in
  if decide (ndirblknum ≠ 0) then
    if decide (ndirblknum >= datblkstnum g ∧ ndirblknum < datblkednum g) then
      let! seen := aget (visited w) ndirblknum in
      if seen : bool then Exit bad_indirect_address_once_error
      else
        let! used := bit_is_used ndirblknum in
        if negb used then Exit bad_used_address_error
        else
          let! v := aset (visited w) ndirblknum true in
          let startptr := u32 (ndirblknum * BSIZE) in
          mfor (seqZ 0 128)
               (λ i w, let! addr := load32 img (startptr + i * sizeof_uint) in
                       visit_address bad_indirect_address_error
                                     bad_indirect_address_once_error
                                     type currinodenum addr w)
               (Walk (blkcnt w) v (dirs w))
    else Exit bad_indirect_address_error
  else Done w.

(** The file-size test of [helper]: [(uint)sum*BSIZE] is a [uint]. *)
Definition check_file_size (size sum : Z) : M unit :=
  if decide (sum = 0) then
    if decide (size ≠ 0) then Exit bad_file_size_error else Done tt
  else if decide (size ≤ u32 (u32 (sum - 1) * BSIZE) ∨ size > u32 (u32 sum * BSIZE))
  then Exit bad_file_size_error else Done tt.

(** One iteration of the first loop of [helper].  [currinodenum] is a
    [ushort]: the inode number is converted.  The counts [dircnt] and
    [indircnt] start at zero and are added up. *)
Definition scan_inode (i : Z) (s : scan) : M scan :=
  let ino := inode_at i in
  check_node_type ino ;;!
  let! type := load_type ino in
  if decide (i ≠ 0 ∧ type ≠ 0) then
    let d0 := DirState 0 0 (scan_inodeindirent s) (scan_parentdotdot s) (scan_parententry s) in
    let! wd := check_direct_address ino (u16 i) (Walk 0 (blkvisited s) d0) in
    let dircnt := blkcnt wd in
    let! wi := check_indirect_address ino (u16 i) (Walk 0 (visited wd) (dirs wd)) in
    let indircnt := blkcnt wi in
    let d := dirs wi in
    if decide (type = 1 ∧ (curcnt d ≠ 1 ∨ parcnt d ≠ 1)) then Exit bad_directory_format_error
    else
      let! size := load_size ino in
      check_file_size size (dircnt + indircnt) ;;!
      let! used := aset (usedinode s) i true in
      Done (Scan (visited wi) used (inodeindirent d) (parentdotdot d) (parententry d))
  else Done s.

(** The bitmap loop: every block marked used must have been visited. *)
Definition check_bitmap (s : scan) : M unit :=
  mfor (seqZ (datblkstnum g) (datblkednum g - datblkstnum g))
       (λ i _, let! used := bit_is_used i in
               if used : bool then
                 let! v := aget (blkvisited s) i in
                 if negb v then Exit bad_bitmap_marked_used_error else Done tt
               else Done tt) tt.

(** The [while(cur!=ROOTINO)] loop that follows the ".." chain.  Every
    iteration marks a new element of [seen], so [length seen + 1]
    iterations are enough ([follow_dotdot_fuel] below); running out of
    fuel is not a behaviour of the code. *)
Fixpoint follow_dotdot (fuel : nat) (pdd : list Z) (seen : list bool) (cur : Z) : M unit :=
  match fuel with
  | O => Fault
  | S fuel' =>
      if decide (cur ≠ ROOTINO) then
        let! sn := aget seen cur in
        if sn : bool then Exit bad_directory_error
        else
          let! seen' := aset seen cur true in
          let! cur' := aget pdd cur in
          if decide (cur' = -1) then Exit bad_directory_error
          else follow_dotdot fuel' pdd seen' cur'
      else Done tt
  end.

(** The parent and reachability tests made for a directory inode. *)
Definition check_parent (i : Z) (s : scan) : M unit :=
  let! pdd := aget (scan_parentdotdot s) i in
  (if decide (i = ROOTINO) then
     if decide (pdd ≠ ROOTINO) then Exit bad_parent_directory_error else Done tt
   else
     let! pe := aget (scan_parententry s) i in
     if decide (pe = -1 ∨ pdd ≠ pe) then Exit bad_parent_directory_error else Done tt) ;;!
  let seen := tab (ninodes g + 1) (λ _, false) in
  follow_dotdot (S (length seen)) (scan_parentdotdot s) seen i.

(** One iteration of the last loop of [helper]. *)
Definition check_refs (i : Z) (s : scan) : M unit :=
  let ino := inode_at i in
  let! used := aget (usedinode s) i in
  let! refs := aget (scan_inodeindirent s) i in
  if decide (used = true ∧ refs = 0) then Exit bad_used_inode_not_found_error
  else if decide (used = false ∧ refs ≠ 0) then Exit bad_inode_referred_marked_error
  else
    let! type := load_type ino in
    let! nlink := load_nlink ino in
    if decide (type = 2 ∧ nlink ≠ refs) then Exit bad_reference_count_error
    else if decide (type = 1 ∧ refs ≠ 1) then Exit bad_directory_once_error
    else if decide (type = 1) then check_parent i s
    else Done tt.

(** [memset] of the arrays: 0 or -1 in every element. *)
Definition scan_init : scan :=
  Scan (tab (sbsize g + 1) (λ _, false)) (tab (ninodes g + 1) (λ _, false))
       (tab (ninodes g + 1) (λ _, 0)) (tab (ninodes g + 1) (λ _, -1))
       (tab (ninodes g + 1) (λ _, -1)).

Definition helper : M unit :=
  let! s := mfor (seqZ 0 (ninodes g)) scan_inode scan_init in
  check_bitmap s ;;!
  mfor (seqZ 1 (ninodes g - 1)) (λ i _, check_refs i s) tt.
End Checks.

(** [main] from the point where the image is mapped. *)
Definition check_image : M unit :=
  let! size := load32 img BSIZE in
  let! nblocks := load32 img (BSIZE + 4) in
  let! ninodes := load32 img (BSIZE + 8) in
  let! g := check_size size nblocks ninodes in
  helper g.
End Myfsck.

(** [main]: the file is [None] when [open] fails, [Some None] when [fstat]
    fails; mapping an empty file fails (EINVAL). *)
Definition main (argc : Z) (file : option (option image)) : M unit :=
  if decide (argc = 2) then
    match file with
    | None => Exit image_not_found_error
    | Some None => Exit fstat_error
    | Some (Some img) =>
        if decide (st_size img ≤ 0) then Exit mmap_error else check_image img
    end
  else Exit usage_error.

(** The exit status and the line on stderr the shell sees. *)
Definition exit_status (r : M unit) : option Z :=
  match r with
  | Done _ => Some 0
  | Exit _ => Some 1
  | Fault => None
  end.
