(* ===== verification/FsckSpec.v ===== *)
(** * What it means for an image to be consistent

    The contract of the checker, stated on the image alone: the block lists
    and directory entries the inodes describe, the reference counts and the
    parent relation they induce, the predicate [consistent] and, for every
    report of log.h, the condition [violates] it claims. *)
From S2P Require Import Prelude CInt FsLayout Image Fsck.

(** The geometry the superblock describes. *)
Definition data_start (sbsize ninodes : Z) : Z := ninodes / IPB + sbsize / BPB + 4.

Definition geometry (img : image) : globals :=
  let size := rd32 img BSIZE in
  let nblocks := rd32 img (BSIZE + 4) in
  let ninodes := rd32 img (BSIZE + 8) in
  let st := data_start size ninodes in
  Globals size nblocks ninodes st (u32 (nblocks + st)).

Arguments geometry : simpl never.

(** Names of directory entries. *)
Definition is_dot (e : dirent) : Prop := cstring (de_name e) = [46].
Definition is_dotdot (e : dirent) : Prop := cstring (de_name e) = [46; 46].
Definition is_plain (e : dirent) : Prop := ¬ is_dot e ∧ ¬ is_dotdot e.

(** The addresses in use in an address array: 0 means "no block". *)
Definition in_use_addrs (l : list Z) : list Z := filter (λ a, a ≠ 0) l.

(** A file of [n] blocks has a size that needs exactly [n] blocks. *)
Definition size_ok (n size : Z) : Prop :=
  (n = 0 ∧ size = 0) ∨ (0 < n ∧ (n - 1) * BSIZE < size ≤ n * BSIZE).

(** The chain of ".." entries from [i] reaches the root. *)
Inductive reaches (dotdot : Z → Z) : Z → Prop :=
| reaches_root : reaches dotdot ROOTINO
| reaches_step i : dotdot i ≠ -1 → reaches dotdot (dotdot i) → reaches dotdot i.

Section Spec.
Variable img : image.
Local Abbreviation g := (geometry img).

(** *** Inodes *)
Definition inode_type (i : Z) : Z := s16 (rd16 img (inode_at i)).
Definition inode_nlink (i : Z) : Z := s16 (rd16 img (inode_at i + 6)).
Definition inode_size (i : Z) : Z := rd32 img (inode_at i + 8).
Definition inode_addr (i k : Z) : Z := rd32 img (inode_at i + 12 + k * sizeof_uint).
Definition is_dir (i : Z) : Prop := inode_type i = 1.

Definition in_use (i : Z) : Prop := i ≠ 0 ∧ inode_type i ≠ 0.

(** *** Blocks of an inode *)
Definition direct_blocks (i : Z) : list Z := in_use_addrs (inode_addr i <$> seqZ 0 NDIRECT).
Definition indirect_table (b : Z) : list Z :=
  in_use_addrs ((λ k, rd32 img (b * BSIZE + k * sizeof_uint)) <$> seqZ 0 NINDIRECT).
Definition indirect_blocks (i : Z) : list Z :=
  if decide (inode_addr i NDIRECT = 0) then [] else indirect_table (inode_addr i NDIRECT).
Definition data_blocks (i : Z) : list Z := direct_blocks i ++ indirect_blocks i.

(** The blocks an inode occupies, its indirect block included. *)
Definition owned (i : Z) : list Z :=
  direct_blocks i ++
  (if decide (inode_addr i NDIRECT = 0) then []
   else inode_addr i NDIRECT :: indirect_table (inode_addr i NDIRECT)).

Definition inode_owned (i : Z) : list Z := if decide (in_use i) then owned i else [].
Definition all_owned : list Z := concat (inode_owned <$> seqZ 0 (ninodes g)).

Definition in_data_range (b : Z) : Prop := datblkstnum g ≤ b < datblkednum g.
Definition bit_used (b : Z) : bool :=
  Z.testbit (img_byte img (BBLOCK b (ninodes g) * BSIZE + b mod BPB / 8)) (b mod 8).

(** *** Directory entries *)
Definition rd_dirent (off : Z) : dirent := Dirent (rd16 img off) (rd_bytes img (off + 2) 14).
Definition block_entries (b : Z) : list dirent :=
  filter (λ e, de_inum e ≠ 0)
         ((λ k, rd_dirent (b * BSIZE + k * sizeof_dirent)) <$> seqZ 0 (BSIZE / sizeof_dirent)).
Definition entries_in (i : Z) (bs : list Z) : list dirent :=
  if decide (is_dir i) then concat (block_entries <$> bs) else [].
Definition dir_entries (i : Z) : list dirent := entries_in i (data_blocks i).

Definition inode_entries (i : Z) : list (Z * dirent) :=
  if decide (in_use i) then (λ e, (i, e)) <$> dir_entries i else [].
Definition all_entries : list (Z * dirent) := concat (inode_entries <$> seqZ 0 (ninodes g)).

(** *** References, the ".." relation and the parent relation *)
Definition refers (k : Z) (p : Z * dirent) : Prop :=
  (is_dot p.2 ∧ p.1 = ROOTINO ∧ k = ROOTINO) ∨ (is_plain p.2 ∧ de_inum p.2 = k).
#[export] Instance refers_dec k p : Decision (refers k p).
Proof. unfold refers, is_plain, is_dot, is_dotdot. apply _. Defined.
Definition refs (es : list (Z * dirent)) (k : Z) : Z := Z.of_nat (length (filter (refers k) es)).

Definition dotdot_of (k : Z) (p : Z * dirent) : Prop := p.1 = k ∧ is_dotdot p.2.
#[export] Instance dotdot_of_dec k p : Decision (dotdot_of k p).
Proof. unfold dotdot_of, is_dotdot. apply _. Defined.
Definition dotdot (es : list (Z * dirent)) (k : Z) : Z :=
  from_option (λ p, de_inum p.2) (-1) (last (filter (dotdot_of k) es)).

Definition subdir_of (k : Z) (p : Z * dirent) : Prop :=
  is_plain p.2 ∧ de_inum p.2 = k ∧ is_dir k.
#[export] Instance subdir_of_dec k p : Decision (subdir_of k p).
Proof. unfold subdir_of, is_plain, is_dot, is_dotdot, is_dir. apply _. Defined.
Definition parent (es : list (Z * dirent)) (k : Z) : Z :=
  from_option fst (-1) (last (filter (subdir_of k) es)).

(** *** Consistency *)
Definition dir_format (i : Z) : Prop :=
  (∀ e, e ∈ dir_entries i → is_dot e → de_inum e = i) ∧
  length (filter is_dot (dir_entries i)) = 1%nat ∧
  length (filter is_dotdot (dir_entries i)) = 1%nat.

(** Everything but the sizes of the inodes. *)
Record structured : Prop := {
  c_superblock : sbsize g = datblkednum g;
  c_types : ∀ i, 0 ≤ i < ninodes g → inode_type i ∈ [0; 1; 2; 3];
  c_range : ∀ i b, 0 ≤ i < ninodes g → in_use i → b ∈ owned i → in_data_range b;
  c_marked : ∀ i b, 0 ≤ i < ninodes g → in_use i → b ∈ owned i → bit_used b = true;
  c_once : NoDup all_owned;
  c_format : ∀ i, 0 ≤ i < ninodes g → in_use i → is_dir i → dir_format i;
  c_bitmap : ∀ b, in_data_range b → bit_used b = true → b ∈ all_owned;
  c_referenced : ∀ i, 1 ≤ i < ninodes g → in_use i ↔ 0 < refs all_entries i;
  c_nlink : ∀ i, 1 ≤ i < ninodes g → inode_type i = 2 → inode_nlink i = refs all_entries i;
  c_dir_once : ∀ i, 1 ≤ i < ninodes g → is_dir i → refs all_entries i = 1;
  c_root : is_dir ROOTINO → 1 < ninodes g → dotdot all_entries ROOTINO = ROOTINO;
  c_parent : ∀ i, 1 < i < ninodes g → is_dir i →
    ∃ p e, (p, e) ∈ all_entries ∧ is_plain e ∧ de_inum e = i ∧ dotdot all_entries i = p;
  c_reach : ∀ i, 1 ≤ i < ninodes g → is_dir i → reaches (dotdot all_entries) i;
}.

Record consistent : Prop := {
  c_structured :> structured;
  c_size : ∀ i, 0 ≤ i < ninodes g → in_use i →
    size_ok (Z.of_nat (length (data_blocks i))) (inode_size i);
}.

(** What each report of log.h claims about the image. *)
Definition twice (a : Z) (l : list Z) : Prop := ∃ l1 l2 l3, l = l1 ++ a :: l2 ++ a :: l3.

Definition violates (e : fsck_error) : Prop :=
  match e with
  | superblock_error => sbsize g ≠ datblkednum g
  | bad_inode_error => ∃ i, 0 ≤ i < ninodes g ∧ inode_type i ∉ [0; 1; 2; 3]
  | bad_directory_format_error =>
      ∃ i, 0 ≤ i < ninodes g ∧ in_use i ∧ is_dir i ∧ ¬ dir_format i
  | bad_direct_address_error =>
      ∃ i a, 0 ≤ i < ninodes g ∧ in_use i ∧ a ∈ direct_blocks i ∧ ¬ in_data_range a
  | bad_direct_address_once_error =>
      ∃ i a, 0 ≤ i < ninodes g ∧ in_use i ∧ a ∈ direct_blocks i ∧ twice a all_owned
  | bad_inode_referred_marked_error =>
      ∃ i, 1 ≤ i < ninodes g ∧ ¬ in_use i ∧ 0 < refs all_entries i
  | bad_indirect_address_error =>
      ∃ i a, 0 ≤ i < ninodes g ∧ in_use i ∧ inode_addr i NDIRECT ≠ 0 ∧
             a ∈ inode_addr i NDIRECT :: indirect_blocks i ∧ ¬ in_data_range a
  | bad_file_size_error =>
      ∃ i, 0 ≤ i < ninodes g ∧ in_use i ∧
           ¬ size_ok (Z.of_nat (length (data_blocks i))) (inode_size i)
  | bad_directory_once_error =>
      ∃ i, 1 ≤ i < ninodes g ∧ is_dir i ∧ refs all_entries i ≠ 1
  | bad_reference_count_error =>
      ∃ i, 1 ≤ i < ninodes g ∧ inode_type i = 2 ∧ inode_nlink i ≠ refs all_entries i
  | bad_bitmap_marked_used_error =>
      ∃ b, in_data_range b ∧ bit_used b = true ∧ b ∉ all_owned
  | bad_used_inode_not_found_error =>
      ∃ i, 1 ≤ i < ninodes g ∧ in_use i ∧ refs all_entries i = 0
  | bad_used_address_error =>
      ∃ i a, 0 ≤ i < ninodes g ∧ in_use i ∧ a ∈ owned i ∧ bit_used a = false
  | bad_parent_directory_error =>
      (is_dir ROOTINO ∧ 1 < ninodes g ∧ dotdot all_entries ROOTINO ≠ ROOTINO) ∨
      (∃ i, 1 < i < ninodes g ∧ is_dir i ∧ refs all_entries i = 1 ∧
            ∀ p e, (p, e) ∈ all_entries → is_plain e → de_inum e = i →
                   dotdot all_entries i ≠ p)
  | bad_directory_error =>
      ∃ i, 1 ≤ i < ninodes g ∧ is_dir i ∧ ¬ reaches (dotdot all_entries) i
  | bad_indirect_address_once_error =>
      ∃ i a, 0 ≤ i < ninodes g ∧ in_use i ∧ inode_addr i NDIRECT ≠ 0 ∧
             a ∈ inode_addr i NDIRECT :: indirect_blocks i ∧ twice a all_owned
  | usage_error | image_not_found_error | fstat_error | mmap_error => False
  end.

(** When the checker cannot read or index out of bounds: the file is long
    enough for the geometry its superblock describes, and the entries of
    its directories name inodes of the table (or the slot after it). *)
Record well_mapped : Prop := {
  wm_meta : datblkstnum g * BSIZE ≤ map_len img;
  wm_data : sbsize g * BSIZE ≤ map_len img;
  wm_inums : ∀ i e, 0 ≤ i < ninodes g → in_use i → e ∈ dir_entries i → de_inum e ≤ ninodes g;
}.

(** Geometries in which [blknum*BSIZE] does not wrap and inode numbers
    fit the [ushort] of a directory entry. *)
Record representable : Prop := {
  rp_size : sbsize g ≤ 2 ^ 23;
  rp_ninodes : ninodes g ≤ 2 ^ 16;
}.
End Spec.

(** ** A truthful report refutes consistency *)
Lemma twice_not_NoDup a l : twice a l → ¬ NoDup l.
Proof.
  intros (l1 & l2 & l3 & ->) Hnd. apply NoDup_app in Hnd as (_ & _ & Hnd).
  apply NoDup_cons in Hnd as [Hnot _]. apply Hnot. set_solver.
Qed.

(** The only report about an image whose structure is right is about a size. *)
Lemma violates_structured img e : structured img → violates img e → e = bad_file_size_error.
Proof.
  intros Hc Hv. destruct Hc. destruct e; simpl in Hv; try done; exfalso.
  - naive_solver.
  - destruct Hv as (i & ? & ? & ? & Hf). eauto.
  - destruct Hv as (i & a & Hi & Hu & Ha & Hr). apply Hr, (c_range0 i); auto.
    unfold owned. set_solver.
  - destruct Hv as (i & a & _ & _ & _ & Ht). by apply twice_not_NoDup in Ht.
  - destruct Hv as (i & Hi & Hn & Hr). by apply Hn, c_referenced0.
  - destruct Hv as (i & a & Hi & Hu & Hn & Ha & Hr). apply Hr, (c_range0 i); auto.
    unfold owned, indirect_blocks in *. rewrite decide_False in Ha |- * by done. set_solver.
  - naive_solver.
  - naive_solver.
  - naive_solver.
  - destruct Hv as (i & Hi & Hu & Hr). apply c_referenced0 in Hu; [lia|done].
  - destruct Hv as (i & a & Hi & Hu & Ha & Hb). rewrite (c_marked0 i a) in Hb by done. done.
  - destruct Hv as [(?&?&?)|(i & Hi & Hd & _ & Hp)]; [naive_solver|].
    destruct (c_parent0 i) as (p & e & ? & ? & ? & ?); [done..|]. by eapply Hp.
  - naive_solver.
  - destruct Hv as (i & a & _ & _ & _ & _ & Ht). by apply twice_not_NoDup in Ht.
Qed.

Lemma violates_inconsistent img e : violates img e → ¬ consistent img.
Proof.
  intros Hv [Hs Hsz]. rewrite (violates_structured img e Hs Hv) in Hv. destruct Hv as (i & Hi & Hu & Hno). by apply Hno, Hsz.
Qed.
