(* ===== verification/FsckProof.v ===== *)
(** * The checker implements the specification

    The concrete arrays of myfsck.c are, at every point of the scan, the
    tabulations of abstract data: the list of blocks occupied so far and the
    list of directory entries read so far.  Each function is proved to move
    from one such state to the next, to report only true violations, and to
    fault only on images that are not [well_mapped]. *)
From S2P Require Import Prelude CInt FsLayout Image Fsck FsckSpec.

(** ** Bits of the bitmap *)
Lemma land_bit_testbit x k :
  0 ≤ k → bool_decide (Z.land x (Z.shiftl 1 k) ≠ 0) = Z.testbit x k.
Proof.
  intros Hk. rewrite Z.shiftl_1_l.
  destruct (Z.testbit x k) eqn:Hb.
  - apply bool_decide_eq_true. intros Hz.
    assert (Z.testbit (Z.land x (2 ^ k)) k = false) as Hf by (rewrite Hz; apply Z.bits_0).
    rewrite Z.land_spec, Hb, Z.pow2_bits_true in Hf by done. done.
  - apply bool_decide_eq_false. intros Hz. apply Hz. apply Z.bits_inj_0. intros n.
    rewrite Z.land_spec. destruct (decide (n = k)) as [->|Hne].
    + by rewrite Hb.
    + rewrite Z.pow2_bits_false by done. apply andb_false_r.
Qed.

Lemma testbit_s8 c k : is_byte c → 0 ≤ k < 8 → Z.testbit (s8 c) k = Z.testbit c k.
Proof.
  intros Hc Hk. rewrite <- (Z.mod_pow2_bits_low (s8 c) 8) by lia.
  fold (wrap 8 (s8 c)). rewrite wrap_swrap, wrap_small by done || lia. done.
Qed.

(** ** Names *)
Lemma cstring_length l : (length (cstring l) ≤ length l)%nat.
Proof. induction l; simpl; [lia|]. case_decide; simpl; lia. Qed.

Lemma strncmp_name lit l name :
  cstring lit = l → (length l ≤ 14)%nat → length name = 14%nat →
  strncmp lit name (Z.to_nat DIRSIZ) = 0 ↔ cstring name = l.
Proof.
  intros <- Hlit Hname. rewrite strncmp_zero. pose proof (cstring_length name).
  change (Z.to_nat DIRSIZ) with 14%nat. rewrite !take_ge by lia. done.
Qed.

Lemma dot_not_dotdot e : is_dot e → ¬ is_dotdot e.
Proof. unfold is_dot, is_dotdot. congruence. Qed.

(** ** Tables as functions of the entries read *)
Lemma refs_snoc es p k :
  refs (es ++ [p]) k = refs es k + (if decide (refers k p) then 1 else 0).
Proof.
  unfold refs. rewrite filter_app, length_app, Nat2Z.inj_add. f_equal.
  rewrite filter_cons, filter_nil. by case_decide.
Qed.

Lemma dotdot_snoc es p k :
  dotdot (es ++ [p]) k = if decide (dotdot_of k p) then de_inum p.2 else dotdot es k.
Proof.
  unfold dotdot. rewrite filter_app, filter_cons, filter_nil.
  case_decide; [by rewrite last_snoc|by rewrite app_nil_r].
Qed.

Lemma parent_snoc img es p k :
  parent img (es ++ [p]) k = if decide (subdir_of img k p) then p.1 else parent img es k.
Proof.
  unfold parent. rewrite filter_app, filter_cons, filter_nil.
  case_decide; [by rewrite last_snoc|by rewrite app_nil_r].
Qed.

Lemma in_use_addrs_cons a l :
  in_use_addrs (a :: l) = (if decide (a ≠ 0) then [a] else []) ++ in_use_addrs l.
Proof. unfold in_use_addrs. rewrite filter_cons. by case_decide. Qed.

Lemma in_use_addrs_app l1 l2 : in_use_addrs (l1 ++ l2) = in_use_addrs l1 ++ in_use_addrs l2.
Proof. apply filter_app. Qed.

Lemma twice_intro a p q l : l = p ++ a :: q → a ∈ p → twice a l.
Proof.
  intros -> (p1 & p2 & ->)%list_elem_of_split.
  exists p1, p2, q. by rewrite <- app_assoc.
Qed.

(** Splitting the addresses in use after one more address. *)
Lemma split_snoc_addr (P : list Z → Z → Prop) (l : list Z) (a : Z) :
  (∀ l1 b l2, l = l1 ++ b :: l2 → P l1 b) →
  (a ≠ 0 → P l a) →
  ∀ l1 b l2, l ++ in_use_addrs [a] = l1 ++ b :: l2 → P l1 b.
Proof.
  intros Hl Ha l1 b l2. rewrite in_use_addrs_cons. simpl. rewrite app_nil_r.
  case_decide as Hz; [|rewrite app_nil_r; apply Hl].
  destruct l2 as [|c l2 _] using rev_ind.
  - intros [-> [=->]]%app_inj_tail. auto.
  - rewrite app_comm_cons, app_assoc. intros [Heq _]%app_inj_tail. by eapply Hl.
Qed.

Lemma NoDup_snoc_splits (os l : list Z) :
  (∀ l1 a l2, l = l1 ++ a :: l2 → a ∉ os ++ l1) → NoDup os → NoDup (os ++ l).
Proof.
  induction l as [|a l IH] using rev_ind; intros Hl Hos; [by rewrite app_nil_r|].
  rewrite app_assoc, NoDup_app. split_and!.
  - apply IH; [|done]. intros l1 b l2 ->. apply (Hl l1 b (l2 ++ [a])).
    by rewrite <- app_assoc.
  - intros b Hb ->%list_elem_of_singleton. by apply (Hl l a []).
  - apply NoDup_singleton.
Qed.

Definition tag (i : Z) (es : list dirent) : list (Z * dirent) := (λ e, (i, e)) <$> es.

Lemma tag_app i es1 es2 : tag i (es1 ++ es2) = tag i es1 ++ tag i es2.
Proof. apply fmap_app. Qed.

Section Proof.
Variable img : image.
Local Abbreviation g := (geometry img).
Hypothesis Hrep : representable img.
Hypothesis Hsb : sbsize g = datblkednum g.
Let Safe : Prop := well_mapped img.
Let V : fsck_error → Prop := violates img.

(** *** Arithmetic of the geometry *)
Lemma ninodes_range : 0 ≤ ninodes g ≤ 2 ^ 16.
Proof. split; [apply rd32_range|apply Hrep]. Qed.

Lemma sbsize_range : 0 ≤ sbsize g ≤ 2 ^ 23.
Proof. split; [apply rd32_range|apply Hrep]. Qed.

Lemma datblkstnum_eq : datblkstnum g = ninodes g / 8 + sbsize g / 4096 + 4.
Proof. done. Qed.

#[local] Opaque geometry.

Lemma datblkst_pos : 4 ≤ datblkstnum g.
Proof.
  rewrite datblkstnum_eq. pose proof ninodes_range. pose proof sbsize_range.
  pose proof (Z.div_pos (ninodes g) 8). pose proof (Z.div_pos (sbsize g) 4096). lia.
Qed.

Lemma mapped_inode i off len :
  0 ≤ i ≤ ninodes g → 0 ≤ off → off + len ≤ 64 → Safe → mapped img (inode_at i + off) len.
Proof.
  intros Hi Hoff Hlen HS. pose proof (wm_meta img HS) as Hm. rewrite datblkstnum_eq in Hm.
  pose proof sbsize_range. pose proof (Z.div_pos (sbsize g) 4096).
  unfold mapped, inode_at, startinode, BSIZE, sizeof_dinode in *.
  assert (i * 64 + 64 ≤ (ninodes g / 8 + 1) * 512) by (Z.div_mod_to_equations; lia).
  lia.
Qed.

Lemma mapped_block b off len :
  in_data_range img b → 0 ≤ off → off + len ≤ 512 → Safe → mapped img (b * BSIZE + off) len.
Proof.
  intros [Hb1 Hb2] Hoff Hlen HS. pose proof datblkst_pos.
  pose proof (wm_data img HS) as Hm.
  unfold mapped, BSIZE in *. nia.
Qed.

Lemma block_offset b : in_data_range img b → u32 (b * BSIZE) = b * BSIZE.
Proof.
  intros [Hb1 Hb2]. pose proof datblkst_pos. pose proof sbsize_range.
  apply wrap_small. unfold BSIZE. lia.
Qed.

Lemma bit_is_used_wp b (Q : bool → Prop) :
  in_data_range img b → Q (bit_used img b) → wp Safe V (bit_is_used img g b) Q.
Proof.
  intros Hb HQ. unfold bit_is_used. apply wp_bind, wp_load8.
  - intros HS. pose proof (wm_meta img HS) as Hm. destruct Hb as [Hb1 Hb2]. rewrite datblkstnum_eq in Hm. pose proof datblkst_pos.
    unfold mapped, BBLOCK, BPB, IPB, BSIZE, sizeof_dinode in *.
    change (512 * 8) with 4096. change (512 / 64) with 8.
    pose proof ninodes_range.
    assert (b / 4096 ≤ sbsize g / 4096) by (apply Z.div_le_mono; lia).
    assert (0 ≤ b mod 4096 / 8 < 512) by (Z.div_mod_to_equations; lia).
    assert (0 ≤ ninodes g / 8) by (apply Z.div_pos; lia).
    assert (0 ≤ b / 4096) by (apply Z.div_pos; lia). lia.
  - apply wp_done. rewrite land_bit_testbit by (apply Z.mod_pos_bound; lia).
    rewrite testbit_s8; [done|apply img_byte_range|apply Z.mod_pos_bound; lia].
Qed.

(** *** Field reads *)
Lemma load_type_wp i (Q : Z → Prop) :
  0 ≤ i ≤ ninodes g → Q (inode_type img i) → wp Safe V (load_type img (inode_at i)) Q.
Proof.
  intros Hi HQ. unfold load_type. apply wp_bind, wp_load16; [|done].
  rewrite <- (Z.add_0_r (inode_at i)). apply mapped_inode; lia.
Qed.

Lemma load_nlink_wp i (Q : Z → Prop) :
  0 ≤ i ≤ ninodes g → Q (inode_nlink img i) → wp Safe V (load_nlink img (inode_at i)) Q.
Proof.
  intros Hi HQ. unfold load_nlink. apply wp_bind, wp_load16; [|done].
  apply mapped_inode; lia.
Qed.

Lemma load_size_wp i (Q : Z → Prop) :
  0 ≤ i ≤ ninodes g → Q (inode_size img i) → wp Safe V (load_size img (inode_at i)) Q.
Proof. intros Hi HQ. apply wp_load32; [|done]. apply mapped_inode; lia. Qed.

Lemma load_addr_wp i k (Q : Z → Prop) :
  0 ≤ i ≤ ninodes g → 0 ≤ k ≤ NDIRECT → Q (inode_addr img i k) →
  wp Safe V (load_addr img (inode_at i) k) Q.
Proof.
  intros Hi Hk HQ. apply wp_load32; [|done]. rewrite <- Z.add_assoc.
  unfold NDIRECT, sizeof_uint in *. apply mapped_inode; lia.
Qed.

(** *** Directory entries *)
Definition dir_abs (es : list (Z * dirent)) (i : Z) (cur : list dirent) : dirstate :=
  let all := es ++ tag i cur in
  DirState (Z.of_nat (length (filter is_dot cur))) (Z.of_nat (length (filter is_dotdot cur)))
           (tab (ninodes g + 1) (refs all)) (tab (ninodes g + 1) (dotdot all))
           (tab (ninodes g + 1) (parent img all)).

Definition live (e : dirent) : list dirent := filter (λ e, de_inum e ≠ 0) [e].

Lemma count_snoc (P : dirent → Prop) `{∀ e, Decision (P e)} cur e :
  Z.of_nat (length (filter P (cur ++ [e]))) =
  Z.of_nat (length (filter P cur)) + (if decide (P e) then 1 else 0).
Proof.
  rewrite filter_app, length_app, Nat2Z.inj_add. f_equal.
  rewrite filter_cons, filter_nil. by case_decide.
Qed.

(** The state after one more entry, by the kind of the entry. *)
Lemma dir_abs_snoc es i cur e :
  dir_abs es i (cur ++ [e]) =
  let d := dir_abs es i cur in
  DirState (curcnt d + (if decide (is_dot e) then 1 else 0))
           (parcnt d + (if decide (is_dotdot e) then 1 else 0))
           (tab (ninodes g + 1) (λ k, refs (es ++ tag i cur) k +
                                      (if decide (refers k (i, e)) then 1 else 0)))
           (tab (ninodes g + 1) (λ k, if decide (dotdot_of k (i, e)) then de_inum e
                                      else dotdot (es ++ tag i cur) k))
           (tab (ninodes g + 1) (λ k, if decide (subdir_of img k (i, e)) then i
                                      else parent img (es ++ tag i cur) k)).
Proof.
  unfold dir_abs. rewrite !count_snoc, tag_app, app_assoc. f_equal; apply tab_ext; intros k _.
  - apply refs_snoc.
  - apply dotdot_snoc.
  - apply parent_snoc.
Qed.

(** The three kinds of entries, as [traverse_entry] treats them. *)
Lemma entry_dot_wp es i cur e :
  0 < i < ninodes g → is_dot e → de_inum e = i →
  wp Safe V
    (let d := dir_abs es i cur in
     let! refs :=
       (if decide (i = ROOTINO) then
          let! c := aget (inodeindirent d) ROOTINO in aset (inodeindirent d) ROOTINO (c + 1)
        else Done (inodeindirent d)) in
     Done (DirState (curcnt d + 1) (parcnt d) refs (parentdotdot d) (parententry d)))
    (λ s, s = dir_abs es i (cur ++ [e])).
Proof.
  intros Hi Hd Hei. cbv zeta. apply wp_bind. rewrite dir_abs_snoc. cbv zeta.
  rewrite (decide_True _ _ Hd), (decide_False _ _ (dot_not_dotdot _ Hd)).
  eapply wp_mono with (P := λ r, r = tab (ninodes g + 1) (λ k,
    refs (es ++ tag i cur) k + (if decide (refers k (i, e)) then 1 else 0))).
  - simpl. case_decide as Hroot.
    + apply wp_bind, wp_aget_tab; [unfold ROOTINO in *; lia|]. intros _.
      apply wp_aset_tab; [unfold ROOTINO in *; lia|]. intros _.
      apply tab_ext. intros k _. unfold refers, is_plain; simpl.
      repeat case_decide; subst; tauto || lia.
    + apply wp_done, tab_ext. intros k _.
      rewrite (decide_False (P := refers k (i, e))); [lia|].
      unfold refers, is_plain; simpl. tauto.
  - intros r ->. apply wp_done. simpl.
    f_equal; [lia|apply tab_ext|apply tab_ext]; intros k _; rewrite decide_False; try done.
    + intros [_ Hdd]. by eapply dot_not_dotdot.
    + intros [[Hp _] _]. done.
Qed.

Lemma entry_dotdot_wp es i cur e :
  0 < i < ninodes g → is_dotdot e →
  wp Safe V
    (let d := dir_abs es i cur in
     let! pdd := aset (parentdotdot d) i (de_inum e) in
     Done (DirState (curcnt d) (parcnt d + 1) (inodeindirent d) pdd (parententry d)))
    (λ s, s = dir_abs es i (cur ++ [e])).
Proof.
  intros Hi Hdd. cbv zeta. rewrite dir_abs_snoc. cbv zeta.
  assert (¬ is_dot e) as Hnd by (intros ?; by eapply dot_not_dotdot).
  rewrite (decide_False _ _ Hnd), (decide_True _ _ Hdd).
  apply wp_bind, wp_aset_tab; [lia|]. intros _.
  apply wp_done. simpl. f_equal; [lia|apply tab_ext..]; intros k _.
  - rewrite decide_False; [lia|]. unfold refers, is_plain; simpl. tauto.
  - unfold dotdot_of; simpl. repeat case_decide; naive_solver.
  - rewrite decide_False; [done|]. unfold subdir_of, is_plain; simpl. tauto.
Qed.

Lemma entry_plain_wp es i cur e :
  is_plain e → 0 ≤ de_inum e → (Safe → de_inum e ≤ ninodes g) →
  wp Safe V
    (let d := dir_abs es i cur in
     let! c := aget (inodeindirent d) (de_inum e) in
     let! refs := aset (inodeindirent d) (de_inum e) (c + 1) in
     let! type := load_type img (inode_at (de_inum e)) in
     let! pe := (if decide (type = 1) then aset (parententry d) (de_inum e) i
                 else Done (parententry d)) in
     Done (DirState (curcnt d) (parcnt d) refs (parentdotdot d) pe))
    (λ s, s = dir_abs es i (cur ++ [e])).
Proof.
  intros [Hnd Hndd] Hpos Hinum. cbv zeta. rewrite dir_abs_snoc. cbv zeta.
  rewrite (decide_False _ _ Hnd), (decide_False _ _ Hndd).
  apply wp_bind, wp_aget_tab; [intros HS; apply Hinum in HS; lia|]. intros Hin.
  apply wp_bind, wp_aset_tab; [lia|]. intros _.
  apply wp_bind, load_type_wp; [lia|]. apply wp_bind.
  eapply wp_mono with (P := λ r, r = tab (ninodes g + 1) (λ k,
    if decide (subdir_of img k (i, e)) then i else parent img (es ++ tag i cur) k)).
  - simpl. case_decide as Hty.
    + apply wp_aset_tab; [lia|]. intros _. apply tab_ext. intros k _.
      unfold subdir_of, is_plain, is_dir; simpl. repeat case_decide; naive_solver.
    + apply wp_done, tab_ext. intros k _. rewrite decide_False; [done|].
      unfold subdir_of, is_dir; simpl. naive_solver.
  - intros r ->. apply wp_done. simpl. f_equal; [lia|lia|apply tab_ext..]; intros k _.
    + unfold refers, is_plain; simpl.
      destruct (decide (k = de_inum e)) as [->|Hne]; case_decide as Hr; naive_solver lia.
    + rewrite decide_False; [done|]. unfold dotdot_of; simpl. tauto.
Qed.

Lemma live_eq e : live e = if decide (de_inum e ≠ 0) then [e] else [].
Proof. unfold live. rewrite filter_cons, filter_nil. done. Qed.

Lemma traverse_entry_wp es i cur off :
  0 < i < ninodes g →
  (Safe → mapped img off 16) →
  let e := rd_dirent img off in
  (Safe → de_inum e ≠ 0 → de_inum e ≤ ninodes g) →
  (is_dot e → de_inum e ≠ 0 → de_inum e ≠ i → V bad_directory_format_error) →
  wp Safe V (traverse_entry img i off (dir_abs es i cur))
     (λ s, s = dir_abs es i (cur ++ live e) ∧ (∀ e', e' ∈ live e → is_dot e' → de_inum e' = i)).
Proof.
  intros Hi Hmap e Hinum Hdot. unfold traverse_entry.
  assert (0 ≤ de_inum e < 2 ^ 16) as Hpos by apply rd16_range.
  assert (length (de_name e) = 14%nat) as Hlen by apply length_rd_bytes.
  apply wp_bind, wp_load16; [intros HS%Hmap; unfold mapped in *; lia|].
  change (rd16 img off) with (de_inum e). rewrite live_eq.
  case_decide as Hz; [|by rewrite app_nil_r; split; [|set_solver]].
  apply wp_bind, wp_load_bytes.
  { intros HS%Hmap. change (Z.of_nat (Z.to_nat DIRSIZ)) with 14. unfold mapped in *. lia. }
  change (rd_bytes img (off + 2) (Z.to_nat DIRSIZ)) with (de_name e).
  pose proof (strncmp_name name_dot [46] (de_name e) eq_refl ltac:(simpl; lia) Hlen) as Hd1.
  pose proof (strncmp_name name_dotdot [46; 46] (de_name e) eq_refl ltac:(simpl; lia) Hlen) as Hd2.
  fold (is_dot e) in Hd1. fold (is_dotdot e) in Hd2.
  destruct (decide (strncmp name_dot _ _ = 0)) as [Hn%Hd1|Hn].
  - apply wp_guard; [by apply Hdot|]. intros Heq.
    eapply wp_mono; [apply (entry_dot_wp _ _ _ e); [done..|lia]|].
    intros s ->. split; [done|]. intros e' ->%list_elem_of_singleton _. lia.
  - destruct (decide (strncmp name_dotdot _ _ = 0)) as [Hn2%Hd2|Hn2].
    + eapply wp_mono; [by apply (entry_dotdot_wp _ _ _ e)|]. set_solver.
    + eapply wp_mono; [apply (entry_plain_wp _ _ _ e)|set_solver]; unfold is_plain; [tauto|lia|].
      intros HS. by apply Hinum.
Qed.

(** *** Directory blocks *)
Definition dots_ok (i : Z) (es : list dirent) : Prop :=
  ∀ e, e ∈ es → is_dot e → de_inum e = i.

Lemma traverse_dirent_wp es i cur b :
  0 < i < ninodes g → in_data_range img b →
  (Safe → ∀ e, e ∈ block_entries img b → de_inum e ≤ ninodes g) →
  (¬ dots_ok i (block_entries img b) → V bad_directory_format_error) →
  wp Safe V (traverse_dirent img b i (dir_abs es i cur))
     (λ s, s = dir_abs es i (cur ++ block_entries img b) ∧ dots_ok i (block_entries img b)).
Proof.
  intros Hi Hb Hinum Hdot. unfold traverse_dirent. cbv zeta. rewrite block_offset by done.
  pose (ent := λ k, rd_dirent img (b * BSIZE + k * sizeof_dirent)).
  pose (lives := λ l : list Z, filter (λ e : dirent, de_inum e ≠ 0) (ent <$> l)).
  assert (∀ l1 k l2, seqZ 0 (BSIZE / sizeof_dirent) = l1 ++ k :: l2 →
            0 ≤ k < 32 ∧ (de_inum (ent k) ≠ 0 → ent k ∈ block_entries img b)) as Hk.
  { intros l1 k l2 Hl.
    assert (k ∈ seqZ 0 (BSIZE / sizeof_dirent)) as Hk by (rewrite Hl; set_solver).
    split; [change (BSIZE / sizeof_dirent) with 32 in Hk; apply elem_of_seqZ in Hk; lia|].
    intros Hz. apply list_elem_of_filter. split; [done|].
    apply list_elem_of_fmap. by exists k. }
  apply wp_mfor with (I := λ l s, s = dir_abs es i (cur ++ lives l) ∧ dots_ok i (lives l)).
  - unfold lives. simpl. rewrite app_nil_r. split; [done|]. unfold dots_ok. set_solver.
  - intros l1 k l2 s Hl [-> Hok]. destruct (Hk _ _ _ Hl) as [Hk32 Hin].
    eapply wp_mono; [apply traverse_entry_wp|]; [done|..].
    + apply mapped_block; [done|..]; unfold sizeof_dirent; lia.
    + intros HS Hz. by apply Hinum, Hin.
    + intros Hd Hz Hne. apply Hdot. intros Hall. apply Hne, Hall; auto.
    + intros s [-> Hlive]. unfold lives. rewrite fmap_app, filter_app, app_assoc.
      split; [done|]. unfold dots_ok in *. intros e [He|He]%elem_of_app; auto.
  - done.
Qed.

(** *** Addresses *)
Definition walk_abs (es : list (Z * dirent)) (i n : Z) (os : list Z) (cur : list dirent) : walk :=
  Walk n (tab (sbsize g + 1) (λ k, bool_decide (k ∈ os))) (dir_abs es i cur).

(** What a successful visit of the address [a] establishes. *)
Definition addr_ok (i : Z) (os : list Z) (a : Z) : Prop :=
  in_data_range img a ∧ (a ∉ os) ∧ bit_used img a = true ∧
  (is_dir img i → dots_ok i (block_entries img a)).

(** The reports a visit of the address [a] may make, all truthful. *)
Record addr_reports (re oe : fsck_error) (i : Z) (os : list Z) (a : Z) : Prop := {
  ar_range : ¬ in_data_range img a → V re;
  ar_once : a ∈ os → V oe;
  ar_marked : bit_used img a = false → V bad_used_address_error;
  ar_format : is_dir img i → ¬ dots_ok i (block_entries img a) → V bad_directory_format_error;
  ar_inums : Safe → is_dir img i → ∀ e, e ∈ block_entries img a → de_inum e ≤ ninodes g;
}.

Lemma tab_visited_snoc os a :
  tab (sbsize g + 1) (λ k, if decide (k = a) then true else bool_decide (k ∈ os)) =
  tab (sbsize g + 1) (λ k, bool_decide (k ∈ os ++ [a])).
Proof.
  apply tab_ext. intros k _. case_decide; symmetry.
  - apply bool_decide_eq_true. set_solver.
  - apply bool_decide_ext. set_solver.
Qed.

Lemma data_range_index a : in_data_range img a → 0 ≤ a < sbsize g + 1.
Proof. intros [H1 H2]. pose proof datblkst_pos. lia. Qed.

Lemma visit_address_wp re oe es i n os cur a :
  0 < i < ninodes g →
  (a ≠ 0 → addr_reports re oe i os a) →
  wp Safe V (visit_address img g re oe (inode_type img i) i a (walk_abs es i n os cur))
     (λ w, w = walk_abs es i (n + Z.of_nat (length (in_use_addrs [a])))
                        (os ++ in_use_addrs [a]) (cur ++ entries_in img i (in_use_addrs [a])) ∧
           (a ≠ 0 → addr_ok i os a)).
Proof.
  intros Hi Hrep'. unfold visit_address. rewrite in_use_addrs_cons.
  destruct (decide (a ≠ 0)) as [Ha|Ha]; simpl.
  2:{ rewrite decide_False by tauto. apply wp_done. split; [|done].
      unfold entries_in. case_decide; simpl; by rewrite !app_nil_r, Z.add_0_r. }
  destruct (Hrep' Ha) as [Hre Hoe Hm Hf Hin].
  apply wp_guard. { intros [_ Hr]. apply Hre. unfold in_data_range. lia. }
  intros Hr. assert (in_data_range img a) as Hda by (unfold in_data_range; lia).
  pose proof (data_range_index a Hda) as Hidx.
  apply wp_bind, wp_aget_tab; [done|]. intros _.
  case_bool_decide as Hvis; [by apply Hoe|].
  apply wp_bind, bit_is_used_wp; [done|].
  destruct (bit_used img a) eqn:Hbit; simpl; [|by apply Hm].
  apply wp_bind, wp_aset_tab; [done|]. intros _. rewrite tab_visited_snoc.
  apply wp_bind. unfold addr_ok, entries_in, is_dir in *.
  destruct (decide (inode_type img i = 1)) as [Hty|Hty]; simpl.
  - eapply wp_mono; [apply traverse_dirent_wp; auto|].
    intros s [-> Hdots]. simpl. rewrite app_nil_r. split; [by f_equal|]. naive_solver.
  - rewrite app_nil_r. split; [by f_equal|]. naive_solver.
Qed.

(** A loop over [n] addresses given by [af], direct or indirect. *)
Lemma visit_loop_wp re oe es i n0 os0 cur0 (n : Z) (af : Z → Z) (ld : Z → M Z) :
  0 < i < ninodes g →
  (∀ k Q, 0 ≤ k < n → Q (af k) → wp Safe V (ld k) Q) →
  let as_ := in_use_addrs (af <$> seqZ 0 n) in
  (∀ l1 a l2, as_ = l1 ++ a :: l2 → addr_reports re oe i (os0 ++ l1) a) →
  wp Safe V
    (mfor (seqZ 0 n) (λ k w, let! addr := ld k in
                             visit_address img g re oe (inode_type img i) i addr w)
          (walk_abs es i n0 os0 cur0))
    (λ w, w = walk_abs es i (n0 + Z.of_nat (length as_)) (os0 ++ as_)
                       (cur0 ++ entries_in img i as_) ∧
          ∀ l1 a l2, as_ = l1 ++ a :: l2 → addr_ok i (os0 ++ l1) a).
Proof.
  intros Hi Hld as_ Hreps.
  pose (au := λ l : list Z, in_use_addrs (af <$> l)).
  apply wp_mfor with (I := λ l w,
    w = walk_abs es i (n0 + Z.of_nat (length (au l))) (os0 ++ au l)
                 (cur0 ++ entries_in img i (au l)) ∧
    ∀ l1 a l2, au l = l1 ++ a :: l2 → addr_ok i (os0 ++ l1) a).
  - unfold au, entries_in; simpl. split; [case_decide; simpl; by rewrite !app_nil_r, Z.add_0_r|].
    intros [|] ? ?; discriminate.
  - intros l1 k l2 w Hl [-> Hok].
    assert (k ∈ seqZ 0 n) as Hk%elem_of_seqZ by (rewrite Hl; set_solver).
    assert (au (l1 ++ [k]) = au l1 ++ in_use_addrs [af k]) as Hau.
    { unfold au. by rewrite fmap_app, in_use_addrs_app. }
    apply wp_bind, Hld; [lia|].
    eapply wp_mono; [apply visit_address_wp; [done|]|].
    + intros Hnz. apply (Hreps (au l1) (af k) (au l2)).
      unfold as_. rewrite Hl, fmap_app, in_use_addrs_app. f_equal.
      csimpl. rewrite in_use_addrs_cons, decide_True by done. done.
    + intros w [-> Hak]. rewrite Hau. split.
      * rewrite length_app, Nat2Z.inj_add. unfold entries_in.
        case_decide; rewrite ?fmap_app, ?concat_app, <- ?app_assoc; f_equal; lia.
      * apply split_snoc_addr; [done|]. intros Hnz. by apply Hak.
  - done.
Qed.

Lemma dots_ok_app i es1 es2 : dots_ok i (es1 ++ es2) ↔ dots_ok i es1 ∧ dots_ok i es2.
Proof. unfold dots_ok. set_solver. Qed.

Lemma entries_in_app i l1 l2 :
  entries_in img i (l1 ++ l2) = entries_in img i l1 ++ entries_in img i l2.
Proof. unfold entries_in. case_decide; [|done]. by rewrite fmap_app, concat_app. Qed.

Lemma block_entries_in i l a e :
  is_dir img i → a ∈ l → e ∈ block_entries img a → e ∈ entries_in img i l.
Proof.
  intros Hd Ha He. unfold entries_in. rewrite decide_True by done.
  apply list_elem_of_In, in_concat. exists (block_entries img a).
  split; apply list_elem_of_In; [|done]. by apply list_elem_of_fmap_2.
Qed.

(** What the walk over the addresses [l] of inode [i] establishes. *)
Record walk_ok (i : Z) (os l : list Z) : Prop := {
  wo_once : NoDup os → NoDup (os ++ l);
  wo_range : ∀ a, a ∈ l → in_data_range img a;
  wo_marked : ∀ a, a ∈ l → bit_used img a = true;
}.

Lemma addr_ok_walk_ok i os l :
  (∀ l1 a l2, l = l1 ++ a :: l2 → addr_ok i (os ++ l1) a) →
  walk_ok i os l ∧ dots_ok i (entries_in img i l).
Proof.
  intros Hl. split; [split|].
  - apply NoDup_snoc_splits. intros l1 a l2 Hs. apply (Hl _ _ _ Hs).
  - intros a (l1 & l2 & ->)%list_elem_of_split. by eapply Hl.
  - intros a (l1 & l2 & ->)%list_elem_of_split. by eapply Hl.
  - intros e He Hdot. unfold entries_in in He. case_decide as Hd; [|set_solver].
    apply list_elem_of_In, in_concat in He as (es & Hes & He).
    apply list_elem_of_In, list_elem_of_fmap in Hes as (a & -> & Ha).
    apply list_elem_of_split in Ha as (l1 & l2 & ->).
    destruct (Hl _ _ _ eq_refl) as (_ & _ & _ & Hdots).
    apply Hdots; [done|by apply list_elem_of_In|done].
Qed.

Lemma walk_ok_app i os l1 l2 :
  walk_ok i os l1 → walk_ok i (os ++ l1) l2 → walk_ok i os (l1 ++ l2).
Proof. intros [? ? ?] [? ? ?]. split; [rewrite app_assoc; auto|set_solver..]. Qed.

(** *** One inode *)
Section Inode.
Variables (i : Z) (os0 : list Z) (es0 : list (Z * dirent)).
Hypothesis Hi : 0 < i < ninodes g.
Hypothesis Huse : in_use img i.
Hypothesis Hprefix : ∃ rest, all_owned img = os0 ++ owned img i ++ rest.

Lemma owned_data_blocks a : a ∈ data_blocks img i → a ∈ owned img i.
Proof. unfold data_blocks, owned, indirect_blocks. case_decide; set_solver. Qed.

Lemma owned_twice p a q : owned img i = p ++ a :: q → a ∈ os0 ++ p → twice a (all_owned img).
Proof.
  intros Ho. destruct Hprefix as [rest ->].
  apply (twice_intro a (os0 ++ p) (q ++ rest)). rewrite Ho.
  by rewrite <- !app_assoc.
Qed.

Lemma data_block_reports re oe p a q :
  owned img i = p ++ a :: q → a ∈ data_blocks img i →
  (¬ in_data_range img a → V re) → (twice a (all_owned img) → V oe) →
  addr_reports re oe i (os0 ++ p) a.
Proof.
  intros Ho Ha Hre Hoe. split; [done|..].
  - intros Hin. by eapply Hoe, owned_twice.
  - intros Hb. exists i, a. split_and!; [lia|lia|done|by apply owned_data_blocks|done].
  - intros Hd Hn. exists i. split_and!; [lia|lia|done|done|].
    intros [Hall _]. apply Hn. intros e He. apply Hall. by eapply block_entries_in.
  - intros HS Hd e He. eapply (wm_inums img HS i); [lia|done|].
    by eapply block_entries_in.
Qed.

Lemma check_direct_address_wp :
  wp Safe V (check_direct_address img g (inode_at i) i (walk_abs es0 i 0 os0 []))
     (λ w, w = walk_abs es0 i (Z.of_nat (length (direct_blocks img i)))
                        (os0 ++ direct_blocks img i) (entries_in img i (direct_blocks img i)) ∧
           walk_ok i os0 (direct_blocks img i) ∧
           dots_ok i (entries_in img i (direct_blocks img i))).
Proof.
  unfold check_direct_address. apply wp_bind, load_type_wp; [lia|].
  eapply wp_mono; [apply (visit_loop_wp _ _ _ _ _ _ _ _ (inode_addr img i)); [done|..]|].
  - intros k Q Hk HQ. apply load_addr_wp; [lia|lia|done].
  - intros l1 a l2 Hl. fold (direct_blocks img i) in Hl.
    assert (a ∈ direct_blocks img i) as Ha by (rewrite Hl; set_solver).
    eapply data_block_reports.
    + unfold owned. rewrite Hl, <- app_assoc. done.
    + unfold data_blocks. set_solver.
    + intros Hr. exists i, a. facts.
    + intros Ht. exists i, a. facts.
  - intros w [-> Hok]. split; [done|]. by apply addr_ok_walk_ok.
Qed.

(** The part of [owned] that follows the direct blocks. *)
Definition indirect_owned : list Z :=
  if decide (inode_addr img i NDIRECT = 0) then []
  else inode_addr img i NDIRECT :: indirect_table img (inode_addr img i NDIRECT).

Lemma indirect_table_wp b cur :
  b = inode_addr img i NDIRECT → b ≠ 0 → in_data_range img b →
  let os := os0 ++ direct_blocks img i ++ [b] in
  wp Safe V
    (mfor (seqZ 0 128)
       (λ k w, let! addr := load32 img (u32 (b * BSIZE) + k * sizeof_uint) in
          visit_address img g bad_indirect_address_error bad_indirect_address_once_error
                        (inode_type img i) i addr w)
       (walk_abs es0 i 0 os cur))
    (λ w, w = walk_abs es0 i (Z.of_nat (length (indirect_blocks img i)))
                       (os ++ indirect_blocks img i)
                       (cur ++ entries_in img i (indirect_blocks img i)) ∧
          walk_ok i os (indirect_blocks img i) ∧
          dots_ok i (entries_in img i (indirect_blocks img i))).
Proof.
  intros Hb Hz Hr os. rewrite block_offset by done.
  assert (indirect_blocks img i = indirect_table img b) as Hib.
  { unfold indirect_blocks. rewrite decide_False by congruence. by subst. }
  rewrite Hib.
  eapply wp_mono; [apply (visit_loop_wp _ _ _ _ _ _ _ _
                           (λ k, rd32 img (b * BSIZE + k * sizeof_uint))); [done|..]|].
  - intros k Q Hk HQ. apply wp_load32; [|done].
    apply mapped_block; [done|unfold sizeof_uint; lia..].
  - intros l1 a l2 Hl. change (in_use_addrs _) with (indirect_table img b) in Hl.
    unfold os. rewrite <- app_assoc. simpl.
    assert (a ∈ indirect_blocks img i) as Ha by (rewrite Hib, Hl; set_solver).
    eapply data_block_reports.
    + unfold owned. rewrite decide_False by congruence. rewrite <- Hb, Hl.
      by rewrite <- !app_assoc.
    + unfold data_blocks. set_solver.
    + intros Hr'. exists i, a. facts.
    + intros Ht. exists i, a. facts.
  - intros w [-> Hok]. split; [done|]. by apply addr_ok_walk_ok.
Qed.

Lemma check_indirect_address_wp cur :
  wp Safe V (check_indirect_address img g (inode_at i) i
               (walk_abs es0 i 0 (os0 ++ direct_blocks img i) cur))
     (λ w, w = walk_abs es0 i (Z.of_nat (length (indirect_blocks img i)))
                        (os0 ++ owned img i)
                        (cur ++ entries_in img i (indirect_blocks img i)) ∧
           walk_ok i (os0 ++ direct_blocks img i) indirect_owned ∧
           dots_ok i (entries_in img i (indirect_blocks img i))).
Proof.
  unfold check_indirect_address. apply wp_bind, load_type_wp; [lia|].
  apply wp_bind, load_addr_wp; [lia|unfold NDIRECT; lia|].
  assert (owned img i = direct_blocks img i ++ indirect_owned) as -> by done.
  assert (indirect_owned = if decide (inode_addr img i NDIRECT = 0) then []
          else inode_addr img i NDIRECT :: indirect_blocks img i) as Hio.
  { unfold indirect_owned, indirect_blocks. by case_decide. }
  rewrite Hio. set (b := inode_addr img i NDIRECT) in *.
  destruct (decide (b = 0)) as [Hz|Hz]; simpl.
  { rewrite decide_False by tauto. unfold indirect_blocks. rewrite decide_True by done.
    unfold entries_in. split_and!.
    - case_decide; simpl; by rewrite !app_nil_r.
    - split; [rewrite app_nil_r; auto|set_solver..].
    - case_decide; unfold dots_ok; set_solver. }
  rewrite decide_True by done. case_decide as Hr.
  2:{ exists i, b. facts. unfold in_data_range. lia. }
  assert (in_data_range img b) as Hdb by (unfold in_data_range; lia).
  pose proof (data_range_index b Hdb) as Hidx.
  assert (owned img i = direct_blocks img i ++ b :: indirect_blocks img i) as Hown.
  { assert (owned img i = direct_blocks img i ++ indirect_owned) as -> by done.
    by rewrite Hio. }
  apply wp_bind, wp_aget_tab; [done|]. intros _. case_bool_decide as Hv.
  { exists i, b. facts. by eapply owned_twice. }
  apply wp_bind, bit_is_used_wp; [done|]. destruct (bit_used img b) eqn:Hbit; simpl.
  2:{ exists i, b. facts. rewrite Hown. set_solver. }
  apply wp_bind, wp_aset_tab; [done|]. intros _.
  rewrite tab_visited_snoc, <- app_assoc.
  eapply wp_mono; [apply (indirect_table_wp b); [done..]|].
  intros w (-> & Hok & Hd). rewrite <- !app_assoc. simpl. split_and!; [done| |done].
  change (b :: indirect_blocks img i) with ([b] ++ indirect_blocks img i).
  apply walk_ok_app; [|by rewrite <- app_assoc].
  split; [|set_solver..]. intros Hnd. apply NoDup_app. split_and!; [done|set_solver|].
  apply NoDup_singleton.
Qed.
End Inode.

(** *** The first loop of [helper] *)
Definition scan_abs (os : list Z) (es : list (Z * dirent)) (us : list Z) : scan :=
  Scan (tab (sbsize g + 1) (λ k, bool_decide (k ∈ os)))
       (tab (ninodes g + 1) (λ k, bool_decide (k ∈ us)))
       (tab (ninodes g + 1) (refs es)) (tab (ninodes g + 1) (dotdot es))
       (tab (ninodes g + 1) (parent img es)).

Lemma check_node_type_wp i :
  0 ≤ i < ninodes g →
  wp Safe V (check_node_type img (inode_at i)) (λ _, inode_type img i ∈ [0; 1; 2; 3]).
Proof.
  intros Hi. unfold check_node_type. apply wp_bind, load_type_wp; [lia|].
  apply wp_guard.
  - intros Hty. exists i. split; [done|]. set_solver.
  - intros Hty. apply wp_done.
    destruct (decide (inode_type img i = 0)) as [->|]; [set_solver|].
    destruct (decide (inode_type img i = 1)) as [->|]; [set_solver|].
    destruct (decide (inode_type img i = 2)) as [->|]; [set_solver|].
    destruct (decide (inode_type img i = 3)) as [->|]; [set_solver|]. tauto.
Qed.

Lemma data_blocks_bound i : Z.of_nat (length (data_blocks img i)) ≤ MAXFILE.
Proof.
  unfold data_blocks, direct_blocks, indirect_blocks, indirect_table, in_use_addrs.
  rewrite length_app.
  pose proof (length_filter (λ a, a ≠ 0) (inode_addr img i <$> seqZ 0 NDIRECT)) as Hd.
  rewrite length_fmap, length_seqZ in Hd.
  change (Z.to_nat NDIRECT) with 12%nat in Hd. change MAXFILE with 140.
  case_decide; cbn [length]; [lia|].
  pose proof (length_filter (λ a, a ≠ 0)
    ((λ k, rd32 img (inode_addr img i NDIRECT * BSIZE + k * sizeof_uint)) <$>
       seqZ 0 NINDIRECT)) as Ht.
  rewrite length_fmap, length_seqZ in Ht.
  change (Z.to_nat NINDIRECT) with 128%nat in Ht. lia.
Qed.

Lemma check_file_size_wp i :
  0 ≤ i < ninodes g → in_use img i →
  let n := Z.of_nat (length (data_blocks img i)) in
  wp Safe V (check_file_size (inode_size img i) n) (λ _, size_ok n (inode_size img i)).
Proof.
  intros Hi Hu n. pose proof (data_blocks_bound i) as Hn. fold n in Hn.
  change MAXFILE with 140 in Hn. assert (0 ≤ n) by lia.
  assert (¬ size_ok n (inode_size img i) → V bad_file_size_error) as HV.
  { intros Hs. by exists i. }
  unfold check_file_size. case_decide as Hz.
  - apply wp_guard; [|by left; lia]. intros Hs. apply HV. unfold size_ok. lia.
  - rewrite !(wrap_small 32 (n - 1)), !(wrap_small 32 n) by lia. unfold BSIZE.
    rewrite !(wrap_small 32) by lia.
    apply wp_guard; [|right; unfold BSIZE; lia].
    intros Hs. apply HV. unfold size_ok, BSIZE. lia.
Qed.

(** What the scan of inode [i] establishes. *)
Record inode_ok (os : list Z) (i : Z) : Prop := {
  io_type : inode_type img i ∈ [0; 1; 2; 3];
  io_walk : in_use img i → walk_ok i os (owned img i);
  io_format : in_use img i → is_dir img i → dir_format img i;
  io_size : in_use img i → size_ok (Z.of_nat (length (data_blocks img i))) (inode_size img i);
}.

Definition used_of (i : Z) : list Z := if decide (in_use img i) then [i] else [].

Lemma tab_used_snoc us i :
  tab (ninodes g + 1) (λ k, if decide (k = i) then true else bool_decide (k ∈ us)) =
  tab (ninodes g + 1) (λ k, bool_decide (k ∈ us ++ [i])).
Proof.
  apply tab_ext. intros k _. case_decide; symmetry.
  - apply bool_decide_eq_true. set_solver.
  - apply bool_decide_ext. set_solver.
Qed.

Lemma scan_inode_wp i os es us :
  0 ≤ i < ninodes g →
  (∃ rest, all_owned img = os ++ inode_owned img i ++ rest) →
  wp Safe V (scan_inode img g i (scan_abs os es us))
     (λ s, s = scan_abs (os ++ inode_owned img i) (es ++ inode_entries img i)
                        (us ++ used_of i) ∧ inode_ok os i).
Proof.
  intros Hi Hpre. pose proof ninodes_range as Hn. unfold scan_inode.
  apply wp_bind. eapply wp_mono; [by apply check_node_type_wp|]. intros [] Hty.
  apply wp_bind, load_type_wp; [lia|].
  unfold inode_owned, inode_entries, used_of in *.
  destruct (decide (in_use img i)) as [Hu|Hu]; fold (in_use img i).
  2:{ rewrite decide_False by done. rewrite !app_nil_r. apply wp_done.
      split; [done|]. by split; [|intros ?%Hu..]. }
  rewrite decide_True by done. destruct Hu as [Hi0 Ht0] eqn:HeqHu; clear HeqHu.
  rewrite (wrap_small 16) by lia.
  assert (∀ v, Walk 0 v (DirState 0 0 (scan_inodeindirent (scan_abs os es us))
            (scan_parentdotdot (scan_abs os es us)) (scan_parententry (scan_abs os es us))) =
          Walk 0 v (dir_abs es i [])) as Hw0.
  { intros v. unfold dir_abs. simpl. by rewrite app_nil_r. }
  rewrite Hw0. apply wp_bind.
  eapply wp_mono; [apply (check_direct_address_wp i os es); [lia|done|done]|].
  intros w (-> & Hwd & Hdd). apply wp_bind.
  eapply wp_mono; [apply (check_indirect_address_wp i os es); [lia|done|done]|].
  intros w (-> & Hwi & Hdi). simpl.
  rewrite <- entries_in_app. change (entries_in img i (_ ++ _)) with (dir_entries img i).
  apply wp_guard.
  { intros [Hd Hcnt]. exists i. split; [lia|]. do 2 (split; [done|]). intros (_ & Hc1 & Hc2). lia. }
  intros Hcnt. apply wp_bind, load_size_wp; [lia|]. apply wp_bind.
  rewrite <- Nat2Z.inj_add, <- length_app. fold (data_blocks img i).
  eapply wp_mono; [by apply check_file_size_wp|]. intros [] Hsz.
  apply wp_bind, wp_aset_tab; [lia|]. intros _. rewrite tab_used_snoc. apply wp_done.
  split; [done|]. split; [done| |intros _ Hd|done].
  - intros _. by apply walk_ok_app.
  - assert (dots_ok i (dir_entries img i)) as Hdots.
    { unfold dir_entries, data_blocks. rewrite entries_in_app. by apply dots_ok_app. }
    unfold dir_format. split; [done|]. unfold is_dir in Hd. lia.
Qed.

Definition all_used : list Z := concat (used_of <$> seqZ 0 (ninodes g)).

Lemma elem_of_all_used i : i ∈ all_used ↔ 0 ≤ i < ninodes g ∧ in_use img i.
Proof.
  unfold all_used. rewrite list_elem_of_In, in_concat. split.
  - intros (l & Hl & Hi). apply list_elem_of_In, list_elem_of_fmap in Hl as (j & -> & Hj).
    apply list_elem_of_In in Hi. apply elem_of_seqZ in Hj. unfold used_of in Hi.
    case_decide; [|set_solver]. apply list_elem_of_singleton in Hi as ->. split; [lia|done].
  - intros [Hi Hu]. exists (used_of i). split; apply list_elem_of_In.
    + apply list_elem_of_fmap_2, elem_of_seqZ. lia.
    + unfold used_of. rewrite decide_True by done. set_solver.
Qed.

(** What the first loop establishes about the whole table. *)
Record table_ok : Prop := {
  to_inodes : ∀ i, 0 ≤ i < ninodes g → ∃ os, inode_ok os i;
  to_once : NoDup (all_owned img);
}.

Lemma scan_init_abs : scan_init g = scan_abs [] [] [].
Proof. unfold scan_init, scan_abs. f_equal; by apply tab_ext. Qed.

(** The loop after the inodes of [l], a prefix of the table. *)
Lemma scan_prefix_wp l l' :
  seqZ 0 (ninodes g) = l ++ l' →
  wp Safe V (mfor l (scan_inode img g) (scan_init g))
     (λ s, s = scan_abs (concat (inode_owned img <$> l)) (concat (inode_entries img <$> l))
                        (concat (used_of <$> l)) ∧
           (∀ i, i ∈ l → ∃ os, inode_ok os i) ∧ NoDup (concat (inode_owned img <$> l))).
Proof.
  intros Hpre. rewrite scan_init_abs.
  apply wp_mfor with (I := λ l s,
    s = scan_abs (concat (inode_owned img <$> l)) (concat (inode_entries img <$> l))
                 (concat (used_of <$> l)) ∧
    (∀ i, i ∈ l → ∃ os, inode_ok os i) ∧ NoDup (concat (inode_owned img <$> l))).
  - split_and!; [done|set_solver|constructor].
  - intros l1 i l2 s Hl (-> & Hok & Hnd).
    assert (i ∈ seqZ 0 (ninodes g)) as Hi%elem_of_seqZ by (rewrite Hpre, Hl; set_solver).
    eapply wp_mono; [apply scan_inode_wp; [lia|]|].
    + exists (concat (inode_owned img <$> l2 ++ l')). unfold all_owned.
      rewrite Hpre, Hl, <- app_assoc, fmap_app, concat_app. done.
    + intros s [-> Hio]. rewrite !fmap_app, !concat_app. csimpl. rewrite !app_nil_r.
      split_and!; [done|set_solver|]. unfold inode_owned at 2.
      case_decide as Hu; [|by rewrite app_nil_r]. by apply (io_walk _ _ Hio).
  - done.
Qed.

Lemma scan_table_wp :
  wp Safe V (mfor (seqZ 0 (ninodes g)) (scan_inode img g) (scan_init g))
     (λ s, s = scan_abs (all_owned img) (all_entries img) all_used ∧ table_ok).
Proof.
  eapply wp_mono; [apply (scan_prefix_wp _ []); by rewrite app_nil_r|].
  intros s (-> & Hok & Hnd). split; [done|]. split; [|done].
  intros i Hi. apply Hok, elem_of_seqZ. lia.
Qed.

(** *** The bitmap loop *)
Lemma check_bitmap_wp es us :
  wp Safe V (check_bitmap img g (scan_abs (all_owned img) es us))
     (λ _, ∀ b, in_data_range img b → bit_used img b = true → b ∈ all_owned img).
Proof.
  unfold check_bitmap.
  apply wp_mfor with (I := λ l _, ∀ b, b ∈ l → bit_used img b = true → b ∈ all_owned img).
  - set_solver.
  - intros l1 b l2 [] Hl HI.
    assert (b ∈ seqZ (datblkstnum g) (datblkednum g - datblkstnum g)) as Hb%elem_of_seqZ
      by (rewrite Hl; set_solver).
    assert (in_data_range img b) as Hr by (unfold in_data_range; lia).
    assert ((bit_used img b = true → b ∈ all_owned img) →
            ∀ b', b' ∈ l1 ++ [b] → bit_used img b' = true → b' ∈ all_owned img) as Hnext.
    { intros Hb' b' [?| ->%list_elem_of_singleton]%elem_of_app; auto. }
    apply wp_bind, bit_is_used_wp; [done|]. destruct (bit_used img b) eqn:Hbit.
    + apply wp_bind, wp_aget_tab; [intros _; by apply data_range_index|]. intros _.
      case_bool_decide as Hv; simpl; [by apply Hnext|]. by exists b.
    + apply wp_done. apply Hnext. done.
  - intros _ HI b Hr. apply HI, elem_of_seqZ. unfold in_data_range in Hr. lia.
Qed.

(** *** Following the ".." chain *)
Lemma bounded_list_length n (l : list Z) :
  NoDup l → (∀ x, x ∈ l → 0 ≤ x < n) → (length l ≤ Z.to_nat n)%nat.
Proof.
  intros Hnd Hin. rewrite <- (length_seqZ 0 n). apply submseteq_length.
  apply NoDup_submseteq; [done|]. intros x Hx. apply elem_of_seqZ. apply Hin in Hx. lia.
Qed.

Lemma reaches_inv (pd : Z → Z) x :
  x ≠ ROOTINO → reaches pd x ↔ pd x ≠ -1 ∧ reaches pd (pd x).
Proof.
  intros Hx. split; [|intros [? ?]; by constructor].
  inversion 1; [done|by split].
Qed.

(** A set of inodes closed under ".." that misses the root is a loop. *)
Lemma closed_not_reaches (pd : Z → Z) (vs : list Z) (x : Z) :
  (∀ v, v ∈ vs → v ≠ ROOTINO ∧ pd v ∈ vs) → x ∈ vs → ¬ reaches pd x.
Proof.
  intros Hcl Hx Hr. induction Hr as [|x Hne Hr IH].
  - by destruct (Hcl _ Hx).
  - apply IH, Hcl, Hx.
Qed.

Lemma tab_seen_cons n (vs : list Z) (a : Z) :
  tab n (λ k, if decide (k = a) then true else bool_decide (k ∈ vs)) =
  tab n (λ k, bool_decide (k ∈ a :: vs)).
Proof.
  apply tab_ext. intros k _. case_decide; symmetry.
  - apply bool_decide_eq_true. set_solver.
  - apply bool_decide_ext. set_solver.
Qed.

Lemma follow_dotdot_wp (n : Z) (pd : Z → Z) (start : Z) fuel (vs : list Z) (cur : Z) :
  (Safe → ∀ k, 0 ≤ k < n → pd k ≠ -1 → 0 ≤ pd k < n) →
  (Safe → 0 ≤ cur < n) →
  (¬ reaches pd start → V bad_directory_error) →
  (reaches pd start ↔ reaches pd cur) →
  NoDup vs → (∀ v, v ∈ vs → 0 ≤ v < n) →
  (∀ v, v ∈ vs → v ≠ ROOTINO ∧ (pd v ∈ vs ∨ pd v = cur)) →
  (Z.to_nat n < fuel + length vs)%nat →
  wp Safe V (follow_dotdot fuel (tab n pd) (tab n (λ k, bool_decide (k ∈ vs))) cur)
     (λ _, reaches pd start).
Proof.
  intros Hpd Hcur HV. revert vs cur Hcur.
  induction fuel as [|fuel IH]; intros vs cur Hcur Hst Hnd Hvs Hcl Hfuel.
  { pose proof (bounded_list_length n vs Hnd Hvs). lia. }
  simpl. destruct (decide (cur = ROOTINO)) as [->|Hne].
  { rewrite decide_False by tauto. apply Hst. constructor. }
  rewrite decide_True by done.
  apply wp_bind, wp_aget_tab; [done|]. intros Hcn. case_bool_decide as Hseen.
  { apply HV. rewrite Hst. apply (closed_not_reaches pd vs); [|done].
    intros v Hv. destruct (Hcl v Hv) as [? [?|Heq]]; [done|]. by rewrite Heq. }
  apply wp_bind, wp_aset_tab; [done|]. intros _. rewrite tab_seen_cons.
  apply wp_bind, wp_aget_tab; [done|]. intros _.
  apply wp_guard. { intros H1. apply HV. rewrite Hst, reaches_inv by done. tauto. }
  intros H1. apply IH.
  - intros HS. by apply Hpd.
  - rewrite Hst, (reaches_inv pd cur) by done. tauto.
  - by constructor.
  - intros v [->|Hv]%elem_of_cons; auto.
  - intros v [->|Hv]%elem_of_cons; [by auto|]. destruct (Hcl v Hv) as [? [?|Heq]]; [set_solver|].
    rewrite Heq. set_solver.
  - simpl. lia.
Qed.

(** *** The parent relation of a directory referenced once *)
Lemma refers_subdir i p : i ≠ ROOTINO → is_dir img i → refers i p ↔ subdir_of img i p.
Proof. unfold refers, subdir_of. naive_solver. Qed.

Lemma parent_unique es i :
  i ≠ ROOTINO → is_dir img i → refs es i = 1 →
  ∃ e, (parent img es i, e) ∈ es ∧ is_plain e ∧ de_inum e = i ∧
       ∀ p' e', (p', e') ∈ es → is_plain e' → de_inum e' = i → p' = parent img es i.
Proof.
  intros Hi Hd Hr. unfold refs in Hr.
  rewrite (list_filter_iff _ (subdir_of img i)) in Hr by (intros; by apply refers_subdir).
  assert (∃ p e, filter (subdir_of img i) es = [(p, e)]) as (p & e & Hf).
  { destruct (filter (subdir_of img i) es) as [|[p e] [|]]; simpl in Hr; [lia|eauto|lia]. }
  assert (parent img es i = p) as Hp by (unfold parent; by rewrite Hf).
  assert ((p, e) ∈ filter (subdir_of img i) es) as Hin by (rewrite Hf; set_solver).
  apply list_elem_of_filter in Hin as [(Hpl & He & _) Hin].
  exists e. rewrite Hp. split_and!; [done|done|done|]. intros p' e' Hin' Hpl' He'.
  assert ((p', e') ∈ filter (subdir_of img i) es) as Hx
    by (apply list_elem_of_filter; split; [unfold subdir_of; simpl; tauto|done]).
  rewrite Hf in Hx. set_solver.
Qed.

Lemma all_entries_inv p e :
  (p, e) ∈ all_entries img → 0 ≤ p < ninodes g ∧ in_use img p ∧ e ∈ dir_entries img p.
Proof.
  unfold all_entries. rewrite list_elem_of_In, in_concat. intros (l & Hl & Hp).
  apply list_elem_of_In, list_elem_of_fmap in Hl as (j & -> & Hj).
  apply list_elem_of_In in Hp. apply elem_of_seqZ in Hj. unfold inode_entries in Hp.
  case_decide; [|set_solver]. apply list_elem_of_fmap in Hp as (e' & Heq & He').
  simplify_eq. split; [lia|done].
Qed.

Lemma dir_entries_nonneg i e : e ∈ dir_entries img i → 0 < de_inum e.
Proof.
  unfold dir_entries, entries_in. case_decide; [|set_solver].
  rewrite list_elem_of_In, in_concat. intros (l & Hl & He).
  apply list_elem_of_In, list_elem_of_fmap in Hl as (b & -> & _).
  apply list_elem_of_In, list_elem_of_filter in He as [Hz He].
  apply list_elem_of_fmap in He as (k & -> & _). simpl in *.
  pose proof (rd16_range img (b * BSIZE + k * sizeof_dirent)). lia.
Qed.

Lemma dotdot_range :
  Safe → ∀ k, 0 ≤ k < ninodes g + 1 → dotdot (all_entries img) k ≠ -1 →
  0 ≤ dotdot (all_entries img) k < ninodes g + 1.
Proof.
  intros HS k _. unfold dotdot. destruct (last _) as [[p e]|] eqn:Hl; simpl; [|done]. intros _.
  apply last_Some_elem_of, list_elem_of_filter in Hl as [_ Hin].
  apply all_entries_inv in Hin as (Hp & Hu & He).
  pose proof (dir_entries_nonneg _ _ He). pose proof (wm_inums img HS p e Hp Hu He). lia.
Qed.

(** *** The last loop of [helper] *)
#[local] Arguments follow_dotdot : simpl never.
Let final : scan := scan_abs (all_owned img) (all_entries img) all_used.

Lemma check_parent_wp i :
  1 ≤ i < ninodes g → is_dir img i → refs (all_entries img) i = 1 →
  wp Safe V (check_parent g i final)
     (λ _, (i = ROOTINO → dotdot (all_entries img) i = ROOTINO) ∧
           (i ≠ ROOTINO → dotdot (all_entries img) i = parent img (all_entries img) i) ∧
           reaches (dotdot (all_entries img)) i).
Proof.
  intros Hi Hd Hr. unfold check_parent. simpl.
  apply wp_bind, wp_aget_tab; [lia|]. intros _. apply wp_bind.
  eapply wp_mono with (P := λ _,
    (i = ROOTINO → dotdot (all_entries img) i = ROOTINO) ∧
    (i ≠ ROOTINO → dotdot (all_entries img) i = parent img (all_entries img) i)).
  - case_decide as Hroot; simpl.
    + subst i. apply wp_guard; [|intros Heq; apply wp_done; split; [lia|done]].
      intros Hne. left. split; [done|]. split; [lia|done].
    + apply wp_bind, wp_aget_tab; [lia|]. intros _.
      destruct (parent_unique (all_entries img) i) as (e & Hin & _ & _ & Huniq); [done..|].
      apply wp_guard; [|intros Hn; apply wp_done; split; [done|lia]].
      intros Hbad. right. exists i. unfold ROOTINO in *. split; [lia|]. split_and!; [done..|].
      intros p' e' Hin' Hpl He'. rewrite (Huniq p' e') by done.
      apply all_entries_inv in Hin as [Hp _]. lia.
  - intros _ [H1 H2].
    assert (tab (ninodes g + 1) (λ _ : Z, false) =
            tab (ninodes g + 1) (λ k : Z, bool_decide (k ∈ @nil Z))) as -> by by apply tab_ext.
    eapply wp_mono; [apply (follow_dotdot_wp _ _ i)|intros [] Hreach; by split_and!].
    + apply dotdot_range.
    + lia.
    + intros Hn. by exists i.
    + done.
    + constructor.
    + set_solver.
    + set_solver.
    + rewrite length_tab. simpl. lia.
Qed.

(** What the last loop establishes about inode [i]. *)
Record refs_ok (i : Z) : Prop := {
  ro_used : in_use img i ↔ 0 < refs (all_entries img) i;
  ro_nlink : inode_type img i = 2 → inode_nlink img i = refs (all_entries img) i;
  ro_once : is_dir img i → refs (all_entries img) i = 1;
  ro_root : is_dir img i → i = ROOTINO → dotdot (all_entries img) i = ROOTINO;
  ro_parent : is_dir img i → i ≠ ROOTINO →
    dotdot (all_entries img) i = parent img (all_entries img) i;
  ro_reach : is_dir img i → reaches (dotdot (all_entries img)) i;
}.

Lemma check_refs_wp i :
  1 ≤ i < ninodes g → wp Safe V (check_refs img g i final) (λ _, refs_ok i).
Proof.
  intros Hi. unfold check_refs. simpl.
  assert (0 ≤ refs (all_entries img) i) as Hpos by (unfold refs; lia).
  assert (bool_decide (i ∈ all_used) = bool_decide (in_use img i)) as Hused.
  { apply bool_decide_ext. rewrite elem_of_all_used.
    split; [tauto|split; [lia|done]]. }
  apply wp_bind, wp_aget_tab; [lia|]. intros _. rewrite Hused.
  apply wp_bind, wp_aget_tab; [lia|]. intros _.
  apply wp_guard. { intros [Hu%bool_decide_eq_true Hz]. by exists i. }
  intros H1. apply wp_guard.
  { intros [Hu%bool_decide_eq_false Hz]. exists i. split_and!; [lia..|done|lia]. }
  intros H2. rewrite bool_decide_eq_true in H1. rewrite bool_decide_eq_false in H2.
  assert (in_use img i ↔ 0 < refs (all_entries img) i) as Hiff.
  { destruct (decide (in_use img i)), (decide (refs (all_entries img) i = 0));
      split; intros; try tauto; lia. }
  apply wp_bind, load_type_wp; [lia|]. apply wp_bind, load_nlink_wp; [lia|].
  apply wp_guard. { intros [Ht Hne]. by exists i. }
  intros H3. apply wp_guard. { intros [Ht Hne]. by exists i. }
  intros H4. destruct (decide (inode_type img i = 1)) as [Hd|Hd].
  - eapply wp_mono; [apply check_parent_wp; [done..|]|].
    { destruct (decide (refs (all_entries img) i = 1)); [done|tauto]. }
    intros _ (Hp1 & Hp2 & Hp3). split; try done; unfold is_dir in *; lia.
  - apply wp_done. split; unfold is_dir in *; [done|lia|lia|lia|lia|lia].
Qed.

Lemma helper_wp : wp Safe V (helper img g) (λ _, consistent img).
Proof.
  unfold helper. apply wp_bind.
  eapply wp_mono; [apply scan_table_wp|]. intros s [-> [Hin Honce]].
  apply wp_bind. eapply wp_mono; [apply check_bitmap_wp|]. intros [] Hbm.
  apply wp_mfor with (I := λ l _, ∀ i, i ∈ l → refs_ok i).
  - set_solver.
  - intros l1 i l2 [] Hl HI.
    assert (i ∈ seqZ 1 (ninodes g - 1)) as Hi%elem_of_seqZ by (rewrite Hl; set_solver).
    eapply wp_mono; [apply check_refs_wp; lia|].
    intros [] Hi' j [?|Hj%list_elem_of_singleton]%elem_of_app; [auto|by subst].
  - intros _ Hall.
    assert (∀ i, 1 ≤ i < ninodes g → refs_ok i) as Hrefs.
    { intros i Hi. apply Hall, elem_of_seqZ. lia. }
    split; [split; try done|intros i Hi; by destruct (Hin i Hi) as [os []]].
    + intros i Hi. by destruct (Hin i Hi) as [os []].
    + intros i b Hi Hu. destruct (Hin i Hi) as [os [_ Hw _ _]]. apply Hw, Hu.
    + intros i b Hi Hu. destruct (Hin i Hi) as [os [_ Hw _ _]]. apply Hw, Hu.
    + intros i Hi. by destruct (Hin i Hi) as [os []].
    + intros i Hi. by destruct (Hrefs i Hi).
    + intros i Hi. by destruct (Hrefs i Hi).
    + intros i Hi. by destruct (Hrefs i Hi).
    + intros Hd Hn. by apply (ro_root ROOTINO); [apply Hrefs|..].
    + intros i Hi Hd. destruct (Hrefs i) as [_ _ Ho _ Hp _]; [lia|].
      assert (i ≠ ROOTINO) as Hne by (unfold ROOTINO; lia).
      destruct (parent_unique (all_entries img) i) as (e & He & Hpl & Hnum & _); [auto..|].
      exists (parent img (all_entries img) i), e. auto.
    + intros i Hi. by destruct (Hrefs i Hi).
Qed.
End Proof.

(** ** The whole check *)
Lemma check_size_geometry img :
  representable img →
  check_size (rd32 img BSIZE) (rd32 img (BSIZE + 4)) (rd32 img (BSIZE + 8)) =
  if decide (sbsize (geometry img) ≠ datblkednum (geometry img)) then Exit superblock_error
  else Done (geometry img).
Proof.
  intros Hrep. pose proof (ninodes_range img Hrep) as Hn. pose proof (sbsize_range img Hrep) as Hs.
  unfold check_size, geometry in *. simpl in *.
  set (n := rd32 img (BSIZE + 8)) in *. set (sz := rd32 img BSIZE) in *.
  unfold data_start. change IPB with 8. change BPB with 4096.
  assert (0 ≤ n / 8 < 2 ^ 20) by (Z.div_mod_to_equations; lia).
  assert (0 ≤ sz / 4096 < 2 ^ 20) by (Z.div_mod_to_equations; lia).
  rewrite (wrap_small 32 (n / 8 + 1)), (wrap_small 32 (sz / 4096 + 1)) by lia.
  rewrite (wrap_small 32 (n / 8 + 1 + (sz / 4096 + 1) + 2)) by lia.
  replace (n / 8 + 1 + (sz / 4096 + 1) + 2) with (n / 8 + sz / 4096 + 4) by lia. done.
Qed.

Lemma superblock_mapped img off :
  representable img → well_mapped img → 512 ≤ off ≤ 520 → mapped img off 4.
Proof.
  intros Hrep HS Hoff. pose proof (wm_meta img HS). pose proof (datblkst_pos img Hrep).
  unfold mapped, BSIZE in *. lia.
Qed.

Lemma check_image_wp img :
  representable img →
  wp (well_mapped img) (violates img) (check_image img) (λ _, consistent img).
Proof.
  intros Hrep. unfold check_image.
  do 3 (apply wp_bind, wp_load32;
        [intros HS; apply superblock_mapped; unfold BSIZE; auto; lia|]).
  rewrite check_size_geometry by done. apply wp_bind, wp_guard; [done|].
  intros Hsb. simpl. apply helper_wp; [done|].
  destruct (decide (sbsize (geometry img) = datblkednum (geometry img))); tauto.
Qed.
