(* ===== verification/FsckTheorems.v ===== *)
(** * Theorems about myfsck

    The results of FsckProof.v in the form a user of the checker relies on,
    with a sample image on which the hypotheses of each are discharged. *)
From S2P Require Import Prelude CInt FsLayout Image Fsck FsckSpec FsckProof.

(** ** A sample image

    Eight inodes, two data blocks: the root directory (inode 1, block 5)
    holds ".", ".." and a regular file "a" (inode 2, block 6). *)
Definition dirent_of (inum : Z) (name : list Z) : dirent :=
  Dirent inum (take 14 (name ++ replicate 14 0)).

Definition sample_inode (type nlink size : Z) (addrs : list Z) : dinode :=
  Dinode type 0 0 nlink size (take 13 (addrs ++ replicate 13 0)).

Definition sample_blocks (ents : list dirent) (bitmap : list Z) : list (list Z) :=
  [ []; encode_superblock (Superblock 7 2 8);
    encode_dinode (sample_inode 0 0 0 []) ++
    encode_dinode (sample_inode T_DIR 2 512 [5]) ++
    encode_dinode (sample_inode T_FILE 1 10 [6]);
    []; bitmap;
    concat (encode_dirent <$> ents);
    [104; 101; 108; 108; 111] ].

Definition sample_entries : list dirent :=
  [dirent_of 1 [46]; dirent_of 1 [46; 46]; dirent_of 2 [97]].

Definition sample_image : image := image_of_blocks (sample_blocks sample_entries [127]).

(** Images damaged in one place each. *)
Definition sample_unmarked : image := image_of_blocks (sample_blocks sample_entries [63]).
Definition sample_past_table : image :=
  image_of_blocks (sample_blocks (sample_entries ++ [dirent_of 8 [98]]) [127]).
Definition sample_wild : image :=
  image_of_blocks (sample_blocks (sample_entries ++ [dirent_of 9 [98]]) [127]).

Example sample_runs :
  (check_image sample_image, check_image sample_unmarked) =
  (Done tt, Exit bad_used_address_error).
Proof. vm_compute. reflexivity. Qed.

(** ** The contract of the checker *)

(** C1: a clean verdict is sound.  On every image whose geometry fits the
    integer types the checker uses, [check_image] completes only when the
    image satisfies the whole specification: superblock, inode types, address
    ranges, bitmap in both directions, single use of every block, directory
    format, file sizes, reference counts, parents and reachability. *)
Theorem check_image_sound img :
  representable img → check_image img = Done tt → consistent img.
Proof. intros Hrep Hrun. pose proof (check_image_wp img Hrep) as H. by rewrite Hrun in H. Qed.

(** C2: the checker accepts every consistent image that is long enough for
    its geometry and whose directory entries name existing inodes: it
    completes (no report, no fault, enough fuel for the ".." chains). *)
Theorem check_image_complete img :
  representable img → well_mapped img → consistent img → check_image img = Done tt.
Proof.
  intros Hrep HS Hc. pose proof (check_image_wp img Hrep) as H.
  destruct (wp_safe _ _ _ _ HS (λ e He, violates_inconsistent img e He Hc) H) as ([] & -> & _).
  done.
Qed.

(** C3: every report is truthful.  When the checker exits with a message of
    log.h, the image has exactly the defect the message names, so it is not
    consistent. *)
Theorem check_image_truthful img e :
  representable img → check_image img = Exit e → violates img e ∧ ¬ consistent img.
Proof.
  intros Hrep Hrun. pose proof (check_image_wp img Hrep) as H. rewrite Hrun in H.
  split; [done|]. by eapply violates_inconsistent.
Qed.

(** C4: memory safety.  On a well-mapped image the checker never reads
    outside the mapping and never indexes its arrays out of bounds. *)
Theorem check_image_no_fault img :
  representable img → well_mapped img → check_image img ≠ Fault.
Proof.
  intros Hrep HS Hrun. pose proof (check_image_wp img Hrep) as H. rewrite Hrun in H. by apply H.
Qed.

(** C5: the exit status.  Run on one readable, well-mapped image, myfsck
    always exits: with 0 when the image is consistent, and with 1 and the
    message of a violation that is present when it is not. *)
Theorem main_exit_status img :
  representable img → well_mapped img →
  (consistent img → exit_status (main 2 (Some (Some img))) = Some 0) ∧
  (¬ consistent img → exit_status (main 2 (Some (Some img))) = Some 1 ∧
     ∃ e, main 2 (Some (Some img)) = Exit e ∧ violates img e).
Proof.
  intros Hrep HS. pose proof (check_image_wp img Hrep) as H.
  assert (0 < st_size img) as Hsz.
  { pose proof (wm_meta img HS) as Hm. pose proof (datblkst_pos img Hrep).
    unfold map_len, PAGE_SIZE, BSIZE in *. Z.div_mod_to_equations. lia. }
  unfold main. rewrite decide_True, decide_False by lia. unfold wp in H.
  destruct (check_image img) as [[]|e|]; simpl; [by split| |by destruct (H HS)].
  split; [|by eauto]. by intros Hc%(violates_inconsistent img e H).
Qed.

(** ** Termination of the ".." chain *)
Definition unseen (seen : list bool) : nat := length (filter (λ b, b = false) seen).

Lemma unseen_le seen : (unseen seen ≤ length seen)%nat.
Proof. apply length_filter. Qed.

Lemma unseen_mark (seen : list bool) k :
  seen !! k = Some false → unseen seen = S (unseen (<[k := true]> seen)).
Proof.
  unfold unseen. revert k. induction seen as [|b seen IH]; intros [|k] Hk; simplify_eq/=.
  - done.
  - rewrite !filter_cons. case_decide; simpl; by rewrite (IH k).
Qed.

Lemma follow_dotdot_more fuel fuel' pdd seen cur :
  (unseen seen < fuel)%nat → (unseen seen < fuel')%nat →
  follow_dotdot fuel pdd seen cur = follow_dotdot fuel' pdd seen cur.
Proof.
  revert fuel' seen cur. induction fuel as [|fuel IH]; intros fuel' seen cur Hf Hf'; [lia|].
  destruct fuel' as [|fuel']; [lia|]. simpl. case_decide as Hroot; [|done].
  unfold aget at 1 3. case_decide as Hpos; [|done].
  destruct (seen !! Z.to_nat cur) as [[]|] eqn:Hs; simpl; [done| |done].
  unfold aset. rewrite decide_True by (apply lookup_lt_Some in Hs; lia). simpl.
  apply unseen_mark in Hs. destruct (aget pdd cur); simpl; [|done..].
  case_decide; [done|]. apply IH; lia.
Qed.

(** The loop that follows the ".." chain terminates: the number of
    iterations the model allows, one more than the length of [seen], is
    enough on every input, so more fuel never changes the result. *)
Lemma follow_dotdot_fuel fuel pdd seen cur :
  (S (length seen) ≤ fuel)%nat →
  follow_dotdot fuel pdd seen cur = follow_dotdot (S (length seen)) pdd seen cur.
Proof. intros Hf. pose proof (unseen_le seen). apply follow_dotdot_more; lia. Qed.

(** ** The sample image satisfies the hypotheses *)
Lemma all_entries_intro img i e :
  0 ≤ i < ninodes (geometry img) → in_use img i → e ∈ dir_entries img i →
  (i, e) ∈ all_entries img.
Proof.
  intros Hi Hu He. unfold all_entries. apply list_elem_of_In, in_concat.
  exists (inode_entries img i). split; apply list_elem_of_In.
  - apply list_elem_of_fmap_2, elem_of_seqZ. lia.
  - unfold inode_entries. rewrite decide_True by done. by apply list_elem_of_fmap_2.
Qed.

(** A decidable form of [representable] and [well_mapped]. *)
Definition readable_b (img : image) : bool :=
  let g := geometry img in
  bool_decide (sbsize g ≤ 2 ^ 23) && bool_decide (ninodes g ≤ 2 ^ 16) &&
  bool_decide (datblkstnum g * BSIZE ≤ map_len img) &&
  bool_decide (sbsize g * BSIZE ≤ map_len img) &&
  forallb (λ p : Z * dirent, bool_decide (de_inum p.2 ≤ ninodes g)) (all_entries img).

Lemma readable_b_spec img : readable_b img = true → representable img ∧ well_mapped img.
Proof.
  unfold readable_b. rewrite !andb_true_iff, !bool_decide_eq_true, forallb_forall.
  intros ((((Hs & Hn) & Hm) & Hd) & Hall). split; split; auto.
  intros i e Hi Hu He. specialize (Hall (i, e)). rewrite bool_decide_eq_true in Hall.
  apply Hall, list_elem_of_In. by apply all_entries_intro.
Qed.

Lemma sample_readable : representable sample_image ∧ well_mapped sample_image.
Proof. apply readable_b_spec. vm_compute. reflexivity. Qed.

Lemma sample_consistent : consistent sample_image.
Proof.
  destruct sample_readable as [Hrep _]. pose proof (check_image_wp sample_image Hrep) as H.
  assert (check_image sample_image = Done tt) as Hrun by (vm_compute; reflexivity).
  by rewrite Hrun in H.
Qed.

Lemma sample_unmarked_representable : representable sample_unmarked.
Proof. apply readable_b_spec. vm_compute. reflexivity. Qed.

Lemma check_image_sound_witness : consistent sample_image.
Proof.
  apply check_image_sound; [apply sample_readable|vm_compute; reflexivity].
Defined.

Lemma check_image_complete_witness : check_image sample_image = Done tt.
Proof. apply check_image_complete; [apply sample_readable..|apply sample_consistent]. Defined.

Lemma check_image_truthful_witness :
  violates sample_unmarked bad_used_address_error ∧ ¬ consistent sample_unmarked.
Proof.
  apply check_image_truthful; [apply sample_unmarked_representable|vm_compute; reflexivity].
Defined.

Lemma check_image_no_fault_witness : check_image sample_image ≠ Fault.
Proof. apply check_image_no_fault; apply sample_readable. Defined.

Lemma main_exit_status_witness :
  exit_status (main 2 (Some (Some sample_image))) = Some 0.
Proof. apply main_exit_status; [apply sample_readable..|apply sample_consistent]. Defined.

(** ** The reference counters never overflow an [int] *)
Lemma length_block_entries img b : (length (block_entries img b) ≤ 32)%nat.
Proof.
  unfold block_entries. etrans; [apply length_filter|].
  rewrite length_fmap, length_seqZ. done.
Qed.

Lemma length_entries_in img i bs : (length (entries_in img i bs) ≤ 32 * length bs)%nat.
Proof.
  unfold entries_in. case_decide; [|simpl; lia].
  induction bs as [|b bs IH]; csimpl; [lia|].
  rewrite length_app. pose proof (length_block_entries img b). lia.
Qed.

Lemma length_inode_entries img i :
  (length (inode_entries img i) ≤ 32 * length (inode_owned img i))%nat.
Proof.
  unfold inode_entries, inode_owned. case_decide; [|simpl; lia]. rewrite length_fmap.
  unfold dir_entries. pose proof (length_entries_in img i (data_blocks img i)).
  assert (length (data_blocks img i) ≤ length (owned img i))%nat; [|lia].
  unfold data_blocks, owned, indirect_blocks. rewrite !length_app. case_decide; simpl; lia.
Qed.

Lemma length_prefix_entries img (l : list Z) :
  (length (concat (inode_entries img <$> l)) ≤ 32 * length (concat (inode_owned img <$> l)))%nat.
Proof.
  induction l as [|i l IH]; csimpl; [lia|]. rewrite !length_app.
  pose proof (length_inode_entries img i). lia.
Qed.

Lemma owned_prefix_length img (l : list Z) :
  representable img → sbsize (geometry img) = datblkednum (geometry img) →
  (∀ i, i ∈ l → ∃ os, inode_ok img os i) → NoDup (concat (inode_owned img <$> l)) →
  (length (concat (inode_owned img <$> l)) ≤ Z.to_nat (sbsize (geometry img)))%nat.
Proof.
  intros Hrep Hsb Hok Hnd. apply bounded_list_length; [done|]. intros a Ha.
  apply list_elem_of_In, in_concat in Ha as (o & Ho & Ha).
  apply list_elem_of_In, list_elem_of_fmap in Ho as (i & -> & Hi).
  apply list_elem_of_In in Ha. unfold inode_owned in Ha. case_decide as Hu; [|set_solver].
  destruct (Hok i Hi) as [os [_ Hw _ _]]. apply (wo_range _ _ _ _ (Hw Hu)) in Ha as [Ha1 Ha2].
  pose proof (datblkst_pos img Hrep). lia.
Qed.

(** The [int] counters of [inodeindirent] never overflow: after any
    number of inodes of the first loop every counter lies between 0 and
    2^28, far below INT_MAX. *)
Lemma scan_counters_bounded img l l' s :
  representable img → sbsize (geometry img) = datblkednum (geometry img) →
  seqZ 0 (ninodes (geometry img)) = l ++ l' →
  mfor l (scan_inode img (geometry img)) (scan_init (geometry img)) = Done s →
  Forall (λ c, 0 ≤ c ≤ 2 ^ 28) (scan_inodeindirent s).
Proof.
  intros Hrep Hsb Hl Hrun. pose proof (scan_prefix_wp img Hrep Hsb l l' Hl) as H.
  rewrite Hrun in H. destruct H as (-> & Hok & Hnd). simpl.
  pose proof (owned_prefix_length img l Hrep Hsb Hok Hnd) as Hlen.
  pose proof (length_prefix_entries img l). pose proof (sbsize_range img Hrep).
  apply Forall_forall. intros c Hc. apply list_elem_of_fmap in Hc as (k & -> & _). unfold refs.
  pose proof (length_filter (refers k) (concat (inode_entries img <$> l))). lia.
Qed.

(** ** Entries the checker does not validate *)

(** C6: an ordinary entry whose inode number lies beyond the slot after the
    table indexes [inodeindirent] out of bounds: [traverse_dirent] uses the
    number without a range test, and the behaviour is undefined. *)
Theorem traverse_wild_entry img i off s :
  mapped img off 16 →
  let e := rd_dirent img off in
  is_plain e → Z.of_nat (length (inodeindirent s)) ≤ de_inum e → de_inum e ≠ 0 →
  traverse_entry img i off s = Fault.
Proof.
  intros Hmap e [Hnd Hndd] Hbig Hz.
  assert (0 ≤ de_inum e < 2 ^ 16) as Hpos by apply rd16_range.
  assert (length (de_name e) = 14%nat) as Hlen by apply length_rd_bytes.
  pose proof (strncmp_name name_dot [46] (de_name e) eq_refl ltac:(simpl; lia) Hlen) as Hd1.
  pose proof (strncmp_name name_dotdot [46; 46] (de_name e) eq_refl ltac:(simpl; lia) Hlen) as Hd2.
  unfold traverse_entry. rewrite load16_mapped by (unfold mapped in *; lia).
  change (rd16 img off) with (de_inum e). cbn [obind]. rewrite decide_True by done.
  rewrite load_bytes_mapped
    by (change (Z.of_nat (Z.to_nat DIRSIZ)) with 14; unfold mapped in *; lia).
  change (rd_bytes img (off + 2) (Z.to_nat DIRSIZ)) with (de_name e).
  fold (is_dot e) in Hd1. fold (is_dotdot e) in Hd2.
  cbn [obind]. rewrite decide_False, decide_False by tauto.
  unfold aget. rewrite decide_True by lia. rewrite lookup_ge_None_2 by lia. done.
Qed.

Lemma traverse_wild_entry_witness :
  traverse_entry sample_wild 1 (5 * BSIZE + 3 * sizeof_dirent)
    (DirState 0 0 (tab 9 (λ _, 0)) (tab 9 (λ _, -1)) (tab 9 (λ _, -1))) = Fault.
Proof.
  apply traverse_wild_entry; [by split; vm_compute|by split; vm_compute|by vm_compute|by vm_compute].
Defined.

(** An entry that names the slot after the inode table (inode number
    [ninodes], which does not exist) is neither reported nor faults: the
    arrays have [ninodes+1] elements and the final loop stops at
    [ninodes-1], so such an image gets a clean verdict. *)
Lemma past_table_entry_accepted :
  check_image sample_past_table = Done tt ∧
  ∃ e, (1, e) ∈ all_entries sample_past_table ∧
       is_plain e ∧ de_inum e = ninodes (geometry sample_past_table).
Proof.
  split; [by vm_compute|]. exists (dirent_of 8 [98]).
  split; [|by split; [split; vm_compute|vm_compute]].
  eapply (list_elem_of_lookup_2 _ 3%nat). by vm_compute.
Qed.

(** A file system with no root directory passes: when every inode is
    free and the bitmap is clear, no test of [helper] looks at inode 1. *)
Lemma no_root_accepted :
  check_image (image_of_blocks [[]; encode_superblock (Superblock 7 2 8); []; []; []; []; []])
  = Done tt.
Proof. by vm_compute. Qed.
