(* ===== verification/Lsfs.v ===== *)
(** * The image lister (src/Myfsck/lsfs.c)

    The recursive walk over the mapped image, with the lines it prints as
    values.  Block offsets are computed in [size_t], so they do not wrap.
    The recursion has no bound of its own: [depth] is the number of nested
    calls of [ls_dir] the stack has room for. *)
From S2P Require Import Prelude CInt FsLayout Image Fsck.

Module Ls.

(** How the program ends early: a message and exit code 1, or a stack that
    is used up. *)
Inductive ls_error := usage | no_file | no_map | stack_overflow.

Abbreviation M := (outcome ls_error).

(** What it prints. *)
Inductive line :=
| LSuper (size nblocks ninodes : Z)            (* size=%u blocks nblocks=%u ninodes=%u *)
| LDir (path : list Z) (nlink : Z)             (* - path/ [nlink=%d] *)
| LFile (path : list Z) (size nlink : Z)       (* path [file, %u bytes, nlink=%d] *)
| LDev (path : list Z) (major minor : Z).      (* path [device %d:%d] *)

Section Lister.
Variable img : image.

(** [img + (size_t)bn * BSIZE]. *)
Definition blkptr (bn : Z) : Z := bn * BSIZE.

(** Fields of [inodes + inum]; the table starts at block 2. *)
Definition child_type (ino : Z) : M Z := let! x := load16 img ino in Done (s16 x).
Definition child_major (ino : Z) : M Z := let! x := load16 img (ino + 2) in Done (s16 x).
Definition child_minor (ino : Z) : M Z := let! x := load16 img (ino + 4) in Done (s16 x).
Definition child_nlink (ino : Z) : M Z := let! x := load16 img (ino + 6) in Done (s16 x).
Definition child_size (ino : Z) : M Z := load32 img (ino + 8).
Definition child_addr (ino k : Z) : M Z := load32 img (ino + 12 + k * sizeof_uint).

(** [snprintf] into [childpath], which has 4096 bytes. *)
Definition childpath (path name : list Z) : list Z :=
  take 4095 (match path with
             | [] => 47 :: name
             | _ => path ++ 47 :: name
             end).

(** The loop body of [walk_dirblock] for the entry at offset [e]; [ls] is
    the recursive call. *)
Definition walk_entry (ls : Z → list Z → M (list line)) (path : list Z) (e : Z) : M (list line) :=
  let! inum := load16 img e in
  if decide (inum = 0) then Done []
  else
    let! de_name := load_bytes img (e + 2) (Z.to_nat DIRSIZ) in
    if decide (strncmp de_name name_dot (Z.to_nat DIRSIZ) = 0 ∨
               strncmp de_name name_dotdot (Z.to_nat DIRSIZ) = 0)
    then Done []
    else
      let child := inode_at inum in
      let name := cstring de_name in
      let! type := child_type child in
      if decide (type = T_DIR) then ls inum (childpath path name)
      else if decide (type = T_FILE) then
        let! size := child_size child in
        let! nlink := child_nlink child in
        Done [LFile (childpath path name) size nlink]
      else if decide (type = T_DEV) then
        let! major := child_major child in
        let! minor := child_minor child in
        Done [LDev (childpath path name) major minor]
      else Done [].

Definition walk_dirblock (ls : Z → list Z → M (list line)) (blkno : Z) (path : list Z)
  : M (list line) :=
  mfor (seqZ 0 (BSIZE / sizeof_dirent))
       (λ k out, let! l := walk_entry ls path (blkptr blkno + k * sizeof_dirent) in
                 Done (out ++ l)) [].

(** One slot of an address array: [if (addr == 0) continue;]. *)
Definition walk_slot (ls : Z → list Z → M (list line)) (path : list Z) (ld : Z → M Z)
    (i : Z) (out : list line) : M (list line) :=
  let! addr := ld i in
  if decide (addr = 0) then Done out
  else let! l := walk_dirblock ls addr path in Done (out ++ l).

Fixpoint ls_dir (depth : nat) (inum : Z) (path : list Z) : M (list line) :=
  match depth with
  | O => Exit stack_overflow
  | S depth' =>
      let din := inode_at inum in
      let! type := child_type din in
      if decide (type ≠ T_DIR) then Done []
      else
        let! nlink := child_nlink din in
        let! out := mfor (seqZ 0 NDIRECT) (walk_slot (ls_dir depth') path (child_addr din))
                         [LDir path nlink] in
        let! ind := child_addr din NDIRECT in
        if decide (ind ≠ 0) then
          mfor (seqZ 0 NINDIRECT)
               (walk_slot (ls_dir depth') path (λ i, load32 img (blkptr ind + i * sizeof_uint))) out
        else Done out
  end.
End Lister.

(** [main]: the number of arguments and the outcome of [open], [fstat] and
    [mmap]. *)
Definition main (depth : nat) (argc : Z) (file : option (option image)) : M (list line) :=
  if decide (argc ≠ 2) then Exit usage
  else
    match file with
    | None => Exit no_file
    | Some None => Exit no_map
    | Some (Some img) =>
        if decide (st_size img = 0) then Exit no_map   (* mmap of length 0 fails *)
        else
          let! size := load32 img BSIZE in
          let! nblocks := load32 img (BSIZE + 4) in
          let! ninodes := load32 img (BSIZE + 8) in
          let! out := ls_dir img depth ROOTINO [] in
          Done (LSuper size nblocks ninodes :: out)
    end.
End Ls.
