(* ===== verification/LsfsProof.v ===== *)
(** * The walk of the lister and the directory tree

    [listing] is what lsfs.c should print, as a recursion over the directory
    entries.  From [structured] (consistency but for the sizes) follows that the directories are a tree: each
    has a level below the root, smaller than the number of inodes, and the
    recursion [visits] every directory exactly once; this bounds the stack
    and counts the lines.  Then the walk of the code is shown equal to
    [listing]. *)
From S2P Require Import Prelude CInt FsLayout Image Fsck FsckSpec FsckProof FsckTheorems Lsfs.
Import Ls.

(** ** Loops that append their output *)
Lemma mfor_collect {E X B} (l : list X) (f : X → list B → outcome E (list B)) (h : X → list B)
    (out : list B) :
  (∀ x out, x ∈ l → f x out = Done (out ++ h x)) →
  mfor l f out = Done (out ++ concat (h <$> l)).
Proof.
  revert out. induction l as [|x l IH]; intros out Hf; csimpl; [by rewrite app_nil_r|].
  rewrite Hf by left. simpl. rewrite IH; [by rewrite <- app_assoc|].
  intros y o Hy. apply Hf. by right.
Qed.

Lemma concat_filter {A B} (P : A → Prop) `{∀ x, Decision (P x)} (h : A → list B) (l : list A) :
  (∀ x, ¬ P x → h x = []) → concat (h <$> filter P l) = concat (h <$> l).
Proof.
  intros Hh. induction l as [|x l IH]; [done|]. rewrite filter_cons. case_decide; csimpl.
  - by rewrite IH.
  - by rewrite IH, (Hh x).
Qed.

Lemma concat_guard {A B X} (P : A → Prop) `{∀ x, Decision (P x)} (h : A → list B) (f : X → A)
    (h' : X → list B) (l : list X) :
  (∀ x, P (f x) → h' x = h (f x)) → (∀ x, ¬ P (f x) → h' x = []) →
  concat (h' <$> l) = concat (h <$> filter P (f <$> l)).
Proof.
  intros H1 H2. induction l as [|x l IH]; [done|]. csimpl. rewrite filter_cons, IH.
  case_decide; [by rewrite H1|by rewrite H2].
Qed.

Lemma fmap_concat_fmap {A B C} (f : B → C) (h : A → list B) (l : list A) :
  f <$> concat (h <$> l) = concat ((λ x, f <$> h x) <$> l).
Proof. induction l as [|x l IH]; csimpl; [done|]. by rewrite fmap_app, IH. Qed.

Lemma NoDup_counts (l : list Z) : (∀ k, length (filter (.= k) l) ≤ 1)%nat → NoDup l.
Proof.
  induction l as [|x l IH]; intros Hk; [constructor|]. constructor.
  - intros Hx. specialize (Hk x). rewrite filter_cons, decide_True in Hk by done.
    assert (x ∈ filter (.= x) l) as Hf by (by apply list_elem_of_filter).
    destruct (filter (.= x) l); [set_solver|simpl in Hk; lia].
  - apply IH. intros k. specialize (Hk k). rewrite filter_cons in Hk. case_decide; simpl in *; lia.
Qed.

Lemma filter_part_le {A B} (P : B → Prop) `{∀ x, Decision (P x)} (f : A → list B) (l : list A) x :
  x ∈ l → (length (filter P (f x)) ≤ length (filter P (concat (f <$> l))))%nat.
Proof.
  intros (l1 & l2 & ->)%list_elem_of_split. rewrite fmap_app, concat_app. csimpl.
  rewrite !filter_app, !length_app. lia.
Qed.

Lemma name_strncmp lit l name :
  cstring lit = l → (length l ≤ 14)%nat → length name = 14%nat →
  strncmp name lit (Z.to_nat DIRSIZ) = 0 ↔ cstring name = l.
Proof.
  intros Hlit Hl Hn. rewrite <- (strncmp_name lit l name) by done.
  rewrite !strncmp_zero. by split.
Qed.

(** ** What a listing is, on the entries of the directories *)
Section Listing.
Variable img : image.
Local Abbreviation g := (geometry img).

Definition inode_major (i : Z) : Z := s16 (rd16 img (inode_at i + 2)).
Definition inode_minor (i : Z) : Z := s16 (rd16 img (inode_at i + 4)).

(** The lines for one entry, each with the inode it is about. *)
Definition entry_lines (rec : Z → list Z → list (Z * line)) (path : list Z) (e : dirent)
  : list (Z * line) :=
  if decide (is_plain e) then
    let i := de_inum e in
    let p := childpath path (cstring (de_name e)) in
    if decide (inode_type img i = T_DIR) then rec i p
    else if decide (inode_type img i = T_FILE) then
      [(i, LFile p (inode_size img i) (inode_nlink img i))]
    else if decide (inode_type img i = T_DEV) then
      [(i, LDev p (inode_major i) (inode_minor i))]
    else []
  else [].

Fixpoint listing (depth : nat) (i : Z) (path : list Z) : list (Z * line) :=
  match depth with
  | O => []
  | S depth' =>
      (i, LDir path (inode_nlink img i)) ::
      concat (entry_lines (listing depth') path <$> dir_entries img i)
  end.

(** ** The tree of directories *)
#[export] Instance is_dir_dec i : Decision (is_dir img i).
Proof. unfold is_dir. apply _. Defined.

Definition names_dir (e : dirent) : Prop := is_plain e ∧ is_dir img (de_inum e).
#[export] Instance names_dir_dec e : Decision (names_dir e).
Proof. unfold names_dir, is_plain, is_dot, is_dotdot, is_dir. apply _. Defined.

Definition children (i : Z) : list Z := de_inum <$> filter names_dir (dir_entries img i).

(** The directories visited from [i]. *)
Fixpoint visits (depth : nat) (i : Z) : list Z :=
  match depth with
  | O => []
  | S depth' => i :: (children i ≫= visits depth')
  end.

Local Abbreviation up := (dotdot (all_entries img)).

(** [level i n]: the directory [i] is [n] steps of ".." below the root. *)
Inductive level : Z → nat → Prop :=
| level_root : level ROOTINO 0
| level_step i n : i ≠ ROOTINO → level (up i) n → level i (S n).

Lemma level_unique i n m : level i n → level i m → n = m.
Proof.
  intros H. revert m. induction H as [|i n Hi H IH]; intros m Hm; inversion Hm; subst; try done.
  f_equal. auto.
Qed.

Lemma reaches_level i : reaches up i → ∃ n, level i n.
Proof.
  induction 1 as [|i Hi Hr [n Hn]]; [exists 0%nat; constructor|].
  destruct (decide (i = ROOTINO)) as [->|]; [exists 0%nat; constructor|].
  exists (S n). by constructor.
Qed.

(** A directory in use. *)
Definition used_dir (i : Z) : Prop := 1 ≤ i < ninodes g ∧ is_dir img i.

(** Entries that stay inside the inode table. *)
Definition entries_inside : Prop :=
  ∀ i e, 0 ≤ i < ninodes g → in_use img i → e ∈ dir_entries img i → de_inum e < ninodes g.

Section Consistent.
Hypothesis Hrep : representable img.
Hypothesis Hwm : well_mapped img.
Hypothesis Hc : structured img.
Hypothesis Hin : entries_inside.
Let Hsb : sbsize g = datblkednum g := c_superblock img Hc.

Lemma used_dir_in_use i : used_dir i → 0 ≤ i < ninodes g ∧ in_use img i.
Proof. unfold used_dir, is_dir, in_use. intros [? ->]. split; [lia|split; lia]. Qed.

Lemma entry_range i e : used_dir i → e ∈ dir_entries img i → 0 < de_inum e < ninodes g.
Proof.
  intros Hi He. apply used_dir_in_use in Hi as [? ?]. split.
  - by eapply (dir_entries_nonneg img Hrep Hsb).
  - by eapply Hin.
Qed.

Lemma used_dir_entry i e : used_dir i → e ∈ dir_entries img i → (i, e) ∈ all_entries img.
Proof. intros Hi He. apply used_dir_in_use in Hi as [? ?]. by apply all_entries_intro. Qed.

Lemma entry_used_dir p e : (p, e) ∈ all_entries img → used_dir p ∧ e ∈ dir_entries img p.
Proof.
  intros (Hp & [Hz _] & He)%(all_entries_inv img Hrep Hsb). split; [|done]. split; [lia|].
  unfold dir_entries, entries_in in He. case_decide; [done|set_solver].
Qed.

(** No ordinary entry names the root, and the ".." of a directory is the
    directory that names it. *)
Lemma plain_not_root p e : (p, e) ∈ all_entries img → is_plain e → is_dir img (de_inum e) →
  de_inum e ≠ ROOTINO.
Proof.
  intros Hpe Hpl Hd Hroot. pose proof (entry_used_dir _ _ Hpe) as [Hp _].
  rewrite Hroot in Hd. assert (1 ≤ ROOTINO < ninodes g) as Hr by (unfold ROOTINO, used_dir in *; lia).
  pose proof (c_dir_once img Hc ROOTINO Hr Hd) as Hone.
  destruct (used_dir_in_use ROOTINO (conj Hr Hd)) as [Hr' Hu].
  destruct (c_format img Hc ROOTINO Hr' Hu Hd) as (_ & Hdot & _).
  destruct (filter is_dot (dir_entries img ROOTINO)) as [|d l] eqn:Hf; [done|].
  assert (d ∈ filter is_dot (dir_entries img ROOTINO)) as [Hdd Hde]%list_elem_of_filter
    by (rewrite Hf; left).
  assert ((ROOTINO, d) ∈ all_entries img) as Hda by (by apply used_dir_entry).
  unfold refs in Hone.
  assert ((p, e) ∈ filter (refers ROOTINO) (all_entries img)) as H1
    by (apply list_elem_of_filter; split; [by right|done]).
  assert ((ROOTINO, d) ∈ filter (refers ROOTINO) (all_entries img)) as H2
    by (apply list_elem_of_filter; split; [by left|done]).
  destruct (filter (refers ROOTINO) (all_entries img)) as [|x [|]]; simpl in Hone; [lia| |lia].
  apply list_elem_of_singleton in H1, H2. simplify_eq. by destruct Hpl.
Qed.

Lemma up_child p e : (p, e) ∈ all_entries img → is_plain e → is_dir img (de_inum e) →
  up (de_inum e) = p.
Proof.
  intros Hpe Hpl Hd. pose proof (plain_not_root _ _ Hpe Hpl Hd) as Hnr.
  destruct (entry_used_dir _ _ Hpe) as [Hp He]. pose proof (entry_range _ _ Hp He) as Hr.
  unfold ROOTINO in Hnr.
  destruct (c_parent img Hc (de_inum e)) as (q & e' & Hq & Hpl' & Heq & <-); [lia|done|].
  destruct (parent_unique img Hrep Hsb (all_entries img) (de_inum e)) as (? & _ & _ & _ & Hun);
    [done|done|apply (c_dir_once img Hc); [lia|done]|].
  by rewrite (Hun _ _ Hq Hpl' Heq), (Hun _ _ Hpe Hpl eq_refl).
Qed.

Lemma up_used_dir i : used_dir i → i ≠ ROOTINO → used_dir (up i) ∧ i ∈ children (up i).
Proof.
  intros [Hi Hd] Hnr. unfold ROOTINO in Hnr.
  destruct (c_parent img Hc i) as (p & e & Hpe & Hpl & He & ->); [lia|done|].
  destruct (entry_used_dir _ _ Hpe) as [Hp Hin']. split; [done|].
  unfold children. rewrite <- He. apply list_elem_of_fmap_2, list_elem_of_filter.
  split; [|done]. split; [done|]. by rewrite He.
Qed.

Lemma children_spec i c : used_dir i → c ∈ children i →
  used_dir c ∧ c ≠ ROOTINO ∧ up c = i.
Proof.
  intros Hi (e & -> & [[Hpl Hd] He]%list_elem_of_filter)%list_elem_of_fmap.
  pose proof (entry_range _ _ Hi He). pose proof (used_dir_entry _ _ Hi He) as Hpe.
  split_and!; [split; [lia|done]|by eapply plain_not_root|by apply up_child].
Qed.

Lemma root_dir i n : level i n → used_dir i → used_dir ROOTINO.
Proof.
  induction 1 as [|i n Hi H IH]; intros Hd; [done|]. by apply IH, up_used_dir.
Qed.

Lemma dir_level i : used_dir i → ∃ n, level i n.
Proof. intros [Hi Hd]. by apply reaches_level, (c_reach img Hc). Qed.

(** The chain of ".." from a directory never repeats, so its length is
    bounded by the number of inodes. *)
Lemma level_chain i n : level i n → used_dir i →
  ∃ l, length l = S n ∧ NoDup l ∧ ∀ x, x ∈ l → used_dir x ∧ ∃ m, (m ≤ n)%nat ∧ level x m.
Proof.
  induction 1 as [|i n Hi H IH]; intros Hd.
  - exists [ROOTINO]. split_and!; [done|apply NoDup_singleton|].
    intros x ->%list_elem_of_singleton. split; [done|]. exists 0%nat. split; [lia|constructor].
  - destruct IH as (l & Hlen & Hnd & Hl); [by apply up_used_dir|].
    exists (i :: l). split_and!; [simpl; lia| |].
    + constructor; [|done]. intros Hx. destruct (Hl i Hx) as [_ (m & Hm & Hlv)].
      assert (level i (S n)) as Hlv' by (by constructor).
      pose proof (level_unique _ _ _ Hlv Hlv'). lia.
    + intros x [->|Hx]%elem_of_cons.
      * split; [done|]. exists (S n). split; [lia|by constructor].
      * destruct (Hl x Hx) as [? (m & ? & ?)]. split; [done|]. exists m. split; [lia|done].
Qed.

Lemma level_bound i n : level i n → used_dir i → (n < Z.to_nat (ninodes g))%nat.
Proof.
  intros H Hd. destruct (level_chain i n H Hd) as (l & Hlen & Hnd & Hl).
  pose proof (bounded_list_length (ninodes g) l Hnd) as Hb. rewrite Hlen in Hb.
  apply Hb. intros x [[? _] _]%Hl. lia.
Qed.

(** *** The visits are the used directories, each once *)
Lemma visits_levels d i n j : used_dir i → level i n → j ∈ visits d i →
  used_dir j ∧ ∃ m, level j (n + m) ∧ Nat.iter m up j = i.
Proof.
  revert i n. induction d as [|d IH]; intros i n Hi Hl Hj; [by apply not_elem_of_nil in Hj|].
  simpl in Hj. apply elem_of_cons in Hj as [->|Hj].
  - split; [done|]. exists 0%nat. by rewrite Nat.add_0_r.
  - apply list_elem_of_bind in Hj as (c & Hj & Hch).
    destruct (children_spec i c Hi Hch) as (Hcd & Hcr & Hup).
    destruct (IH c (S n)) as (Hjd & m & Hlj & Hit); [done|constructor; by rewrite ?Hup|done|].
    split; [done|]. exists (S m). rewrite Nat.add_succ_r. split; [done|].
    simpl. by rewrite Hit.
Qed.

Lemma children_count i k : used_dir i → is_dir img k →
  (Z.of_nat (length (filter (.= k) (children i))) ≤ refs (all_entries img) k).
Proof.
  intros Hi Hk. destruct (used_dir_in_use i Hi) as [Hir Hiu].
  unfold refs. apply inj_le. unfold all_entries. etrans; [|apply (filter_part_le _ _ _ i)].
  - unfold inode_entries. rewrite decide_True by done. unfold children.
    induction (dir_entries img i) as [|e es IH]; [simpl; lia|]. csimpl. rewrite !filter_cons.
    destruct (decide (names_dir e)) as [[Hpl Hd]|Hn]; csimpl; [rewrite filter_cons|].
    + destruct (decide (de_inum e = k)) as [Hek|]; [|case_decide; simpl; lia].
      rewrite decide_True by (by right). simpl. lia.
    + case_decide; simpl; lia.
  - apply elem_of_seqZ. lia.
Qed.

Lemma children_NoDup i : used_dir i → NoDup (children i).
Proof.
  intros Hi. apply NoDup_counts. intros k. destruct (decide (k ∈ children i)) as [Hk|Hk].
  - destruct (children_spec i k Hi Hk) as ([Hkr Hkd] & _ & _).
    pose proof (children_count i k Hi Hkd). rewrite (c_dir_once img Hc k Hkr Hkd) in *. lia.
  - rewrite filter_none; [simpl; lia|]. by intros x Hx ->.
Qed.

Lemma visits_NoDup d i n : used_dir i → level i n → NoDup (visits d i).
Proof.
  revert i n. induction d as [|d IH]; intros i n Hi Hl; [constructor|].
  assert (∀ c, c ∈ children i → used_dir c ∧ level c (S n)) as Hch.
  { intros c Hci. destruct (children_spec i c Hi Hci) as (Hcd & Hcr & Hup).
    split; [done|]. constructor; [done|]. by rewrite Hup. }
  simpl. constructor.
  - intros (c & Hj & Hci)%list_elem_of_bind. destruct (Hch c Hci) as [Hcd Hcl].
    destruct (visits_levels d c (S n) i Hcd Hcl Hj) as (_ & m & Hlm & _).
    pose proof (level_unique _ _ _ Hl Hlm). lia.
  - apply NoDup_bind; [| |by apply children_NoDup].
    + intros c1 c2 j Hc1 Hc2 Hj1 Hj2. destruct (Hch c1 Hc1) as [Hd1 Hl1], (Hch c2 Hc2) as [Hd2 Hl2].
      destruct (visits_levels _ _ _ _ Hd1 Hl1 Hj1) as (_ & m1 & Hm1 & <-).
      destruct (visits_levels _ _ _ _ Hd2 Hl2 Hj2) as (_ & m2 & Hm2 & <-).
      pose proof (level_unique _ _ _ Hm1 Hm2). f_equal. lia.
    + intros c Hci. destruct (Hch c Hci). by apply (IH c (S n)).
Qed.

Lemma visits_child d i p j : p ∈ visits d i → j ∈ children p → j ∈ visits (S d) i.
Proof.
  revert i. induction d as [|d IH]; intros i Hp Hj; [by apply not_elem_of_nil in Hp|].
  simpl in Hp. apply elem_of_cons in Hp as [->|Hp].
  - simpl. right. apply list_elem_of_bind. exists j. split; [left|done].
  - apply list_elem_of_bind in Hp as (c & Hp & Hci).
    change (j ∈ i :: (children i ≫= visits (S d))). right. apply list_elem_of_bind. exists c. eauto.
Qed.

Lemma visits_more d d' i : (d ≤ d')%nat → visits d i ⊆ visits d' i.
Proof.
  revert d' i. induction d as [|d IH]; intros d' i Hd j Hj; [by apply not_elem_of_nil in Hj|].
  destruct d' as [|d']; [lia|]. simpl in *. apply elem_of_cons in Hj as [->|Hj]; [left|right].
  apply list_elem_of_bind in Hj as (c & Hj & Hci). apply list_elem_of_bind.
  exists c. split; [|done]. by apply (IH d'); [lia|].
Qed.

Lemma level_visited j n : level j n → used_dir j → j ∈ visits (S n) ROOTINO.
Proof.
  induction 1 as [|j n Hj H IH]; intros Hd; [by left|].
  destruct (up_used_dir j Hd Hj) as [Hu Hci]. by apply (visits_child _ _ (up j)); [apply IH|].
Qed.

Lemma visits_all d : used_dir ROOTINO → (Z.to_nat (ninodes g) ≤ d)%nat →
  visits d ROOTINO ≡ₚ filter (is_dir img) (seqZ 1 (ninodes g - 1)).
Proof.
  intros Hroot Hd. apply NoDup_Permutation.
  - apply (visits_NoDup _ _ 0); [done|constructor].
  - apply NoDup_filter, NoDup_seqZ.
  - intros j. rewrite list_elem_of_filter, elem_of_seqZ. split.
    + intros Hj. apply (visits_levels _ _ 0) in Hj as [[? ?] _]; [|done|constructor].
      split; [done|lia].
    + intros [Hjt Hj]. assert (used_dir j) as Hjd by (split; [lia|done]).
      destruct (dir_level j Hjd) as [n Hn]. pose proof (level_bound j n Hn Hjd).
      by apply (visits_more (S n)); [lia|apply level_visited].
Qed.

(** *** Counting the lines about an inode *)
Definition mentions (k : Z) (e : dirent) : Prop := is_plain e ∧ de_inum e = k.
#[export] Instance mentions_dec k e : Decision (mentions k e).
Proof. unfold mentions, is_plain, is_dot, is_dotdot. apply _. Defined.

Definition about (k : Z) (l : list (Z * line)) : nat := length (filter (λ p, p.1 = k) l).

(** The lines about [k] that the visit of directory [j] prints itself. *)
Definition weight (k j : Z) : nat :=
  (if decide (j = k) then 1 else 0) +
  (if decide (is_dir img k) then 0 else length (filter (mentions k) (dir_entries img j))).

Lemma about_app k l1 l2 : about k (l1 ++ l2) = (about k l1 + about k l2)%nat.
Proof. unfold about. by rewrite filter_app, length_app. Qed.

(** An ordinary entry names an inode in use. *)
Lemma entry_type i e : used_dir i → e ∈ dir_entries img i → is_plain e →
  inode_type img (de_inum e) ∈ [1; 2; 3].
Proof.
  intros Hi He Hpl. pose proof (entry_range i e Hi He) as Hr.
  assert (0 < refs (all_entries img) (de_inum e)) as Hpos.
  { unfold refs. pose proof (used_dir_entry i e Hi He) as Hpe.
    assert ((i, e) ∈ filter (refers (de_inum e)) (all_entries img)) as Hf
      by (apply list_elem_of_filter; split; [by right|done]).
    destruct (filter _ _); [by apply not_elem_of_nil in Hf|simpl; lia]. }
  apply (c_referenced img Hc) in Hpos as [_ Hnz]; [|lia].
  pose proof (c_types img Hc (de_inum e) ltac:(lia)) as Ht. set_solver.
Qed.

Lemma entry_about k rec path i e : used_dir i → e ∈ dir_entries img i →
  about k (entry_lines rec path e) =
  ((if decide (is_dir img k) then 0 else if decide (mentions k e) then 1 else 0) +
   (if decide (names_dir e) then about k (rec (de_inum e) (childpath path (cstring (de_name e))))
    else 0))%nat.
Proof.
  intros Hi He. unfold entry_lines. destruct (decide (is_plain e)) as [Hpl|Hpl].
  2:{ rewrite !(decide_False (P := mentions _ _)), !(decide_False (P := names_dir _))
        by (unfold mentions, names_dir; tauto). by case_decide. }
  pose proof (entry_type i e Hi He Hpl) as Ht. unfold mentions, names_dir, is_dir, T_DIR, T_FILE, T_DEV in *.
  assert (∀ l, about k [(de_inum e, l)] = if decide (de_inum e = k) then 1%nat else 0%nat) as Hab.
  { intros l. unfold about. rewrite filter_cons, filter_nil. simpl. by case_decide. }
  destruct (decide (inode_type img (de_inum e) = 1)) as [H1|H1];
    [|destruct (decide (inode_type img (de_inum e) = 2)) as [H2|H2];
      [|destruct (decide (inode_type img (de_inum e) = 3)) as [H3|H3]; [|set_solver]]];
    rewrite ?Hab; repeat case_decide; subst; try tauto; try lia; congruence.
Qed.

Lemma listing_about k d i path : used_dir i →
  about k (listing d i path) = sum_list_with (weight k) (visits d i).
Proof.
  revert i path. induction d as [|d IH]; intros i path Hi; [done|]. simpl.
  assert (∀ es, (∀ e, e ∈ es → e ∈ dir_entries img i) →
    about k (concat (entry_lines (listing d) path <$> es)) =
    ((if decide (is_dir img k) then 0 else length (filter (mentions k) es)) +
     sum_list_with (weight k) ((de_inum <$> filter names_dir es) ≫= visits d))%nat) as Hes.
  { induction es as [|e es IHes]; intros Hsub; csimpl; [by case_decide|].
    rewrite about_app, IHes by (intros; apply Hsub; by right).
    rewrite (entry_about k _ path i e Hi (Hsub e ltac:(left))).
    rewrite !filter_cons. destruct (decide (names_dir e)) as [[Hpl Hd]|Hn]; csimpl.
    - rewrite sum_list_with_app, IH.
      2:{ split; [|done]. pose proof (entry_range i e Hi (Hsub e ltac:(left))). lia. }
      repeat case_decide; simpl; lia.
    - repeat case_decide; simpl; lia. }
  change (about k ((i, LDir path (inode_nlink img i)) :: ?l)) with 
    (about k ([(i, LDir path (inode_nlink img i))] ++ l)).
  rewrite about_app, Hes by done. unfold weight at 2, about.
  rewrite filter_cons, filter_nil. simpl. unfold children. repeat case_decide; simpl; lia.
Qed.

Lemma sum_one (k : Z) (l : list Z) : NoDup l → k ∈ l →
  sum_list_with (λ j, if decide (j = k) then 1 else 0)%nat l = 1%nat.
Proof.
  intros Hnd (l1 & l2 & ->)%list_elem_of_split.
  assert (∀ l, k ∉ l → sum_list_with (λ j, if decide (j = k) then 1 else 0)%nat l = 0%nat) as H0.
  { induction l as [|j l' IH]; intros Hk; [done|]. simpl. rewrite decide_False by set_solver.
    rewrite IH by set_solver. done. }
  apply NoDup_app in Hnd as (_ & H1 & [Hk _]%NoDup_cons).
  rewrite sum_list_with_app, H0; [|intros ?; by eapply H1; [|left]].
  simpl. rewrite decide_True by done. by rewrite H0.
Qed.

Lemma all_entries_dirs : 0 < ninodes g →
  all_entries img = concat (inode_entries img <$> filter (is_dir img) (seqZ 1 (ninodes g - 1))).
Proof.
  intros Hn. rewrite concat_filter.
  - unfold all_entries. rewrite (seqZ_cons 0), fmap_cons, concat_cons by done.
    assert (inode_entries img 0 = []) as ->
      by (unfold inode_entries; by rewrite decide_False by (by intros [? _])).
    rewrite app_nil_l. do 3 f_equal; lia.
  - intros i Hi. unfold inode_entries, dir_entries, entries_in. repeat case_decide; done.
Qed.

Lemma mentions_refers k j : k ≠ ROOTINO → in_use img j →
  length (filter (mentions k) (dir_entries img j)) = length (filter (refers k) (inode_entries img j)).
Proof.
  intros Hkr Hu. unfold inode_entries. rewrite decide_True by done.
  induction (dir_entries img j) as [|e es IHe]; [done|]. rewrite fmap_cons, !filter_cons.
  destruct (decide (mentions k e)) as [Hm|Hm].
  - rewrite decide_True by (by right). simpl. by rewrite IHe.
  - rewrite decide_False; [done|]. unfold refers, mentions in *; simpl. tauto.
Qed.

(** Every inode is listed as often as it is referenced. *)
Lemma listing_refs d k path : used_dir ROOTINO → (Z.to_nat (ninodes g) ≤ d)%nat →
  1 ≤ k < ninodes g →
  Z.of_nat (about k (listing d ROOTINO path)) = refs (all_entries img) k.
Proof.
  intros Hroot Hdepth Hk. rewrite listing_about, visits_all by done.
  destruct (decide (is_dir img k)) as [Hd|Hd].
  - rewrite (c_dir_once img Hc k Hk Hd).
    assert (k ∈ filter (is_dir img) (seqZ 1 (ninodes g - 1))) as Hin'
      by (apply list_elem_of_filter; split; [done|apply elem_of_seqZ; lia]).
    pose proof (sum_one k _ (NoDup_filter _ _ (NoDup_seqZ 1 (ninodes g - 1))) Hin') as Hone.
    transitivity (Z.of_nat 1); [|done]. rewrite <- Hone. f_equal. unfold weight.
    clear Hin' Hone. induction (filter _ _); simpl; [done|].
    destruct (decide (is_dir img k)) as [_|Hn]; [lia|by destruct Hn].
  - unfold refs. f_equal. rewrite all_entries_dirs by lia.
    assert (k ≠ ROOTINO) as Hkr by (intros ->; by apply Hd, Hroot).
    assert (∀ l, (∀ j, j ∈ l → used_dir j) →
      sum_list_with (weight k) l = length (filter (refers k) (concat (inode_entries img <$> l)))) as Hl.
    { induction l as [|j l IH]; intros Hl; [done|].
      rewrite fmap_cons, concat_cons, filter_app, length_app. simpl sum_list_with.
      rewrite IH by (intros; apply Hl; by right). f_equal.
      assert (used_dir j) as Hj by (apply Hl; left). destruct (used_dir_in_use j Hj) as [_ Hu].
      unfold weight. rewrite decide_False by (intros ->; by apply Hd, Hj).
      rewrite decide_False by done. apply mentions_refers; done. }
    apply Hl. intros j [Hj1 Hj2]%list_elem_of_filter. apply elem_of_seqZ in Hj2. split; [lia|done].
Qed.

(** *** The walk of the code is the listing *)
Lemma child_type_done i : 0 ≤ i < ninodes g → child_type img (inode_at i) = Done (inode_type img i).
Proof.
  intros Hi. unfold child_type. rewrite load16_mapped; [done|].
  rewrite <- (Z.add_0_r (inode_at i)). apply mapped_inode; auto; lia.
Qed.

Lemma child_addr_done i k : 0 ≤ i < ninodes g → 0 ≤ k ≤ NDIRECT →
  child_addr img (inode_at i) k = Done (inode_addr img i k).
Proof.
  intros Hi Hk. apply load32_mapped. rewrite <- Z.add_assoc. unfold NDIRECT, sizeof_uint in *.
  apply mapped_inode; auto; lia.
Qed.

Lemma child_field16 i off : 0 ≤ i < ninodes g → 0 ≤ off ≤ 60 →
  load16 (E := ls_error) img (inode_at i + off) = Done (rd16 img (inode_at i + off)).
Proof. intros Hi Hoff. apply load16_mapped, mapped_inode; auto; lia. Qed.

Lemma child_field32 i off : 0 ≤ i < ninodes g → 0 ≤ off ≤ 60 →
  load32 (E := ls_error) img (inode_at i + off) = Done (rd32 img (inode_at i + off)).
Proof. intros Hi Hoff. apply load32_mapped, mapped_inode; auto; lia. Qed.

Section Walk.
Variables (rec : Z → list Z → M (list line)) (rec' : Z → list Z → list (Z * line)) (i : Z).
Hypothesis Hi : used_dir i.
Hypothesis Hrec : ∀ c path, c ∈ children i → rec c path = Done (snd <$> rec' c path).

Lemma walk_entry_done path b k :
  in_data_range img b → 0 ≤ k < 32 →
  let e := rd_dirent img (b * BSIZE + k * sizeof_dirent) in
  (de_inum e ≠ 0 → e ∈ dir_entries img i) →
  walk_entry img rec path (blkptr b + k * sizeof_dirent) =
  Done (if decide (de_inum e ≠ 0) then snd <$> entry_lines rec' path e else []).
Proof.
  intros Hb Hk e He. unfold blkptr. unfold walk_entry.
  assert (∀ o l, 0 ≤ o → o + l ≤ 16 → mapped img (b * BSIZE + k * sizeof_dirent + o) l) as Hmap.
  { intros o l Ho Hl. rewrite <- Z.add_assoc. unfold sizeof_dirent. apply mapped_block; auto; lia. }
  rewrite load16_mapped by (rewrite <- (Z.add_0_r (_ + _)); apply Hmap; lia).
  change (rd16 img (b * BSIZE + k * sizeof_dirent)) with (de_inum e). cbn [obind].
  destruct (decide (de_inum e = 0)) as [H0|H0]; [by rewrite decide_False by tauto|].
  rewrite (decide_True (P := de_inum e ≠ 0)) by done. specialize (He H0).
  rewrite load_bytes_mapped by (by apply Hmap). cbn [obind].
  change (rd_bytes img (b * BSIZE + k * sizeof_dirent + 2) (Z.to_nat DIRSIZ)) with (de_name e).
  assert (length (de_name e) = 14%nat) as Hlen by apply length_rd_bytes.
  pose proof (name_strncmp name_dot [46] (de_name e) eq_refl ltac:(simpl; lia) Hlen) as Hd1.
  pose proof (name_strncmp name_dotdot [46; 46] (de_name e) eq_refl ltac:(simpl; lia) Hlen) as Hd2.
  fold (is_dot e) in Hd1. fold (is_dotdot e) in Hd2. unfold entry_lines.
  destruct (decide (is_plain e)) as [Hpl|Hpl].
  2:{ rewrite decide_True; [done|]. unfold is_plain in Hpl.
      destruct (decide (is_dot e)); [left; tauto|].
      destruct (decide (is_dotdot e)); [right; tauto|tauto]. }
  rewrite decide_False by (unfold is_plain in Hpl; tauto).
  pose proof (entry_range i e Hi He) as Hr. rewrite child_type_done by lia. cbn [obind].
  destruct (decide (inode_type img (de_inum e) = T_DIR)) as [Hd|Hd].
  { apply Hrec. unfold children. by apply list_elem_of_fmap_2, list_elem_of_filter. }
  unfold child_size, child_nlink, child_major, child_minor.
  case_decide; [by rewrite child_field32, child_field16 by lia|].
  case_decide; [|done]. by rewrite !child_field16 by lia.
Qed.

Lemma dir_block_entry b e : b ∈ data_blocks img i → e ∈ block_entries img b →
  e ∈ dir_entries img i.
Proof.
  intros Hb He. unfold dir_entries, entries_in. rewrite decide_True by apply Hi.
  apply list_elem_of_In, in_concat. exists (block_entries img b).
  split; apply list_elem_of_In; [by apply list_elem_of_fmap_2|done].
Qed.

Lemma walk_dirblock_done path b : in_data_range img b → b ∈ data_blocks img i →
  walk_dirblock img rec b path =
  Done (concat ((λ e, snd <$> entry_lines rec' path e) <$> block_entries img b)).
Proof.
  intros Hb Hbi. unfold walk_dirblock, block_entries.
  rewrite (mfor_collect _ _ (λ k, let e := rd_dirent img (b * BSIZE + k * sizeof_dirent) in
    if decide (de_inum e ≠ 0) then snd <$> entry_lines rec' path e else [])).
  - rewrite app_nil_l. f_equal. apply concat_guard; intros k Hk.
    + by rewrite decide_True.
    + by rewrite decide_False.
  - intros k out Hk. apply elem_of_seqZ in Hk. change (BSIZE / sizeof_dirent) with 32 in Hk.
    rewrite walk_entry_done; [done|done|lia|]. intros Hz. apply (dir_block_entry b); [done|].
    apply list_elem_of_filter. split; [done|]. apply list_elem_of_fmap. exists k.
    split; [done|]. apply elem_of_seqZ. change (BSIZE / sizeof_dirent) with 32. lia.
Qed.

(** The loop over an address array. *)
Lemma walk_slots_done path n (af : Z → Z) (ld : Z → M Z) out :
  (∀ k, 0 ≤ k < n → ld k = Done (af k)) →
  (∀ b, b ∈ in_use_addrs (af <$> seqZ 0 n) → in_data_range img b ∧ b ∈ data_blocks img i) →
  mfor (seqZ 0 n) (walk_slot img rec path ld) out =
  Done (out ++ (snd <$> concat (entry_lines rec' path <$>
                                concat (block_entries img <$> in_use_addrs (af <$> seqZ 0 n))))).
Proof.
  intros Hld Hbs.
  rewrite (mfor_collect _ _ (λ k, if decide (af k ≠ 0) then
    concat ((λ e, snd <$> entry_lines rec' path e) <$> block_entries img (af k)) else [])).
  - do 2 f_equal. rewrite (concat_guard (λ a, a ≠ 0) (λ a,
      concat ((λ e, snd <$> entry_lines rec' path e) <$> block_entries img a)) af)
      by (intros k Hk; first [by rewrite decide_True by done|by rewrite decide_False by done]).
    fold (in_use_addrs (af <$> seqZ 0 n)). clear. induction (in_use_addrs _) as [|b l IH]; [done|].
    csimpl. rewrite IH, fmap_app, concat_app, fmap_app. f_equal. by rewrite fmap_concat_fmap.
  - intros k o Hk. pose proof Hk as Hk'. apply elem_of_seqZ in Hk'. unfold walk_slot.
    rewrite Hld by lia. cbn [obind]. destruct (decide (af k = 0)) as [|Hz].
    + rewrite decide_False by tauto. by rewrite app_nil_r.
    + rewrite decide_True by done. destruct (Hbs (af k)) as [Hr Hd].
      { apply list_elem_of_filter. split; [done|]. by apply list_elem_of_fmap_2. }
      by rewrite walk_dirblock_done.
Qed.
End Walk.

Lemma dir_blocks_ok i b : used_dir i → b ∈ owned img i → in_data_range img b.
Proof. intros Hi Hb. destruct (used_dir_in_use i Hi). by apply (c_range img Hc i). Qed.

Lemma ls_dir_listing d i n path : used_dir i → level i n →
  (Z.to_nat (ninodes g) ≤ d + n)%nat →
  ls_dir img d i path = Done (snd <$> listing d i path).
Proof.
  revert i n path. induction d as [|d IH]; intros i n path Hi Hl Hd.
  { pose proof (level_bound i n Hl Hi). lia. }
  destruct (used_dir_in_use i Hi) as [Hir _]. cbn [ls_dir listing].
  rewrite child_type_done by done. cbn [obind].
  rewrite decide_False by (intros Hn; apply Hn, Hi). unfold child_nlink.
  rewrite child_field16 by lia. cbn [obind]. fold (inode_nlink img i).
  assert (∀ c p, c ∈ children i → ls_dir img d c p = Done (snd <$> listing d c p)) as Hrec.
  { intros c p Hci. destruct (children_spec i c Hi Hci) as (Hcd & Hcr & Hup).
    apply (IH c (S n)); [done|constructor; [done|by rewrite Hup]|lia]. }
  rewrite (walk_slots_done _ (listing d) i Hi Hrec path NDIRECT (inode_addr img i)).
  2:{ intros k Hk. apply child_addr_done; [done|lia]. }
  2:{ intros b Hb. split; [apply (dir_blocks_ok i); [done|]|]; apply elem_of_app; by left. }
  cbn [obind]. rewrite child_addr_done by (done || lia). cbn [obind].
  assert (dir_entries img i = concat (block_entries img <$> data_blocks img i)) as ->
    by (unfold dir_entries, entries_in; by rewrite decide_True by apply Hi).
  unfold data_blocks. fold (direct_blocks img i). unfold indirect_blocks.
  destruct (decide (inode_addr img i NDIRECT = 0)) as [Hz|Hz].
  - rewrite decide_False by tauto. by rewrite app_nil_r.
  - rewrite decide_True by done.
    rewrite (walk_slots_done _ (listing d) i Hi Hrec path NINDIRECT
      (λ k, rd32 img (inode_addr img i NDIRECT * BSIZE + k * sizeof_uint))).
    + fold (indirect_table img (inode_addr img i NDIRECT)).
      rewrite (fmap_app (block_entries img)), concat_app, (fmap_app (entry_lines _ _)), concat_app.
      rewrite fmap_cons, fmap_app. done.
    + intros k Hk. apply load32_mapped. apply mapped_block; auto.
      * apply (dir_blocks_ok i); [done|]. unfold owned. rewrite decide_False by done. set_solver.
      * unfold sizeof_uint. lia.
      * change NINDIRECT with 128 in Hk. unfold sizeof_uint. lia.
    + intros b Hb. split.
      * apply (dir_blocks_ok i); [done|]. unfold owned. rewrite decide_False by done.
        apply elem_of_app. right. by right.
      * unfold data_blocks, indirect_blocks. rewrite decide_False by done.
        apply elem_of_app. by right.
Qed.

(** Each line tells the truth about its inode. *)
Definition describes (p : Z * line) : Prop :=
  match p.2 with
  | LDir _ nlink => is_dir img p.1 ∧ nlink = inode_nlink img p.1
  | LFile _ size nlink =>
      inode_type img p.1 = T_FILE ∧ size = inode_size img p.1 ∧ nlink = inode_nlink img p.1
  | LDev _ major minor =>
      inode_type img p.1 = T_DEV ∧ major = inode_major p.1 ∧ minor = inode_minor p.1
  | LSuper _ _ _ => False
  end.

Lemma listing_describes d i path : is_dir img i → Forall describes (listing d i path).
Proof.
  revert i path. induction d as [|d IH]; intros i path Hi; simpl; [constructor|].
  constructor; [done|]. apply Forall_concat, Forall_fmap, Forall_true. intros e.
  unfold compose, entry_lines. repeat case_decide; try apply Forall_singleton; try constructor; auto.
Qed.

(** Without a root there is nothing else. *)
Lemma no_root_empty : ¬ is_dir img ROOTINO → 1 < ninodes g → all_entries img = [].
Proof.
  intros Hr Hn. rewrite all_entries_dirs by lia. rewrite filter_none; [done|].
  intros i Hi Hd. apply elem_of_seqZ in Hi. assert (used_dir i) as Hi' by (split; [lia|done]).
  destruct (dir_level i Hi') as [n Hlv]. by apply Hr, (root_dir i n Hlv).
Qed.
End Consistent.
End Listing.
