(* ===== verification/LsfsTheorems.v ===== *)
(** * Results on the image lister

    On a consistent image the recursive walk of lsfs.c is total (no read
    outside the mapping, and a stack with room for as many calls as there are
    inodes is never used up), and it lists every inode in use once per name:
    directories once, a file as often as it is referenced.  Without the
    checker's guarantees the recursion need not end. *)
From S2P Require Import Prelude CInt FsLayout Image Fsck FsckSpec FsckProof FsckTheorems Lsfs LsfsProof.
Import Ls.

(** ** Results *)

(** The lines of [main] after the superblock. *)
Definition superblock_line (img : image) : line :=
  LSuper (sbsize (geometry img)) (nblocks (geometry img)) (ninodes (geometry img)).

Lemma main_lines img depth :
  representable img → well_mapped img →
  main depth 2 (Some (Some img)) =
  (let! out := ls_dir img depth ROOTINO [] in Done (superblock_line img :: out)).
Proof.
  intros Hrep Hwm. pose proof (wm_meta img Hwm) as Hm. pose proof (datblkst_pos img Hrep).
  assert (2048 ≤ map_len img) as Hlen by (unfold BSIZE in Hm; lia).
  assert (st_size img ≠ 0) as Hsz.
  { intros Hz. unfold map_len in Hlen. rewrite Hz in Hlen. by vm_compute in Hlen. }
  unfold main. rewrite decide_False, decide_False by (done || tauto).
  assert (∀ o, 0 ≤ o ≤ 508 →
    load32 (E := ls_error) img (BSIZE + o) = Done (rd32 img (BSIZE + o))) as Hld.
  { intros o Ho. apply load32_mapped. unfold mapped, BSIZE. lia. }
  pose proof (Hld 0 ltac:(lia)) as H0. rewrite Z.add_0_r in H0. rewrite H0, !Hld by lia. done.
Qed.

(** C7: the lister implements its specification.  On a well-mapped image that
    is consistent (whether or not the sizes of its inodes are right), with a root directory and entries inside the inode table, a stack
    with room for [ninodes] nested calls is enough for the recursion of
    [ls_dir] and [walk_dirblock], nothing is read outside the mapping, and
    the lines printed are those of [listing]: per directory its own line and
    then, in the order of its blocks and entries, the lines of its ordinary
    entries with their paths. *)
Theorem lister_refines img depth :
  representable img → well_mapped img → structured img → entries_inside img →
  1 < ninodes (geometry img) → is_dir img ROOTINO →
  (Z.to_nat (ninodes (geometry img)) ≤ depth)%nat →
  main depth 2 (Some (Some img)) =
  Done (superblock_line img :: (listing img depth ROOTINO []).*2).
Proof.
  intros Hrep Hwm Hc Hin Hn Hroot Hd. rewrite main_lines by done.
  rewrite (ls_dir_listing img Hrep Hwm Hc Hin depth ROOTINO 0); [done| |constructor|lia].
  split; [unfold ROOTINO; lia|done].
Qed.

(** C8: the listing is complete and truthful, whether or not the sizes of the
    inodes are right.  Each line after the first is
    about one inode and shows its fields; a directory has exactly one line, a
    regular file as many as its link count, a device at least one, a free
    inode none. *)
Theorem lister_complete img depth :
  representable img → well_mapped img → structured img → entries_inside img →
  1 < ninodes (geometry img) → (Z.to_nat (ninodes (geometry img)) ≤ depth)%nat →
  ∃ l, main depth 2 (Some (Some img)) = Done (superblock_line img :: l.*2) ∧
       Forall (describes img) l ∧
       ∀ i, 1 ≤ i < ninodes (geometry img) →
         (inode_type img i = T_DIR → about i l = 1%nat) ∧
         (inode_type img i = T_FILE → Z.of_nat (about i l) = inode_nlink img i) ∧
         (inode_type img i = T_DEV → (0 < about i l)%nat) ∧
         (inode_type img i = 0 → about i l = 0%nat).
Proof.
  intros Hrep Hwm Hc Hin Hn Hd.
  assert (∃ l, main depth 2 (Some (Some img)) = Done (superblock_line img :: l.*2) ∧
    Forall (describes img) l ∧ ∀ i, 1 ≤ i < ninodes (geometry img) →
      Z.of_nat (about i l) = refs (all_entries img) i) as (l & Hm & Hdesc & Hcnt).
  { rewrite main_lines by done. destruct (decide (is_dir img ROOTINO)) as [Hroot|Hroot].
    - assert (used_dir img ROOTINO) as Hu by (split; [unfold ROOTINO; lia|done]).
      exists (listing img depth ROOTINO []).
      rewrite (ls_dir_listing img Hrep Hwm Hc Hin depth ROOTINO 0) by (done || constructor || lia).
      split_and!; [done|by apply listing_describes|]. intros i Hi. by apply listing_refs.
    - exists []. split_and!; [|constructor|].
      + destruct depth as [|depth]; [lia|]. cbn [ls_dir].
        rewrite child_type_done by (auto; unfold ROOTINO; lia). cbn [obind].
        by rewrite decide_True.
      + intros i Hi. by rewrite no_root_empty. }
  exists l. split_and!; [done|done|]. intros i Hi. specialize (Hcnt i Hi).
  pose proof (c_referenced img Hc i Hi) as Href. unfold in_use in Href.
  split_and!; intros Ht.
  - rewrite (c_dir_once img Hc i Hi Ht) in Hcnt. lia.
  - by rewrite Hcnt, (c_nlink img Hc i Hi Ht).
  - rewrite <- Hcnt in Href. assert (i ≠ 0 ∧ inode_type img i ≠ 0) as Hp%Href; [|lia].
    rewrite Ht. unfold T_DEV. lia.
  - assert (¬ 0 < refs (all_entries img) i); [|lia]. rewrite <- Href. tauto.
Qed.

(** The hypotheses hold of the sample image. *)
Lemma sample_entries_inside : entries_inside sample_image.
Proof.
  intros i e Hi Hu He. pose proof (all_entries_intro _ _ _ Hi Hu He) as Hin.
  assert (forallb (λ p : Z * dirent, bool_decide (de_inum p.2 < ninodes (geometry sample_image)))
            (all_entries sample_image) = true) as Hall by (vm_compute; reflexivity).
  rewrite forallb_forall in Hall. apply list_elem_of_In in Hin.
  by apply Hall, bool_decide_eq_true in Hin.
Qed.

Lemma lister_refines_witness :
  main 8 2 (Some (Some sample_image)) =
  Done [LSuper 7 2 8; LDir [] 2; LFile [47; 97] 10 1].
Proof.
  rewrite (lister_refines sample_image 8);
    [vm_compute; reflexivity|apply sample_readable|apply sample_readable|apply (c_structured _ sample_consistent)
    |apply sample_entries_inside|vm_compute; reflexivity|vm_compute; reflexivity
    |apply Nat.leb_le; vm_compute; reflexivity].
Defined.

Lemma lister_complete_witness :
  ∃ l, main 8 2 (Some (Some sample_image)) = Done (superblock_line sample_image :: l.*2) ∧
       about 1 l = 1%nat ∧ about 2 l = 1%nat ∧ about 3 l = 0%nat.
Proof.
  destruct (lister_complete sample_image 8) as (l & Hm & _ & Hl);
    [apply sample_readable|apply sample_readable|apply (c_structured _ sample_consistent)
    |apply sample_entries_inside|vm_compute; reflexivity
    |apply Nat.leb_le; vm_compute; reflexivity|].
  exists l. split; [exact Hm|].
  assert (ninodes (geometry sample_image) = 8) as Hn by (vm_compute; reflexivity).
  destruct (Hl 1) as (H1 & _); [lia|].
  destruct (Hl 2) as (_ & H2 & _); [lia|].
  destruct (Hl 3) as (_ & _ & _ & H3); [lia|].
  split; [apply H1; vm_compute; reflexivity|]. split; [|apply H3; vm_compute; reflexivity].
  apply Nat2Z.inj. rewrite H2 by (vm_compute; reflexivity). vm_compute. reflexivity.
Defined.

(** ** A directory that contains itself *)
Definition loop_image : image :=
  image_of_blocks (sample_blocks [dirent_of 1 [46]; dirent_of 1 [46; 46]; dirent_of 1 [97]] [127]).

Lemma mfor_exit {E X S} (l1 : list X) x l2 (f : X → S → outcome E S) s s1 e :
  mfor l1 f s = Done s1 → f x s1 = Exit e → mfor (l1 ++ x :: l2) f s = Exit e.
Proof.
  revert s. induction l1 as [|y l1 IH]; intros s; simpl; [intros [= ->] ->; done|].
  destruct (f y s); simpl; [apply IH|done..].
Qed.

Lemma loop_block rec path : (∀ p, rec 1 p = Exit stack_overflow) →
  walk_dirblock loop_image rec 5 path = Exit stack_overflow.
Proof.
  intros Hrec. unfold walk_dirblock.
  apply (mfor_exit [0; 1] 2 (seqZ 3 29) _ [] []); [by vm_compute|].
  assert (∀ e, load16 (E := ls_error) loop_image e = Done 1 →
    load_bytes (E := ls_error) loop_image (e + 2) 14 = Done (97 :: replicate 13 0) →
    walk_entry loop_image rec path e = Exit stack_overflow) as Hwalk.
  { intros e H1 H2. unfold walk_entry. rewrite H1. cbn [obind]. rewrite decide_False by done.
    change (Z.to_nat DIRSIZ) with 14%nat. rewrite H2. cbn [obind].
    rewrite decide_False by (intros [H|H]; vm_compute in H; discriminate).
    assert (child_type loop_image (inode_at 1) = Done T_DIR) as -> by (vm_compute; reflexivity).
    cbn [obind]. rewrite decide_True by done. apply Hrec. }
  rewrite Hwalk; [done|vm_compute; reflexivity..].
Qed.

(** C9: the recursion of lsfs has no guard against cycles.  On an image whose
    root directory has an ordinary entry for itself the lister uses up any
    stack; myfsck reports the same image. *)
Theorem lister_cycle depth :
  main depth 2 (Some (Some loop_image)) = Exit stack_overflow ∧
  check_image loop_image = Exit bad_directory_once_error.
Proof.
  split; [|vm_compute; reflexivity].
  assert (∀ path, ls_dir loop_image depth 1 path = Exit stack_overflow) as Hls.
  { induction depth as [|d IH]; intros path; [done|]. cbn [ls_dir].
    assert (child_type loop_image (inode_at 1) = Done T_DIR) as -> by (vm_compute; reflexivity).
    cbn [obind]. rewrite decide_False by tauto.
    assert (child_nlink loop_image (inode_at 1) = Done 2) as -> by (vm_compute; reflexivity).
    cbn [obind]. erewrite (mfor_exit [] 0 (seqZ 1 11)); [done|done|].
    unfold walk_slot. assert (child_addr loop_image (inode_at 1) 0 = Done 5) as ->
      by (vm_compute; reflexivity).
    cbn [obind]. rewrite decide_False by done. by rewrite loop_block. }
  unfold main. rewrite decide_False by tauto. rewrite decide_False by done.
  assert (∀ o, o ∈ [0; 4; 8] → ∃ v, load32 (E := ls_error) loop_image (BSIZE + o) = Done v) as Hld.
  { intros o Ho. rewrite !elem_of_cons in Ho. destruct Ho as [->|[->|[->|Ho]]];
      [eexists; vm_compute; reflexivity..|by apply not_elem_of_nil in Ho]. }
  destruct (Hld 0 ltac:(set_solver)) as [v0 H0], (Hld 4 ltac:(set_solver)) as [v1 H1],
    (Hld 8 ltac:(set_solver)) as [v2 H2]. rewrite Z.add_0_r in H0.
  rewrite H0, H1, H2. cbn [obind]. change ROOTINO with 1. by rewrite Hls.
Qed.
