(* ===== verification/Mkfs.v ===== *)
(** * The image builder (src/Myfsck/mkfs.c)

    The image file as sectors, the allocators, appending to a file, and the
    recursive copy of a host directory.  Host files and directories are the
    input; the pointers of the hard-link list are modelled, because the list
    is built from memory that [malloc] leaves uninitialised. *)
From S2P Require Import Prelude CInt FsLayout Image.

#[local] Set Warnings "-register-all".

Module Mk.

Definition BLOCK_SIZE : Z := 512.

(** How the program ends early: too few arguments, an I/O call failed, an
    [assert] failed, or [add_dir] returned an error; [endless] is a loop that
    has no end. *)
Inductive mkfs_error := usage_error | io_error | assertion | add_dir_error | endless.

Abbreviation M := (outcome mkfs_error).

Record HardLinkMapNode := Node {
  fsINode : Z;
  hostINode : Z;
  remainLink : Z;
  next : option nat;
}.

(** ** Global variables and the image file *)
Record fs := Fs {
  nsect : Z;                         (* length of the file in sectors *)
  disk : gmap Z (list Z);            (* its sectors; a hole reads as zeroes *)
  freeblock : Z;
  usedblocks : Z;
  freeinode : Z;
  links : gmap nat HardLinkMapNode;  (* nodes allocated by malloc *)
  hardLinkMapRoot : option nat;
}.

(** The global [ninodes]; the two others are shadowed or unused. *)
Definition ninodes : Z := 200.

Definition set_disk (n : Z) (d : gmap Z (list Z)) (st : fs) : fs :=
  Fs n d (freeblock st) (usedblocks st) (freeinode st) (links st) (hardLinkMapRoot st).
Definition set_blocks (fb ub : Z) (st : fs) : fs :=
  Fs (nsect st) (disk st) fb ub (freeinode st) (links st) (hardLinkMapRoot st).
Definition set_freeinode (i : Z) (st : fs) : fs :=
  Fs (nsect st) (disk st) (freeblock st) (usedblocks st) i (links st) (hardLinkMapRoot st).
Definition set_links (l : gmap nat HardLinkMapNode) (r : option nat) (st : fs) : fs :=
  Fs (nsect st) (disk st) (freeblock st) (usedblocks st) (freeinode st) l r.

(** ** Byte order *)
Definition xshort (x : Z) : Z := le_combine [u8 x; u8 (Z.shiftr x 8)].
Definition xint (x : Z) : Z :=
  le_combine [u8 x; u8 (Z.shiftr x 8); u8 (Z.shiftr x 16); u8 (Z.shiftr x 24)].

(** ** Sectors *)
Definition zeroes : list Z := replicate 512 0.

Definition sector (st : fs) (sec : Z) : list Z := default zeroes (disk st !! sec).

Definition wsect (sec : Z) (buf : list Z) (st : fs) : M fs :=
  Done (set_disk (Z.max (nsect st) (sec + 1)) (<[sec := buf]> (disk st)) st).

(** A read at or past the end of the file returns 0. *)
Definition rsect (sec : Z) (st : fs) : M (list Z) :=
  if decide (sec < nsect st) then Done (sector st sec) else Exit io_error.

(** Overwriting part of a buffer. *)
Definition patch (off : Z) (bytes buf : list Z) : list Z :=
  take (Z.to_nat off) buf ++ bytes ++ drop (Z.to_nat off + length bytes) buf.

(** ** Inodes *)
Definition i2b (inum : Z) : Z := inum / IPB + 2.

Definition winode (inum : Z) (ip : dinode) (st : fs) : M fs :=
  let bn := i2b inum in
  let! buf := rsect bn st in
  wsect bn (patch (inum mod IPB * sizeof_dinode) (encode_dinode ip) buf) st.

Definition rinode (inum : Z) (st : fs) : M dinode :=
  let bn := i2b inum in
  let! buf := rsect bn st in
  Done (decode_dinode (slice (Z.to_nat (inum mod IPB * sizeof_dinode)) (Z.to_nat sizeof_dinode) buf)).

Definition zero_dinode : dinode := Dinode 0 0 0 0 0 (replicate 13 0).

Definition ialloc (type : Z) (st : fs) : M (Z * fs) :=
  let inum := freeinode st in
  let st1 := set_freeinode (u32 (freeinode st + 1)) st in
  let din := Dinode (s16 (xshort type)) 0 0 (s16 (xshort (if decide (type = T_DIR) then 2 else 1)))
                    (xint 0) (replicate 13 0) in
  let! st2 := winode inum din st1 in
  Done (inum, st2).

(** [++din.nlink] on a [short]. *)
Definition add_link (inum : Z) (st : fs) : M fs :=
  let! din := rinode inum st in
  winode inum (Dinode (di_type din) (di_major din) (di_minor din) (s16 (di_nlink din + 1))
                      (di_size din) (di_addrs din)) st.

(** ** Blocks *)

(** [freeblock++; usedblocks++]: the block handed out. *)
Definition take_block (st : fs) : Z * fs :=
  (xint (freeblock st), set_blocks (u32 (freeblock st + 1)) (u32 (usedblocks st + 1)) st).

Definition balloc (used : Z) (st : fs) : M fs :=
  if decide (used < 512 * 8) then
    let! buf := mfor (seqZ 0 used)
                  (λ i buf, let! b := aget buf (i / 8) in
                            aset buf (i / 8) (u8 (Z.lor b (Z.shiftl 1 (i mod 8)))))
                  zeroes in
    wsect (ninodes / IPB + 3) buf st
  else Exit assertion.

(** The block that holds file block [fbn] of [din], allocated if necessary:
    the block, the inode and the state. *)
Definition file_block (fbn : Z) (din : dinode) (st : fs) : M (Z * dinode * fs) :=
  let with_addr k v := Dinode (di_type din) (di_major din) (di_minor din) (di_nlink din)
                              (di_size din) (<[Z.to_nat k := v]> (di_addrs din)) in
  if decide (fbn < NDIRECT) then
    let! a := aget (di_addrs din) fbn in
    if decide (xint a = 0) then
      let '(b, st1) := take_block st in Done (xint b, with_addr fbn b, st1)
    else Done (xint a, din, st)
  else
    let! a := aget (di_addrs din) NDIRECT in
    let '(din1, st1) :=
      if decide (xint a = 0) then
        let '(b, st1) := take_block st in (with_addr NDIRECT b, st1)
      else (din, st) in
    let! ia := aget (di_addrs din1) NDIRECT in
    let! indirect := rsect (xint ia) st1 in
    let k := fbn - NDIRECT in
    let x := get32 indirect (Z.to_nat (4 * k)) in
    if decide (x = 0) then
      let '(b, st2) := take_block st1 in
      let! st3 := wsect (xint ia) (patch (4 * k) (le_split 4 b) indirect) st2 in
      Done (xint b, din1, st3)
    else Done (xint x, din1, st1).

(** The loop of [iappend]: [p] are the bytes still to be written.  Every
    iteration writes at least one, so the length of [p] is enough fuel. *)
Fixpoint append_loop (fuel : nat) (off : Z) (p : list Z) (din : dinode) (st : fs) : M (Z * dinode * fs) :=
  match p with
  | [] => Done (off, din, st)
  | _ =>
      match fuel with
      | O => Exit endless
      | S fuel' =>
          let fbn := off / 512 in
          if decide (fbn < MAXFILE) then
            let! r := file_block fbn din st in
            let '(x, din1, st1) := r in
            let n1 := Z.min (Z.of_nat (length p)) (u32 ((fbn + 1) * 512 - off)) in
            let! buf := rsect x st1 in
            let! st2 := wsect x (patch (off - fbn * 512) (take (Z.to_nat n1) p) buf) st1 in
            append_loop fuel' (u32 (off + n1)) (drop (Z.to_nat n1) p) din1 st2
          else Exit assertion
      end
  end.

Definition set_size (sz : Z) (d : dinode) : dinode :=
  Dinode (di_type d) (di_major d) (di_minor d) (di_nlink d) sz (di_addrs d).

Definition iappend (inum : Z) (xp : list Z) (st : fs) : M fs :=
  let! din := rinode inum st in
  let! r := append_loop (length xp) (xint (di_size din)) xp din st in
  let '(off, din1, st1) := r in
  winode inum (set_size (xint off) din1) st1.

(** ** The hard-link list *)

(** [malloc]: a block that is not in use, and what its [next] field happens
    to hold, which may depend on everything that happened before: nothing is
    promised about the contents, and a block that has been freed may come
    back as it was left. *)
Class Malloc := {
  malloc : fs → nat * option nat;
  malloc_unused : ∀ st, links st !! (malloc st).1 = None;
}.

Section Links.
Context (A : Malloc).

Definition deref (st : fs) (l : nat) : M HardLinkMapNode :=
  match links st !! l with Some n => Done n | None => Fault end.

Definition set_next (nx : option nat) (n : HardLinkMapNode) : HardLinkMapNode :=
  Node (fsINode n) (hostINode n) (remainLink n) nx.
Definition set_remain (r : Z) (n : HardLinkMapNode) : HardLinkMapNode :=
  Node (fsINode n) (hostINode n) r (next n).

(** The node a search of the list ends at. *)
Inductive search := Found (curr : nat) (last : option nat) | NotFound (last : option nat).

Fixpoint find_link (fuel : nat) (host : Z) (curr last : option nat) (st : fs) : M search :=
  match curr with
  | None => Done (NotFound last)
  | Some c =>
      match fuel with
      | O => Exit endless
      | S fuel' =>
          let! n := deref st c in
          if decide (hostINode n = host) then Done (Found c last)
          else find_link fuel' host (next n) (Some c) st
      end
  end.

(** [fetchHardLink].  A list without a cycle has at most as many nodes as
    there are allocated ones, so a search that takes longer has no end. *)
Definition fetchHardLink (host nlinks : Z) (st : fs) : M (Z * fs) :=
  let! s := find_link (S (size (links st))) host (hardLinkMapRoot st) None st in
  match s with
  | Found c last =>
      let! n := deref st c in
      let r := u32 (remainLink n - 1) in
      let st1 := set_links (<[c := set_remain r n]> (links st)) (hardLinkMapRoot st) st in
      if decide (r = 0) then
        match last with
        | Some l =>
            let! ln := deref st1 l in
            Done (fsINode n, set_links (delete c (<[l := set_next (next n) ln]> (links st1)))
                                       (hardLinkMapRoot st1) st1)
        | None => Done (fsINode n, set_links (delete c (links st1)) None st1)
        end
      else Done (fsINode n, st1)
  | NotFound last =>
      let '(loc, garbage) := malloc st in
      let! st1 :=
        match last with
        | Some l =>
            let! ln := deref st l in
            Done (set_links (<[l := set_next (Some loc) ln]> (links st)) (hardLinkMapRoot st) st)
        | None => Done (set_links (links st) (Some loc) st)
        end in
      let! r := ialloc T_FILE st1 in
      let node := Node r.1 host (u32 (nlinks - 1)) garbage in
      Done (r.1, set_links (<[loc := node]> (links r.2)) (hardLinkMapRoot r.2) r.2)
  end.

(** [freeHardLinkMap]: the loop reads [curr->next] after it has freed
    [curr]. *)
Definition freeHardLinkMap (st : fs) : M fs :=
  match hardLinkMapRoot st with
  | None => Done (set_links (links st) None st)
  | Some c => deref st c ;;! Fault
  end.

(** ** Directories *)

(** A directory tree of the host.  [HDir None]: the directory could not be
    opened ([DIR *] is NULL); [HUnreadable]: [open] or [fstat] failed. *)
Inductive host :=
| HDir (entries : option (list (list Z * host)))
| HFile (st_ino st_nlink : Z) (data : list Z)
| HUnreadable.

Definition dot : list Z := [46].
Definition dotdot : list Z := [46; 46].

(** [strncpy(de.name, s, DIRSIZ)]: at most 14 bytes, padded with zeroes. *)
Definition strncpy_name (s : list Z) : list Z := take 14 (s ++ replicate 14 0).

Definition append_entry (dir inum : Z) (name : list Z) (st : fs) : M fs :=
  iappend dir (encode_dirent (Dirent (xshort inum) (strncpy_name name))) st.

(** [while ((bytes_read = read(child_fd, buf, sizeof(buf))) > 0) iappend]:
    a regular file is read 512 bytes at a time. *)
Fixpoint copy_file (fuel : nat) (inum : Z) (data : list Z) (st : fs) : M fs :=
  match data with
  | [] => Done st
  | _ =>
      match fuel with
      | O => Exit endless
      | S fuel' =>
          let! st1 := iappend inum (take 512 data) st in
          copy_file fuel' inum (drop 512 data) st1
      end
  end.

(** A regular file of the host becomes a new inode with its contents, or one
    more link to the inode an earlier name got. *)
Definition add_file (dir : Z) (name : list Z) (st_ino st_nlink : Z) (data : list Z) (st : fs) : M fs :=
  if decide (st_nlink > 0) then
    let newINum := freeinode st in
    let! r := fetchHardLink (u32 st_ino) (u32 st_nlink) st in
    let '(child, st1) := r in
    if decide (child ≠ newINum) then
      let! st2 := add_link child st1 in
      append_entry dir child name st2
    else
      let! st2 := copy_file (length data) child data st1 in
      append_entry dir child name st2
  else
    let! r := ialloc T_FILE st in
    let '(child, st1) := r in
    let! st2 := copy_file (length data) child data st1 in
    append_entry dir child name st2.

(** The two entries every directory starts with. *)
Definition add_dots (cur parent : Z) (st : fs) : M fs :=
  let! st1 := append_entry cur cur dot st in
  let! st2 := (if decide (cur ≠ parent) then add_link parent st1 else Done st1) in
  append_entry cur parent dotdot st2.

(** [off = ((off / BSIZE) + 1) * BSIZE], in [int], then stored in a [uint]. *)
Definition fix_size (cur : Z) (st : fs) : M fs :=
  let! din := rinode cur st in
  let off := s32 (xint (di_size din)) in
  let off' := s32 ((Z.quot off BSIZE + 1) * BSIZE) in
  winode cur (set_size (xint (u32 off')) din) st.

Fixpoint add_dir (h : host) (cur_inode parent_inode : Z) (st : fs) {struct h} : M fs :=
  let fix go (l : list (list Z * host)) (st : fs) {struct l} : M fs :=
    match l with
    | [] => Done st
    | (name, child) :: l' =>
        if decide (name = dot ∨ name = dotdot) then go l' st
        else
          match child with
          | HUnreadable => Exit add_dir_error
          | HDir _ =>
              let! r := ialloc T_DIR st in
              let '(child_inode, st1) := r in
              let! st2 := add_dir child child_inode cur_inode st1 in
              let! st3 := append_entry cur_inode child_inode name st2 in
              go l' st3
          | HFile ino nlink data =>
              let! st1 := add_file cur_inode name ino nlink data st in
              go l' st1
          end
    end in
  match h with
  | HDir entries =>
      let! st1 := add_dots cur_inode parent_inode st in
      match entries with
      | None => Done st1
      | Some l => let! st2 := go l st1 in fix_size cur_inode st2
      end
  | _ => Done st
  end.
End Links.

(** ** The program *)
Definition blank_fs : fs := Fs 0 ∅ 0 0 1 ∅ None.

(** [mkfs]: the superblock and zeroed sectors. *)
Definition mkfs (nblocks ninodes size : Z) (st : fs) : M fs :=
  let bitblocks := u32 (Z.quot size (512 * 8) + 1) in
  let used := u32 (ninodes / IPB + 3 + bitblocks) in
  let st1 := set_blocks used used st in
  if decide (u32 (nblocks + used) = u32 size) then
    let! st2 := mfor (seqZ 0 (u32 (nblocks + used))) (λ i st, wsect i zeroes st) st1 in
    wsect 1 (patch 0 (encode_superblock (Superblock (xint size) (xint nblocks) (xint ninodes))) zeroes) st2
  else Exit assertion.

(** What [opendir] makes of the second argument: NULL unless it is a
    directory. *)
Definition opendir (tree : host) : host :=
  match tree with HDir _ => tree | _ => HDir None end.

(** [main] from [mkfs] to the end of [balloc]: [tree] is what the second
    argument names, when there is one.  The image is complete at this
    point. *)
Definition build (A : Malloc) (tree : option host) : M fs :=
  let! st1 := mkfs 995 200 1024 blank_fs in
  let! r := ialloc T_DIR st1 in
  let '(root_inode, st2) := r in
  if decide (root_inode = ROOTINO) then
    let! st3 := match tree with
                | None => Done st2
                | Some t => add_dir A (opendir t) root_inode root_inode st2
                end in
    balloc (usedblocks st3) st3
  else Exit assertion.

(** [main]: [open_ok] is the outcome of [open] of the image; [tree] is read
    when there are exactly two arguments. *)
Definition main (A : Malloc) (argc : Z) (open_ok : bool) (tree : host) : M fs :=
  if decide (argc < 2) then Exit usage_error
  else if open_ok then
    let! st := build A (if decide (argc = 3) then Some tree else None) in
    match hardLinkMapRoot st with
    | None => Done st
    | Some _ => freeHardLinkMap st
    end
  else Exit io_error.

(** The image file it leaves. *)
Definition image_of (st : fs) : image :=
  Image (BSIZE * nsect st)
        (λ off, default 0 (sector st (off / BSIZE) !! Z.to_nat (off mod BSIZE))).
End Mk.
