(* ===== verification/MkfsTheorems.v ===== *)
(** * Theorems about the image builder *)
From S2P Require Import Prelude CInt FsLayout Image Fsck Mkfs.
Import Mk.

(** ** Byte order and buffers *)
Lemma shiftr_8 x (n : nat) : Z.shiftr x (8 * Z.of_nat n) = x / 256 ^ Z.of_nat n.
Proof.
  rewrite Z.shiftr_div_pow2 by lia. f_equal.
  change 256 with (2 ^ 8). by rewrite <- Z.pow_mul_r by lia.
Qed.

Lemma xint_u32 x : xint x = u32 x.
Proof.
  unfold xint. rewrite (shiftr_8 x 1 : Z.shiftr x 8 = _), (shiftr_8 x 2 : Z.shiftr x 16 = _),
    (shiftr_8 x 3 : Z.shiftr x 24 = _).
  pose proof (le_combine_split 4 x) as H. simpl in H.
  rewrite !Z.div_div in H by lia. exact H.
Qed.

Lemma xshort_u16 x : xshort x = u16 x.
Proof.
  unfold xshort. rewrite (shiftr_8 x 1 : Z.shiftr x 8 = _).
  pose proof (le_combine_split 2 x) as H. simpl in H. exact H.
Qed.

Lemma length_patch off bytes buf :
  0 ≤ off → off + Z.of_nat (length bytes) ≤ Z.of_nat (length buf) →
  length (patch off bytes buf) = length buf.
Proof. intros. unfold patch. rewrite !length_app, length_take, length_drop. lia. Qed.

Lemma slice_patch_here off bytes buf n :
  0 ≤ off → off ≤ Z.of_nat (length buf) → n = length bytes →
  slice (Z.to_nat off) n (patch off bytes buf) = bytes.
Proof.
  intros ? ? ->. unfold patch. apply slice_app_here; [|done]. rewrite length_take. lia.
Qed.

(** Parts of the buffer that the patch does not touch. *)
Lemma slice_patch_other off bytes buf o n :
  0 ≤ off → off + Z.of_nat (length bytes) ≤ Z.of_nat (length buf) →
  (Z.of_nat (o + n) ≤ off ∨ off + Z.of_nat (length bytes) ≤ Z.of_nat o) →
  slice o n (patch off bytes buf) = slice o n buf.
Proof.
  intros H1 H2 [H3|H3]; unfold patch.
  - rewrite slice_app_l by len. unfold slice.
    rewrite <- (take_drop (Z.to_nat off) buf) at 2.
    rewrite drop_app_le by len.
    by rewrite take_app_le by len.
  - rewrite slice_app_r by len. rewrite length_take.
    rewrite slice_app_r by lia. unfold slice. rewrite drop_drop. do 2 f_equal. lia.
Qed.

(** ** Sectors and inodes *)
Definition sectors_wf (st : fs) : Prop := ∀ sec b, disk st !! sec = Some b → length b = 512%nat.

Lemma length_sector st sec : sectors_wf st → length (sector st sec) = 512%nat.
Proof. intros Hwf. unfold sector. destruct (disk st !! sec) eqn:H; [by eapply Hwf|done]. Qed.

Lemma rsect_in st sec : sec < nsect st → rsect sec st = Done (sector st sec).
Proof. intros. unfold rsect. by rewrite decide_True. Qed.

(** The state after a sector of the file has been written. *)
Definition put_sector (sec : Z) (buf : list Z) (st : fs) : fs :=
  set_disk (nsect st) (<[sec := buf]> (disk st)) st.

Lemma wsect_in st sec buf : sec < nsect st → wsect sec buf st = Done (put_sector sec buf st).
Proof. intros. unfold wsect, put_sector. by rewrite Z.max_l by lia. Qed.

Lemma sector_put sec buf st sec' :
  sector (put_sector sec buf st) sec' = if decide (sec' = sec) then buf else sector st sec'.
Proof.
  unfold sector. simpl. case_decide as H; [subst; by rewrite lookup_insert_eq|].
  by rewrite lookup_insert_ne.
Qed.

Lemma put_sector_wf sec buf st : sectors_wf st → length buf = 512%nat → sectors_wf (put_sector sec buf st).
Proof.
  intros Hwf Hb s b. simpl. intros [ [_ <-]|[_ H] ]%lookup_insert_Some; [done|by eapply Hwf].
Qed.

(** Where an inode lives in its sector. *)
Definition inode_off (inum : Z) : Z := inum mod IPB * sizeof_dinode.

Lemma inode_off_range inum : 0 ≤ inode_off inum ∧ inode_off inum + 64 ≤ 512.
Proof. unfold inode_off. change IPB with 8. change sizeof_dinode with 64. Z.div_mod_to_equations. lia. Qed.

Definition inode_bytes (inum : Z) (st : fs) : list Z :=
  slice (Z.to_nat (inode_off inum)) 64 (sector st (i2b inum)).

Lemma rinode_in st inum :
  i2b inum < nsect st → rinode inum st = Done (decode_dinode (inode_bytes inum st)).
Proof. intros. unfold rinode. by rewrite rsect_in. Qed.

Definition put_inode (inum : Z) (d : dinode) (st : fs) : fs :=
  put_sector (i2b inum) (patch (inode_off inum) (encode_dinode d) (sector st (i2b inum))) st.

Lemma winode_in st inum d : i2b inum < nsect st → winode inum d st = Done (put_inode inum d st).
Proof. intros. unfold winode. rewrite rsect_in by done. cbn [obind]. by apply wsect_in. Qed.

Lemma inode_bytes_put_eq inum d st :
  sectors_wf st → length (di_addrs d) = 13%nat →
  inode_bytes inum (put_inode inum d st) = encode_dinode d.
Proof.
  intros Hwf Hd. unfold inode_bytes, put_inode. rewrite sector_put, decide_True by done.
  pose proof (inode_off_range inum). apply slice_patch_here; [lia| |].
  - rewrite length_sector by done. lia.
  - by rewrite length_encode_dinode.
Qed.

Lemma inode_bytes_put_ne inum j d st :
  sectors_wf st → length (di_addrs d) = 13%nat → j ≠ inum →
  inode_bytes j (put_inode inum d st) = inode_bytes j st.
Proof.
  intros Hwf Hd Hne. unfold inode_bytes, put_inode. rewrite sector_put. case_decide as Hb; [|done].
  rewrite Hb. pose proof (inode_off_range inum). pose proof (length_sector st (i2b inum) Hwf) as Hl.
  pose proof (inode_off_range j).
  assert (length (encode_dinode d) = 64%nat) as He by (by rewrite length_encode_dinode).
  apply slice_patch_other; rewrite ?He, ?Hl; [lia|lia|].
  unfold i2b, inode_off in *. change IPB with 8 in *. change sizeof_dinode with 64 in *.
  Z.div_mod_to_equations. lia.
Qed.

Lemma put_inode_wf inum d st :
  sectors_wf st → length (di_addrs d) = 13%nat → sectors_wf (put_inode inum d st).
Proof.
  intros Hwf Hd. apply put_sector_wf; [done|]. pose proof (inode_off_range inum).
  assert (length (encode_dinode d) = 64%nat) as He by (by rewrite length_encode_dinode).
  rewrite length_patch; [by apply length_sector|lia|]. rewrite length_sector, He by done. lia.
Qed.

(** Inodes are stored where they are read.  Writing an inode inside the
    image completes; reading it back gives the same inode, every other inode
    reads as before, and no other sector changes. *)
Lemma inode_roundtrip inum d st :
  sectors_wf st → i2b inum < nsect st → dinode_wf d →
  ∃ st', winode inum d st = Done st' ∧ sectors_wf st' ∧ rinode inum st' = Done d ∧
    (∀ j, j ≠ inum → i2b j < nsect st → rinode j st' = rinode j st) ∧
    (∀ sec, sec ≠ i2b inum → sector st' sec = sector st sec).
Proof.
  intros Hwf Hin Hd. pose proof (wf_addrs_len d Hd) as Hl.
  exists (put_inode inum d st). split_and!.
  - by apply winode_in.
  - by apply put_inode_wf.
  - rewrite rinode_in by done. by rewrite inode_bytes_put_eq, decode_encode_dinode.
  - intros j Hne Hj. rewrite !rinode_in by done. by rewrite inode_bytes_put_ne.
  - intros sec Hne. unfold put_inode. rewrite sector_put. by rewrite decide_False.
Qed.

(** An image with its sectors zeroed. *)
Definition zero_fs : fs := Fs 1024 ∅ 29 29 2 ∅ None.

Lemma zero_fs_wf : sectors_wf zero_fs.
Proof. by intros sec b. Qed.

(** ** The bitmap *)

(** The byte that holds bits [8k] to [8k+7] when the first [n] are set. *)
Definition marks (n k : Z) : Z := if decide (8 * (k + 1) ≤ n) then 255 else 2 ^ Z.max 0 (n - 8 * k) - 1.

Lemma testbit_marks n k i :
  0 ≤ n → 0 ≤ k → 0 ≤ i < 8 → Z.testbit (marks n k) i = bool_decide (8 * k + i < n).
Proof.
  intros Hn Hk Hi. unfold marks. case_decide.
  - rewrite bool_decide_true by lia. change 255 with (Z.ones 8). apply Z.ones_spec_low. lia.
  - replace (2 ^ Z.max 0 (n - 8 * k) - 1) with (Z.ones (Z.max 0 (n - 8 * k))) by (rewrite Z.ones_equiv; lia).
    destruct (decide (8 * k + i < n)).
    + rewrite bool_decide_true by done. apply Z.ones_spec_low. lia.
    + rewrite bool_decide_false by done. apply Z.ones_spec_high. lia.
Qed.

Lemma marks_step n :
  0 ≤ n → u8 (Z.lor (marks n (n / 8)) (Z.shiftl 1 (n mod 8))) = marks (n + 1) (n / 8).
Proof.
  intros Hn. assert (n = 8 * (n / 8) + n mod 8) as Heq by (apply Z.div_mod; lia).
  pose proof (Z.mod_pos_bound n 8 ltac:(lia)) as Hr. set (q := n / 8) in *. set (r := n mod 8) in *.
  clearbody q r. subst n. unfold marks. rewrite decide_False by lia.
  replace (Z.max 0 (8 * q + r - 8 * q)) with r by lia.
  replace (Z.max 0 (8 * q + r + 1 - 8 * q)) with (r + 1) by lia.
  assert (r = 0 ∨ r = 1 ∨ r = 2 ∨ r = 3 ∨ r = 4 ∨ r = 5 ∨ r = 6 ∨ r = 7) as Hcases by lia.
  destruct Hcases as [->|[->|[->|[->|[->|[->|[->| ->]]]]]]]; (rewrite decide_False by lia; reflexivity)
    || (rewrite decide_True by lia; reflexivity).
Qed.

Lemma marks_other n k : 0 ≤ n → 0 ≤ k → k ≠ n / 8 → marks (n + 1) k = marks n k.
Proof.
  intros Hn Hk Hne. unfold marks. destruct (decide (8 * (k + 1) ≤ n)).
  - by rewrite decide_True by lia.
  - assert (n < 8 * k) by (Z.div_mod_to_equations; lia). rewrite decide_False by lia.
    by rewrite !Z.max_l by lia.
Qed.

(** The bitmap.  For fewer than 4096 blocks [balloc] completes and
    writes, in sector 28, a bitmap in which exactly the first [used] bits are
    set. *)
Lemma balloc_marks used st :
  0 ≤ used < 4096 → nsect st = 1024 →
  ∃ buf, balloc used st = Done (put_sector 28 buf st) ∧ length buf = 512%nat ∧
    ∀ i, 0 ≤ i < 4096 → Z.testbit (default 0 (buf !! Z.to_nat (i / 8))) (i mod 8) = bool_decide (i < used).
Proof.
  intros Hused Hn. unfold balloc. rewrite decide_True by lia.
  set (body := λ i buf, _).
  assert (zeroes = tab 512 (marks 0)) as Hz.
  { vm_compute. reflexivity. }
  assert (∀ l1 l2, seqZ 0 used = l1 ++ l2 →
    mfor l1 body zeroes = Done (tab 512 (marks (Z.of_nat (length l1)))) :> M (list Z)) as Hloop.
  { induction l1 as [|i l1 IH] using rev_ind; intros l2 Hl; [by rewrite Hz|].
    assert (i = Z.of_nat (length l1)) as ->.
    { assert (seqZ 0 used !! length l1 = Some i) as Hi
        by (rewrite Hl, <- app_assoc; by apply list_lookup_middle).
      apply lookup_seqZ in Hi. lia. }
    assert (Z.of_nat (length l1) < used) as Hlt.
    { apply (f_equal length) in Hl. rewrite length_seqZ, !length_app in Hl. simpl in Hl. lia. }
    assert (∀ (a b : list Z) s, mfor (a ++ b) body s = let! s' := mfor a body s in mfor b body s') as Happ.
    { induction a as [|x a IHa]; intros b s; [done|]. simpl. destruct (body x s); simpl; auto. }
    rewrite Happ, (IH (Z.of_nat (length l1) :: l2)) by (by rewrite Hl, <- app_assoc).
    cbn [obind mfor]. unfold body. rewrite length_app. simpl length. rewrite Nat2Z.inj_add.
    set (n := Z.of_nat (length l1)) in *.
    assert (0 ≤ n / 8 < 512) by (Z.div_mod_to_equations; lia).
    rewrite aget_tab by done. cbn [obind]. rewrite aset_tab by done. cbn [obind]. f_equal.
    apply tab_ext. intros k Hk. rewrite marks_step by lia. case_decide as Hd; [by subst|].
    symmetry. by apply marks_other; lia. }
  rewrite (Hloop (seqZ 0 used) []) by (by rewrite app_nil_r). cbn [obind].
  rewrite length_seqZ, Z2Nat.id by lia.
  rewrite wsect_in by (rewrite Hn; vm_compute; reflexivity). eexists. split; [done|].
  split; [apply length_tab|]. intros i Hi. rewrite lookup_tab by (Z.div_mod_to_equations; lia). simpl default.
  rewrite testbit_marks by (Z.div_mod_to_equations; lia). f_equal.
  by rewrite <- Z.div_mod by lia.
Qed.

(** ** Appending to a file *)

(** The address of file block [k], through the indirect block from block 12
    on. *)
Definition direct (d : dinode) (k : Z) : Z := nth (Z.to_nat k) (di_addrs d) 0.
Definition entry (st : fs) (ind k : Z) : Z := get32 (sector st ind) (Z.to_nat (4 * (k - 12))).
Definition addr_of (st : fs) (d : dinode) (k : Z) : Z :=
  if decide (k < 12) then direct d k else entry st (direct d 12) k.

(** Byte [i] of the file. *)
Definition byte_at (st : fs) (d : dinode) (i : Z) : Z :=
  nth (Z.to_nat (i mod 512)) (sector st (addr_of st d (i / 512))) 0.

(** The image: 1024 sectors, blocks from [freeblock] on untouched. *)
Record disk_ok (st : fs) : Prop := {
  dk_sectors : sectors_wf st;
  dk_nsect : nsect st = 1024;
  dk_free : 29 ≤ freeblock st ≤ 1024;
  dk_used : usedblocks st = freeblock st;
  dk_zero : ∀ sec, freeblock st ≤ sec → sector st sec = zeroes;
}.

(** The first [n] blocks of the file are allocated, distinct from one another
    and from the indirect block, and no other block is. *)
Record file_ok (st : fs) (d : dinode) (n : Z) : Prop := {
  fo_len : length (di_addrs d) = 13%nat;
  fo_range : ∀ k, 0 ≤ k < n → 29 ≤ addr_of st d k < freeblock st;
  fo_inj : ∀ j k, 0 ≤ j < k → k < n → addr_of st d j ≠ addr_of st d k;
  fo_zero : ∀ k, n ≤ k < 140 → k < 12 ∨ 12 < n → addr_of st d k = 0;
  fo_none : n ≤ 12 → direct d 12 = 0;
  fo_ind : 12 < n → 29 ≤ direct d 12 < freeblock st ∧ ∀ k, 0 ≤ k < n → addr_of st d k ≠ direct d 12;
}.

Definition with_addr (k v : Z) (d : dinode) : dinode :=
  Dinode (di_type d) (di_major d) (di_minor d) (di_nlink d) (di_size d)
         (<[Z.to_nat k := v]> (di_addrs d)).

Lemma direct_with_addr d k v j :
  length (di_addrs d) = 13%nat → 0 ≤ k < 13 → 0 ≤ j →
  direct (with_addr k v d) j = if decide (j = k) then v else direct d j.
Proof.
  intros Hl Hk Hj. unfold direct. simpl. case_decide as H; rewrite !nth_lookup.
  - subst j. by rewrite list_lookup_insert_eq by lia.
  - by rewrite list_lookup_insert_ne by lia.
Qed.

Lemma aget_direct d k :
  length (di_addrs d) = 13%nat → 0 ≤ k < 13 → aget (di_addrs d) k = Done (direct d k) :> M Z.
Proof.
  intros Hl Hk. unfold aget, direct. rewrite decide_True by lia. rewrite nth_lookup.
  destruct (lookup_lt_is_Some_2 (di_addrs d) (Z.to_nat k)) as [x Hx]; [lia|]. by rewrite Hx.
Qed.

(** Entries of an indirect block after one of them has been written. *)
Lemma entry_patch st ind k v j st' :
  sectors_wf st → 12 ≤ k < 140 → 12 ≤ j < 140 → 0 ≤ v < 2 ^ 32 →
  sector st' ind = patch (4 * (k - 12)) (le_split 4 v) (sector st ind) →
  entry st' ind j = if decide (j = k) then v else entry st ind j.
Proof.
  intros Hwf Hk Hj Hv Hs. pose proof (length_sector st ind Hwf) as Hl.
  unfold entry, get32. rewrite Hs. case_decide as H.
  - subst j. rewrite slice_patch_here by (rewrite ?Hl, ?length_le_split; lia).
    rewrite le_combine_split. by apply wrap_small.
  - rewrite slice_patch_other; rewrite ?Hl, ?length_le_split; [done|lia|lia|lia].
Qed.

Lemma entry_zeroes st ind k : sector st ind = zeroes → 12 ≤ k < 140 → entry st ind k = 0.
Proof.
  intros Hs Hk. unfold entry, get32, slice. rewrite Hs. unfold zeroes.
  rewrite drop_replicate, take_replicate. rewrite Nat.min_l by lia. done.
Qed.

Lemma take_block_ok st :
  disk_ok st → freeblock st < 1024 →
  take_block st = (freeblock st, set_blocks (freeblock st + 1) (u32 (usedblocks st + 1)) st) ∧
  disk_ok (set_blocks (freeblock st + 1) (u32 (usedblocks st + 1)) st).
Proof.
  intros [H1 H2 H3 Hu H4] Hlt. split.
  - unfold take_block. rewrite xint_u32, !(wrap_small 32 (freeblock st)) by lia.
    by rewrite (wrap_small 32 (freeblock st + 1)) by lia.
  - split; simpl; [done|done|lia|by rewrite Hu, wrap_small by lia|]. intros sec Hsec. apply H4. lia.
Qed.

(** [addr_of] depends on the direct addresses and on the indirect block. *)
Lemma addr_of_ext st d st' d' k :
  (∀ j, 0 ≤ j ≤ 12 → direct d' j = direct d j) → 0 ≤ k →
  sector st' (direct d 12) = sector st (direct d 12) → addr_of st' d' k = addr_of st d k.
Proof.
  intros Hd Hk Hs. unfold addr_of, entry. case_decide; [apply Hd; lia|]. by rewrite Hd, Hs by lia.
Qed.

(** Blocks allocated when file block [fbn] is asked for, and when the file
    grows from [n] to [m] blocks. *)
Definition cost (n fbn : Z) : Z := if decide (fbn < n) then 0 else if decide (n = 12) then 2 else 1.
Definition growth (n m : Z) : Z := m - n + (if decide (n ≤ 12 ∧ 12 < m) then 1 else 0).

(** What looking up or allocating a block of a file does. *)
Record block_got (st : fs) (d : dinode) (n fbn x : Z) (d' : dinode) (st' : fs) : Prop := {
  bg_disk : disk_ok st';
  bg_file : file_ok st' d' (Z.max n (fbn + 1));
  bg_addr : x = addr_of st' d' fbn;
  bg_fresh : n ≤ fbn → freeblock st ≤ x;
  bg_old : ∀ k, 0 ≤ k < n → addr_of st' d' k = addr_of st d k;
  bg_ind : 12 < Z.max n (fbn + 1) →
    (12 < n → direct d' 12 = direct d 12) ∧ (n ≤ 12 → freeblock st ≤ direct d' 12);
  bg_free : freeblock st' = freeblock st + cost n fbn;
  bg_frame : ∀ sec, sec < freeblock st → sec ≠ direct d 12 ∨ n ≤ 12 → sector st' sec = sector st sec;
  bg_same : d' = Dinode (di_type d) (di_major d) (di_minor d) (di_nlink d) (di_size d) (di_addrs d');
  bg_rest : freeinode st' = freeinode st ∧ links st' = links st ∧ hardLinkMapRoot st' = hardLinkMapRoot st;
  bg_zero : n ≤ fbn → sector st' x = zeroes;
}.

(** The block is there already. *)
Lemma file_block_old st d n fbn :
  disk_ok st → file_ok st d n → 0 ≤ fbn < n → n ≤ 140 →
  file_block fbn d st = Done (addr_of st d fbn, d, st) ∧ block_got st d n fbn (addr_of st d fbn) d st.
Proof.
  intros Hdk Hf Hfbn Hn. pose proof (fo_range _ _ _ Hf fbn Hfbn) as Hr.
  pose proof (dk_free _ Hdk) as Hfree. split.
  - unfold file_block. change NDIRECT with 12. pose proof (fo_len _ _ _ Hf) as Hl.
    unfold addr_of in *. destruct (decide (fbn < 12)).
    + rewrite aget_direct by (done || lia). cbn [obind].
      rewrite xint_u32, wrap_small by lia. by rewrite decide_False by lia.
    + destruct (fo_ind _ _ _ Hf) as [Hi _]; [lia|].
      rewrite aget_direct by (done || lia). cbn [obind]. rewrite xint_u32, wrap_small by lia.
      rewrite decide_False by lia. rewrite aget_direct by (done || lia). cbn [obind].
      rewrite xint_u32, wrap_small by lia. rewrite rsect_in by (rewrite (dk_nsect _ Hdk); lia).
      cbn [obind]. fold (entry st (direct d 12) fbn). rewrite decide_False by lia.
      by rewrite xint_u32, wrap_small by lia.
  - split; try done; try lia.
    + by rewrite Z.max_l by lia.
    + unfold cost. rewrite decide_True by lia. lia.
    + by destruct d.
Qed.

(** A direct block is allocated. *)
Lemma file_block_direct st d n :
  disk_ok st → file_ok st d n → 0 ≤ n < 12 → freeblock st < 1024 →
  ∃ d' st', file_block n d st = Done (freeblock st, d', st') ∧ block_got st d n n (freeblock st) d' st'.
Proof.
  intros Hdk Hf Hn Hlt. pose proof (dk_free _ Hdk) as Hfree. pose proof (fo_len _ _ _ Hf) as Hl.
  destruct (take_block_ok st Hdk Hlt) as [Htb Hdk1].
  exists (with_addr n (freeblock st) d), (set_blocks (freeblock st + 1) (u32 (usedblocks st + 1)) st).
  assert (direct d n = 0) as H0.
  { pose proof (fo_zero _ _ _ Hf n ltac:(lia) ltac:(lia)) as H. unfold addr_of in H.
    by rewrite decide_True in H by lia. }
  split.
  { unfold file_block. change NDIRECT with 12. rewrite decide_True by lia.
    rewrite aget_direct by (done || lia). cbn [obind]. rewrite H0.
    rewrite (decide_True (P := xint 0 = 0)) by done. rewrite Htb.
    by rewrite xint_u32, wrap_small by lia. }
  assert (∀ j, 0 ≤ j → direct (with_addr n (freeblock st) d) j = if decide (j = n) then freeblock st else direct d j)
    as Hdir by (intros; apply direct_with_addr; [done|lia|done]).
  pose proof (fo_none _ _ _ Hf ltac:(lia)) as Hind.
  assert (∀ k, 0 ≤ k → addr_of (set_blocks (freeblock st + 1) (u32 (usedblocks st + 1)) st)
    (with_addr n (freeblock st) d) k = if decide (k = n) then freeblock st else addr_of st d k) as Ha.
  { intros k Hk. unfold addr_of. case_decide as H12.
    - by apply Hdir.
    - rewrite Hdir, (decide_False (P := 12 = n)), decide_False by lia. done. }
  split; simpl; try done; try lia.
  - rewrite Z.max_r by lia. split; simpl.
    + by rewrite length_insert.
    + intros k Hk. rewrite Ha by lia. case_decide; [lia|].
      pose proof (fo_range _ _ _ Hf k ltac:(lia)). lia.
    + intros j k Hj Hk. rewrite !Ha by lia. rewrite (decide_False (P := j = n)) by lia. case_decide.
      * pose proof (fo_range _ _ _ Hf j ltac:(lia)). lia.
      * apply (fo_inj _ _ _ Hf); lia.
    + intros k Hk Hor. rewrite Ha by lia. rewrite decide_False by lia. apply (fo_zero _ _ _ Hf); lia.
    + intros _. rewrite Hdir by lia. by rewrite decide_False by lia.
    + lia.
  - rewrite Ha by lia. by rewrite decide_True.
  - intros k Hk. rewrite Ha by lia. by rewrite decide_False by lia.
  - unfold cost. by rewrite !decide_False by lia.
  - intros _. by apply (dk_zero _ Hdk).
Qed.

(** A file whose indirect block exists. *)
Record ind_ok (st : fs) (d : dinode) (n : Z) : Prop := {
  io_len : length (di_addrs d) = 13%nat;
  io_range : ∀ k, 0 ≤ k < n → 29 ≤ addr_of st d k < freeblock st;
  io_inj : ∀ j k, 0 ≤ j < k → k < n → addr_of st d j ≠ addr_of st d k;
  io_zero : ∀ k, n ≤ k < 140 → addr_of st d k = 0;
  io_ind : 29 ≤ direct d 12 < freeblock st ∧ ∀ k, 0 ≤ k < n → addr_of st d k ≠ direct d 12;
}.

(** The state after a block has been entered in the indirect block. *)
Definition enter_block (st : fs) (d : dinode) (n : Z) : fs :=
  put_sector (direct d 12) (patch (4 * (n - 12)) (le_split 4 (freeblock st)) (sector st (direct d 12)))
    (set_blocks (freeblock st + 1) (u32 (usedblocks st + 1)) st).

Lemma enter_block_ok st d n :
  disk_ok st → ind_ok st d n → 12 ≤ n < 140 → freeblock st < 1024 →
  disk_ok (enter_block st d n) ∧ file_ok (enter_block st d n) d (n + 1) ∧
  (∀ k, 0 ≤ k < 140 → addr_of (enter_block st d n) d k = if decide (k = n) then freeblock st else addr_of st d k) ∧
  (∀ sec, sec ≠ direct d 12 → sector (enter_block st d n) sec = sector st sec).
Proof.
  intros Hdk Hio Hn Hlt. pose proof (dk_free _ Hdk) as Hfree. destruct (io_ind _ _ _ Hio) as [Hi Hine].
  destruct (take_block_ok st Hdk Hlt) as [_ Hdk1].
  pose proof (length_sector st (direct d 12) (dk_sectors _ Hdk)) as Hls.
  assert (∀ sec, sec ≠ direct d 12 → sector (enter_block st d n) sec = sector st sec) as Hframe.
  { intros sec Hsec. unfold enter_block. rewrite sector_put. by rewrite decide_False. }
  assert (∀ k, 0 ≤ k < 140 → addr_of (enter_block st d n) d k = if decide (k = n) then freeblock st else addr_of st d k) as Ha.
  { intros k Hk. unfold addr_of. destruct (decide (k < 12)); [by rewrite decide_False by lia|].
    apply entry_patch with (st := st); [apply Hdk|lia|lia|lia|].
    unfold enter_block. rewrite sector_put. by rewrite decide_True. }
  split_and!; [| |done|done].
  - destruct Hdk1 as [H1 H2 H3 Hu H4]. split; simpl in *; [|done|done|done|].
    + apply put_sector_wf; [done|]. rewrite length_patch; rewrite ?Hls, ?length_le_split; lia.
    + intros sec Hsec. rewrite Hframe by lia. apply (dk_zero _ Hdk). lia.
  - split; simpl.
    + apply Hio.
    + intros k Hk. rewrite Ha by lia. case_decide; [lia|].
      pose proof (io_range _ _ _ Hio k ltac:(lia)). lia.
    + intros j k Hj Hk. rewrite !Ha by lia. rewrite (decide_False (P := j = n)) by lia. case_decide.
      * pose proof (io_range _ _ _ Hio j ltac:(lia)). lia.
      * apply (io_inj _ _ _ Hio); lia.
    + intros k Hk _. rewrite Ha by lia. rewrite decide_False by lia. apply (io_zero _ _ _ Hio). lia.
    + lia.
    + intros _. split; [lia|]. intros k Hk. rewrite Ha by lia. case_decide; [lia|]. apply Hine. lia.
Qed.

(** A block is entered in an indirect block that exists. *)
Lemma file_block_indirect st d n :
  disk_ok st → file_ok st d n → 12 < n < 140 → freeblock st < 1024 →
  ∃ st', file_block n d st = Done (freeblock st, d, st') ∧ block_got st d n n (freeblock st) d st'.
Proof.
  intros Hdk Hf Hn Hlt. pose proof (dk_free _ Hdk) as Hfree. pose proof (fo_len _ _ _ Hf) as Hl.
  destruct (fo_ind _ _ _ Hf ltac:(lia)) as [Hi Hine].
  assert (ind_ok st d n) as Hio.
  { split; [done|apply Hf|apply Hf| |done]. intros k Hk. apply (fo_zero _ _ _ Hf); lia. }
  destruct (enter_block_ok st d n Hdk Hio ltac:(lia) Hlt) as (Hdk' & Hf' & Ha & Hframe).
  destruct (take_block_ok st Hdk Hlt) as [Htb _].
  exists (enter_block st d n). split.
  { unfold file_block. change NDIRECT with 12. rewrite decide_False by lia.
    rewrite aget_direct by (done || lia). cbn [obind]. rewrite xint_u32, wrap_small by lia.
    rewrite decide_False by lia. rewrite aget_direct by (done || lia). cbn [obind].
    rewrite xint_u32, wrap_small by lia. rewrite rsect_in by (rewrite (dk_nsect _ Hdk); lia). cbn [obind].
    fold (entry st (direct d 12) n).
    assert (entry st (direct d 12) n = 0) as ->.
    { pose proof (io_zero _ _ _ Hio n ltac:(lia)) as H. unfold addr_of in H.
      by rewrite decide_False in H by lia. }
    rewrite (decide_True (P := 0 = 0)) by done. rewrite Htb.
    rewrite wsect_in by (simpl; rewrite (dk_nsect _ Hdk); lia). cbn [obind].
    by rewrite xint_u32, wrap_small by lia. }
  split; try done; try (simpl; lia).
  - by rewrite Z.max_r by lia.
  - rewrite Ha by lia. by rewrite decide_True.
  - intros k Hk. rewrite Ha by lia. by rewrite decide_False by lia.
  - unfold cost. by rewrite !decide_False by lia.
  - intros sec _ [Hsec|Hsec]; [by apply Hframe|lia].
  - by destruct d.
  - intros _. rewrite Hframe by lia. by apply (dk_zero _ Hdk).
Qed.

(** The indirect block itself is allocated, with its first entry. *)
Lemma file_block_first st d :
  disk_ok st → file_ok st d 12 → freeblock st + 1 < 1024 →
  ∃ d' st', file_block 12 d st = Done (freeblock st + 1, d', st') ∧
    block_got st d 12 12 (freeblock st + 1) d' st'.
Proof.
  intros Hdk Hf Hlt. pose proof (dk_free _ Hdk) as Hfree. pose proof (fo_len _ _ _ Hf) as Hl.
  pose proof (fo_none _ _ _ Hf ltac:(lia)) as H0.
  destruct (take_block_ok st Hdk ltac:(lia)) as [Htb Hdk1].
  set (st1 := set_blocks (freeblock st + 1) (u32 (usedblocks st + 1)) st) in *.
  set (d1 := with_addr 12 (freeblock st) d).
  assert (∀ j, 0 ≤ j → direct d1 j = if decide (j = 12) then freeblock st else direct d j) as Hdir
    by (intros; apply direct_with_addr; [done|lia|done]).
  assert (∀ k, 0 ≤ k < 12 → addr_of st1 d1 k = addr_of st d k) as Ha.
  { intros k Hk. unfold addr_of. rewrite !decide_True by lia. rewrite Hdir by lia. by rewrite decide_False by lia. }
  assert (direct d1 12 = freeblock st) as Hd12 by (by rewrite Hdir, decide_True by lia).
  assert (ind_ok st1 d1 12) as Hio.
  { split; simpl.
    - by rewrite length_insert.
    - intros k Hk. rewrite Ha by lia. pose proof (fo_range _ _ _ Hf k ltac:(lia)). lia.
    - intros j k Hj Hk. rewrite !Ha by lia. apply (fo_inj _ _ _ Hf); lia.
    - intros k Hk. unfold addr_of. rewrite decide_False by lia. rewrite Hd12.
      apply entry_zeroes; [|lia]. apply (dk_zero _ Hdk). lia.
    - rewrite Hd12. split; [lia|]. intros k Hk. rewrite Ha by lia.
      pose proof (fo_range _ _ _ Hf k ltac:(lia)). lia. }
  destruct (enter_block_ok st1 d1 12 Hdk1 Hio ltac:(lia) ltac:(simpl; lia)) as (Hdk' & Hf' & Ha' & Hframe).
  destruct (take_block_ok st1 Hdk1 ltac:(simpl; lia)) as [Htb1 _].
  exists d1, (enter_block st1 d1 12). split.
  { unfold file_block. change NDIRECT with 12. rewrite decide_False by lia.
    rewrite aget_direct by (done || lia). cbn [obind]. rewrite H0.
    rewrite (decide_True (P := xint 0 = 0)) by done. rewrite Htb. fold (with_addr 12 (freeblock st) d). fold d1.
    rewrite aget_direct by (apply Hio || lia). cbn [obind]. rewrite Hd12.
    rewrite xint_u32, wrap_small by lia. rewrite rsect_in by (simpl; rewrite (dk_nsect _ Hdk); lia). cbn [obind].
    change (get32 (sector st1 (freeblock st)) (Z.to_nat (4 * (12 - 12)))) with (entry st1 (freeblock st) 12).
    rewrite entry_zeroes by (lia || (apply (dk_zero _ Hdk); lia)).
    rewrite (decide_True (P := 0 = 0)) by done. rewrite Htb1.
    rewrite wsect_in by (simpl; rewrite (dk_nsect _ Hdk); lia). cbn [obind].
    rewrite xint_u32, wrap_small by (simpl; lia). unfold enter_block. by rewrite Hd12. }
  split; try done; try (simpl; lia).
  - rewrite Ha' by lia. by rewrite decide_True.
  - intros k Hk. rewrite Ha' by lia. rewrite decide_False by lia. apply Ha. lia.
  - unfold cost. rewrite decide_False, decide_True by lia. simpl. lia.
  - intros sec Hsec _. rewrite Hframe by lia. done.
  - intros _. rewrite Hframe by lia. apply (dk_zero _ Hdk1). simpl. lia.
Qed.

(** Any block from the start of the file to the first one after its end. *)
Lemma file_block_spec st d n fbn :
  disk_ok st → file_ok st d n → 0 ≤ fbn ≤ n → fbn < 140 → n ≤ 140 →
  freeblock st + cost n fbn ≤ 1024 →
  ∃ x d' st', file_block fbn d st = Done (x, d', st') ∧ block_got st d n fbn x d' st'.
Proof.
  intros Hdk Hf Hfbn H140 Hn Hroom. destruct (decide (fbn < n)) as [Hlt|Hge].
  { destruct (file_block_old st d n fbn) as [? ?]; [done|done|lia|lia|]. eauto. }
  assert (fbn = n) as -> by lia. unfold cost in Hroom. rewrite decide_False in Hroom by lia.
  destruct (decide (n < 12)) as [H12|H12].
  { rewrite decide_False in Hroom by lia.
    destruct (file_block_direct st d n) as (d' & st' & ? & ?); [done|done|lia|lia|]. eauto. }
  destruct (decide (n = 12)) as [->|Hne].
  { destruct (file_block_first st d) as (d' & st' & ? & ?); [done|done|lia|]. eauto. }
  destruct (file_block_indirect st d n) as (st' & ? & ?); [done|done|lia|lia|]. eauto.
Qed.

(** Bytes of a patched buffer. *)
Lemma nth_patch off bytes buf j :
  0 ≤ off → off + Z.of_nat (length bytes) ≤ Z.of_nat (length buf) → 0 ≤ j →
  nth (Z.to_nat j) (patch off bytes buf) 0 =
  if decide (off ≤ j < off + Z.of_nat (length bytes)) then nth (Z.to_nat (j - off)) bytes 0
  else nth (Z.to_nat j) buf 0.
Proof.
  intros H1 H2 H3. unfold patch. rewrite !nth_lookup. case_decide as Hin.
  - rewrite lookup_app_r by len. rewrite length_take.
    rewrite lookup_app_l by lia. do 2 f_equal. lia.
  - destruct (decide (j < off)).
    + rewrite lookup_app_l by len. by rewrite lookup_take_lt by lia.
    + rewrite lookup_app_r by len. rewrite length_take.
      rewrite lookup_app_r by lia. rewrite lookup_drop. do 2 f_equal. lia.
Qed.

(** Number of blocks of a file of [off] bytes. *)
Definition blocks_of (off : Z) : Z := (off + 511) / 512.

(** Writing a data block of the file leaves its addresses alone. *)
Lemma put_data_ok st d m x buf fbn :
  disk_ok st → file_ok st d m → 0 ≤ fbn < m → m ≤ 140 → x = addr_of st d fbn → length buf = 512%nat →
  disk_ok (put_sector x buf st) ∧ file_ok (put_sector x buf st) d m ∧
  (∀ k, 0 ≤ k < m → addr_of (put_sector x buf st) d k = addr_of st d k) ∧
  (∀ i, 0 ≤ i → i / 512 < m → byte_at (put_sector x buf st) d i =
     if decide (i / 512 = fbn) then nth (Z.to_nat (i mod 512)) buf 0 else byte_at st d i).
Proof.
  intros Hdk Hf Hfbn Hm -> Hb. pose proof (fo_range _ _ _ Hf fbn Hfbn) as Hr.
  assert (addr_of st d fbn ≠ direct d 12) as Hne.
  { destruct (decide (m ≤ 12)) as [H12|H12].
    - rewrite (fo_none _ _ _ Hf H12). lia.
    - apply (fo_ind _ _ _ Hf); lia. }
  set (x := addr_of st d fbn) in *.
  assert (∀ k, 0 ≤ k → addr_of (put_sector x buf st) d k = addr_of st d k) as Ha.
  { intros k Hk. apply addr_of_ext; [done|done|]. rewrite sector_put. by rewrite decide_False by congruence. }
  split_and!.
  - destruct Hdk as [H1 H2 H3 Hu H4]. split; simpl; [by apply put_sector_wf|done|done|done|].
    intros sec Hsec. rewrite sector_put. rewrite decide_False by lia. auto.
  - destruct Hf as [H1 H2 H3 H4 H5 H6]. split; simpl; try done.
    + intros k Hk. rewrite Ha by lia. auto.
    + intros j k Hj Hk. rewrite !Ha by lia. auto.
    + intros k Hk. destruct (decide (0 ≤ k)); [|lia]. rewrite Ha by lia. auto.
    + intros H. destruct (H6 H) as [? Hk]. split; [done|]. intros k ?. rewrite Ha by lia. auto.
  - intros k Hk. apply Ha. lia.
  - intros i Hi Him. unfold byte_at. pose proof (Z.div_pos i 512). rewrite Ha, sector_put by lia.
    case_decide as Heq; case_decide as Hk; [done| |by subst|done].
    exfalso. revert Heq. unfold x. destruct (decide (i / 512 < fbn)).
    + apply (fo_inj _ _ _ Hf); lia.
    + intros Heq. symmetry in Heq. revert Heq. apply (fo_inj _ _ _ Hf); lia.
Qed.

(** The effect of appending [p] at offset [off]. *)
Record appended (st : fs) (d : dinode) (off : Z) (p : list Z) (d' : dinode) (st' : fs) : Prop := {
  ap_disk : disk_ok st';
  ap_file : file_ok st' d' (blocks_of (off + Z.of_nat (length p)));
  ap_old : ∀ i, 0 ≤ i < off → byte_at st' d' i = byte_at st d i;
  ap_new : ∀ i, off ≤ i < off + Z.of_nat (length p) → byte_at st' d' i = nth (Z.to_nat (i - off)) p 0;
  ap_addr_old : ∀ k, 0 ≤ k < blocks_of off → addr_of st' d' k = addr_of st d k;
  ap_addr_new : ∀ k, blocks_of off ≤ k < blocks_of (off + Z.of_nat (length p)) →
    freeblock st ≤ addr_of st' d' k;
  ap_ind : 12 < blocks_of (off + Z.of_nat (length p)) →
    (12 < blocks_of off → direct d' 12 = direct d 12) ∧
    (blocks_of off ≤ 12 → freeblock st ≤ direct d' 12);
  ap_free : freeblock st' = freeblock st + growth (blocks_of off) (blocks_of (off + Z.of_nat (length p)));
  ap_frame : ∀ sec, sec < freeblock st → (∀ k, 0 ≤ k < blocks_of off → sec ≠ addr_of st d k) →
    sec ≠ direct d 12 ∨ blocks_of off ≤ 12 → sector st' sec = sector st sec;
  ap_same : d' = Dinode (di_type d) (di_major d) (di_minor d) (di_nlink d) (di_size d) (di_addrs d');
  ap_rest : freeinode st' = freeinode st ∧ links st' = links st ∧ hardLinkMapRoot st' = hardLinkMapRoot st;
  ap_tail : (∀ i, off ≤ i < 512 * blocks_of off → byte_at st d i = 0) →
    ∀ i, off + Z.of_nat (length p) ≤ i < 512 * blocks_of (off + Z.of_nat (length p)) →
      byte_at st' d' i = 0;
}.

Lemma appended_nil st d off :
  disk_ok st → file_ok st d (blocks_of off) → appended st d off [] d st.
Proof.
  intros Hdk Hf. split; simpl; try done.
  - by rewrite Z.add_0_r.
  - lia.
  - intros k. rewrite Z.add_0_r. lia.
  - rewrite Z.add_0_r. intros ?. split; [done|lia].
  - rewrite Z.add_0_r. unfold growth. rewrite decide_False by lia. lia.
  - by destruct d.
  - rewrite Z.add_0_r. auto.
Qed.

(** How far one iteration gets: to the end of a block or of the data. *)
Lemma chunk_bounds off len :
  0 ≤ off → 0 < len → off + len ≤ 71680 →
  let fbn := off / 512 in
  let n1 := Z.min len ((fbn + 1) * 512 - off) in
  (0 ≤ fbn ≤ blocks_of off ∧ fbn < 140 ∧ blocks_of off ≤ fbn + 1) ∧ 0 < n1 ≤ len ∧
  off + n1 ≤ (fbn + 1) * 512 ∧ fbn * 512 ≤ off ∧ blocks_of (off + n1) = fbn + 1 ∧
  fbn + 1 ≤ blocks_of (off + len).
Proof. intros. unfold n1, fbn, blocks_of in *. Z.div_mod_to_equations. lia. Qed.

(** One iteration of the loop of [iappend]. *)
Lemma append_step st d off p :
  disk_ok st → file_ok st d (blocks_of off) → 0 ≤ off → p ≠ [] →
  off + Z.of_nat (length p) ≤ 71680 →
  freeblock st + growth (blocks_of off) (blocks_of (off + Z.of_nat (length p))) ≤ 1024 →
  let fbn := off / 512 in
  let n1 := Z.min (Z.of_nat (length p)) ((fbn + 1) * 512 - off) in
  ∃ x d1 st1, file_block fbn d st = Done (x, d1, st1) ∧ 0 < n1 ∧ x < nsect st1 ∧
    appended st d off (take (Z.to_nat n1) p) d1
      (put_sector x (patch (off - fbn * 512) (take (Z.to_nat n1) p) (sector st1 x)) st1).
Proof.
  intros Hdk Hf Hoff Hne Hmax Hroom fbn n1.
  assert (0 < Z.of_nat (length p)) as Hlen by (destruct p; [done|simpl; lia]).
  set (n := blocks_of off) in *.
  destruct (chunk_bounds off (Z.of_nat (length p)) Hoff Hlen Hmax)
    as ((Hfbn & H140 & Hn1) & [Hpos Hlp] & Hend & Hstart & Hblk & Hmono).
  fold fbn n1 n in Hfbn, H140, Hn1, Hpos, Hlp, Hend, Hstart, Hblk, Hmono.
  destruct (file_block_spec st d n fbn Hdk Hf Hfbn H140 ltac:(lia)) as (x & d1 & st1 & Hfb & Hbg).
  { unfold cost. unfold growth in Hroom. repeat case_decide; lia. }
  destruct Hbg as [Bdk Bf Bx Bfresh Bold Bind Bfree Bframe Bsame Brest Bzero].
  replace (Z.max n (fbn + 1)) with (fbn + 1) in Bf by lia.
  pose proof (fo_range _ _ _ Bf fbn ltac:(lia)) as Hxr. pose proof (dk_free _ Bdk) as Hfr.
  assert (length (sector st1 x) = 512%nat) as Hls by (apply length_sector; apply Bdk).
  set (chunk := take (Z.to_nat n1) p).
  assert (Z.of_nat (length chunk) = n1) as Hch by (unfold chunk; rewrite length_take; lia).
  destruct (put_data_ok st1 d1 (fbn + 1) x (patch (off - fbn * 512) chunk (sector st1 x)) fbn)
    as (Pdk & Pf & Pa & Pb); [done|done|lia|lia|done|rewrite length_patch; rewrite ?Hls, ?Hch; lia|].
  exists x, d1, st1. split; [done|]. split; [lia|].
  split; [rewrite (dk_nsect _ Bdk); lia|].
  assert (∀ i, 0 ≤ i < off → i / 512 < n) as Hin by (intros; unfold n, blocks_of; Z.div_mod_to_equations; lia).
  assert (∀ i, 0 ≤ i < off → byte_at st1 d1 i = byte_at st d i) as Hbytes.
  { intros i Hi. specialize (Hin i Hi). pose proof (Z.div_pos i 512 ltac:(lia) ltac:(lia)).
    unfold byte_at. rewrite Bold by lia. rewrite Bframe; [done| |].
    - apply (fo_range _ _ _ Hf). lia.
    - destruct (decide (n ≤ 12)); [by right|left]. apply (fo_ind _ _ _ Hf); lia. }
  split; rewrite ?Hch; try done.
  - by rewrite Hblk.
  - intros i Hi. specialize (Hin i Hi). rewrite Pb by lia. case_decide as Hk; [|by apply Hbytes].
    rewrite nth_patch by (rewrite ?Hls, ?Hch; Z.div_mod_to_equations; lia).
    rewrite decide_False by (rewrite Hch; Z.div_mod_to_equations; lia).
    rewrite <- (Hbytes i Hi). unfold byte_at. by rewrite Hk, <- Bx.
  - intros i Hi. assert (i / 512 = fbn) as Hk by (Z.div_mod_to_equations; lia).
    rewrite Pb by lia. rewrite decide_True by done.
    assert (i mod 512 = i - fbn * 512) as -> by (Z.div_mod_to_equations; lia).
    rewrite nth_patch by (rewrite ?Hls, ?Hch; lia). rewrite decide_True by (rewrite Hch; lia).
    f_equal. lia.
  - intros k Hk. rewrite Pa by lia. apply Bold. lia.
  - intros k Hk. rewrite Hblk in Hk. rewrite Pa by lia. replace k with fbn by lia. rewrite <- Bx.
    apply Bfresh. lia.
  - rewrite Hblk. intros H12. apply Bind. lia.
  - simpl. rewrite Bfree, Hblk. unfold cost, growth. repeat case_decide; lia.
  - intros sec Hsec Hnot Hind. rewrite sector_put. case_decide as Hx; [|by apply Bframe].
    exfalso. destruct (decide (fbn < n)) as [Hlt|Hge].
    + apply (Hnot fbn); [lia|]. by rewrite Hx, Bx, Bold by lia.
    + specialize (Bfresh ltac:(lia)). lia.
  - rewrite Hblk. intros Htail i Hi. assert (i / 512 = fbn) as Hk by (Z.div_mod_to_equations; lia).
    rewrite Pb by lia. rewrite decide_True by done.
    rewrite nth_patch by (rewrite ?Hls, ?Hch; Z.div_mod_to_equations; lia).
    rewrite decide_False by (rewrite Hch; Z.div_mod_to_equations; lia).
    destruct (decide (fbn < n)) as [Hlt|Hge].
    + etrans; [|apply (Htail i); lia]. unfold byte_at. rewrite Hk, Bx, Bold by lia. rewrite Bframe; [done| |].
      * apply (fo_range _ _ _ Hf). lia.
      * destruct (decide (n ≤ 12)); [by right|left]. apply (fo_ind _ _ _ Hf); lia.
    + rewrite Bzero by lia. unfold zeroes. rewrite nth_lookup.
      destruct (replicate 512 0 !! _) as [b|] eqn:Hb; [|done]. by apply lookup_replicate in Hb as [-> _].
Qed.

Lemma blocks_of_mono a b : a ≤ b → blocks_of a ≤ blocks_of b.
Proof. intros. unfold blocks_of. Z.div_mod_to_equations. lia. Qed.

Lemma appended_trans st d off p1 d1 st1 p2 d2 st2 :
  0 ≤ off → appended st d off p1 d1 st1 →
  appended st1 d1 (off + Z.of_nat (length p1)) p2 d2 st2 → appended st d off (p1 ++ p2) d2 st2.
Proof.
  intros Hoff A1 A2. set (n1 := Z.of_nat (length p1)) in *.
  assert (Z.of_nat (length (p1 ++ p2)) = n1 + Z.of_nat (length p2)) as Hlen by len.
  pose proof (blocks_of_mono off (off + n1) ltac:(lia)) as Hm1.
  pose proof (blocks_of_mono (off + n1) (off + n1 + Z.of_nat (length p2)) ltac:(lia)) as Hm2.
  assert (freeblock st ≤ freeblock st1) as Hfr.
  { rewrite (ap_free _ _ _ _ _ _ A1). fold n1. unfold growth. case_decide; lia. }
  split; rewrite ?Hlen, ?Z.add_assoc.
  - apply A2.
  - apply A2.
  - intros i Hi. rewrite (ap_old _ _ _ _ _ _ A2) by lia. by apply (ap_old _ _ _ _ _ _ A1).
  - intros i Hi. destruct (decide (i < off + n1)).
    + rewrite (ap_old _ _ _ _ _ _ A2) by lia. rewrite (ap_new _ _ _ _ _ _ A1) by lia.
      rewrite !nth_lookup. by rewrite lookup_app_l by lia.
    + rewrite (ap_new _ _ _ _ _ _ A2) by lia. rewrite !nth_lookup.
      rewrite lookup_app_r by lia. do 2 f_equal. lia.
  - intros k Hk. rewrite (ap_addr_old _ _ _ _ _ _ A2) by lia. by apply (ap_addr_old _ _ _ _ _ _ A1).
  - intros k Hk. destruct (decide (k < blocks_of (off + n1))).
    + pose proof (blocks_of_mono 0 off Hoff) as H0. change (blocks_of 0) with 0 in H0.
      rewrite (ap_addr_old _ _ _ _ _ _ A2) by lia. apply (ap_addr_new _ _ _ _ _ _ A1). fold n1. lia.
    + pose proof (ap_addr_new _ _ _ _ _ _ A2 k ltac:(lia)). lia.
  - intros H12. destruct (ap_ind _ _ _ _ _ _ A2 H12) as [Hsame Hnew]. fold n1 in Hsame, Hnew.
    destruct (decide (12 < blocks_of (off + n1))) as [H1|H1].
    + rewrite Hsame by done. by apply (ap_ind _ _ _ _ _ _ A1).
    + split; [lia|]. intros _. specialize (Hnew ltac:(lia)). lia.
  - rewrite (ap_free _ _ _ _ _ _ A2), (ap_free _ _ _ _ _ _ A1). fold n1. unfold growth.
    repeat case_decide; lia.
  - intros sec Hsec Hnot Hind. rewrite (ap_frame _ _ _ _ _ _ A2).
    + by apply (ap_frame _ _ _ _ _ _ A1).
    + lia.
    + intros k Hk. destruct (decide (k < blocks_of off)).
      * rewrite (ap_addr_old _ _ _ _ _ _ A1) by lia. apply Hnot. lia.
      * pose proof (ap_addr_new _ _ _ _ _ _ A1 k ltac:(fold n1; lia)). lia.
    + destruct (decide (blocks_of (off + n1) ≤ 12)); [by right|left].
      destruct (ap_ind _ _ _ _ _ _ A1 ltac:(fold n1; lia)) as [Hs Hn].
      destruct (decide (12 < blocks_of off)); [rewrite Hs by done; lia|]. specialize (Hn ltac:(lia)). lia.
  - rewrite (ap_same _ _ _ _ _ _ A2), (ap_same _ _ _ _ _ _ A1). done.
  - destruct (ap_rest _ _ _ _ _ _ A1) as (? & ? & ?), (ap_rest _ _ _ _ _ _ A2) as (? & ? & ?).
    split_and!; congruence.
  - intros Htail i Hi. apply (ap_tail _ _ _ _ _ _ A2); [|lia]. intros j Hj.
    by apply (ap_tail _ _ _ _ _ _ A1 Htail).
Qed.

Lemma append_loop_spec fuel st d off p :
  disk_ok st → file_ok st d (blocks_of off) → 0 ≤ off → (length p ≤ fuel)%nat →
  off + Z.of_nat (length p) ≤ 71680 →
  freeblock st + growth (blocks_of off) (blocks_of (off + Z.of_nat (length p))) ≤ 1024 →
  ∃ d' st', append_loop fuel off p d st = Done (off + Z.of_nat (length p), d', st') ∧
    appended st d off p d' st'.
Proof.
  revert st d off p. induction fuel as [|fuel IH]; intros st d off p Hdk Hf Hoff Hfuel Hmax Hroom;
    (destruct p as [|b p]; [exists d, st; simpl; rewrite Z.add_0_r; split; [done|by apply appended_nil]|]).
  { simpl in Hfuel. lia. }
  destruct (append_step st d off (b :: p)) as (x & d1 & st1 & Hfb & Hn1 & Hx & Happ); try done.
  set (q := b :: p) in *. set (fbn := off / 512) in *.
  set (n1 := Z.min (Z.of_nat (length q)) ((fbn + 1) * 512 - off)) in *.
  set (st2 := put_sector _ _ _) in Happ.
  assert (Z.of_nat (length (take (Z.to_nat n1) q)) = n1) as Ht by len.
  assert (Z.of_nat (length (drop (Z.to_nat n1) q)) = Z.of_nat (length q) - n1) as Hd by len.
  destruct (IH st2 d1 (off + n1) (drop (Z.to_nat n1) q)) as (d' & st' & Hloop & Happ').
  - apply Happ.
  - pose proof (ap_file _ _ _ _ _ _ Happ) as H. by rewrite Ht in H.
  - lia.
  - lia.
  - lia.
  - rewrite (ap_free _ _ _ _ _ _ Happ), Ht, Hd.
    replace (off + n1 + (Z.of_nat (length q) - n1)) with (off + Z.of_nat (length q)) by lia.
    pose proof (blocks_of_mono off (off + n1) ltac:(lia)).
    pose proof (blocks_of_mono (off + n1) (off + Z.of_nat (length q)) ltac:(lia)).
    unfold growth in *. repeat case_decide; lia.
  - exists d', st'. split.
    + unfold q at 1. cbn [append_loop]. fold q. fold fbn.
      rewrite decide_True by (change MAXFILE with 140; unfold fbn; Z.div_mod_to_equations; lia).
      rewrite Hfb. cbn [obind]. rewrite (wrap_small 32 ((fbn + 1) * 512 - off)) by (unfold fbn; Z.div_mod_to_equations; lia).
      fold n1. rewrite rsect_in by done. cbn [obind]. rewrite wsect_in by done. cbn [obind].
      rewrite wrap_small by lia. fold st2. rewrite Hloop, Hd. do 3 f_equal. lia.
    + rewrite <- (take_drop (Z.to_nat n1) q). eapply appended_trans; [done|done|]. by rewrite Ht.
Qed.

(** The contents of a file. *)
Definition file_bytes (st : fs) (d : dinode) : list Z := byte_at st d <$> seqZ 0 (di_size d).

(** The blocks of a file of [n] blocks, the indirect block included. *)
Definition owns (st : fs) (d : dinode) (n sec : Z) : Prop :=
  (∃ k, 0 ≤ k < n ∧ sec = addr_of st d k) ∨ (12 < n ∧ sec = direct d 12).

Lemma fmap_seqZ_app (f g : Z → Z) (n : Z) (p : list Z) :
  0 ≤ n → (∀ i, 0 ≤ i < n → f i = g i) →
  (∀ i, n ≤ i < n + Z.of_nat (length p) → f i = nth (Z.to_nat (i - n)) p 0) →
  f <$> seqZ 0 (n + Z.of_nat (length p)) = (g <$> seqZ 0 n) ++ p.
Proof.
  intros Hn Hold Hnew. apply list_eq. intros k. rewrite list_lookup_fmap.
  destruct (decide (Z.of_nat k < n + Z.of_nat (length p))) as [Hk|Hk].
  - rewrite lookup_seqZ_lt by lia. simpl. destruct (decide (Z.of_nat k < n)).
    + rewrite lookup_app_l by len.
      rewrite list_lookup_fmap, lookup_seqZ_lt by lia. simpl. f_equal. apply Hold. lia.
    + rewrite lookup_app_r by len.
      rewrite length_fmap, length_seqZ, Hnew by lia.
      destruct (lookup_lt_is_Some_2 p (k - Z.to_nat n)) as [b Hb]; [lia|].
      rewrite Hb. f_equal. apply nth_lookup_Some with (d := 0) in Hb. rewrite <- Hb. f_equal. lia.
  - rewrite lookup_seqZ_ge by lia. simpl. symmetry. apply lookup_ge_None_2.
    rewrite length_app, length_fmap, length_seqZ. lia.
Qed.

(** A well-formed file has addresses that fit an inode. *)
Lemma file_ok_uint st d n :
  file_ok st d n → freeblock st ≤ 1024 → 0 ≤ n → Forall is_uint (di_addrs d).
Proof.
  intros Hf Hfree Hn. apply Forall_lookup. intros k a Hk.
  pose proof (lookup_lt_Some _ _ _ Hk) as Hlt. rewrite (fo_len _ _ _ Hf) in Hlt.
  assert (a = direct d (Z.of_nat k)) as -> by (unfold direct; by rewrite Nat2Z.id, nth_lookup, Hk).
  unfold is_uint. destruct (decide (Z.of_nat k = 12)) as [->|Hne].
  - destruct (decide (n ≤ 12)) as [H|H]; [by rewrite (fo_none _ _ _ Hf H)|].
    destruct (fo_ind _ _ _ Hf) as [? _]; lia.
  - assert (addr_of st d (Z.of_nat k) = direct d (Z.of_nat k)) as <- by (unfold addr_of; by rewrite decide_True by lia).
    destruct (decide (Z.of_nat k < n)).
    + pose proof (fo_range _ _ _ Hf (Z.of_nat k) ltac:(lia)). lia.
    + rewrite (fo_zero _ _ _ Hf); lia.
Qed.

(** Storing the inode leaves the data of every file alone. *)
Lemma put_inode_data inum st d e n :
  disk_ok st → file_ok st d n → 0 ≤ inum < 208 → length (di_addrs e) = 13%nat →
  (∀ j, direct e j = direct d j) →
  disk_ok (put_inode inum e st) ∧ file_ok (put_inode inum e st) e n ∧
  (∀ i, 0 ≤ i → i / 512 < n → byte_at (put_inode inum e st) e i = byte_at st d i).
Proof.
  intros Hdk Hf Hinum He Hdir. pose proof (dk_free _ Hdk) as Hfree.
  assert (2 ≤ i2b inum < 28) as Hb by (unfold i2b; change IPB with 8; Z.div_mod_to_equations; lia).
  assert (∀ sec, sec ≠ i2b inum → sector (put_inode inum e st) sec = sector st sec) as Hs.
  { intros sec Hsec. unfold put_inode. rewrite sector_put. by rewrite decide_False. }
  assert (∀ k, 0 ≤ k → addr_of (put_inode inum e st) e k = addr_of st d k) as Ha.
  { intros k Hk. apply addr_of_ext; [intros; apply Hdir|done|]. apply Hs.
    destruct (decide (n ≤ 12)) as [H|H]; [rewrite (fo_none _ _ _ Hf H); lia|].
    destruct (fo_ind _ _ _ Hf) as [? _]; lia. }
  split_and!.
  - destruct Hdk as [H1 H2 H3 Hu H4]. split; simpl; [by apply put_inode_wf|done|done|done|].
    intros sec Hsec. rewrite Hs by lia. auto.
  - destruct Hf as [H1 H2 H3 H4 H5 H6]. split; simpl; [done|..].
    + intros k Hk. rewrite Ha by lia. auto.
    + intros j k Hj Hk. rewrite !Ha by lia. auto.
    + intros k Hk. destruct (decide (0 ≤ k)).
      * rewrite Ha by lia. auto.
      * unfold addr_of. rewrite decide_True by lia. intros ?. rewrite Hdir.
        specialize (H4 k ltac:(lia) ltac:(lia)). unfold addr_of in H4. by rewrite decide_True in H4 by lia.
    + rewrite Hdir. done.
    + intros H. rewrite Hdir. destruct (H6 H) as [? Hk]. split; [done|]. intros k ?. rewrite Ha by lia. auto.
  - intros i Hi Hin. unfold byte_at. pose proof (Z.div_pos i 512). rewrite Ha by lia.
    rewrite Hs; [done|]. pose proof (fo_range _ _ _ Hf (i / 512) ltac:(lia)). lia.
Qed.

(** The inode after an append fits its on-disk form. *)
Lemma appended_wf st d p d' st' :
  dinode_wf d → appended st d (di_size d) p d' st' → di_size d + Z.of_nat (length p) < 2 ^ 32 →
  dinode_wf (set_size (di_size d + Z.of_nat (length p)) d').
Proof.
  intros Hwf A Hlt. pose proof (ap_same _ _ _ _ _ _ A) as Hs. pose proof (wf_size d Hwf) as Hsz.
  unfold is_uint in Hsz. unfold set_size. rewrite Hs. simpl.
  destruct Hwf as [W1 W2 W3 W4 W5 W6 W7].
  split; simpl; try done; [unfold is_uint; lia|apply (ap_file _ _ _ _ _ _ A)|].
  eapply file_ok_uint; [apply (ap_file _ _ _ _ _ _ A)|apply (ap_disk _ _ _ _ _ _ A)|].
  unfold blocks_of. Z.div_mod_to_equations. lia.
Qed.

(** Appending leaves the superblock, inode and bitmap sectors alone. *)
Lemma appended_low st d off p d' st' sec :
  disk_ok st → file_ok st d (blocks_of off) → appended st d off p d' st' → sec < 29 → 0 < sec →
  sector st' sec = sector st sec.
Proof.
  intros Hdk Hf A Hlt Hpos. pose proof (dk_free _ Hdk). apply (ap_frame _ _ _ _ _ _ A); [lia| |].
  - intros k Hk. pose proof (fo_range _ _ _ Hf k Hk). lia.
  - destruct (decide (blocks_of off ≤ 12)); [by right|left]. destruct (fo_ind _ _ _ Hf) as [? _]; lia.
Qed.

(** C10: appending to a file.  On a well-formed image, for a file with room
    up to 140 blocks and enough free blocks, [iappend] completes; the file
    then holds its old contents followed by the new bytes, across direct
    blocks, the indirect block and partly filled last blocks; its size and
    the free-block counters are exact; every other inode and every block it
    does not own keep their contents. *)
Theorem iappend_appends st inum d p :
  disk_ok st → 0 ≤ inum < 208 → rinode inum st = Done d → dinode_wf d →
  file_ok st d (blocks_of (di_size d)) → di_size d + Z.of_nat (length p) ≤ 71680 →
  freeblock st + growth (blocks_of (di_size d)) (blocks_of (di_size d + Z.of_nat (length p))) ≤ 1024 →
  ∃ d' st', iappend inum p st = Done st' ∧ rinode inum st' = Done d' ∧ dinode_wf d' ∧ disk_ok st' ∧
    file_ok st' d' (blocks_of (di_size d')) ∧ di_type d' = di_type d ∧ di_nlink d' = di_nlink d ∧
    file_bytes st' d' = file_bytes st d ++ p ∧
    freeblock st' = freeblock st + growth (blocks_of (di_size d)) (blocks_of (di_size d')) ∧
    (∀ j, 0 ≤ j < 208 → j ≠ inum → rinode j st' = rinode j st) ∧
    (∀ sec, 28 ≤ sec < freeblock st → ¬ owns st d (blocks_of (di_size d)) sec → sector st' sec = sector st sec).
Proof.
  intros Hdk Hinum Hrd Hwf Hf Hmax Hroom. pose proof (wf_size d Hwf) as Hsz. unfold is_uint in Hsz.
  pose proof (dk_free _ Hdk) as Hfree.
  assert (∀ j, 0 ≤ j < 208 → 2 ≤ i2b j < 28) as Hi2b
    by (intros; unfold i2b; change IPB with 8; Z.div_mod_to_equations; lia).
  destruct (append_loop_spec (length p) st d (di_size d) p) as (d1 & st1 & Hloop & A); try done; [lia|].
  set (off := di_size d + Z.of_nat (length p)) in *.
  set (d' := set_size off d1).
  assert (di_addrs d' = di_addrs d1) as Haddrs by done.
  pose proof (ap_file _ _ _ _ _ _ A) as Hf1. fold off in Hf1.
  assert (length (di_addrs d') = 13%nat) as Hlen by apply Hf1.
  assert (dinode_wf d') as Hwf' by (apply (appended_wf st d p d1 st1); [done|done|lia]).
  destruct (put_inode_data inum st1 d1 d' (blocks_of off)) as (Pdk & Pf & Pb); [apply A|done|done|done|done|].
  assert (sectors_wf st1) as Hsw by apply A.
  exists d', (put_inode inum d' st1). split_and!.
  - unfold iappend. rewrite Hrd. cbn [obind]. rewrite xint_u32, wrap_small by lia. rewrite Hloop. cbn [obind].
    rewrite xint_u32, wrap_small by lia. apply winode_in.
    rewrite (dk_nsect _ (ap_disk _ _ _ _ _ _ A)). specialize (Hi2b inum Hinum). lia.
  - rewrite rinode_in by (simpl; rewrite (dk_nsect _ (ap_disk _ _ _ _ _ _ A)); specialize (Hi2b inum Hinum); lia).
    rewrite inode_bytes_put_eq by done. by rewrite decode_encode_dinode.
  - done.
  - done.
  - exact Pf.
  - unfold d'. simpl. by rewrite (ap_same _ _ _ _ _ _ A).
  - unfold d'. simpl. by rewrite (ap_same _ _ _ _ _ _ A).
  - unfold file_bytes. change (di_size d') with off. apply fmap_seqZ_app; [lia| |].
    + intros k Hk. rewrite Pb by (unfold blocks_of; Z.div_mod_to_equations; lia).
      by apply (ap_old _ _ _ _ _ _ A).
    + intros k Hk. rewrite Pb by (unfold blocks_of; Z.div_mod_to_equations; lia).
      by apply (ap_new _ _ _ _ _ _ A).
  - simpl. apply A.
  - intros j Hj Hne. pose proof (Hi2b j Hj) as Hbj.
    rewrite !rinode_in by (simpl; rewrite ?(dk_nsect _ (ap_disk _ _ _ _ _ _ A)), ?(dk_nsect _ Hdk); lia).
    rewrite inode_bytes_put_ne by done. unfold inode_bytes. by rewrite (appended_low _ _ _ _ _ _ (i2b j) Hdk Hf A) by lia.
  - intros sec Hsec Hno. unfold put_inode. rewrite sector_put. specialize (Hi2b inum Hinum).
    rewrite decide_False by lia. apply (ap_frame _ _ _ _ _ _ A); [lia| |].
    + intros k Hk ->. apply Hno. left. eauto.
    + destruct (decide (blocks_of (di_size d) ≤ 12)); [by right|left]. intros ->. apply Hno. right. split; [lia|done].
Qed.

(** A new file, inode 2, on an empty image. *)
Definition new_file : dinode := Dinode T_FILE 0 0 1 0 (replicate 13 0).

Lemma zero_fs_ok : disk_ok zero_fs.
Proof. by split. Qed.

Lemma new_file_ok st : file_ok st new_file 0.
Proof.
  assert (∀ k, direct new_file k = 0) as H0.
  { intros k. unfold direct, new_file. cbn [di_addrs]. rewrite nth_lookup.
    destruct (replicate 13 0 !! Z.to_nat k) as [a|] eqn:Ha; [|done]. by apply lookup_replicate in Ha as [-> _]. }
  split; try done; try lia.
  intros k Hk [H|H]; [|lia]. unfold addr_of. rewrite decide_True by done. apply H0.
Qed.

Lemma iappend_appends_witness :
  ∃ d' st', iappend 2 [104; 105] (put_inode 2 new_file zero_fs) = Done st' ∧ file_bytes st' d' = [104; 105].
Proof.
  destruct (put_inode_data 2 zero_fs new_file new_file 0) as (Hdk & Hf & _);
    [exact zero_fs_ok|apply new_file_ok|lia|done|done|].
  destruct (iappend_appends (put_inode 2 new_file zero_fs) 2 new_file [104; 105])
    as (d' & st' & Hi & _ & _ & _ & _ & _ & _ & Hb & _).
  - exact Hdk.
  - lia.
  - reflexivity.
  - split; try done. simpl. repeat (constructor; [done|]). constructor.
  - exact Hf.
  - simpl. lia.
  - done.
  - exists d', st'. split; [exact Hi|exact Hb].
Defined.

(** ** Whole images *)

(** The verdict of the checker on the image that is built. *)
Definition verdict (r : M fs) : option (outcome fsck_error unit) :=
  match r with
  | Done st => Some (check_image (image_of st))
  | _ => None
  end.

Definition small_file (n : Z) : list Z * host := ([97 + n], HFile (100 + n) 1 [104; 105]).

(** A directory of [n] small files. *)
Definition flat_tree (n : Z) : host := HDir (Some (small_file <$> seqZ 0 n)).

(** A tree with a subdirectory, a hard link and a file that needs an
    indirect block. *)
Definition mixed_tree : host :=
  HDir (Some [([97], HFile 5 2 [104; 105]);
              ([98], HDir (Some [([99], HFile 5 2 [104; 105])]));
              ([100], HFile 7 1 (replicate (Z.to_nat 7000) 65))]).

(** A [malloc] that hands out zeroed memory. *)
Definition zeroed : Malloc :=
  {| malloc st := (fresh (dom (links st)), None); malloc_unused st := not_elem_of_dom_1 _ _ (is_fresh _) |}.

(** One that leaves a pointer to a block that is not in use. *)
Definition dirty : Malloc :=
  {| malloc st := (fresh (dom (links st)), Some (S (fresh (dom (links st)))));
     malloc_unused st := not_elem_of_dom_1 _ _ (is_fresh _) |}.

(** Files [a], [b], [c], the second name of [b], [d], [e]. *)
Definition reuse_tree : host :=
  HDir (Some [([97], HFile 1 1 []); ([98], HFile 2 2 []); ([99], HFile 3 1 []); ([100], HFile 2 2 []);
              ([101], HFile 4 1 []); ([102], HFile 5 1 [])]).

(** One that hands out zeroed memory, except that the block which is free
    again when [d] comes, the node of [b] that led to the node of [c], is
    handed out once more as it was left. *)
Definition reusing : Malloc :=
  let of_b := fresh ({[fresh (∅ : gset nat)]} : gset nat) in
  let of_c := fresh ({[fresh (∅ : gset nat); of_b]} : gset nat) in
  {| malloc st := if decide (freeinode st = 5 ∧ links st !! of_b = None) then (of_b, Some of_c)
                  else (fresh (dom (links st)), None);
     malloc_unused st := ltac:(simpl; case_decide as H; [apply H|apply not_elem_of_dom_1, is_fresh]) |}.

(** A directory whose names of one file come one after the other. *)
Definition grouped_tree : host :=
  HDir (Some [([97], HFile 5 2 [104; 105]); ([98], HFile 5 2 [104; 105]);
              ([99], HDir (Some [([100], HFile 7 1 [106])]))]).

(** Two kinds of image the builder makes are rejected by the checker:
    one built without a tree, whose root directory has no "." and "..", and
    one in which a directory exactly fills its blocks (here 30 files beside
    the two dot entries), because its size is rounded up by one block too
    many. *)
Lemma built_images_rejected :
  verdict (build zeroed (Some (flat_tree 30))) = Some (Exit bad_file_size_error) ∧
  verdict (build zeroed None) = Some (Exit bad_directory_format_error).
Proof. split_and!; vm_compute; reflexivity. Qed.

(** Two files with two names each; the first one's second name comes
    between the two names of the second. *)
Definition linked_tree : host :=
  HDir (Some [([97], HFile 5 2 [104]); ([98], HFile 6 2 [105]); ([99], HFile 5 2 [104]);
              ([100], HFile 6 2 [105])]).

(** The hard-link list loses entries.  When the entry at the head of
    the list has seen its last link, [fetchHardLink] clears the whole list:
    the second name of the other file is then copied into a new inode
    (number 4) instead of being linked to inode 3, whose link count stays
    at 1. *)
Lemma hard_links_lost :
  ∃ st, build zeroed (Some linked_tree) = Done st ∧ freeinode st = 5 ∧
    (di_nlink <$> (match rinode 2 st with Done d => Some d | _ => None end)) = Some 2 ∧
    (di_nlink <$> (match rinode 3 st with Done d => Some d | _ => None end)) = Some 1 ∧
    (di_type <$> (match rinode 4 st with Done d => Some d | _ => None end)) = Some T_FILE.
Proof.
  assert (match build zeroed (Some linked_tree) with
          | Done st => (freeinode st, di_nlink <$> (match rinode 2 st with Done d => Some d | _ => None end),
              di_nlink <$> (match rinode 3 st with Done d => Some d | _ => None end),
              di_type <$> (match rinode 4 st with Done d => Some d | _ => None end))
          | _ => (0, None, None, None) end = (5, Some 2, Some 1, Some T_FILE)) as Hrun
    by (vm_compute; reflexivity).
  destruct (build zeroed (Some linked_tree)) as [st| |]; [|done..].
  exists st. by simplify_eq.
Qed.

(** A list that still has a node is freed by reading each node after it has
    been freed. *)
Lemma free_after_use st c n :
  hardLinkMapRoot st = Some c → links st !! c = Some n → freeHardLinkMap st = Fault.
Proof. intros Hr Hn. unfold freeHardLinkMap, deref. by rewrite Hr, Hn. Qed.
