(* ===== verification/MkfsHost.v ===== *)
(** * The host tree mkfs.c copies

    Induction on a host tree, what the image needs to hold one (inodes,
    blocks, directory entries), and which trees [fits] the 200 inodes and 995
    data blocks of the image. *)
From S2P Require Import Prelude CInt FsLayout Image Mkfs MkfsTheorems.
Import Mk.

Section HostInd.
Variable P : host → Prop.
Hypothesis HNone : P (HDir None).
Hypothesis HSome : ∀ l, Forall (λ p, P p.2) l → P (HDir (Some l)).
Hypothesis HF : ∀ ino nlink data, P (HFile ino nlink data).
Hypothesis HU : P HUnreadable.

Fixpoint host_tree_ind (h : host) : P h :=
  match h with
  | HDir None => HNone
  | HDir (Some l) =>
      HSome l ((fix go l : Forall (λ p, P p.2) l :=
                  match l with
                  | [] => List.Forall_nil _
                  | p :: l' => List.Forall_cons _ p l' (host_tree_ind p.2) (go l')
                  end) l)
  | HFile ino nlink data => HF ino nlink data
  | HUnreadable => HU
  end.
End HostInd.

(** The loop over the entries of a directory, on its own. *)
Definition add_entries (A : Malloc) (cur : Z) : list (list Z * host) → fs → M fs :=
  fix go (l : list (list Z * host)) (st : fs) {struct l} : M fs :=
    match l with
    | [] => Done st
    | (name, child) :: l' =>
        if decide (name = dot ∨ name = dotdot) then go l' st
        else
          match child with
          | HUnreadable => Exit add_dir_error
          | HDir _ =>
              let! r := ialloc T_DIR st in
              let '(child_inode, st1) := r in
              let! st2 := add_dir A child child_inode cur st1 in
              let! st3 := append_entry cur child_inode name st2 in
              go l' st3
          | HFile ino nlink data =>
              let! st1 := add_file A cur name ino nlink data st in
              go l' st1
          end
    end.

Lemma add_dir_unfold A entries cur parent st :
  add_dir A (HDir entries) cur parent st =
  let! st1 := add_dots cur parent st in
  match entries with
  | None => Done st1
  | Some l => let! st2 := add_entries A cur l st1 in fix_size cur st2
  end.
Proof. reflexivity. Qed.

(** ** Demand of a tree *)
Abbreviation skipped name := (name = dot ∨ name = dotdot).

(** A sum over the entries that are copied. *)
Definition live_sum (f : list Z * host → Z) : list (list Z * host) → Z :=
  fix go l := match l with
              | [] => 0
              | p :: l' => (if decide (skipped p.1) then 0 else f p) + go l'
              end.

Definition live_all (f : list Z * host → bool) : list (list Z * host) → bool :=
  fix go l := match l with
              | [] => true
              | p :: l' => (if decide (skipped p.1) then true else f p) && go l'
              end.

Definition entry_count (l : list (list Z * host)) : Z := live_sum (λ _, 1) l.

(** Blocks of a file of [size] bytes, its indirect block included. *)
Definition blocks_for (size : Z) : Z := growth 0 (blocks_of size).

Fixpoint need_inodes (h : host) : Z :=
  match h with
  | HDir (Some l) => live_sum (λ p, 1 + need_inodes p.2) l
  | _ => 0
  end.

Fixpoint need_blocks (h : host) : Z :=
  match h with
  | HDir None => 1
  | HDir (Some l) => blocks_for (16 * (2 + entry_count l)) + live_sum (λ p, need_blocks p.2) l
  | HFile _ _ data => blocks_for (Z.of_nat (length data))
  | HUnreadable => 0
  end.

(** Directory entries written. *)
Fixpoint need_entries (h : host) : Z :=
  match h with
  | HDir None => 2
  | HDir (Some l) => 2 + live_sum (λ p, 1 + need_entries p.2) l
  | _ => 0
  end.

(** The regular files in the order the copy meets them: host inode and number
    of names. *)
Definition live_concat {X} (f : list Z * host → list X) : list (list Z * host) → list X :=
  fix go l := match l with
              | [] => []
              | p :: l' => (if decide (skipped p.1) then [] else f p) ++ go l'
              end.

Fixpoint files (h : host) : list (Z * Z) :=
  match h with
  | HDir (Some l) => live_concat (λ p, files p.2) l
  | HFile ino nlink _ => if decide (nlink > 0) then [(u32 ino, u32 nlink)] else []
  | _ => []
  end.

(** Names and contents are bytes, as a host returns them. *)
Fixpoint host_bytes (h : host) : bool :=
  match h with
  | HDir (Some l) => live_all (λ p, bool_decide (Forall is_byte p.1) && host_bytes p.2) l
  | HFile _ _ data => bool_decide (Forall is_byte data)
  | _ => true
  end.

(** Every part of the tree can be represented: nothing is unreadable, names
    have no NUL, files and directories are at most 140 blocks long. *)
Fixpoint host_good (h : host) : bool :=
  match h with
  | HDir None => true
  | HDir (Some l) =>
      bool_decide (entry_count l + 2 ≤ 4480) &&
      live_all (λ p, bool_decide (0 ∉ p.1) && host_good p.2) l
  | HFile _ _ data => bool_decide (Z.of_nat (length data) ≤ 71680)
  | HUnreadable => false
  end.

(** No directory exactly fills its blocks. *)
Definition full_blocks (n : Z) : Prop := n mod 32 = 0.
#[export] Instance full_blocks_dec n : Decision (full_blocks n).
Proof. unfold full_blocks. apply _. Defined.

Fixpoint no_full (h : host) : bool :=
  match h with
  | HDir (Some l) => bool_decide (¬ full_blocks (2 + entry_count l)) && live_all (λ p, no_full p.2) l
  | _ => true
  end.

Definition is_directory (h : host) : bool := match h with HDir _ => true | _ => false end.

(** The tree can be copied into the image: the root takes one inode, and
    every name is counted as if it had an inode and contents of its own. *)
Definition fits (h : host) : bool :=
  is_directory h && host_bytes h && host_good h &&
  bool_decide (1 + need_inodes h ≤ 199 ∧ need_blocks h ≤ 995).

(** What [opendir] returns for it. *)
Lemma opendir_directory h : is_directory h = true → opendir h = h.
Proof. by destruct h. Qed.

Lemma fits_directory h : fits h = true → is_directory h = true.
Proof. unfold fits. rewrite !andb_true_iff. intros [[[Hd _] _] _]. exact Hd. Qed.

Lemma live_sum_nonneg f l : (∀ p, p ∈ l → ¬ skipped p.1 → 0 ≤ f p) → 0 ≤ live_sum f l.
Proof.
  induction l as [|p l IH]; intros Hf; simpl; [done|].
  assert (0 ≤ live_sum f l) by (apply IH; intros; apply Hf; [by right|done]).
  case_decide; [lia|]. specialize (Hf p ltac:(left) ltac:(done)). lia.
Qed.

Lemma entry_count_nonneg l : 0 ≤ entry_count l.
Proof. by apply live_sum_nonneg. Qed.

Lemma blocks_for_nonneg n : 0 ≤ n → 0 ≤ blocks_for n.
Proof. intros. unfold blocks_for, growth, blocks_of. case_decide; Z.div_mod_to_equations; lia. Qed.

Lemma need_inodes_nonneg h : 0 ≤ need_inodes h.
Proof.
  induction h as [|l IH| |] using host_tree_ind; simpl; [done| |done|done].
  apply live_sum_nonneg. intros p Hp _. rewrite Forall_forall in IH. specialize (IH p Hp). lia.
Qed.

Lemma need_blocks_nonneg h : 0 ≤ need_blocks h.
Proof.
  induction h as [|l IH|ino nl data|] using host_tree_ind; simpl; [done| |apply blocks_for_nonneg; lia|done].
  assert (0 ≤ live_sum (λ p, need_blocks p.2) l).
  { apply live_sum_nonneg. intros p Hp _. rewrite Forall_forall in IH. by apply IH. }
  pose proof (entry_count_nonneg l). pose proof (blocks_for_nonneg (16 * (2 + entry_count l))). lia.
Qed.

Lemma need_entries_nonneg h : 0 ≤ need_entries h.
Proof.
  induction h as [|l IH| |] using host_tree_ind; cbn [need_entries]; [done| |done|done].
  assert (0 ≤ live_sum (λ p, 1 + need_entries p.2) l); [|lia].
  apply live_sum_nonneg. intros p Hp _. rewrite Forall_forall in IH. specialize (IH p Hp). lia.
Qed.

Lemma live_sum_le f g l : (∀ p, p ∈ l → f p ≤ g p) → live_sum f l ≤ live_sum g l.
Proof.
  induction l as [|p l IH]; intros Hf; simpl; [done|].
  assert (live_sum f l ≤ live_sum g l) by (apply IH; intros; apply Hf; by right).
  pose proof (Hf p ltac:(left)). case_decide; lia.
Qed.

Lemma live_sum_split f g (a : Z) l :
  live_sum (λ p, f p + a * g p) l = live_sum f l + a * live_sum g l.
Proof. induction l as [|p l IH]; simpl; [lia|]. rewrite IH. case_decide; lia. Qed.

(** 32 entries fit a block: the entries of a tree are bounded by its
    blocks. *)
Lemma need_entries_blocks h : need_entries h ≤ 32 * need_blocks h.
Proof.
  induction h as [|l IH|ino nl data|] using host_tree_ind; cbn [need_entries need_blocks]; [done| | |done].
  - rewrite Forall_forall in IH.
    assert (live_sum (λ p, 1 + need_entries p.2) l ≤ entry_count l + 32 * live_sum (λ p, need_blocks p.2) l).
    { unfold entry_count. rewrite <- live_sum_split. apply live_sum_le. intros p Hp. specialize (IH p Hp). lia. }
    pose proof (entry_count_nonneg l).
    assert (2 + entry_count l ≤ 32 * blocks_for (16 * (2 + entry_count l))).
    { unfold blocks_for, growth, blocks_of. case_decide; Z.div_mod_to_equations; lia. }
    lia.
  - pose proof (blocks_for_nonneg (Z.of_nat (length data))). lia.
Qed.

Lemma live_needs_nonneg l :
  0 ≤ live_sum (λ p, 1 + need_inodes p.2) l ∧ 0 ≤ live_sum (λ p, need_blocks p.2) l ∧
  0 ≤ live_sum (λ p, 1 + need_entries p.2) l.
Proof.
  split_and!; apply live_sum_nonneg; intros [? x] _ _; simpl;
    [pose proof (need_inodes_nonneg x)|pose proof (need_blocks_nonneg x)|pose proof (need_entries_nonneg x)]; lia.
Qed.
