(* ===== verification/MkfsTyped.v ===== *)
(** * The image file is well typed

    Whatever tree is copied, and however the hard-link list behaves, the
    image mkfs.c leaves has 1024 sectors of 512 bytes: no operation writes
    outside the file or a sector of another length. *)
From S2P Require Import Prelude CInt FsLayout Image Mkfs MkfsTheorems MkfsHost.
Import Mk.

Definition is_sector (b : list Z) : Prop := length b = 512%nat ∧ Forall is_byte b.

Definition typed (st : fs) : Prop :=
  nsect st = 1024 ∧ ∀ sec b, disk st !! sec = Some b → is_sector b.

(** Partial correctness: an early end or a fault leaves no image to type. *)
Local Abbreviation ensures m Q := (wp False (λ _ : mkfs_error, True) m Q).

Lemma is_sector_zeroes : is_sector zeroes.
Proof. split; [done|]. apply Forall_replicate. unfold is_byte. lia. Qed.

Lemma typed_sector st sec : typed st → is_sector (sector st sec).
Proof.
  intros [_ Ht]. unfold sector. destruct (disk st !! sec) eqn:H; [by eapply Ht|exact is_sector_zeroes].
Qed.

Lemma is_sector_patch off bytes buf :
  is_sector buf → Forall is_byte bytes → 0 ≤ off → off + Z.of_nat (length bytes) ≤ 512 →
  is_sector (patch off bytes buf).
Proof.
  intros [Hl Hb] Hp H0 H1. split; [rewrite length_patch; [done|done|lia]|].
  unfold patch. auto using Forall_app_2, Forall_take, Forall_drop.
Qed.

Lemma typed_disk n d st : n = 1024 → (∀ sec b, d !! sec = Some b → is_sector b) → typed (set_disk n d st).
Proof. by split. Qed.

Section Ops.
Variable st : fs.
Hypothesis Ht : typed st.

Lemma rsect_typed sec : ensures (rsect sec st) (λ buf, sec < 1024 ∧ is_sector buf).
Proof.
  unfold rsect. case_decide as H; [|done]. split; [|by apply typed_sector].
  destruct Ht as [Hn _]. lia.
Qed.

Lemma wsect_typed sec buf : sec < 1024 → is_sector buf → ensures (wsect sec buf st) typed.
Proof.
  intros Hs Hb. destruct Ht as [Hn Hd]. apply typed_disk; [lia|].
  intros s b [ [_ <-]|[_ H] ]%lookup_insert_Some; [done|by eapply Hd].
Qed.

Lemma encode_dinode_bytes d : Forall is_byte (encode_dinode d).
Proof.
  unfold encode_dinode. repeat (apply Forall_app_2; [apply le_split_bytes|]).
  apply Forall_concat, Forall_fmap, Forall_true. intros. apply le_split_bytes.
Qed.

Lemma winode_typed inum d : length (di_addrs d) = 13%nat → ensures (winode inum d st) typed.
Proof.
  intros Hl. unfold winode. apply wp_bind. eapply wp_mono; [apply rsect_typed|]. intros buf [Hs Hb].
  apply wsect_typed; [done|]. pose proof (inode_off_range inum) as [H1 H2].
  apply is_sector_patch; [done|apply encode_dinode_bytes|exact H1|].
  rewrite length_encode_dinode by done. exact H2.
Qed.

Lemma rinode_typed inum : ensures (rinode inum st) (λ d, length (di_addrs d) = 13%nat ∧ 0 ≤ xint (di_size d)).
Proof.
  unfold rinode. apply wp_bind. eapply wp_mono; [apply rsect_typed|]. intros buf _. split; [done|].
  rewrite xint_u32. by apply (wrap_range 32).
Qed.

Lemma add_link_typed inum : ensures (add_link inum st) typed.
Proof.
  unfold add_link. apply wp_bind. eapply wp_mono; [apply rinode_typed|]. intros d [Hd _].
  by apply winode_typed.
Qed.

Lemma fix_size_typed cur : ensures (fix_size cur st) typed.
Proof.
  unfold fix_size. apply wp_bind. eapply wp_mono; [apply rinode_typed|]. intros d [Hd _].
  by apply winode_typed.
Qed.
End Ops.

Lemma ialloc_typed type st : typed st → ensures (ialloc type st) (λ r, typed r.2).
Proof.
  intros Ht. unfold ialloc. apply wp_bind.
  eapply wp_mono; [apply winode_typed; [exact Ht|done]|]. intros st2 H. exact H.
Qed.

(** A block is handed out: only the counters change. *)
Lemma take_block_typed st b st1 : take_block st = (b, st1) → typed st → typed st1.
Proof. unfold take_block. by intros [= <- <-]. Qed.

Lemma aget_ensures {A} (l : list A) i (Q : A → Prop) :
  (∀ x, Q x) → ensures (aget l i) Q.
Proof.
  intros HQ. unfold aget. case_decide; [|by simpl; tauto].
  destruct (l !! Z.to_nat i); [by apply HQ|simpl; tauto].
Qed.

Lemma file_block_typed fbn d st :
  typed st → fbn < MAXFILE → length (di_addrs d) = 13%nat →
  ensures (file_block fbn d st) (λ r, length (di_addrs r.1.2) = 13%nat ∧ typed r.2).
Proof.
  intros Ht Hfbn Hd. unfold file_block. case_decide as H12; apply wp_bind, aget_ensures; intros a.
  { case_decide; [|done]. simpl. rewrite length_insert. done. }
  set (r := if decide (xint a = 0) then _ else _).
  assert (length (di_addrs r.1) = 13%nat ∧ typed r.2) as [Hd1 Ht1].
  { unfold r. case_decide; [|done]. simpl. rewrite length_insert. done. }
  destruct r as [din1 st1]. simpl in Hd1, Ht1. apply wp_bind, aget_ensures. intros ia.
  apply wp_bind. eapply wp_mono; [by apply rsect_typed|]. intros ind [Hs Hb]. cbv zeta.
  case_decide; [|done]. destruct (take_block st1) as [b st2] eqn:Htb.
  apply wp_bind. eapply wp_mono; [apply wsect_typed|by intros st3 H3].
  - by eapply take_block_typed.
  - done.
  - change MAXFILE with 140 in Hfbn. change NDIRECT with 12 in H12 |- *.
    apply is_sector_patch; [done|apply le_split_bytes|lia|]. rewrite length_le_split. lia.
Qed.

Lemma append_loop_typed fuel off p d st :
  typed st → 0 ≤ off → Forall is_byte p → length (di_addrs d) = 13%nat →
  ensures (append_loop fuel off p d st) (λ r, length (di_addrs r.1.2) = 13%nat ∧ typed r.2).
Proof.
  revert off p d st. induction fuel as [|fuel IH]; intros off p d st Ht H0 Hp Hd;
    destruct p as [|b p']; try done; set (p := b :: p') in *.
  unfold p at 1. cbn [append_loop]. fold p. cbv zeta. case_decide as Hf; [|done]. apply wp_bind.
  eapply wp_mono; [by apply file_block_typed|]. intros [ [x d1] st1] [Hd1 Ht1]. simpl in Hd1, Ht1.
  apply wp_bind. eapply wp_mono; [by apply rsect_typed|]. intros buf [Hs Hb].
  set (n1 := Z.min _ _). assert (n1 ≤ 512 - off mod 512 ∧ 0 ≤ n1) as Hn1.
  { unfold n1. rewrite (wrap_small 32) by (Z.div_mod_to_equations; lia). Z.div_mod_to_equations; lia. }
  apply wp_bind. eapply wp_mono; [apply wsect_typed; [done|done|]|].
  - apply is_sector_patch; [done|by apply Forall_take|Z.div_mod_to_equations; lia|].
    rewrite length_take. Z.div_mod_to_equations; lia.
  - intros st2 Ht2. apply IH; [done|by apply (wrap_range 32)|by apply Forall_drop|done].
Qed.

Lemma iappend_typed inum p st : typed st → Forall is_byte p → ensures (iappend inum p st) typed.
Proof.
  intros Ht Hp. unfold iappend. apply wp_bind. eapply wp_mono; [by apply rinode_typed|]. intros d [Hd H0].
  apply wp_bind. eapply wp_mono; [by apply append_loop_typed|]. intros [ [off d1] st1] [Hd1 Ht1].
  by apply winode_typed.
Qed.

Lemma copy_file_typed fuel inum data st :
  typed st → Forall is_byte data → ensures (copy_file fuel inum data st) typed.
Proof.
  revert data st. induction fuel as [|fuel IH]; intros data st Ht Hb; destruct data as [|b data']; try done.
  set (data := b :: data') in *. unfold data at 1. cbn [copy_file]. fold data. apply wp_bind.
  eapply wp_mono; [apply iappend_typed; [done|by apply Forall_take]|].
  intros st1 Ht1. apply IH; [done|by apply Forall_drop].
Qed.

Lemma append_entry_typed dir inum name st :
  typed st → Forall is_byte name → ensures (append_entry dir inum name st) typed.
Proof.
  intros Ht Hn. apply iappend_typed; [done|]. unfold encode_dirent, strncpy_name.
  apply Forall_app_2; [apply le_split_bytes|]. cbn [de_name].
  apply Forall_take, Forall_app_2; [done|]. apply Forall_replicate. unfold is_byte. lia.
Qed.

(** ** The hard-link list keeps the sectors *)
Lemma set_links_typed l r st : typed st → typed (set_links l r st).
Proof. done. Qed.

Lemma deref_ensures st l (Q : HardLinkMapNode → Prop) : (∀ n, Q n) → ensures (deref st l) Q.
Proof. intros HQ. unfold deref. destruct (links st !! l); [by apply HQ|simpl; tauto]. Qed.

Lemma find_link_ensures fuel host curr last st (Q : search → Prop) :
  (∀ s, Q s) → ensures (find_link fuel host curr last st) Q.
Proof.
  intros HQ. revert curr last. induction fuel as [|fuel IH]; intros [c|] last; simpl; auto.
  apply wp_bind, deref_ensures. intros n. case_decide; [apply HQ|apply IH].
Qed.

Lemma fetchHardLink_typed A host nlinks st :
  typed st → ensures (fetchHardLink A host nlinks st) (λ r, typed r.2).
Proof.
  intros Ht. unfold fetchHardLink. cbv zeta. apply wp_bind, find_link_ensures. intros [c last|last].
  - apply wp_bind, deref_ensures. intros n. case_decide; [|by apply set_links_typed].
    destruct last as [l|]; [|by repeat apply set_links_typed]. apply wp_bind, deref_ensures. intros ln.
    by repeat apply set_links_typed.
  - destruct (malloc st) as [loc garbage]. apply wp_bind. apply (wp_mono _ _ _ typed).
    + destruct last as [l|]; [|by apply set_links_typed]. apply wp_bind, deref_ensures. intros ln.
      by apply set_links_typed.
    + intros st1 Ht1. apply wp_bind. eapply wp_mono; [by apply ialloc_typed|]. intros r Hr.
      by apply set_links_typed.
Qed.

(** ** The recursive copy *)
Lemma add_file_typed A dir name ino nlink data st :
  typed st → Forall is_byte name → Forall is_byte data →
  ensures (add_file A dir name ino nlink data st) typed.
Proof.
  intros Ht Hn Hd. unfold add_file.
  assert (∀ child st1, typed st1 →
    ensures (let! st2 := copy_file (length data) child data st1 in append_entry dir child name st2) typed) as Hnew.
  { intros child st1 H1. apply wp_bind. eapply wp_mono; [by apply copy_file_typed|]. intros st2 H2.
    by apply append_entry_typed. }
  case_decide; cbv zeta; apply wp_bind.
  - eapply wp_mono; [by apply fetchHardLink_typed|]. intros [child st1] H1. simpl in H1.
    case_decide; [|by apply Hnew]. apply wp_bind. eapply wp_mono; [by apply add_link_typed|].
    intros st2 H2. by apply append_entry_typed.
  - eapply wp_mono; [by apply ialloc_typed|]. intros [child st1] H1. by apply Hnew.
Qed.

Lemma dots_bytes : Forall is_byte dot ∧ Forall is_byte dotdot.
Proof. unfold dot, dotdot, is_byte. split; repeat constructor; lia. Qed.

Lemma add_dots_typed cur parent st : typed st → ensures (add_dots cur parent st) typed.
Proof.
  intros Ht. destruct dots_bytes as [Hd Hdd]. unfold add_dots. apply wp_bind.
  eapply wp_mono; [by apply append_entry_typed|]. intros st1 H1. apply wp_bind.
  apply (wp_mono _ _ _ typed); [case_decide; [by apply add_link_typed|done]|].
  intros st2 H2. by apply append_entry_typed.
Qed.

Lemma add_dir_typed A h :
  ∀ cur parent st, host_bytes h = true → typed st → ensures (add_dir A h cur parent st) typed.
Proof.
  induction h as [|l IH|ino nl data|] using host_tree_ind; intros cur parent st Hb Ht; [| |done|done].
  { rewrite add_dir_unfold. apply wp_bind. eapply wp_mono; [by apply add_dots_typed|done]. }
  rewrite add_dir_unfold. apply wp_bind. eapply wp_mono; [by apply add_dots_typed|]. clear st Ht.
  intros st Ht. apply wp_bind. apply (wp_mono _ _ _ typed); [|intros; by apply fix_size_typed].
  cbn [host_bytes] in Hb. revert st Ht Hb.
  induction IH as [|[name child] l Hc _ IHl]; intros st Ht Hb; [done|].
  cbn [add_entries live_all fst snd] in Hb |- *. apply andb_prop in Hb as [Hb1 Hb2].
  case_decide; [by apply IHl|].
  apply andb_prop in Hb1 as [Hn%bool_decide_eq_true_1 Hcb]. simpl in Hc.
  destruct child as [entries|ino nl data|]; [| |done].
  - apply wp_bind. eapply wp_mono; [by apply ialloc_typed|]. intros [ci st1] H1. simpl in H1.
    apply wp_bind. eapply wp_mono; [by apply Hc|]. intros st2 H2.
    apply wp_bind. eapply wp_mono; [by apply append_entry_typed|]. intros st3 H3. by apply IHl.
  - apply wp_bind. simpl in Hcb. apply bool_decide_eq_true_1 in Hcb.
    eapply wp_mono; [by apply add_file_typed|]. intros st1 H1. by apply IHl.
Qed.

(** ** The whole program *)

(** The empty image: the superblock and zeroed sectors. *)
Definition super_bytes : list Z := patch 0 (encode_superblock (Superblock 1024 995 200)) zeroes.

Record blank_image (st : fs) : Prop := {
  bi_nsect : nsect st = 1024;
  bi_zero : ∀ sec, sec ≠ 1 → sector st sec = zeroes;
  bi_super : sector st 1 = super_bytes;
  bi_counters : freeblock st = 29 ∧ usedblocks st = 29 ∧ freeinode st = 1;
  bi_links : links st = ∅ ∧ hardLinkMapRoot st = None;
  bi_typed : typed st;
}.

(** [mkfs] zeroes the sectors in order and then writes the superblock. *)
Lemma mkfs_blank : ∃ st, mkfs 995 200 1024 blank_fs = Done st ∧ blank_image st.
Proof.
  unfold mkfs. cbv zeta. rewrite decide_True by (vm_compute; reflexivity).
  assert (u32 (995 + u32 (200 / IPB + 3 + u32 (Z.quot 1024 (512 * 8) + 1))) = 1024) as -> by (vm_compute; reflexivity).
  assert (u32 (200 / IPB + 3 + u32 (Z.quot 1024 (512 * 8) + 1)) = 29) as -> by (vm_compute; reflexivity).
  set (I := λ (l : list Z) (st : fs), nsect st = Z.of_nat (length l) ∧
    (∀ sec b, disk st !! sec = Some b → b = zeroes) ∧
    freeblock st = 29 ∧ usedblocks st = 29 ∧ freeinode st = 1 ∧ links st = ∅ ∧ hardLinkMapRoot st = None).
  destruct (wp_safe True (λ _ : mkfs_error, False) (mfor (seqZ 0 1024) (λ i st, wsect i zeroes st)
    (set_blocks 29 29 blank_fs)) (I (seqZ 0 1024))) as (st & -> & Hn & Hd & Hf & Hu & Hi & Hl & Hr); [done|tauto| |].
  - apply (wp_mfor _ _ I); [unfold I; simpl; by rewrite lookup_empty || done| |done].
    intros l1 i l2 st Hl (Hn & Hd & Hrest). unfold wsect, I. simpl.
    assert (seqZ 0 1024 !! length l1 = Some i) as Hi by (rewrite Hl; by apply list_lookup_middle).
    apply lookup_seqZ in Hi as [-> _]. rewrite length_app. simpl. split; [lia|]. split; [|done].
    intros sec b [ [_ <-]|[_ H] ]%lookup_insert_Some; [done|by eapply Hd].
  - cbn [obind]. rewrite length_seqZ in Hn. eexists. split; [apply wsect_in; lia|].
    assert (∀ sec, sector st sec = zeroes) as Hz.
    { intros sec. unfold sector. destruct (disk st !! sec) eqn:H; [by apply Hd in H|done]. }
    split; simpl; try done.
    + intros sec Hsec. rewrite sector_put. by rewrite decide_False.
    + rewrite sector_put. by rewrite decide_True.
    + split; [simpl; lia|]. intros sec b. cbn [put_sector set_disk disk]. intros [ [_ <-]|[_ H] ]%lookup_insert_Some.
      * apply is_sector_patch; [exact is_sector_zeroes| |lia|rewrite length_encode_superblock; lia].
        unfold encode_superblock. auto using Forall_app_2, le_split_bytes.
      * apply Hd in H as ->. exact is_sector_zeroes.
Qed.

Lemma balloc_typed used st : typed st → ensures (balloc used st) typed.
Proof.
  intros Ht. unfold balloc. case_decide; [|done]. apply wp_bind.
  apply (wp_mono _ _ _ is_sector).
  - apply (wp_mfor _ _ (λ _, is_sector)); [exact is_sector_zeroes| |done].
    intros l1 i l2 buf _ [Hl Hb]. apply wp_bind, aget_ensures. intros b.
    unfold aset. case_decide; [|simpl; tauto]. split; [by rewrite length_insert|].
    apply Forall_insert; [done|]. by apply (wrap_range 8).
  - intros buf Hb. by apply wsect_typed.
Qed.

Lemma build_typed A tree : from_option host_bytes true tree = true → ensures (build A tree) typed.
Proof.
  intros Hb. unfold build. destruct mkfs_blank as (st1 & -> & Hbl). cbn [obind]. apply wp_bind.
  eapply wp_mono; [apply ialloc_typed, Hbl|]. intros [root st2] H2. simpl in H2.
  case_decide; [|done]. apply wp_bind.
  apply (wp_mono _ _ _ typed); [destruct tree as [[]|]; [by apply add_dir_typed..|done]|].
  intros st3 H3. by apply balloc_typed.
Qed.

(** C13: the image file is well typed.  Whatever host tree is copied (names
    and contents being bytes) and whatever the uninitialised list
    pointers hold, an image that mkfs completes is exactly 1024 sectors long: no
    operation writes past the end of the file, and every sector is 512 bytes
    in the range of a byte. *)
Theorem built_image_typed A tree st :
  from_option host_bytes true tree = true → build A tree = Done st →
  st_size (image_of st) = 1024 * BSIZE ∧
  ∀ sec, length (sector st sec) = 512%nat ∧ Forall is_byte (sector st sec).
Proof.
  intros Hb Hbuild. assert (typed st) as Ht by (pose proof (build_typed A tree Hb) as H; by rewrite Hbuild in H).
  split; [|intros; by apply typed_sector]. destruct Ht as [Hn _]. simpl. rewrite Hn. done.
Qed.

Lemma built_image_typed_witness :
  ∃ st, build zeroed (Some mixed_tree) = Done st ∧ st_size (image_of st) = 1024 * BSIZE.
Proof.
  assert (match build zeroed (Some mixed_tree) with Done _ => true | _ => false end = true) as Hok
    by (vm_compute; reflexivity).
  destruct (build zeroed (Some mixed_tree)) as [st| |] eqn:Hb; [|done..].
  exists st. split; [done|]. apply (built_image_typed zeroed (Some mixed_tree) st); [vm_compute; reflexivity|exact Hb].
Defined.
