(* ===== verification/MkfsLinks.v ===== *)
(** * The hard-link list of mkfs.c

    The pointer structure [fetchHardLink] works on is a table of links: a
    chain of distinct nodes that ends at whatever pointer [malloc] left in
    the last one.  A search that finds its host inode never reads that
    pointer, and every branch of [fetchHardLink] is an operation on the
    table; a search that reaches the end goes on where the pointer leads.
    The table behaves like a finite map from host inodes to inodes of the
    image, except when the first link of the table is used up. *)
From S2P Require Import Prelude CInt FsLayout Image Mkfs MkfsTheorems.
Import Mk.

(** ** The table *)

(** What a node says: [lk_left] names of host inode [lk_host] are still to
    come, and they are names of inode [lk_fs] of the image. *)
Record link := Link { lk_host : Z; lk_fs : Z; lk_left : Z }.

Definition link_of (n : HardLinkMapNode) : link := Link (hostINode n) (fsINode n) (remainLink n).

(** One name is used; a link without names left is dropped. *)
Definition use_link (e : link) : list link :=
  let r := u32 (lk_left e - 1) in
  if decide (r = 0) then [] else [Link (lk_host e) (lk_fs e) r].

(** The inode of [host], and the table after one name of it is used. *)
Fixpoint take_link (host : Z) (t : list link) : option (Z * list link) :=
  match t with
  | [] => None
  | e :: t' =>
      if decide (lk_host e = host) then Some (lk_fs e, use_link e ++ t')
      else match take_link host t' with Some (f, r) => Some (f, e :: r) | None => None end
  end.

(** The first link of the table is the one of [host], with one name left. *)
Definition head_used_up (host : Z) (t : list link) : bool :=
  match t with
  | [] => false
  | e :: _ => bool_decide (lk_host e = host ∧ u32 (lk_left e - 1) = 0)
  end.

(** As a map from host inodes to inodes of the image. *)
Fixpoint find_in (host : Z) (t : list link) : option Z :=
  match t with
  | [] => None
  | e :: t' => if decide (lk_host e = host) then Some (lk_fs e) else find_in host t'
  end.

Lemma take_link_here host t1 e t2 :
  Forall (λ x, lk_host x ≠ host) t1 → lk_host e = host →
  take_link host (t1 ++ e :: t2) = Some (lk_fs e, t1 ++ use_link e ++ t2).
Proof.
  intros H1 He. induction H1 as [|x t1 Hx _ IH]; simpl; [by rewrite decide_True|].
  by rewrite decide_False, IH.
Qed.

Lemma take_link_none host t : Forall (λ x, lk_host x ≠ host) t → take_link host t = None.
Proof. induction 1 as [|x t Hx _ IH]; simpl; [done|]. by rewrite decide_False, IH. Qed.

Lemma take_link_find host t : take_link host t = None → find_in host t = None.
Proof.
  induction t as [|e t IH]; simpl; [done|]. case_decide; [done|]. destruct (take_link host t) as [[g r]|]; [done|]. auto.
Qed.

(** Using a name of one file leaves the others of the table alone. *)
Lemma take_link_others host t f t' k :
  take_link host t = Some (f, t') → find_in host t = Some f ∧ (k ≠ host → find_in k t' = find_in k t).
Proof.
  revert f t'. induction t as [|e t IH]; intros f t'; simpl; [done|]. case_decide as He.
  - intros [= <- <-]. split; [done|]. intros Hk. unfold use_link.
    case_decide; simpl; rewrite ?(decide_False (P := lk_host e = k)) by congruence; done.
  - destruct (take_link host t) as [[g r]|] eqn:Ht; [|done]. intros [= <- <-].
    destruct (IH g r eq_refl) as [Hf Ho]. split; [done|]. intros Hk. simpl. case_decide; [done|by apply Ho].
Qed.

(** ** Nodes that represent the table *)

(** The nodes [ls], with what they say, lead from [r] to [r']. *)
Fixpoint seg (m : gmap nat HardLinkMapNode) (r : option nat) (ls : list (nat * link)) (r' : option nat) : Prop :=
  match ls with
  | [] => r = r'
  | (l, e) :: ls' => r = Some l ∧ ∃ n, m !! l = Some n ∧ link_of n = e ∧ seg m (next n) ls' r'
  end.

(** The list of the program shows the table [t] and ends at the pointer
    [p]. *)
Definition represents (st : fs) (t : list link) (p : option nat) : Prop :=
  ∃ ls, NoDup ls.*1 ∧ seg (links st) (hardLinkMapRoot st) ls p ∧ ls.*2 = t.

(** It ends inside itself. *)
Definition circular (st : fs) (t : list link) : Prop :=
  ∃ ls l, NoDup ls.*1 ∧ seg (links st) (hardLinkMapRoot st) ls (Some l) ∧ ls.*2 = t ∧ l ∈ ls.*1.

Lemma seg_app m r l1 l2 r' : seg m r (l1 ++ l2) r' ↔ ∃ x, seg m r l1 x ∧ seg m x l2 r'.
Proof.
  revert r. induction l1 as [|[l e] l1 IH]; intros r; simpl; [naive_solver|].
  setoid_rewrite IH. naive_solver.
Qed.

Lemma seg_ext m m' r ls r' : (∀ l, l ∈ ls.*1 → m' !! l = m !! l) → seg m r ls r' → seg m' r ls r'.
Proof.
  revert r. induction ls as [|[l e] ls IH]; intros r Hm; simpl; [done|].
  intros (-> & n & Hn & He & Hs). split; [done|]. exists n. split_and!; [|done|].
  - by rewrite Hm by apply list_elem_of_here.
  - apply IH; [|done]. intros. by apply Hm, list_elem_of_further.
Qed.

Lemma seg_dom m r ls r' l : seg m r ls r' → l ∈ ls.*1 → is_Some (m !! l).
Proof.
  revert r. induction ls as [|[k e] ls IH]; intros r Hs Hl; [by apply not_elem_of_nil in Hl|].
  destruct Hs as (-> & n & Hn & _ & Hs). apply elem_of_cons in Hl as [->|Hl]; [by exists n|by eapply IH].
Qed.

(** A search cannot run longer than there are nodes. *)
Lemma seg_fuel m r ls p : NoDup ls.*1 → seg m r ls p → (length ls < S (size m))%nat.
Proof.
  intros Hnd Hs. apply Nat.lt_succ_r. rewrite <- size_dom, <- (length_fmap fst ls).
  rewrite <- (size_list_to_set (C := gset nat) ls.*1) by done. apply subseteq_size.
  intros l Hl%elem_of_list_to_set. apply elem_of_dom. by eapply seg_dom.
Qed.

(** The last node before the end of the segment. *)
Definition end_of (d : option nat) (ls : list (nat * link)) : option nat :=
  match last ls with Some (l, _) => Some l | None => d end.

Lemma end_of_cons d c e ls : end_of (Some c) ls = end_of d ((c, e) :: ls).
Proof. unfold end_of. rewrite last_cons. by destruct (last ls). Qed.

(** The outcome of a search of the chain: it stops at the host inode, or
    goes on where the chain ends. *)
Lemma find_link_seg fuel host ls st r p d :
  seg (links st) r ls p → (length ls < fuel)%nat →
  (∃ l1 c e l2, ls = l1 ++ (c, e) :: l2 ∧ lk_host e = host ∧ Forall (λ x, lk_host x ≠ host) l1.*2 ∧
     find_link fuel host r d st = Done (Found c (end_of d l1))) ∨
  (Forall (λ x, lk_host x ≠ host) ls.*2 ∧
   find_link fuel host r d st = find_link (fuel - length ls) host p (end_of d ls) st).
Proof.
  revert fuel r d. induction ls as [|[c e] ls IH]; intros fuel r d Hs Hf; simpl in Hs.
  { subst r. right. split; [constructor|]. by rewrite Nat.sub_0_r. }
  destruct fuel as [|fuel]; [lia|].
  destruct Hs as (-> & n & Hn & <- & Hs). cbn [find_link]. unfold deref. rewrite Hn. cbn [obind]. case_decide as Hh.
  - left. exists [], c, (link_of n), ls. split_and!; [done|done|constructor|done].
  - destruct (IH fuel (next n) (Some c) Hs) as [(l1 & c' & e' & l2 & -> & He & H1 & Hfind)|[H1 Hfind]]; [simpl in Hf; lia| |].
    + left. exists ((c, link_of n) :: l1), c', e', l2. split_and!; [done|done|by constructor|].
      by rewrite Hfind, (end_of_cons d _ (link_of n)).
    + right. split; [by constructor|]. by rewrite Hfind, (end_of_cons d _ (link_of n)).
Qed.

(** At the end of the list a search ends. *)
Lemma find_link_end fuel host d st : find_link fuel host None d st = Done (NotFound d).
Proof. by destruct fuel. Qed.

(** Nodes that only lead to each other and none of which is the one sought:
    the search has no end. *)
Lemma find_link_cycle (ls : list nat) fuel host c d st :
  (∀ l, l ∈ ls → ∃ n l', links st !! l = Some n ∧ hostINode n ≠ host ∧ next n = Some l' ∧ l' ∈ ls) →
  c ∈ ls → find_link fuel host (Some c) d st = Exit endless.
Proof.
  intros Hls. revert c d. induction fuel as [|fuel IH]; intros c d Hc; [done|]. cbn [find_link].
  destruct (Hls c Hc) as (n & l' & Hn & Hh & Hnx & Hl'). unfold deref. rewrite Hn. cbn [obind].
  rewrite decide_False, Hnx by done. by apply IH.
Qed.

(** A chain that ends inside itself is such a set of nodes. *)
Lemma seg_cycle m r ls p (all : list nat) host :
  seg m r ls (Some p) → p ∈ all → (∀ l, l ∈ ls.*1 → l ∈ all) → Forall (λ x, lk_host x ≠ host) ls.*2 →
  ∀ l, l ∈ ls.*1 → ∃ n l', m !! l = Some n ∧ hostINode n ≠ host ∧ next n = Some l' ∧ l' ∈ all.
Proof.
  intros Hs Hp. revert r Hs. induction ls as [|[c e] ls IH]; intros r Hs Hall Hh l Hl; [by apply not_elem_of_nil in Hl|].
  destruct Hs as (-> & n & Hn & <- & Hs). apply Forall_cons in Hh as [Hhc Hh].
  apply elem_of_cons in Hl as [->|Hl]; [|eapply IH; try done; intros; by apply Hall, list_elem_of_further].
  exists n. destruct ls as [|[c' e'] ls]; simpl in Hs; [exists p; by split_and!|].
  destruct Hs as (Hnx & _). exists c'. split_and!; [done|done|done|]. apply Hall. right. left.
Qed.

(** ** A node that is found *)
Section Found.
Variables (st : fs) (l1 l2 : list (nat * link)) (c : nat) (n : HardLinkMapNode) (r : Z) (p : option nat).
Hypothesis Hnd : NoDup (l1.*1 ++ c :: l2.*1).
Hypothesis Hs1 : seg (links st) (hardLinkMapRoot st) l1 (Some c).
Hypothesis Hn : links st !! c = Some n.
Hypothesis Hs2 : seg (links st) (next n) l2 p.

Lemma found_fresh : (c ∉ l1.*1) ∧ (c ∉ l2.*1).
Proof.
  apply NoDup_app in Hnd as (_ & Hd & [Hc _]%NoDup_cons). split; [|done].
  intros H. apply (Hd c H), list_elem_of_here.
Qed.

(** The node stays, with another count. *)
Lemma found_remain :
  represents (set_links (<[c := set_remain r n]> (links st)) (hardLinkMapRoot st) st)
    (l1.*2 ++ Link (hostINode n) (fsINode n) r :: l2.*2) p.
Proof.
  destruct found_fresh as [Hc1 Hc2]. exists (l1 ++ (c, Link (hostINode n) (fsINode n) r) :: l2). simpl.
  split_and!; [by rewrite fmap_app| |by rewrite fmap_app].
  apply seg_app. exists (Some c). split.
  - eapply seg_ext; [|exact Hs1]. intros l Hl. by rewrite lookup_insert_ne by (by intros ->).
  - split; [done|]. exists (set_remain r n). rewrite lookup_insert_eq. split_and!; [done|done|].
    eapply seg_ext; [|exact Hs2]. intros l Hl. by rewrite lookup_insert_ne by (by intros ->).
Qed.

(** The node is taken out behind its predecessor [l]. *)
Lemma found_unlink l0 l e :
  l1 = l0 ++ [(l, e)] →
  ∃ ln, links st !! l = Some ln ∧ l ≠ c ∧
    represents (set_links (delete c (<[l := set_next (next n) ln]> (<[c := set_remain r n]> (links st)))) (hardLinkMapRoot st) st)
      (l1.*2 ++ l2.*2) p.
Proof.
  intros Heq. destruct found_fresh as [Hc1 Hc2]. rewrite Heq in Hnd, Hs1, Hc1 |- *.
  apply seg_app in Hs1 as (y & Hs0 & (-> & ln & Hln & <- & _)).
  rewrite fmap_app in Hnd, Hc1. simpl in Hnd, Hc1. rewrite <- app_assoc in Hnd. simpl in Hnd.
  pose proof Hnd as (H0 & Hd & [Hl H2]%NoDup_cons)%NoDup_app. apply NoDup_cons in H2 as [_ H2].
  apply not_elem_of_cons in Hl as [Hlc Hl].
  assert (∀ k, k ∈ l0.*1 ∨ k ∈ l2.*1 →
    delete c (<[l:=set_next (next n) ln]> (<[c:=set_remain r n]> (links st))) !! k = links st !! k) as Hsame.
  { intros k Hk. assert (k ≠ c) by (intros ->; destruct Hk; [apply Hc1, elem_of_app; by left|done]).
    assert (k ≠ l) by (intros ->; destruct Hk as [Hk|Hk]; [apply (Hd l Hk), list_elem_of_here|done]).
    by rewrite lookup_delete_ne, !lookup_insert_ne. }
  exists ln. split_and!; [done|done|]. exists (l0 ++ (l, link_of ln) :: l2). simpl. split_and!.
  - rewrite fmap_app. apply NoDup_app. split_and!; [done| |by constructor].
    intros k Hk [->|Hk2]%elem_of_cons; [apply (Hd l Hk), list_elem_of_here|].
    apply (Hd k Hk). by do 2 apply list_elem_of_further.
  - apply seg_app. exists (Some l). split; [by eapply seg_ext; [|exact Hs0]; auto|]. split; [done|].
    exists (set_next (next n) ln). rewrite lookup_delete_ne, lookup_insert_eq by done. split_and!; [done|done|].
    eapply seg_ext; [|exact Hs2]; auto.
  - rewrite !fmap_app. simpl. by rewrite <- app_assoc.
Qed.
End Found.

(** A node is added at the end of the chain: the pointer that leads to it, in
    the last node or in the root, is written first. *)
Lemma add_node st ls loc n :
  NoDup ls.*1 → seg (links st) (hardLinkMapRoot st) ls None → links st !! loc = None →
  match end_of None ls with
  | Some l => ∃ ln, links st !! l = Some ln ∧
      represents (set_links (<[loc := n]> (<[l := set_next (Some loc) ln]> (links st))) (hardLinkMapRoot st) st)
        (ls.*2 ++ [link_of n]) (next n)
  | None => represents (set_links (<[loc := n]> (links st)) (Some loc) st) (ls.*2 ++ [link_of n]) (next n)
  end.
Proof.
  intros Hnd Hs Hloc. destruct ls as [|[l e] ls _] using rev_ind.
  - exists [(loc, link_of n)]. split_and!; [apply NoDup_singleton| |done]. simpl. split; [done|]. exists n.
    by rewrite lookup_insert_eq.
  - unfold end_of. rewrite last_snoc. pose proof Hs as (y & Hs1 & (-> & ln & Hln & <- & Hn0))%seg_app. simpl in Hn0.
    assert (∀ k, k ∈ (ls ++ [(l, link_of ln)]).*1 → k ≠ loc) as Hneq.
    { intros k Hk ->. destruct (seg_dom _ _ _ _ loc Hs Hk). congruence. }
    rewrite fmap_app in Hnd, Hneq. simpl in Hnd, Hneq.
    assert (l ≠ loc) as Hll by (apply Hneq, elem_of_app; right; apply list_elem_of_here).
    pose proof Hnd as (_ & Hd & _)%NoDup_app.
    exists ln. split; [done|]. exists ((ls ++ [(l, link_of ln)]) ++ [(loc, link_of n)]). simpl. split_and!.
    + rewrite !fmap_app. apply NoDup_app. split_and!; [done| |apply NoDup_singleton].
      intros k Hk ->%list_elem_of_singleton. by apply (Hneq loc).
    + apply seg_app. exists (Some loc). split; [|split; [done|]; exists n; by rewrite lookup_insert_eq].
      apply seg_app. exists (Some l). split.
      * eapply seg_ext; [|exact Hs1]. intros k Hk. rewrite !lookup_insert_ne; [done|..].
        -- intros <-. apply (Hd l Hk), list_elem_of_here.
        -- intros <-. apply (Hneq loc); [|done]. apply elem_of_app. by left.
      * split; [done|]. exists (set_next (Some loc) ln). by rewrite lookup_insert_ne, lookup_insert_eq.
    + by rewrite fmap_app.
Qed.

(** ** [fetchHardLink] on the table *)

(** The state but for the list. *)
Definition same_disk (st st' : fs) : Prop := ∃ l r, st' = set_links l r st.

(** The allocators do not look at the list. *)
Lemma ialloc_links type l r st :
  ialloc type (set_links l r st) = (let! p := ialloc type st in Done (p.1, set_links l r p.2)).
Proof. unfold ialloc, winode, rsect. simpl. case_decide; done. Qed.

Section Fetch.
Variable A : Malloc.

(** The host inode has a link: its inode is returned and the disk is not
    touched. *)
Lemma fetch_known host nlinks st t p f t' :
  represents st t p → take_link host t = Some (f, t') →
  ∃ st', fetchHardLink A host nlinks st = Done (f, st') ∧ same_disk st st' ∧
    if head_used_up host t then represents st' [] None else represents st' t' p.
Proof.
  intros (ls & Hnd & Hs & <-) Htake.
  destruct (find_link_seg (S (size (links st))) host ls st (hardLinkMapRoot st) p None Hs)
    as [(l1 & c & e & l2 & -> & He & H1 & Hfind)|[H1 _]];
    [by eapply seg_fuel| |by rewrite take_link_none in Htake].
  rewrite fmap_app, fmap_cons in Htake. simpl in Htake. rewrite take_link_here in Htake by done. injection Htake as <- <-.
  pose proof Hs as (x & Hs1 & (-> & n & Hn & <- & Hs2))%seg_app. rewrite fmap_app, fmap_cons in Hnd. simpl in Hnd, He.
  unfold fetchHardLink. rewrite Hfind. cbn [obind]. unfold deref at 1. rewrite Hn. cbn [obind].
  rewrite fmap_app, fmap_cons. unfold use_link. simpl.
  destruct (decide (u32 (remainLink n - 1) = 0)) as [H0|H0].
  - destruct l1 as [|[l x] l0 _] using rev_ind.
    + eexists. split; [done|]. split; [by eexists _, _|]. simpl. rewrite bool_decide_eq_true_2 by done.
      exists []. split_and!; [by constructor|done|done].
    + destruct (found_unlink st (l0 ++ [(l, x)]) l2 c n (u32 (remainLink n - 1)) p Hnd Hs1 Hs2 l0 l x eq_refl) as (ln & Hln & Hlc & Hrep).
      unfold end_of. rewrite last_snoc. unfold deref. simpl. rewrite lookup_insert_ne, Hln by done. cbn [obind].
      eexists. split; [done|]. split; [by eexists _, _|].
      replace (head_used_up _ _) with false; [exact Hrep|]. symmetry.
      destruct l0 as [|[l' x'] l0]; simpl in *; apply Forall_cons_1 in H1 as [Hx _]; apply bool_decide_eq_false_2; naive_solver.
  - eexists. split; [done|]. split; [by eexists _, _|]. replace (head_used_up _ _) with false; [by apply found_remain|].
    symmetry. destruct l1 as [|[l' x'] l0]; simpl in *; apply bool_decide_eq_false_2; [naive_solver|].
    apply Forall_cons_1 in H1 as [Hx _]. naive_solver.
Qed.

(** The search reaches the end of the chain. *)
Lemma fetch_missing host st t p :
  represents st t p → take_link host t = None →
  ∃ ls fuel, NoDup ls.*1 ∧ seg (links st) (hardLinkMapRoot st) ls p ∧ ls.*2 = t ∧
    Forall (λ x, lk_host x ≠ host) ls.*2 ∧
    find_link (S (size (links st))) host (hardLinkMapRoot st) None st = find_link (S fuel) host p (end_of None ls) st.
Proof.
  intros (ls & Hnd & Hs & <-) Htake. pose proof (seg_fuel _ _ _ _ Hnd Hs) as Hf.
  destruct (find_link_seg (S (size (links st))) host ls st (hardLinkMapRoot st) p None Hs Hf)
    as [(l1 & c & e & l2 & -> & He & H1 & _)|[H1 Hfind]].
  { rewrite fmap_app, fmap_cons in Htake. simpl in Htake. by rewrite take_link_here in Htake. }
  exists ls, (size (links st) - length ls)%nat. split_and!; [done..|]. rewrite Hfind. f_equal. lia.
Qed.

(** It has none, and the chain ends with NULL: a new inode is allocated and
    recorded in a node that ends with what [malloc] left there. *)
Lemma fetch_new host nlinks st t :
  represents st t None → take_link host t = None →
  let g := (malloc st).2 in
  ∃ l r loc,
    fetchHardLink A host nlinks st =
      (let! p := ialloc T_FILE (set_links l r st) in
       Done (p.1, set_links (<[loc := Node p.1 host (u32 (nlinks - 1)) g]> (links p.2)) (hardLinkMapRoot p.2) p.2)) ∧
    ∀ i st', links st' = l → hardLinkMapRoot st' = r →
      represents (set_links (<[loc := Node i host (u32 (nlinks - 1)) g]> (links st')) (hardLinkMapRoot st') st')
        (t ++ [Link host i (u32 (nlinks - 1))]) g.
Proof.
  intros Hrep Htake g. destruct (fetch_missing host st t None Hrep Htake) as (ls & fuel & Hnd & Hs & <- & _ & Hfind).
  rewrite find_link_end in Hfind. pose proof (malloc_unused st) as Hloc. unfold fetchHardLink. rewrite Hfind. cbn [obind].
  subst g. destruct (malloc st) as [loc g]. simpl in Hloc |- *.
  pose proof (λ n, add_node st ls loc n Hnd Hs Hloc) as Hadd. destruct (end_of None ls) as [l|].
  - destruct (Hadd (Node 0 0 0 None)) as (ln & Hln & _). unfold deref. rewrite Hln. cbn [obind].
    eexists _, _, _. split; [reflexivity|]. intros i st' -> ->.
    destruct (Hadd (Node i host (u32 (nlinks - 1)) g)) as (ln' & Hln' & H). simplify_eq. exact H.
  - cbn [obind]. eexists _, _, _. split; [reflexivity|]. intros i st' -> ->. by apply (Hadd (Node i host _ g)).
Qed.

(** It has none, and the chain goes on into memory that is not in use. *)
Lemma fetch_dangling host nlinks st t l :
  represents st t (Some l) → take_link host t = None → links st !! l = None →
  fetchHardLink A host nlinks st = Fault.
Proof.
  intros Hrep Htake Hl. destruct (fetch_missing host st t _ Hrep Htake) as (ls & fuel & _ & _ & _ & _ & Hfind).
  unfold fetchHardLink. rewrite Hfind. cbn [find_link]. unfold deref at 1. by rewrite Hl.
Qed.

(** It has none, and the chain goes back into itself. *)
Lemma fetch_circular host nlinks st t :
  circular st t → take_link host t = None → fetchHardLink A host nlinks st = Exit endless.
Proof.
  intros (ls & l & Hnd & Hs & Ht & Hl) Htake. pose proof (seg_fuel _ _ _ _ Hnd Hs) as Hf.
  destruct (find_link_seg (S (size (links st))) host ls st (hardLinkMapRoot st) _ None Hs Hf)
    as [(l1 & c & e & l2 & -> & He & H1 & _)|[H1 Hfind]].
  { rewrite <- Ht, fmap_app, fmap_cons in Htake. simpl in Htake. by rewrite take_link_here in Htake. }
  unfold fetchHardLink. rewrite Hfind. rewrite (find_link_cycle ls.*1) with (c := l); [done| |done].
  by eapply seg_cycle; [exact Hs|done|auto|].
Qed.
End Fetch.

(** ** What the table says, for the copy *)

(** [malloc] hands out memory in which [next] is NULL.  It does not promise
    this. *)
Definition null_next (A : Malloc) : Prop := ∀ st, (malloc st).2 = None.

(** The files to come, as host inodes and numbers of names: [s] is the host
    inode on the list and how many of its names are left.  The list never has
    a second node if every file is used up before a name of another one
    comes. *)
Fixpoint one_by_one (s : option (Z * Z)) (files : list (Z * Z)) : bool :=
  match files with
  | [] => true
  | (host, nlinks) :: files' =>
      match s with
      | None => one_by_one (Some (host, u32 (nlinks - 1))) files'
      | Some (h, n) =>
          if decide (h = host) then
            one_by_one (if decide (u32 (n - 1) = 0) then None else Some (h, u32 (n - 1))) files'
          else false
      end
  end.

Definition on_list (t : list link) : option (Z * Z) :=
  match t with [] => None | e :: _ => Some (lk_host e, lk_left e) end.

Section Chain.
Variable A : Malloc.

(** No search for the [files] to come reads a pointer that [malloc] left in a
    node: the table ends with NULL and always will, or it has at most one
    node, which all searches find. *)
Definition untroubled (t : list link) (p : option nat) (files : list (Z * Z)) : Prop :=
  (null_next A ∧ p = None) ∨ ((length t ≤ 1)%nat ∧ (t = [] → p = None) ∧ one_by_one (on_list t) files = true).

(** Every link of the table relates a host inode and an inode as [K] does. *)
Definition chain (K : Z → Z → Prop) (files : list (Z * Z)) (st : fs) : Prop :=
  ∃ t p, represents st t p ∧ untroubled t p files ∧ Forall (λ e, K (lk_host e) (lk_fs e)) t.

Lemma chain_weaken (K K' : Z → Z → Prop) files st : (∀ h i, K h i → K' h i) → chain K files st → chain K' files st.
Proof. intros HK (t & p & Hr & Hu & Hall). exists t, p. split_and!; [done|done|]. eapply Forall_impl; [exact Hall|]. eauto. Qed.

Lemma chain_same K files st st' :
  links st' = links st → hardLinkMapRoot st' = hardLinkMapRoot st → chain K files st → chain K files st'.
Proof. intros Hl Hr. unfold chain, represents. by rewrite Hl, Hr. Qed.

Lemma represents_empty st : hardLinkMapRoot st = None → represents st [] None.
Proof. intros Hr. exists []. split_and!; [by constructor|done|done]. Qed.

Lemma chain_empty K files st :
  hardLinkMapRoot st = None → null_next A ∨ one_by_one None files = true → chain K files st.
Proof.
  intros Hr Hf. exists [], None. split_and!; [by apply represents_empty| |constructor].
  destruct Hf as [Hn|Hf]; [by left|right]. by split_and!; [simpl; lia| |].
Qed.

Lemma take_link_all (K : Z → Z → Prop) host t f t' :
  take_link host t = Some (f, t') → Forall (λ e, K (lk_host e) (lk_fs e)) t →
  K host f ∧ Forall (λ e, K (lk_host e) (lk_fs e)) t'.
Proof.
  revert f t'. induction t as [|e t IH]; intros f t'; simpl; [done|].
  intros Ht [He Hall]%Forall_cons_1. case_decide as Hh; simplify_eq.
  - split; [done|]. unfold use_link. case_decide; [done|]. by constructor.
  - destruct (take_link host t) as [[g r]|]; [|done]. simplify_eq. destruct (IH f r eq_refl Hall). split; [done|by constructor].
Qed.

(** The file to come is on the list. *)
Lemma untroubled_known t p host nlinks files f t' :
  untroubled t p ((host, nlinks) :: files) → take_link host t = Some (f, t') →
  if head_used_up host t then untroubled [] None files else untroubled t' p files.
Proof.
  intros [[Hn ->]|(Hl & Hp & Ho)] Ht; [destruct (head_used_up host t); by left|].
  destruct t as [|e [|e' t]]; simpl in *; [done| |lia]. case_decide as Hh; [|done]. injection Ht as <- <-.
  unfold use_link. case_decide as H0.
  - rewrite bool_decide_eq_true_2 by done. right. split_and!; [simpl; lia|done|done].
  - rewrite bool_decide_eq_false_2 by naive_solver. right. split_and!; [simpl; lia|done|done].
Qed.

(** It is not: the list ends with NULL, and it gets a last node. *)
Lemma untroubled_new t p host nlinks files i st :
  untroubled t p ((host, nlinks) :: files) → take_link host t = None →
  p = None ∧ untroubled (t ++ [Link host i (u32 (nlinks - 1))]) (malloc st).2 files.
Proof.
  intros [[Hn ->]|(Hl & Hp & Ho)] Ht; [split; [done|]; by left|].
  destruct t as [|e [|e' t]]; simpl in *; [| |lia].
  - split; [by apply Hp|]. right. by split_and!; [simpl; lia|done|].
  - destruct (decide (lk_host e = host)); done.
Qed.

(** [fetchHardLink]: an inode of the list, or a new inode and a new node. *)
Lemma fetch_chain K host nlinks files st :
  chain K ((host, nlinks) :: files) st →
  (∃ f l r, K host f ∧ fetchHardLink A host nlinks st = Done (f, set_links l r st) ∧ chain K files (set_links l r st)) ∨
  (∃ l r loc g,
    fetchHardLink A host nlinks st =
      (let! p := ialloc T_FILE (set_links l r st) in
       Done (p.1, set_links (<[loc := Node p.1 host (u32 (nlinks - 1)) g]> (links p.2)) (hardLinkMapRoot p.2) p.2)) ∧
    ∀ K' i st', (∀ h j, K h j → K' h j) → K' host i → links st' = l → hardLinkMapRoot st' = r →
      chain K' files (set_links (<[loc := Node i host (u32 (nlinks - 1)) g]> (links st')) (hardLinkMapRoot st') st')).
Proof.
  intros (t & p & Hrep & Hu & Hall). destruct (take_link host t) as [[f t']|] eqn:Ht; [left|right].
  - destruct (take_link_all K _ _ _ _ Ht Hall) as [HK Hall'].
    destruct (fetch_known A host nlinks st t p f t' Hrep Ht) as (st' & Hf & (l & r & ->) & Hrep').
    pose proof (untroubled_known _ _ _ _ _ _ _ Hu Ht) as Hu'.
    exists f, l, r. split_and!; [done|done|]. by destruct (head_used_up host t); eexists _, _.
  - destruct (untroubled_new _ _ _ _ _ 0 st Hu Ht) as [-> _].
    destruct (fetch_new A host nlinks st t Hrep Ht) as (l & r & loc & Hf & Hadd). eexists l, r, loc, _. split; [exact Hf|].
    intros K' i st' HK HKi Hl Hr. eexists _, _. split; [by apply Hadd|].
    split; [by destruct (untroubled_new _ _ _ _ _ i st Hu Ht)|].
    apply Forall_app. split; [|by constructor]. eapply Forall_impl; [exact Hall|]. eauto.
Qed.
End Chain.

(** ** Result *)

(** C14: the hard-link list is a map from host inodes to inodes, but for its
    head and its end.  On a chain of nodes that shows a table [t] and ends at
    the pointer [p], whatever [malloc] does: [fetchHardLink] returns the inode
    recorded for the host inode, leaves the disk alone, uses up one of its
    names and keeps what is recorded for every other host inode and where the
    chain ends.  When nothing is recorded and the chain ends with NULL, it
    allocates an inode and records it in a node at the end, which is followed
    by whatever pointer [malloc] left in its memory.  The exceptions: the last
    name of the file at the head of the list clears the list, so whatever
    else was recorded is forgotten; and when nothing is recorded and the
    chain ends with a stray pointer, the search follows it, which is an
    access to memory that is not in use, or a loop without end if it points
    back into the chain. *)
Theorem hard_link_table A st t p host nlinks :
  represents st t p →
  match find_in host t with
  | Some f => ∃ st' t', fetchHardLink A host nlinks st = Done (f, st') ∧ same_disk st st' ∧
      if head_used_up host t then represents st' [] None
      else represents st' t' p ∧ take_link host t = Some (f, t') ∧ ∀ k, k ≠ host → find_in k t' = find_in k t
  | None =>
      (p = None → ∀ i st1, ialloc T_FILE st = Done (i, st1) →
        ∃ st', fetchHardLink A host nlinks st = Done (i, st') ∧ same_disk st1 st' ∧
          represents st' (t ++ [Link host i (u32 (nlinks - 1))]) (malloc st).2) ∧
      (∀ l, p = Some l → links st !! l = None → fetchHardLink A host nlinks st = Fault) ∧
      (circular st t → fetchHardLink A host nlinks st = Exit endless)
  end.
Proof.
  intros Hrep. destruct (take_link host t) as [[f t']|] eqn:Ht.
  - destruct (take_link_others host t f t' host Ht) as [-> _].
    destruct (fetch_known A host nlinks st t p f t' Hrep Ht) as (st' & Hf & Hd & Hrep').
    exists st', t'. split_and!; [done|done|]. destruct (head_used_up host t); [done|].
    split_and!; [done|done|]. intros k. by apply (take_link_others host t f t' k).
  - rewrite (take_link_find host t Ht). split_and!.
    + intros -> i st1 Hi. destruct (fetch_new A host nlinks st t Hrep Ht) as (l & r & loc & -> & Hadd).
      rewrite ialloc_links, Hi. cbn [obind fst snd]. eexists. split; [reflexivity|]. split; [by eexists _, _|].
      exact (Hadd i (set_links l r st1) eq_refl eq_refl).
    + intros l ->. by apply (fetch_dangling A host nlinks st t l).
    + intros Hc. by apply (fetch_circular A host nlinks st t).
Qed.

(** Two files with two names each, after the first name of both: inode 2 is
    the head and has one name left, inode 3 comes after it; [malloc] left a
    pointer back to the first node in the second. *)
Definition two_links : fs :=
  Fs 1024 ∅ 29 29 4 {[0%nat := Node 2 5 1 (Some 1%nat); 1%nat := Node 3 6 1 (Some 0%nat)]} (Some 0%nat).

Lemma two_links_seg :
  let ls := [(0%nat, Link 5 2 1); (1%nat, Link 6 3 1)] in
  NoDup ls.*1 ∧ seg (links two_links) (hardLinkMapRoot two_links) ls (Some 0%nat) ∧ ls.*2 = [Link 5 2 1; Link 6 3 1].
Proof.
  split_and!; [repeat constructor; set_solver| |done].
  split; [done|]. eexists. split_and!; [done|done|]. split; [done|]. eexists. by split_and!.
Qed.

(** The last name of the first file makes the second one forgotten; the last
    name of the second one does not; a third file is never found. *)
Lemma hard_link_table_witness :
  (∃ st', fetchHardLink zeroed 5 2 two_links = Done (2, st') ∧ represents st' [] None) ∧
  (∃ st', fetchHardLink zeroed 6 2 two_links = Done (3, st') ∧ represents st' [Link 5 2 1] (Some 0%nat)) ∧
  fetchHardLink zeroed 7 1 two_links = Exit endless.
Proof.
  assert (represents two_links [Link 5 2 1; Link 6 3 1] (Some 0%nat)) as Hrep by (eexists; apply two_links_seg).
  split_and!.
  - destruct (hard_link_table zeroed two_links _ _ 5 2 Hrep) as (st' & t' & Hf & _ & Hr). by exists st'.
  - destruct (hard_link_table zeroed two_links _ _ 6 2 Hrep) as (st' & t' & Hf & _ & Hr & Ht & _).
    vm_compute in Ht. injection Ht as <-. by exists st'.
  - destruct (hard_link_table zeroed two_links _ _ 7 1 Hrep) as (_ & _ & Hc). apply Hc.
    eexists _, 0%nat. split_and!; [apply two_links_seg|apply two_links_seg|apply two_links_seg|]. left.
Defined.
