(* ===== verification/MkfsPhysical.v ===== *)
(** * The physical invariant of the image under construction

    What holds of the sectors between any two operations of mkfs.c: the inode
    table decodes to [A] (but for the sizes of directories that were rounded
    up by a block too many), every inode is a well-formed file, no block belongs
    to two of them, and every block handed out belongs to one.  The
    operations on inodes keep it. *)
From S2P Require Import Prelude CInt FsLayout Image Mkfs MkfsTheorems.
Import Mk.

(** Number of blocks of a file, and its blocks. *)
Definition nblk (d : dinode) : Z := blocks_of (di_size d).
Definition holds (st : fs) (d : dinode) (sec : Z) : Prop := owns st d (nblk d) sec.

Definition upd (A : Z → dinode) (i : Z) (d : dinode) (j : Z) : dinode :=
  if decide (j = i) then d else A j.

Lemma upd_eq A i d : upd A i d i = d.
Proof. unfold upd. by rewrite decide_True. Qed.
Lemma upd_ne A i d j : j ≠ i → upd A i d j = A j.
Proof. intros. unfold upd. by rewrite decide_False. Qed.

(** The blocks: [A i] for every slot of the inode table. *)
Record blocks (st : fs) (A : Z → dinode) : Prop := {
  bl_disk : disk_ok st;
  bl_free : 1 ≤ freeinode st ≤ 200;
  bl_wf : ∀ i, 0 ≤ i < 208 → dinode_wf (A i);
  bl_file : ∀ i, 0 ≤ i < 208 → file_ok st (A i) (nblk (A i));
  bl_size : ∀ i, 0 ≤ i < 208 → 0 ≤ di_size (A i) ≤ 71680;
  bl_disj : ∀ i j sec, 0 ≤ i < 208 → 0 ≤ j < 208 → holds st (A i) sec → holds st (A j) sec → i = j;
  bl_cover : ∀ sec, 29 ≤ sec < freeblock st → ∃ i, 0 ≤ i < 208 ∧ holds st (A i) sec;
  bl_unused : ∀ i, 0 ≤ i < 208 → i = 0 ∨ freeinode st ≤ i → A i = zero_dinode;
}.

(** A directory whose size is rounded up to one block more than it has. *)
Definition bumped (d : dinode) : dinode := set_size (di_size d + 512) d.
Definition bumpable (d : dinode) : Prop := di_type d = T_DIR ∧ 0 < di_size d ∧ di_size d mod 512 = 0.

Definition exact (st : fs) (A : Z → dinode) (i : Z) : Prop := rinode i st = Done (A i).

(** The inode table: what is stored is the inode, or, for a directory that
    fills its blocks, the inode with a size that is one block too large. *)
Definition table (st : fs) (A : Z → dinode) : Prop :=
  ∀ i, 0 ≤ i < 208 → exact st A i ∨ (bumpable (A i) ∧ rinode i st = Done (bumped (A i))).

Lemma table_keeps st A st' A' :
  table st A → (∀ i, 0 ≤ i < 208 → exact st' A' i ∨ (A' i = A i ∧ rinode i st' = rinode i st)) → table st' A'.
Proof.
  intros HT Hs i Hi. destruct (Hs i Hi) as [|[HA Hr]]; [by left|]. unfold exact. rewrite HA, Hr. by apply HT.
Qed.

Record phys (st : fs) (A : Z → dinode) : Prop := {
  ph_blocks : blocks st A;
  ph_table : table st A;
}.

Lemma nblk_bounds d : 0 ≤ di_size d ≤ 71680 → 0 ≤ nblk d ≤ 140.
Proof. intros. unfold nblk, blocks_of. Z.div_mod_to_equations. lia. Qed.

Lemma holds_range st d n sec : file_ok st d n → owns st d n sec → 29 ≤ sec < freeblock st.
Proof.
  intros Hf [(k & Hk & ->)|[H12 ->]]; [by apply (fo_range _ _ _ Hf)|]. by apply (fo_ind _ _ _ Hf).
Qed.

(** ** Frame: a file whose blocks are left alone *)
Section Frame.
Variables (st st' : fs) (d : dinode) (n : Z).
Hypothesis Hn : 0 ≤ n ≤ 140.
Hypothesis Hf : file_ok st d n.
Hypothesis Hfree : freeblock st ≤ freeblock st'.
Hypothesis Hsame : ∀ sec, owns st d n sec → sector st' sec = sector st sec.

Lemma frame_addr k : 0 ≤ k < 140 → k < 12 ∨ 12 < n → addr_of st' d k = addr_of st d k.
Proof.
  intros Hk Hor. unfold addr_of, entry. case_decide; [done|].
  rewrite Hsame; [done|]. right. split; [lia|done].
Qed.

Lemma frame_file : file_ok st' d n.
Proof.
  destruct Hf as [H1 H2 H3 H4 H5 H6]. split; try done.
  - intros k Hk. rewrite frame_addr by lia. specialize (H2 k Hk). lia.
  - intros j k Hj Hk. rewrite !frame_addr by lia. auto.
  - intros k Hk Hor. destruct (decide (0 ≤ k)); [|lia]. rewrite frame_addr by lia. auto.
  - intros H12. destruct (H6 H12) as [Hr Hne]. split; [lia|]. intros k Hk. rewrite frame_addr by lia. auto.
Qed.

Lemma frame_owns sec : owns st' d n sec ↔ owns st d n sec.
Proof.
  unfold owns. split; intros [(k & Hk & ->)|Hi]; [left|by right|left|by right]; exists k; (split; [done|]).
  - by rewrite frame_addr by lia.
  - by rewrite frame_addr by lia.
Qed.

Lemma frame_byte i : 0 ≤ i < 512 * n → byte_at st' d i = byte_at st d i.
Proof.
  intros Hi. assert (0 ≤ i / 512 < n) as Hk by (Z.div_mod_to_equations; lia).
  unfold byte_at. rewrite frame_addr by lia. rewrite Hsame; [done|]. left. eauto.
Qed.
End Frame.

(** ** Appending *)
Lemma fill_range (a n : Z) (l : list Z) :
  NoDup l → (∀ x, x ∈ l → a ≤ x < a + n) → Z.of_nat (length l) = n →
  ∀ y, a ≤ y < a + n → y ∈ l.
Proof.
  intros Hnd Hin Hlen y Hy.
  assert (l ≡ₚ seqZ a n) as ->; [|by apply elem_of_seqZ].
  apply submseteq_length_Permutation; [|rewrite length_seqZ; lia].
  apply NoDup_submseteq; [done|]. intros x Hx. apply elem_of_seqZ. by apply Hin.
Qed.

(** The blocks an append adds to a file are exactly those it takes. *)
Lemma appended_new_blocks st d off p d1 st1 sec :
  0 ≤ off → off + Z.of_nat (length p) ≤ 71680 →
  appended st d off p d1 st1 → freeblock st ≤ sec < freeblock st1 →
  owns st1 d1 (blocks_of (off + Z.of_nat (length p))) sec.
Proof.
  intros Hoff Hmax A Hsec. set (m := blocks_of (off + Z.of_nat (length p))) in *.
  set (n := blocks_of off).
  pose proof (blocks_of_mono off (off + Z.of_nat (length p)) ltac:(lia)) as Hnm. fold n m in Hnm.
  assert (0 ≤ n) as Hn by (unfold n, blocks_of; Z.div_mod_to_equations; lia).
  pose proof (ap_file _ _ _ _ _ _ A) as Hf. fold m in Hf.
  pose proof (ap_free _ _ _ _ _ _ A) as Hfree. fold n m in Hfree.
  set (L := (addr_of st1 d1 <$> seqZ n (m - n)) ++
            (if decide (n ≤ 12 ∧ 12 < m) then [direct d1 12] else [])).
  assert (sec ∈ L) as HL.
  { apply (fill_range (freeblock st) (growth n m)); [| | |lia].
    - apply NoDup_app. split_and!.
      + apply NoDup_fmap_2_strong; [|apply NoDup_seqZ]. intros x y Hx Hy Heq.
        apply elem_of_seqZ in Hx, Hy. destruct (Z.lt_trichotomy x y) as [?|[?|?]]; [|done|].
        * exfalso. by eapply (fo_inj _ _ _ Hf x y); [lia|lia|].
        * exfalso. by eapply (fo_inj _ _ _ Hf y x); [lia|lia|].
      + intros x (k & -> & Hk%elem_of_seqZ)%list_elem_of_fmap. case_decide as H12; [|by apply not_elem_of_nil].
        intros Hx%list_elem_of_singleton. apply (fo_ind _ _ _ Hf) in Hx; lia.
      + case_decide; [apply NoDup_singleton|apply NoDup_nil_2].
    - intros x [(k & -> & Hk%elem_of_seqZ)%list_elem_of_fmap|Hx]%elem_of_app.
      + pose proof (ap_addr_new _ _ _ _ _ _ A k ltac:(fold n m; lia)).
        pose proof (fo_range _ _ _ Hf k ltac:(lia)). lia.
      + destruct (decide (n ≤ 12 ∧ 12 < m)) as [[H12 H12']|]; [|by apply not_elem_of_nil in Hx].
        apply list_elem_of_singleton in Hx as ->.
        destruct (ap_ind _ _ _ _ _ _ A H12') as [_ Hnew]. specialize (Hnew H12).
        destruct (fo_ind _ _ _ Hf H12') as [? _]. lia.
    - unfold L, growth. rewrite length_app, length_fmap, length_seqZ. case_decide; simpl; lia. }
  unfold L in HL. apply elem_of_app in HL as [(k & -> & Hk%elem_of_seqZ)%list_elem_of_fmap|Hx].
  - left. exists k. split; [lia|done].
  - destruct (decide (n ≤ 12 ∧ 12 < m)) as [[H12 H12']|]; [|by apply not_elem_of_nil in Hx].
    apply list_elem_of_singleton in Hx as ->. by right.
Qed.

Lemma appended_owns_old st d off p d1 st1 sec :
  0 ≤ off → appended st d off p d1 st1 → owns st d (blocks_of off) sec →
  owns st1 d1 (blocks_of (off + Z.of_nat (length p))) sec.
Proof.
  intros Hoff A. pose proof (blocks_of_mono off (off + Z.of_nat (length p)) ltac:(lia)).
  intros [(k & Hk & ->)|[H12 ->]].
  - left. exists k. split; [lia|]. by rewrite (ap_addr_old _ _ _ _ _ _ A).
  - right. split; [lia|]. symmetry. by apply (ap_ind _ _ _ _ _ _ A); [lia|].
Qed.

(** What an append to a file owns was its own before, or is new. *)
Lemma appended_owns_inv st d off p d1 st1 sec :
  0 ≤ off → appended st d off p d1 st1 →
  owns st1 d1 (blocks_of (off + Z.of_nat (length p))) sec →
  owns st d (blocks_of off) sec ∨ freeblock st ≤ sec.
Proof.
  intros Hoff A [(k & Hk & ->)|[H12 ->]].
  - destruct (decide (k < blocks_of off)).
    + left. left. exists k. split; [lia|]. apply (ap_addr_old _ _ _ _ _ _ A). lia.
    + right. apply (ap_addr_new _ _ _ _ _ _ A). lia.
  - destruct (ap_ind _ _ _ _ _ _ A H12) as [Hs Hn]. destruct (decide (12 < blocks_of off)).
    + left. right. split; [done|auto].
    + right. apply Hn. lia.
Qed.

Lemma i2b_range j : 0 ≤ j < 208 → 2 ≤ i2b j < 28.
Proof. intros. unfold i2b. change IPB with 8. Z.div_mod_to_equations. lia. Qed.

(** The effect of [iappend] on the inode [i]. *)
Record wrote (st : fs) (A : Z → dinode) (i : Z) (p : list Z) (st' : fs) (d' : dinode) : Prop := {
  wr_phys : phys st' (upd A i d');
  wr_meta : di_type d' = di_type (A i) ∧ di_nlink d' = di_nlink (A i) ∧
            di_size d' = di_size (A i) + Z.of_nat (length p);
  wr_free : freeblock st' = freeblock st + growth (nblk (A i)) (nblk d');
  wr_rest : freeinode st' = freeinode st ∧ links st' = links st ∧ hardLinkMapRoot st' = hardLinkMapRoot st;
  wr_super : sector st' 1 = sector st 1;
  wr_reads : ∀ j, 0 ≤ j < 208 → rinode j st' = if decide (j = i) then Done d' else rinode j st;
  wr_others : ∀ j k, 0 ≤ j < 208 → j ≠ i → 0 ≤ k < 512 * nblk (A j) →
    byte_at st' (A j) k = byte_at st (A j) k;
  wr_old : ∀ k, 0 ≤ k < di_size (A i) → byte_at st' d' k = byte_at st (A i) k;
  wr_new : ∀ k, di_size (A i) ≤ k < di_size d' → byte_at st' d' k = nth (Z.to_nat (k - di_size (A i))) p 0;
  wr_tail : (∀ k, di_size (A i) ≤ k < 512 * nblk (A i) → byte_at st (A i) k = 0) →
    ∀ k, di_size d' ≤ k < 512 * nblk d' → byte_at st' d' k = 0;
}.

Section Append.
Variables (st : fs) (A : Z → dinode) (i : Z) (p : list Z) (d1 : dinode) (st1 : fs).
Let size := di_size (A i).
Let off := size + Z.of_nat (length p).
Hypothesis HP : phys st A.
Hypothesis Hi : 1 ≤ i < freeinode st.
Hypothesis Hmax : off ≤ 71680.
Hypothesis HA : appended st (A i) size p d1 st1.
Let d' := set_size off d1.
Let st' := put_inode i d' st1.
Let HB : blocks st A := ph_blocks _ _ HP.

Lemma app_i : 0 ≤ i < 208.
Proof. pose proof (bl_free _ _ HB). lia. Qed.

Lemma app_size : 0 ≤ size.
Proof. apply (bl_size _ _ HB i app_i). Qed.

Lemma app_nblk : nblk d' = blocks_of off.
Proof. done. Qed.

Lemma app_free : freeblock st ≤ freeblock st'.
Proof.
  change (freeblock st') with (freeblock st1). rewrite (ap_free _ _ _ _ _ _ HA). fold off.
  pose proof (blocks_of_mono size off ltac:(unfold off; lia)). unfold growth. case_decide; lia.
Qed.

Lemma app_put : disk_ok st' ∧ file_ok st' d' (nblk d') ∧
  (∀ k, 0 ≤ k → k / 512 < nblk d' → byte_at st' d' k = byte_at st1 d1 k).
Proof.
  apply (put_inode_data i st1 d1 d' (blocks_of off));
    [apply HA|apply HA|apply app_i|apply (ap_file _ _ _ _ _ _ HA)|done].
Qed.

(** Sectors of the data area that [i] did not own are as they were. *)
Lemma app_sector sec : 28 ≤ sec < freeblock st → ¬ holds st (A i) sec → sector st' sec = sector st sec.
Proof.
  intros Hsec Hno. unfold st', put_inode. rewrite sector_put.
  rewrite decide_False by (pose proof (i2b_range i app_i); lia).
  apply (ap_frame _ _ _ _ _ _ HA); [lia| |].
  - intros k Hk ->. apply Hno. left. eauto.
  - destruct (decide (blocks_of size ≤ 12)); [by right|left]. intros ->. apply Hno. right. split; [|done].
    unfold nblk. fold size. lia.
Qed.

Lemma app_other_same j sec : 0 ≤ j < 208 → j ≠ i → holds st (A j) sec → sector st' sec = sector st sec.
Proof.
  intros Hj Hne Hown. pose proof (holds_range _ _ _ _ (bl_file _ _ HB j Hj) Hown).
  apply app_sector; [lia|]. intros Hown'. apply Hne. apply (bl_disj _ _ HB j i sec); auto using app_i.
Qed.

Lemma app_owns sec : holds st' d' sec ↔ owns st1 d1 (blocks_of off) sec.
Proof.
  unfold holds. rewrite app_nblk. destruct app_put as (_ & Hf & _).
  apply (frame_owns st1 st' d' (blocks_of off)).
  - pose proof app_size. unfold blocks_of. Z.div_mod_to_equations. lia.
  - intros s Hs. unfold st', put_inode. rewrite sector_put.
    assert (29 ≤ s) by (apply (holds_range _ _ _ _ (ap_file _ _ _ _ _ _ HA)) in Hs; lia).
    rewrite decide_False; [done|]. pose proof (i2b_range i app_i). lia.
Qed.

Lemma app_blocks : blocks st' (upd A i d').
Proof.
  pose proof app_i as Hi'. pose proof app_size as Hs0. pose proof app_free as Hfr.
  destruct app_put as (Hdk & Hf & _).
  assert (∀ j, 0 ≤ j < 208 → 0 ≤ nblk (A j) ≤ 140) as Hnb
    by (intros j Hj; apply nblk_bounds, (bl_size _ _ HB j Hj)).
  assert (∀ j sec, 0 ≤ j < 208 → j ≠ i → holds st' (A j) sec ↔ holds st (A j) sec) as Hown.
  { intros j sec Hj Hne. apply frame_owns; [auto|]. intros s Hs. by apply (app_other_same j). }
  assert (∀ j sec, 0 ≤ j < 208 → j ≠ i → holds st (A j) sec → holds st' d' sec → False) as Hdis.
  { intros j sec Hj Hne H1 H2%app_owns. apply appended_owns_inv with (1 := Hs0) (2 := HA) in H2 as [H2|H2].
    - apply Hne. by apply (bl_disj _ _ HB j i sec).
    - apply (holds_range _ _ _ _ (bl_file _ _ HB j Hj)) in H1. lia. }
  split.
  - done.
  - simpl. rewrite (proj1 (ap_rest _ _ _ _ _ _ HA)). apply HB.
  - intros j Hj. destruct (decide (j = i)) as [->|Hne]; [rewrite upd_eq|rewrite upd_ne by done; by apply HB].
    apply (appended_wf st (A i) p d1 st1); [by apply HB|done|]. fold size off. lia.
  - intros j Hj. destruct (decide (j = i)) as [->|Hne]; [by rewrite upd_eq|rewrite upd_ne by done].
    apply (frame_file st); [auto|by apply HB|done|]. intros s Hs. by apply (app_other_same j).
  - intros j Hj. destruct (decide (j = i)) as [->|Hne]; [rewrite upd_eq|rewrite upd_ne by done; by apply HB].
    simpl. fold size. lia.
  - intros j k sec Hj Hk. destruct (decide (j = i)) as [->|Hji], (decide (k = i)) as [->|Hki]; [done|..];
      rewrite ?upd_eq, ?upd_ne by done.
    + rewrite (Hown k) by done. intros H1 H2. exfalso. by apply (Hdis k sec).
    + rewrite (Hown j) by done. intros H1 H2. exfalso. by apply (Hdis j sec).
    + rewrite (Hown j), (Hown k) by done. by apply HB.
  - intros sec Hsec. destruct (decide (sec < freeblock st)) as [Hold|Hnew].
    + destruct (bl_cover _ _ HB sec ltac:(lia)) as (j & Hj & Hh). exists j. split; [done|].
      destruct (decide (j = i)) as [->|Hne]; [rewrite upd_eq; apply app_owns|rewrite upd_ne, Hown by done; done].
      by apply (appended_owns_old st (A i)).
    + exists i. split; [done|]. rewrite upd_eq. apply app_owns.
      apply (appended_new_blocks st (A i)); [done|done|done|]. change (freeblock st') with (freeblock st1) in Hsec. lia.
  - intros j Hj Hor. simpl in Hor. rewrite (proj1 (ap_rest _ _ _ _ _ _ HA)) in Hor.
    rewrite upd_ne by lia. by apply HB.
Qed.

Lemma app_low sec : 0 < sec < 29 → sector st1 sec = sector st sec.
Proof.
  intros Hsec. pose proof app_size.
  apply (appended_low st (A i) size p d1 st1); [apply HB|apply (bl_file _ _ HB i app_i)|done|lia|lia].
Qed.

Lemma app_reads j : 0 ≤ j < 208 → rinode j st' = if decide (j = i) then Done d' else rinode j st.
Proof.
  intros Hj. pose proof (i2b_range j Hj) as Hbj. pose proof (i2b_range i app_i).
  assert (sectors_wf st1) as Hsw by apply HA.
  assert (length (di_addrs d') = 13%nat) as Hlen by apply (ap_file _ _ _ _ _ _ HA).
  pose proof (dk_nsect _ (ap_disk _ _ _ _ _ _ HA)) as Hns. pose proof (dk_nsect _ (bl_disk _ _ HB)) as Hns0.
  rewrite rinode_in by (simpl; lia). destruct (decide (j = i)) as [->|Hne].
  - unfold st'. rewrite inode_bytes_put_eq by done. rewrite decode_encode_dinode; [done|].
    apply (appended_wf st (A i) p d1 st1); [apply (bl_wf _ _ HB i app_i)|done|]. fold size off. lia.
  - unfold st'. rewrite inode_bytes_put_ne by done. rewrite rinode_in by lia. unfold inode_bytes.
    by rewrite app_low by lia.
Qed.

Lemma app_table : table st' (upd A i d').
Proof.
  apply (table_keeps st A); [apply HP|]. intros j Hj. unfold exact. rewrite app_reads by done.
  case_decide; [subst; left; by rewrite upd_eq|right; by rewrite upd_ne].
Qed.

Lemma app_wrote : wrote st A i p st' d'.
Proof.
  pose proof app_i as Hi'. pose proof app_size as Hs0. destruct app_put as (_ & _ & Hbyte).
  assert (∀ k, 0 ≤ k < 512 * nblk d' → k / 512 < nblk d') as Hdiv
    by (intros; Z.div_mod_to_equations; lia).
  assert (off ≤ 512 * nblk d') as Hoff
    by (rewrite app_nblk; unfold blocks_of; Z.div_mod_to_equations; lia).
  split.
  - split; [apply app_blocks|apply app_table].
  - unfold d'. simpl. rewrite (ap_same _ _ _ _ _ _ HA). done.
  - change (freeblock st') with (freeblock st1). rewrite (ap_free _ _ _ _ _ _ HA). done.
  - apply (ap_rest _ _ _ _ _ _ HA).
  - unfold st', put_inode. rewrite sector_put. rewrite decide_False by (pose proof (i2b_range i Hi'); lia).
    apply app_low. lia.
  - apply app_reads.
  - intros j k Hj Hne Hk. apply frame_byte with (n := nblk (A j)); [|by intros s Hs; apply (app_other_same j)|done].
    apply nblk_bounds, (bl_size _ _ HB j Hj).
  - intros k Hk. fold size in Hk. rewrite Hbyte by (try apply Hdiv; unfold off in *; lia).
    by apply (ap_old _ _ _ _ _ _ HA).
  - intros k Hk. fold size in Hk |- *. change (di_size d') with off in Hk |- *. rewrite Hbyte by (try apply Hdiv; lia).
    by apply (ap_new _ _ _ _ _ _ HA).
  - intros Htail k Hk. fold size in Hk |- *. change (di_size d') with off in Hk |- *. rewrite Hbyte by (try apply Hdiv; lia).
    apply (ap_tail _ _ _ _ _ _ HA); [done|]. done.
Qed.
End Append.

Lemma iappend_phys st A i p :
  phys st A → exact st A i → 1 ≤ i < freeinode st → di_size (A i) + Z.of_nat (length p) ≤ 71680 →
  freeblock st + growth (nblk (A i)) (blocks_of (di_size (A i) + Z.of_nat (length p))) ≤ 1024 →
  ∃ st' d', iappend i p st = Done st' ∧ wrote st A i p st' d'.
Proof.
  intros HP Hex Hi Hmax Hroom. pose proof (ph_blocks _ _ HP) as HB. pose proof (bl_free _ _ HB).
  assert (0 ≤ i < 208) as Hi' by lia. pose proof (bl_size _ _ HB i Hi') as Hsz.
  destruct (append_loop_spec (length p) st (A i) (di_size (A i)) p) as (d1 & st1 & Hloop & HA);
    [apply HB|by apply HB|lia|lia|done|done|].
  exists (put_inode i (set_size (di_size (A i) + Z.of_nat (length p)) d1) st1),
    (set_size (di_size (A i) + Z.of_nat (length p)) d1).
  split; [|by apply app_wrote].
  unfold iappend. rewrite Hex. cbn [obind].
  rewrite xint_u32, wrap_small by lia. rewrite Hloop. cbn [obind]. rewrite xint_u32, wrap_small by lia.
  apply winode_in. rewrite (dk_nsect _ (ap_disk _ _ _ _ _ _ HA)). pose proof (i2b_range i Hi'). lia.
Qed.

(** ** Changing sectors that belong to no file *)
Lemma blocks_frame st A st' :
  blocks st A → sectors_wf st' → nsect st' = nsect st → freeblock st' = freeblock st → usedblocks st' = usedblocks st →
  freeinode st' = freeinode st → (∀ sec, 29 ≤ sec → sector st' sec = sector st sec) →
  blocks st' A ∧ ∀ j k, 0 ≤ j < 208 → 0 ≤ k < 512 * nblk (A j) → byte_at st' (A j) k = byte_at st (A j) k.
Proof.
  intros HB Hwf Hn Hf Hu Hi Hs.
  assert (∀ j s, 0 ≤ j < 208 → holds st (A j) s → sector st' s = sector st s) as Hown.
  { intros j s Hj Hh. apply Hs. apply (holds_range _ _ _ _ (bl_file _ _ HB j Hj)) in Hh. lia. }
  assert (∀ j, 0 ≤ j < 208 → 0 ≤ nblk (A j) ≤ 140) as Hnb by (intros j Hj; apply nblk_bounds, (bl_size _ _ HB j Hj)).
  assert (∀ j sec, 0 ≤ j < 208 → holds st' (A j) sec ↔ holds st (A j) sec) as Hh.
  { intros j sec Hj. apply frame_owns; [auto|]. intros s. by apply Hown. }
  split; [split|].
  - destruct (bl_disk _ _ HB) as [D1 D2 D3 D4 D5]. split; [done|congruence|congruence|congruence|].
    intros sec Hsec. rewrite Hs by lia. apply D5. lia.
  - rewrite Hi. apply HB.
  - apply HB.
  - intros j Hj. apply (frame_file st); [auto|by apply HB|lia|]. intros s. by apply Hown.
  - apply HB.
  - intros j k sec Hj Hk. rewrite !Hh by done. by apply HB.
  - intros sec Hsec. rewrite Hf in Hsec. destruct (bl_cover _ _ HB sec Hsec) as (j & Hj & Hsj). exists j. by rewrite Hh.
  - intros j Hj Hor. rewrite Hi in Hor. by apply HB.
  - intros j k Hj Hk. apply (frame_byte st st' (A j) (nblk (A j))); [auto| |done]. intros s. by apply Hown.
Qed.

(** ** Rewriting an inode without touching its blocks *)
Definition keeps (d e : dinode) : Prop :=
  di_addrs e = di_addrs d ∧ nblk e = nblk d ∧ 0 ≤ di_size e ≤ 71680 ∧ dinode_wf e.

Section Rewrite.
Variables (st : fs) (A : Z → dinode) (i : Z) (e : dinode).
Hypothesis HP : phys st A.
Hypothesis Hi : 1 ≤ i < freeinode st.
Hypothesis Hk : keeps (A i) e.
Let st' := put_inode i e st.

Lemma rewrite_sector sec : 28 ≤ sec → sector st' sec = sector st sec.
Proof.
  intros Hsec. unfold st', put_inode. rewrite sector_put. rewrite decide_False; [done|].
  pose proof (bl_free _ _ (ph_blocks _ _ HP)). pose proof (i2b_range i). lia.
Qed.

Lemma rewrite_super : sector st' 1 = sector st 1.
Proof.
  unfold st', put_inode. rewrite sector_put. rewrite decide_False; [done|].
  pose proof (bl_free _ _ (ph_blocks _ _ HP)). pose proof (i2b_range i). lia.
Qed.

Lemma rewrite_reads j : 0 ≤ j < 208 → rinode j st' = if decide (j = i) then Done e else rinode j st.
Proof.
  intros Hj. pose proof (i2b_range j Hj). pose proof (bl_disk _ _ (ph_blocks _ _ HP)) as Hdk. pose proof (dk_nsect _ Hdk) as Hns.
  destruct Hk as (_ & _ & _ & Hwf). pose proof (wf_addrs_len e Hwf) as Hlen. rewrite !rinode_in by (simpl; lia).
  unfold st'. case_decide; [subst j; rewrite inode_bytes_put_eq by (done || apply Hdk); by rewrite decode_encode_dinode|].
  by rewrite inode_bytes_put_ne by (done || apply Hdk).
Qed.

Lemma rewrite_holds j sec : 0 ≤ j < 208 → holds st' (upd A i e j) sec ↔ holds st (A j) sec.
Proof.
  intros Hj. pose proof (ph_blocks _ _ HP) as HB. destruct Hk as (Ha & Hn & _ & _).
  assert (holds st' (upd A i e j) sec ↔ owns st' (A j) (nblk (A j)) sec) as ->.
  { unfold holds, owns, upd, addr_of, direct. case_decide; [|done]. subst j. by rewrite Ha, Hn. }
  apply frame_owns; [apply nblk_bounds, HB; done|]. intros s Hs.
  apply rewrite_sector. apply (holds_range _ _ _ _ (bl_file _ _ HB j Hj)) in Hs. lia.
Qed.

Lemma rewrite_phys : winode i e st = Done st' ∧ phys st' (upd A i e).
Proof.
  pose proof (ph_blocks _ _ HP) as HB. pose proof (bl_free _ _ HB) as Hfr.
  assert (0 ≤ i < 208) as Hi' by lia. pose proof (i2b_range i Hi') as Hbi.
  pose proof (bl_disk _ _ HB) as Hdk. pose proof (dk_nsect _ Hdk) as Hns.
  destruct Hk as (Ha & Hn & Hsz & Hwf). pose proof (wf_addrs_len e Hwf) as Hlen.
  destruct (put_inode_data i st (A i) e (nblk (A i))) as (Pdk & Pf & _);
    [done|by apply HB|done|done|intros j; unfold direct; by rewrite Ha|].
  split; [apply winode_in; lia|]. split; [split|].
  - done.
  - done.
  - intros j Hj. unfold upd. case_decide; [done|]. by apply HB.
  - intros j Hj. unfold upd. case_decide as Hji; [rewrite Hn; exact Pf|].
    apply (frame_file st); [apply nblk_bounds, HB; done|by apply HB|done|].
    intros s Hs. apply rewrite_sector. apply (holds_range _ _ _ _ (bl_file _ _ HB j Hj)) in Hs. lia.
  - intros j Hj. unfold upd. case_decide; [done|]. by apply HB.
  - intros j k sec Hj Hk'. rewrite !rewrite_holds by done. by apply HB.
  - intros sec Hsec. destruct (bl_cover _ _ HB sec Hsec) as (j & Hj & Hh). exists j. split; [done|].
    by apply rewrite_holds.
  - intros j Hj Hor. rewrite upd_ne by (simpl in Hor; lia). by apply HB.
  - apply (table_keeps st A); [apply HP|]. intros j Hj. unfold exact. rewrite rewrite_reads by done.
    case_decide; [subst; left; by rewrite upd_eq|right; by rewrite upd_ne].
Qed.

Lemma rewrite_byte j k : 0 ≤ j < 208 → 0 ≤ k < 512 * nblk (A j) →
  byte_at st' (upd A i e j) k = byte_at st (A j) k.
Proof.
  intros Hj Hkk. pose proof (ph_blocks _ _ HP) as HB. destruct Hk as (Ha & Hn & _ & _).
  assert (byte_at st' (upd A i e j) k = byte_at st' (A j) k) as ->.
  { destruct (decide (j = i)) as [->|Hne]; [rewrite upd_eq|by rewrite upd_ne].
    unfold byte_at, addr_of, direct. by rewrite Ha. }
  apply (frame_byte st st' (A j) (nblk (A j))); [by apply nblk_bounds, HB| |done].
  intros s Hs. apply rewrite_sector. apply (holds_range _ _ _ _ (bl_file _ _ HB j Hj)) in Hs. lia.
Qed.
End Rewrite.

(** ** Rounding the size of a directory up by a block too many *)
Lemma bump_phys st A i :
  phys st A → 1 ≤ i < freeinode st → bumpable (A i) → exact st A i →
  let st' := put_inode i (bumped (A i)) st in
  winode i (bumped (A i)) st = Done st' ∧ phys st' A ∧ sector st' 1 = sector st 1 ∧
  (∀ j, 0 ≤ j < 208 → rinode j st' = if decide (j = i) then Done (bumped (A i)) else rinode j st) ∧
  ∀ j k, 0 ≤ j < 208 → 0 ≤ k < 512 * nblk (A j) → byte_at st' (A j) k = byte_at st (A j) k.
Proof.
  intros HP Hi Hb Hex st'. pose proof (ph_blocks _ _ HP) as HB. pose proof (bl_free _ _ HB).
  pose proof (bl_disk _ _ HB) as Hdk. pose proof (dk_nsect _ Hdk) as Hns. pose proof (i2b_range i ltac:(lia)) as Hbi.
  pose proof (bl_wf _ _ HB i ltac:(lia)) as Hw. pose proof (bl_size _ _ HB i ltac:(lia)) as Hsz.
  assert (dinode_wf (bumped (A i))) as Hwf.
  { destruct Hw. split; try done. simpl. unfold is_uint. lia. }
  pose proof (wf_addrs_len _ Hwf) as Hlen.
  assert (∀ sec, sec ≠ i2b i → sector st' sec = sector st sec) as Hsec.
  { intros sec Hne. unfold st', put_inode. rewrite sector_put. by rewrite decide_False. }
  assert (∀ j, 0 ≤ j < 208 → rinode j st' = if decide (j = i) then Done (bumped (A i)) else rinode j st) as Hr.
  { intros j Hj. pose proof (i2b_range j Hj). rewrite !rinode_in by (simpl; lia). unfold st'.
    case_decide; [subst j; rewrite inode_bytes_put_eq by (done || apply Hdk); by rewrite decode_encode_dinode|].
    by rewrite inode_bytes_put_ne by (done || apply Hdk). }
  destruct (blocks_frame st A st' HB) as [HB' Hby]; [by apply put_inode_wf; [apply Hdk|]|done..|intros; apply Hsec; lia|].
  split_and!; [apply winode_in; lia|split; [done|]|apply Hsec; lia|done|done].
  intros j Hj. rewrite Hr by done. unfold exact. case_decide; [subst; by right|]. rewrite Hr, decide_False by done.
  by apply (ph_table _ _ HP).
Qed.

(** ** Allocating an inode *)
Definition new_dinode (type : Z) : dinode :=
  Dinode type 0 0 (if decide (type = T_DIR) then 2 else 1) 0 (replicate 13 0).

(** Two states with the same sectors and counters. *)
Lemma phys_same st A st' :
  phys st A → nsect st' = nsect st → disk st' = disk st → freeblock st' = freeblock st →
  usedblocks st' = usedblocks st → freeinode st ≤ freeinode st' ≤ 200 → phys st' A.
Proof.
  intros [HB HT] Hn Hd Hf Hu Hi. destruct st, st'. simpl in *. subst. split; [|exact HT].
  destruct HB as [H1 H2 H3 H4 H5 H6 H7 H8]. split; simpl in *; try done.
  - destruct H1. by split.
  - lia.
  - intros i Hr. destruct (H4 i Hr). by split.
  - intros i Hr Hor. apply H8; [done|]. lia.
Qed.

Lemma keeps_zero type : type = T_DIR ∨ type = T_FILE → keeps zero_dinode (new_dinode type).
Proof.
  intros Ht. split_and!; [done|done|done|done|].
  split; simpl; try done.
  - destruct Ht as [->| ->]; by vm_compute.
  - destruct Ht as [->| ->]; by vm_compute.
  - repeat (constructor; [done|]). constructor.
Qed.

Lemma ialloc_phys type st A :
  phys st A → type = T_DIR ∨ type = T_FILE → freeinode st < 200 →
  ∃ st', ialloc type st = Done (freeinode st, st') ∧
    phys st' (upd A (freeinode st) (new_dinode type)) ∧
    freeinode st' = freeinode st + 1 ∧ freeblock st' = freeblock st ∧
    links st' = links st ∧ hardLinkMapRoot st' = hardLinkMapRoot st ∧ sector st' 1 = sector st 1 ∧
    (∀ j, 0 ≤ j < 208 → rinode j st' = if decide (j = freeinode st) then Done (new_dinode type) else rinode j st) ∧
    ∀ j k, 0 ≤ j < 208 → 0 ≤ k < 512 * nblk (A j) →
      byte_at st' (upd A (freeinode st) (new_dinode type) j) k = byte_at st (A j) k.
Proof.
  intros HP Ht Hlt. pose proof (bl_free _ _ (ph_blocks _ _ HP)) as Hfr.
  set (st1 := set_freeinode (freeinode st + 1) st).
  assert (phys st1 A) as HP1 by (apply (phys_same st); simpl; (done || lia)).
  assert (keeps (A (freeinode st)) (new_dinode type)) as Hk.
  { rewrite (bl_unused _ _ (ph_blocks _ _ HP)) by lia. by apply keeps_zero. }
  assert (1 ≤ freeinode st < freeinode st1) as Hi by (simpl; lia).
  destruct (rewrite_phys st1 A (freeinode st) (new_dinode type) HP1 Hi Hk) as [Hw HP2].
  exists (put_inode (freeinode st) (new_dinode type) st1). split_and!; [|done|done|done|done|done|..].
  - unfold ialloc. rewrite (wrap_small 32 (freeinode st + 1)) by lia. fold st1.
    assert (Dinode (s16 (xshort type)) 0 0 (s16 (xshort (if decide (type = T_DIR) then 2 else 1))) (xint 0)
      (replicate 13 0) = new_dinode type) as -> by (by destruct Ht as [->| ->]).
    rewrite Hw. done.
  - apply (rewrite_super st1 A (freeinode st) (new_dinode type) HP1 Hi).
  - intros j Hj. exact (rewrite_reads st1 A (freeinode st) (new_dinode type) HP1 Hk j Hj).
  - intros j k Hj Hkk. by apply (rewrite_byte st1 A (freeinode st) (new_dinode type) HP1 Hi Hk).
Qed.
