(* ===== verification/MkfsTree.v ===== *)
(** * The directory tree mkfs.c builds

    The logical invariant of the image under construction: the entries [E] of
    every directory, the reference counts they induce, the parent of every
    finished directory, and the inodes [P] whose own entry has not been
    written yet.  The recursive copy [add_dir] keeps it, and completes on
    every host tree that fits. *)
From S2P Require Import Prelude CInt FsLayout Image Fsck FsckSpec LsfsProof Mkfs MkfsTheorems MkfsPhysical.
Import Mk.

(** ** References *)
Definition refcount (E : Z → list dirent) (k : Z) : nat :=
  sum_list_with (λ i, length (filter (mentions k) (E i))) (seqZ 1 199).

Definition add_ent (E : Z → list dirent) (i : Z) (e : dirent) (j : Z) : list dirent :=
  if decide (j = i) then E i ++ [e] else E j.

Lemma add_ent_eq E i e : add_ent E i e i = E i ++ [e].
Proof. unfold add_ent. by rewrite decide_True. Qed.
Lemma add_ent_ne E i e j : j ≠ i → add_ent E i e j = E j.
Proof. intros. unfold add_ent. by rewrite decide_False. Qed.

Lemma sum_list_update (f g : Z → nat) (i : Z) (c : nat) (l : list Z) :
  NoDup l → i ∈ l → g i = (f i + c)%nat → (∀ j, j ≠ i → g j = f j) →
  sum_list_with g l = (sum_list_with f l + c)%nat.
Proof.
  intros Hnd (l1 & l2 & ->)%list_elem_of_split Hi Hne. rewrite !sum_list_with_app. simpl.
  assert (∀ l, i ∉ l → sum_list_with g l = sum_list_with f l) as Hs.
  { induction l as [|j l IH]; intros Hin; [done|]. apply not_elem_of_cons in Hin as [? ?].
    simpl. rewrite IH, Hne by done. done. }
  apply NoDup_app in Hnd as (_ & H1 & [H2 _]%NoDup_cons).
  rewrite (Hs l1), (Hs l2), Hi; [lia|done|]. intros Hin. apply (H1 i Hin), list_elem_of_here.
Qed.

Lemma refcount_add E i e k : 1 ≤ i < 200 →
  refcount (add_ent E i e) k = (refcount E k + if decide (mentions k e) then 1 else 0)%nat.
Proof.
  intros Hi. unfold refcount. apply (sum_list_update _ _ i).
  - apply NoDup_seqZ.
  - apply elem_of_seqZ. lia.
  - rewrite add_ent_eq, filter_app, length_app. f_equal.
    rewrite filter_cons, filter_nil. by case_decide.
  - intros j Hne. by rewrite add_ent_ne.
Qed.

(** Number of entries in all directories. *)
Definition total (E : Z → list dirent) : nat := sum_list_with (λ i, length (E i)) (seqZ 1 199).

Lemma total_add E i e : 1 ≤ i < 200 → total (add_ent E i e) = S (total E).
Proof.
  intros Hi. unfold total. rewrite (sum_list_update (λ i, length (E i)) _ i 1); [lia|..].
  - apply NoDup_seqZ.
  - apply elem_of_seqZ. lia.
  - rewrite add_ent_eq, length_app. done.
  - intros j Hne. by rewrite add_ent_ne.
Qed.

Lemma refcount_total E k : (refcount E k ≤ total E)%nat.
Proof.
  unfold refcount, total. induction (seqZ 1 199) as [|i l IH]; [done|]. simpl.
  pose proof (length_filter (mentions k) (E i)). lia.
Qed.

(** ** The logical invariant *)

(** A directory as [add_dir] writes it: "." first, ".." second, then
    ordinary entries. *)
Definition entry_for (inum : Z) (name : list Z) : dirent := Dirent inum (strncpy_name name).

Definition dir_shape (i p : Z) (es : list dirent) : Prop :=
  ∃ es', es = entry_for i dot :: entry_for p dotdot :: es' ∧ Forall is_plain es'.

Definition isdir (A : Z → dinode) (i : Z) : Prop := di_type (A i) = T_DIR.
Definition isfile (A : Z → dinode) (i : Z) : Prop := di_type (A i) = T_FILE.

Lemma isdir_not_file A i : isdir A i → isfile A i → False.
Proof. unfold isdir, isfile. by intros ->. Qed.

Record tree (fi : Z) (A : Z → dinode) (E : Z → list dirent) (P : list Z) : Prop := {
  tr_types : ∀ i, 1 ≤ i < fi → isdir A i ∨ isfile A i;
  tr_none : ∀ i, ¬ (1 ≤ i < fi) → E i = [];
  tr_file : ∀ i, 1 ≤ i < fi → isfile A i →
    E i = [] ∧ di_nlink (A i) = Z.of_nat (refcount E i) + (if decide (i ∈ P) then 1 else 0);
  tr_ents : ∀ i e, e ∈ E i → 1 ≤ de_inum e < fi ∧ dirent_wf e;
  tr_pend : NoDup P ∧ ∀ i, i ∈ P → 1 ≤ i < fi ∧ (isdir A i → refcount E i = 0%nat);
  tr_done : ∀ i, 1 ≤ i < fi → isdir A i → i ∉ P →
    refcount E i = 1%nat ∧
    ∃ p, 1 ≤ p < i ∧ isdir A p ∧ (∃ e, e ∈ E p ∧ mentions i e) ∧ dir_shape i p (E i);
}.

(** Changing sizes, addresses and directory link counts. *)
Lemma tree_ext fi A A' E P :
  tree fi A E P → (∀ i, 1 ≤ i < fi → di_type (A' i) = di_type (A i)) →
  (∀ i, 1 ≤ i < fi → isfile A i → di_nlink (A' i) = di_nlink (A i)) → tree fi A' E P.
Proof.
  intros [H1 H2 H3 H4 H5 H6] Ht Hl. split; unfold isdir, isfile in *; try done.
  - intros i Hi. rewrite Ht by done. auto.
  - intros i Hi Hf. rewrite Ht in Hf by done. rewrite Hl by done. auto.
  - split; [apply H5|]. intros i Hi. destruct H5 as [_ H5]. specialize (H5 i Hi) as [? ?].
    rewrite Ht by done. auto.
  - intros i Hi Hd Hnp. rewrite Ht in Hd by done.
    destruct (H6 i Hi Hd Hnp) as (? & p & Hp & Hpd & ?). split; [done|]. exists p.
    rewrite Ht by lia. auto.
Qed.

Lemma refcount_fresh E k : (∀ i e, e ∈ E i → de_inum e < k) → refcount E k = 0%nat.
Proof.
  intros Hlt. unfold refcount. induction (seqZ 1 199) as [|i l IH]; [done|]. simpl. rewrite IH.
  rewrite filter_none; [done|]. intros e He [_ Hm]. apply Hlt in He. lia.
Qed.

Lemma tree_alloc fi A E P type :
  tree fi A E P → 1 ≤ fi → type = T_DIR ∨ type = T_FILE →
  tree (fi + 1) (upd A fi (new_dinode type)) E (fi :: P).
Proof.
  intros [H1 H2 H3 H4 [Hnd H5] H6] Hfi Ht.
  assert (refcount E fi = 0%nat) as H0.
  { apply refcount_fresh. intros i e He. apply H4 in He. lia. }
  assert (∀ i, i ∈ P → i ≠ fi) as Hne by (intros i Hi; apply H5 in Hi; lia).
  assert (∀ i, 1 ≤ i < fi → upd A fi (new_dinode type) i = A i) as HA by (intros; apply upd_ne; lia).
  split; unfold isdir, isfile in *.
  - intros i Hi. destruct (decide (i = fi)) as [->|]; [rewrite upd_eq; exact Ht|rewrite HA by lia; apply H1; lia].
  - intros i Hi. apply H2. lia.
  - intros i Hi. destruct (decide (i = fi)) as [->|Hn].
    + rewrite upd_eq. simpl. intros ->. split; [apply H2; lia|].
      rewrite H0, (decide_True (P := fi ∈ fi :: P)) by eauto using list_elem_of_here, list_elem_of_further. done.
    + rewrite HA by lia. intros Hf. destruct (H3 i ltac:(lia) Hf) as [HE Hl]. split; [done|].
      rewrite Hl. f_equal. destruct (decide (i ∈ P)).
      * by rewrite decide_True by eauto using list_elem_of_here, list_elem_of_further.
      * rewrite decide_False; [done|]. by apply not_elem_of_cons.
  - intros i e He. apply H4 in He as [? ?]. split; [lia|done].
  - split; [constructor; [|done]; intros Hin; by apply (Hne fi)|].
    intros i [->|Hi]%elem_of_cons; [split; [lia|done]|].
    pose proof (Hne i Hi). destruct (H5 i Hi) as [? ?]. rewrite HA by lia. split; [lia|done].
  - intros i Hi Hd [Hn Hnp]%not_elem_of_cons. rewrite HA in Hd by lia.
    destruct (H6 i ltac:(lia) Hd Hnp) as (? & p & Hp & Hpd & ?). split; [done|]. exists p.
    rewrite HA by lia. done.
Qed.

Lemma tree_link fi A E P f d' :
  tree fi A E P → 1 ≤ f < fi → isfile A f → f ∉ P →
  di_type d' = di_type (A f) → di_nlink d' = di_nlink (A f) + 1 →
  tree fi (upd A f d') E (f :: P).
Proof.
  intros [H1 H2 H3 H4 [Hnd H5] H6] Hf Hft Hnp Ht Hl. unfold isdir, isfile in *.
  assert (∀ i, di_type (upd A f d' i) = di_type (A i)) as HT
    by (intros i; unfold upd; case_decide; [by subst|done]).
  split; unfold isdir, isfile.
  - intros i Hi. rewrite HT. auto.
  - done.
  - intros i Hi. rewrite HT. intros Hif. destruct (H3 i Hi Hif) as [HE Hn]. split; [done|].
    destruct (decide (i = f)) as [->|Hne].
    + rewrite upd_eq, Hl, Hn, decide_False by done. rewrite decide_True by eauto using list_elem_of_here, list_elem_of_further. lia.
    + rewrite upd_ne, Hn by done. f_equal. destruct (decide (i ∈ P)).
      * by rewrite decide_True by eauto using list_elem_of_here, list_elem_of_further.
      * rewrite decide_False; [done|]. by apply not_elem_of_cons.
  - done.
  - split; [by constructor|]. intros i [->|Hi]%elem_of_cons; rewrite HT.
    + split; [done|]. rewrite Hft. done.
    + auto.
  - intros i Hi Hd [Hn Hnp']%not_elem_of_cons. rewrite HT in Hd.
    destruct (H6 i Hi Hd Hnp') as (? & p & Hp & Hpd & ?). split; [done|]. exists p. by rewrite HT.
Qed.

(** An entry for "." or "..". *)
Lemma tree_dots fi A E P cur e :
  tree fi A E P → fi ≤ 200 → cur ∈ P → isdir A cur → ¬ is_plain e → 1 ≤ de_inum e < fi → dirent_wf e →
  tree fi A (add_ent E cur e) P.
Proof.
  intros [H1 H2 H3 H4 [Hnd H5] H6] Hfi Hc Hcd He Hin Hwf.
  assert (1 ≤ cur < fi) as Hcr by (by apply H5).
  assert (∀ k, refcount (add_ent E cur e) k = refcount E k) as Hr.
  { intros k. rewrite refcount_add by lia. rewrite decide_False; [lia|]. by intros [? _]. }
  split; try done.
  - intros i Hi. rewrite add_ent_ne by (intros ->; lia). auto.
  - intros i Hi Hf. rewrite Hr. destruct (decide (i = cur)) as [->|]; [|rewrite add_ent_ne by done; auto].
    by destruct (isdir_not_file A cur).
  - intros i x. unfold add_ent. case_decide; [|apply H4].
    intros [Hx|Hx]%elem_of_app; [by eapply H4|]. apply list_elem_of_singleton in Hx as ->. done.
  - split; [done|]. intros i Hi. rewrite Hr. auto.
  - intros i Hi Hd Hnp. rewrite Hr. destruct (H6 i Hi Hd Hnp) as (? & p & Hp & Hpd & (x & Hx & Hm) & Hs).
    split; [done|]. exists p. split_and!; [lia|lia|done| |].
    + exists x. split; [|done]. unfold add_ent. case_decide; [subst; apply elem_of_app; by left|done].
    + rewrite add_ent_ne; [done|]. by intros ->.
Qed.

(** The entry a pending inode was waiting for. *)
Lemma tree_entry fi A E P cur k e :
  tree fi A E (k :: P) → fi ≤ 200 → cur ∈ P → isdir A cur → mentions k e → dirent_wf e →
  (isdir A k → cur < k ∧ dir_shape k cur (E k)) →
  tree fi A (add_ent E cur e) P.
Proof.
  intros [H1 H2 H3 H4 [Hnd H5] H6] Hfi Hc Hcd He Hwf Hk.
  apply NoDup_cons in Hnd as [HkP Hnd]. assert (cur ≠ k) as Hck by (intros ->; done).
  assert (1 ≤ cur < fi) as Hcr by (apply H5; eauto using list_elem_of_here, list_elem_of_further).
  assert (1 ≤ k < fi ∧ (isdir A k → refcount E k = 0%nat)) as [Hkr Hk0] by (apply H5; eauto using list_elem_of_here, list_elem_of_further).
  assert (∀ j, refcount (add_ent E cur e) j = (refcount E j + if decide (j = k) then 1 else 0)%nat) as Hr.
  { intros j. rewrite refcount_add by lia. f_equal. destruct He as [Hpl Hm].
    destruct (decide (j = k)) as [->|Hne]; [by rewrite decide_True|].
    rewrite decide_False; [done|]. intros [_ ?]. congruence. }
  split; try done.
  - intros i Hi. rewrite add_ent_ne by (intros ->; lia). auto.
  - intros i Hi Hf. rewrite Hr. destruct (H3 i Hi Hf) as [HE Hl].
    assert (i ≠ cur) by (intros ->; by destruct (isdir_not_file A cur)).
    rewrite add_ent_ne by done. split; [done|]. rewrite Hl.
    destruct (decide (i = k)) as [->|Hne].
    + rewrite decide_True by eauto using list_elem_of_here, list_elem_of_further. rewrite decide_False by done. lia.
    + destruct (decide (i ∈ P)).
      * rewrite decide_True by eauto using list_elem_of_here, list_elem_of_further. lia.
      * rewrite decide_False; [lia|]. by apply not_elem_of_cons.
  - intros i x. unfold add_ent. case_decide; [|apply H4].
    intros [Hx|Hx]%elem_of_app; [by eapply H4|]. apply list_elem_of_singleton in Hx as ->.
    split; [|done]. destruct He as [_ ->]. done.
  - split; [done|]. intros i Hi. rewrite Hr. destruct (H5 i) as [? ?]; [by apply list_elem_of_further|]. split; [done|].
    rewrite decide_False by (by intros ->). rewrite Nat.add_0_r. done.
  - intros i Hi Hd Hnp. rewrite Hr. destruct (decide (i = k)) as [->|Hne].
    + rewrite Hk0 by done. split; [done|]. destruct (Hk Hd) as [Hlt Hs]. exists cur.
      split_and!; [lia|lia|done| |rewrite add_ent_ne by done; done].
      exists e. rewrite add_ent_eq. split; [|done]. apply elem_of_app; right; apply list_elem_of_here.
    + rewrite Nat.add_0_r.
      destruct (H6 i Hi Hd) as (? & p & Hp & Hpd & (x & Hx & Hm) & Hs); [by apply not_elem_of_cons|].
      split; [done|]. exists p. split_and!; [lia|lia|done| |].
      * exists x. split; [|done]. unfold add_ent. case_decide; [subst; apply elem_of_app; by left|done].
      * rewrite add_ent_ne; [done|]. by intros ->.
Qed.
