(* ===== verification/MkfsCopy.v ===== *)
(** * Copying a host tree into the image

    The invariant of the copy ([core]: sectors, tree, contents of the
    directories, superblock, link counts) and what each operation of mkfs.c does
    to it. *)
From S2P Require Import Prelude CInt FsLayout Image Fsck FsckSpec LsfsProof Mkfs MkfsTheorems MkfsHost MkfsTyped MkfsLinks MkfsPhysical MkfsTree.
Import Mk.

(** ** Directory entries *)
Lemma length_strncpy_name s : length (strncpy_name s) = 14%nat.
Proof. unfold strncpy_name. rewrite length_take, length_app, length_replicate. lia. Qed.

Lemma cstring_zeroes l n : 0 ∉ l → cstring (l ++ replicate n 0) = l.
Proof.
  induction l as [|b l IH]; intros H0.
  - by destruct n.
  - apply not_elem_of_cons in H0 as [Hb H0]. simpl. rewrite decide_False by done. by rewrite IH.
Qed.

Lemma cstring_name s : 0 ∉ s → cstring (strncpy_name s) = take 14 s.
Proof.
  intros H0. unfold strncpy_name. rewrite take_app, take_replicate. apply cstring_zeroes.
  intros Hin. apply H0. rewrite <- (take_drop 14 s). apply elem_of_app. by left.
Qed.

Lemma take_short {A} (s t : list A) n : take n s = t → (length t < n)%nat → s = t.
Proof.
  intros Ht Hl. rewrite <- Ht. symmetry. apply take_ge. apply (f_equal length) in Ht.
  rewrite length_take in Ht. lia.
Qed.

Lemma plain_entry k name : 0 ∉ name → ¬ skipped name → is_plain (entry_for k name).
Proof.
  intros H0 Hs. unfold is_plain, is_dot, is_dotdot, entry_for. simpl. rewrite cstring_name by done.
  split; intros H; apply Hs; [left|right]; by apply (take_short _ _ 14); [done|simpl; lia].
Qed.

Lemma entry_for_wf k name : 0 ≤ k < 200 → Forall is_byte name → dirent_wf (entry_for k name).
Proof.
  intros Hk Hb. split; simpl.
  - unfold is_ushort. lia.
  - apply length_strncpy_name.
  - apply Forall_take, Forall_app_2; [done|]. apply Forall_replicate. unfold is_byte. lia.
Qed.

(** The contents of a directory file: its entries, then zeroes. *)
Definition dir_bytes (es : list dirent) : list Z := concat (encode_dirent <$> es).

Definition dir_data (st : fs) (d : dinode) (es : list dirent) : Prop :=
  nblk d = blocks_of (16 * Z.of_nat (length es)) ∧
  ∀ k, 0 ≤ k < 512 * nblk d → byte_at st d k = nth (Z.to_nat k) (dir_bytes es) 0.

Lemma length_dir_bytes es : Forall dirent_wf es → length (dir_bytes es) = (16 * length es)%nat.
Proof.
  unfold dir_bytes. induction 1 as [|e es He _ IH]; [done|]. rewrite fmap_cons, concat_cons, length_app, IH.
  rewrite length_encode_dirent by apply He. simpl. lia.
Qed.

Lemma dir_bytes_snoc es e : dir_bytes (es ++ [e]) = dir_bytes es ++ encode_dirent e.
Proof. unfold dir_bytes. rewrite fmap_app, concat_app. simpl. by rewrite app_nil_r. Qed.

(** Appending one entry to a directory. *)
Lemma dir_data_append st A i e es st' d' :
  wrote st A i (encode_dirent e) st' d' → Forall dirent_wf es → dirent_wf e →
  dir_data st (A i) es → di_size (A i) = 16 * Z.of_nat (length es) → dir_data st' d' (es ++ [e]).
Proof.
  intros W Hes He [Hn Hb] Hsz. pose proof (length_dir_bytes es Hes) as Hl.
  assert (length (encode_dirent e) = 16%nat) as He16 by (rewrite length_encode_dirent by apply He; done).
  destruct (wr_meta _ _ _ _ _ _ W) as (_ & _ & Hsz'). rewrite He16, Hsz in Hsz'.
  split; [unfold nblk; rewrite Hsz', length_app; f_equal; simpl; lia|].
  intros k Hk. rewrite dir_bytes_snoc. destruct (decide (k < di_size (A i))) as [Hold|Hnew].
  - rewrite (wr_old _ _ _ _ _ _ W) by lia. rewrite app_nth1 by lia. apply Hb.
    unfold nblk, blocks_of. Z.div_mod_to_equations; lia.
  - rewrite app_nth2 by lia. destruct (decide (k < di_size d')).
    + rewrite (wr_new _ _ _ _ _ _ W) by lia. f_equal. lia.
    + rewrite nth_overflow by lia. apply (wr_tail _ _ _ _ _ _ W); [|lia].
      intros j Hj. rewrite Hb by lia. apply nth_overflow. lia.
Qed.

(** ** The invariant *)
Record core (st : fs) (A : Z → dinode) (E : Z → list dirent) (P : list Z) : Prop := {
  co_phys : phys st A;
  co_tree : tree (freeinode st) A E P;
  co_data : ∀ i, 1 ≤ i < freeinode st → isdir A i → dir_data st (A i) (E i);
  co_super : sector st 1 = super_bytes;
  co_nlink : ∀ i, 1 ≤ i < freeinode st → 1 ≤ di_nlink (A i) ≤ 2 + Z.of_nat (total E);
}.

(** Nothing but [cur], link counts and new inodes change. *)
Record moves (cur : Z) (st : fs) (A : Z → dinode) (E : Z → list dirent)
    (st' : fs) (A' : Z → dinode) (E' : Z → list dirent) : Prop := {
  mv_ino : freeinode st ≤ freeinode st';
  mv_type : ∀ j, 1 ≤ j < freeinode st → di_type (A' j) = di_type (A j);
  mv_size : ∀ j, 1 ≤ j < freeinode st → j ≠ cur → di_size (A' j) = di_size (A j);
  mv_ents : ∀ j, 1 ≤ j < freeinode st → j ≠ cur → E' j = E j;
  mv_bytes : ∀ j k, 1 ≤ j < freeinode st → j ≠ cur → 0 ≤ k < 512 * nblk (A j) →
    byte_at st' (A' j) k = byte_at st (A j) k;
  mv_reads : ∀ j, 1 ≤ j < freeinode st → j ≠ cur →
    (A' j = A j ∧ rinode j st' = rinode j st) ∨ (exact st A j ∧ exact st' A' j);
}.

(** A run of the copy that used at most [ni] inodes, [nb] blocks and [ne]
    directory entries. *)
Record copied (cur : Z) (P : list Z) (st : fs) (A : Z → dinode) (E : Z → list dirent)
    (st' : fs) (A' : Z → dinode) (E' : Z → list dirent) (ni nb ne : Z) : Prop := {
  cp_core : core st' A' E' P;
  cp_moves : moves cur st A E st' A' E';
  cp_ino : freeinode st' ≤ freeinode st + ni;
  cp_blk : freeblock st' ≤ freeblock st + nb;
  cp_ent : Z.of_nat (total E') ≤ Z.of_nat (total E) + ne;
}.

Definition same_links (st st' : fs) : Prop :=
  links st' = links st ∧ hardLinkMapRoot st' = hardLinkMapRoot st.

Lemma reads_trans st (A : Z → dinode) st1 A1 st2 A2 j :
  (A1 j = A j ∧ rinode j st1 = rinode j st) ∨ (exact st A j ∧ exact st1 A1 j) →
  (A2 j = A1 j ∧ rinode j st2 = rinode j st1) ∨ (exact st1 A1 j ∧ exact st2 A2 j) →
  (A2 j = A j ∧ rinode j st2 = rinode j st) ∨ (exact st A j ∧ exact st2 A2 j).
Proof. unfold exact. intros [[-> ->]|[? ?]] [[-> ->]|[? ?]]; auto. Qed.

Lemma moves_trans cur st A E st1 A1 E1 st2 A2 E2 :
  moves cur st A E st1 A1 E1 → moves cur st1 A1 E1 st2 A2 E2 → moves cur st A E st2 A2 E2.
Proof.
  intros [M1 M2 M3 M4 M5 M6] [N1 N2 N3 N4 N5 N6]. split; [lia|..].
  - intros j Hj. rewrite N2, M2 by lia. done.
  - intros j Hj Hne. rewrite N3, M3 by lia. done.
  - intros j Hj Hne. rewrite N4, M4 by lia. done.
  - intros j k Hj Hne Hk. rewrite N5, M5 by (unfold nblk in *; rewrite ?M3 by lia; lia). done.
  - intros j Hj Hne. eapply reads_trans; [apply M6|apply N6]; lia.
Qed.

(** Work on an inode that is new since [st]. *)
Lemma moves_new cur k st A E st1 A1 E1 st2 A2 E2 :
  moves cur st A E st1 A1 E1 → moves k st1 A1 E1 st2 A2 E2 → freeinode st ≤ k → moves cur st A E st2 A2 E2.
Proof.
  intros [M1 M2 M3 M4 M5 M6] [N1 N2 N3 N4 N5 N6] Hk. split; [lia|..].
  - intros j Hj. rewrite N2, M2 by lia. done.
  - intros j Hj Hne. rewrite N3, M3 by lia. done.
  - intros j Hj Hne. rewrite N4, M4 by lia. done.
  - intros j x Hj Hne Hx. rewrite N5, M5 by (unfold nblk in *; rewrite ?M3 by lia; lia). done.
  - intros j Hj Hne. eapply reads_trans; [apply M6|apply N6]; lia.
Qed.

Lemma moves_refl cur st A E : moves cur st A E st A E.
Proof. split; try done; auto. Qed.

(** What an inode reads as is kept, rounded up or not. *)
Lemma moves_exact cur st A E st' A' E' j :
  moves cur st A E st' A' E' → 1 ≤ j < freeinode st → j ≠ cur → exact st A j → exact st' A' j.
Proof. intros M Hj Hne Hx. unfold exact in *. destruct (mv_reads _ _ _ _ _ _ _ M j Hj Hne) as [[-> ->]|[_ ?]]; done. Qed.

Lemma moves_bumped cur st A E st' A' E' j :
  moves cur st A E st' A' E' → 1 ≤ j < freeinode st → j ≠ cur → rinode j st = Done (bumped (A j)) →
  rinode j st' = Done (bumped (A' j)).
Proof.
  intros M Hj Hne Hx. destruct (mv_reads _ _ _ _ _ _ _ M j Hj Hne) as [[-> ->]|[Hex _]]; [done|].
  unfold exact in Hex. rewrite Hx in Hex. injection Hex as Hex. unfold bumped, set_size in Hex.
  apply (f_equal di_size) in Hex. simpl in Hex. lia.
Qed.

Lemma moves_start cur st A E l r st' A' E' :
  moves cur (set_links l r st) A E st' A' E' → moves cur st A E st' A' E'.
Proof. intros [M1 M2 M3 M4 M5 M6]. by split. Qed.

(** The contents of the other files stay. *)
Lemma moves_file cur st A E st' A' E' j :
  moves cur st A E st' A' E' → 1 ≤ j < freeinode st → j ≠ cur → file_bytes st' (A' j) = file_bytes st (A j).
Proof.
  intros M Hj Hne. unfold file_bytes. rewrite (mv_size _ _ _ _ _ _ _ M) by done.
  apply list_fmap_ext. intros x k Hk. apply lookup_seqZ in Hk as [-> Hx].
  apply (mv_bytes _ _ _ _ _ _ _ M); [done|done|]. unfold nblk, blocks_of. Z.div_mod_to_equations. lia.
Qed.

(** A step that changes no inode that existed before. *)
Lemma moves_any cur cur' st A E st' A' E' :
  moves cur' st A E st' A' E' → freeinode st ≤ cur' → moves cur st A E st' A' E'.
Proof.
  intros [M1 M2 M3 M4 M5 M6] Hge. split; [done|done|..]; intros j; intros; [apply M3|apply M4|apply M5|apply M6]; try done; lia.
Qed.

Lemma copied_trans cur P P' st A E st1 A1 E1 st2 A2 E2 ni1 nb1 ne1 ni2 nb2 ne2 :
  copied cur P' st A E st1 A1 E1 ni1 nb1 ne1 → copied cur P st1 A1 E1 st2 A2 E2 ni2 nb2 ne2 →
  copied cur P st A E st2 A2 E2 (ni1 + ni2) (nb1 + nb2) (ne1 + ne2).
Proof.
  intros [C1 M1 I1 B1 T1] [C2 M2 I2 B2 T2]. split; [done|by eapply moves_trans|lia|lia|lia].
Qed.

Lemma core_range st A E P : core st A E P → 1 ≤ freeinode st ≤ 200.
Proof. intros C. apply (bl_free _ _ (ph_blocks _ _ (co_phys _ _ _ _ C))). Qed.

Lemma core_wf st A E P i : core st A E P → Forall dirent_wf (E i).
Proof. intros C. apply Forall_forall. intros e He. by apply (tr_ents _ _ _ _ (co_tree _ _ _ _ C)) in He as [_ ?]. Qed.

Lemma core_links l r st A E P : core st A E P → core (set_links l r st) A E P.
Proof.
  intros [C1 C2 C3 C4 C5]. split; try done. apply (phys_same st); simpl; try done. split; [done|].
  apply (bl_free _ _ (ph_blocks _ _ C1)).
Qed.

(** ** Operations *)

(** A new inode, pending until its entry is written. *)
Lemma ialloc_core type st A E P cur :
  core st A E P → type = T_DIR ∨ type = T_FILE → freeinode st < 200 →
  ∃ st', ialloc type st = Done (freeinode st, st') ∧ same_links st st' ∧
    freeinode st' = freeinode st + 1 ∧
    copied cur (freeinode st :: P) st A E st' (upd A (freeinode st) (new_dinode type)) E 1 0 0 ∧
    exact st' (upd A (freeinode st) (new_dinode type)) (freeinode st).
Proof.
  intros C Ht Hlt. pose proof (core_range _ _ _ _ C) as Hr.
  destruct (ialloc_phys type st A (co_phys _ _ _ _ C) Ht Hlt) as (st' & Hi & HP & Hfi & Hfb & Hl & Hr' & Hsup & Hrd & Hby).
  exists st'. split_and!; [done|done|done| |unfold exact; by rewrite Hrd, decide_True, upd_eq by (done || lia)].
  split; [|split| | |]; try lia.
  - split; [done| | |rewrite Hsup; apply C|].
    + rewrite Hfi. apply tree_alloc; [apply C|lia|done].
    + intros i Hir Hd. destruct (decide (i = freeinode st)) as [->|Hne].
      * rewrite upd_eq. rewrite (tr_none _ _ _ _ (co_tree _ _ _ _ C)) by lia. split; [done|].
        intros k Hk. unfold nblk in Hk. simpl in Hk. change (blocks_of 0) with 0 in Hk. lia.
      * unfold isdir in Hd. rewrite upd_ne in Hd |- * by done.
        destruct (co_data _ _ _ _ C i ltac:(lia) Hd) as [Hn Hb]. split; [done|]. intros k Hk.
        specialize (Hby i k ltac:(lia) Hk). rewrite upd_ne in Hby by done. rewrite Hby. auto.
    + intros i Hir. unfold upd. case_decide; [|apply C; lia]. subst i. simpl.
      destruct Ht as [->| ->]; simpl; lia.
  - intros j Hj. by rewrite upd_ne by lia.
  - intros j Hj _. by rewrite upd_ne by lia.
  - done.
  - intros j k Hj _ Hk. apply Hby; [lia|done].
  - intros j Hj _. left. by rewrite Hrd, decide_False, upd_ne by lia.
Qed.

(** The room that is left for an append. *)
Abbreviation dir_blocks n := (blocks_of (16 * n)).

(** A directory being filled: [n] entries so far. *)
Definition fill (cur : Z) (A : Z → dinode) (E : Z → list dirent) (n : Z) : Prop :=
  di_size (A cur) = 16 * n ∧ Z.of_nat (length (E cur)) = n.

(** [wrote] keeps what the other inodes hold. *)
Lemma core_wrote st A E P E' P' i p st' d' :
  core st A E P → 1 ≤ i < freeinode st → wrote st A i p st' d' →
  tree (freeinode st) A E' P' → (total E ≤ total E')%nat → (∀ j, j ≠ i → E' j = E j) →
  (isdir A i → dir_data st' d' (E' i)) → core st' (upd A i d') E' P'.
Proof.
  intros C Hi W T Htot HE Hdat. pose proof (core_range _ _ _ _ C).
  destruct (wr_meta _ _ _ _ _ _ W) as (Hty & Hnl & _). destruct (wr_rest _ _ _ _ _ _ W) as (Hfi & _).
  assert (∀ j, di_type (upd A i d' j) = di_type (A j) ∧ di_nlink (upd A i d' j) = di_nlink (A j)) as Hm.
  { intros j. unfold upd. case_decide; [by subst|done]. }
  split.
  - apply W.
  - rewrite Hfi. apply (tree_ext _ A); [done|..]; intros; apply Hm.
  - intros j Hj Hd. rewrite Hfi in Hj. unfold isdir in Hd. rewrite (proj1 (Hm j)) in Hd.
    destruct (decide (j = i)) as [->|Hne]; [rewrite upd_eq; auto|]. rewrite upd_ne, HE by done.
    destruct (co_data _ _ _ _ C j Hj Hd) as [Hn Hb]. split; [done|]. intros k Hk.
    rewrite (wr_others _ _ _ _ _ _ W) by (done || lia). auto.
  - rewrite (wr_super _ _ _ _ _ _ W). apply C.
  - intros j Hj. rewrite Hfi in Hj. rewrite (proj2 (Hm j)). pose proof (co_nlink _ _ _ _ C j Hj). lia.
Qed.

Lemma moves_upd cur st A E st' d' E' :
  freeinode st' = freeinode st → di_type d' = di_type (A cur) → (∀ j, j ≠ cur → E' j = E j) →
  (∀ j k, 1 ≤ j < freeinode st → j ≠ cur → 0 ≤ k < 512 * nblk (A j) → byte_at st' (A j) k = byte_at st (A j) k) →
  (∀ j, 1 ≤ j < freeinode st → j ≠ cur → rinode j st' = rinode j st) →
  moves cur st A E st' (upd A cur d') E'.
Proof.
  intros Hf Ht HE Hb Hr. split; [lia|..].
  - intros j Hj. unfold upd. case_decide; [by subst|done].
  - intros j Hj Hne. by rewrite upd_ne.
  - auto.
  - intros j k Hj Hne Hk. rewrite upd_ne by done. auto.
  - intros j Hj Hne. left. rewrite upd_ne by done. auto.
Qed.

(** What [wrote] leaves of the other inodes. *)
Lemma moves_wrote i p st A E st' d' E' :
  wrote st A i p st' d' → freeinode st ≤ 200 → (∀ j, j ≠ i → E' j = E j) → moves i st A E st' (upd A i d') E'.
Proof.
  intros W Hfr HE. apply moves_upd; [apply (wr_rest _ _ _ _ _ _ W)|apply (wr_meta _ _ _ _ _ _ W)|done|..].
  - intros j k Hj Hne Hk. apply (wr_others _ _ _ _ _ _ W); [lia|done|done].
  - intros j Hj Hne. by rewrite (wr_reads _ _ _ _ _ _ W), decide_False by lia.
Qed.

(** One entry is written: the tree has it from then on. *)
Lemma append_entry_core st A E P P' cur n k name :
  core st A E P → exact st A cur → 1 ≤ cur < freeinode st → isdir A cur → fill cur A E n → n + 1 ≤ 4480 →
  freeblock st + growth (dir_blocks n) (dir_blocks (n + 1)) ≤ 1024 →
  1 ≤ k < 200 → Forall is_byte name →
  tree (freeinode st) A (add_ent E cur (entry_for k name)) P' →
  ∃ st' A', append_entry cur k name st = Done st' ∧ same_links st st' ∧ freeinode st' = freeinode st ∧
    copied cur P' st A E st' A' (add_ent E cur (entry_for k name)) 0 (growth (dir_blocks n) (dir_blocks (n + 1))) 1 ∧
    (∀ j, di_nlink (A' j) = di_nlink (A j)) ∧ exact st' A' cur ∧
    fill cur A' (add_ent E cur (entry_for k name)) (n + 1).
Proof.
  intros C Hex Hcur Hd [Hsz Hlen] Hmax Hroom Hk Hb T. pose proof (core_range _ _ _ _ C).
  set (e := entry_for k name) in *. pose proof (entry_for_wf k name ltac:(lia) Hb) as He.
  assert (Z.of_nat (length (encode_dirent e)) = 16) as H16 by (rewrite length_encode_dirent by apply He; done).
  assert (nblk (A cur) = dir_blocks n) as Hnb by (unfold nblk; by rewrite Hsz).
  destruct (iappend_phys st A cur (encode_dirent e)) as (st' & d' & Hia & W);
    [apply C|done|done|rewrite H16; lia|rewrite H16, Hnb, Hsz; by replace (16 * n + 16) with (16 * (n + 1)) by lia|].
  destruct (wr_meta _ _ _ _ _ _ W) as (Hty & Hnl & Hsz'). rewrite H16, Hsz in Hsz'.
  destruct (wr_rest _ _ _ _ _ _ W) as (Hfi & Hln & Hrt).
  exists st', (upd A cur d'). split_and!; [|done|done| | | |].
  - unfold append_entry. rewrite xshort_u16, wrap_small by lia. exact Hia.
  - split; [|eapply moves_wrote; [done|lia|intros; by apply add_ent_ne]|lia| |].
    + apply (core_wrote st A E P _ _ cur (encode_dirent e)); [done|done|done|done| |intros; by apply add_ent_ne|].
      * rewrite total_add by lia. lia.
      * intros _. rewrite add_ent_eq. eapply dir_data_append; [done|by eapply core_wf|done|by apply C|].
        by rewrite Hsz, Hlen.
    + rewrite (wr_free _ _ _ _ _ _ W), Hnb. unfold nblk. rewrite Hsz'.
      by replace (16 * n + 16) with (16 * (n + 1)) by lia.
    + rewrite total_add by lia. lia.
  - intros j. unfold upd. case_decide; [by subst|done].
  - unfold exact. by rewrite (wr_reads _ _ _ _ _ _ W), decide_True, upd_eq by (done || lia).
  - split; [rewrite upd_eq; lia|]. rewrite add_ent_eq, length_app. simpl. lia.
Qed.

(** An inode is rewritten in place. *)
Lemma winode_core st A E P P' i e :
  core st A E P → 1 ≤ i < freeinode st → keeps (A i) e → di_type e = di_type (A i) →
  1 ≤ di_nlink e ≤ 2 + Z.of_nat (total E) → tree (freeinode st) (upd A i e) E P' →
  ∃ st', winode i e st = Done st' ∧ same_links st st' ∧ freeinode st' = freeinode st ∧
    freeblock st' = freeblock st ∧ core st' (upd A i e) E P' ∧
    (∀ j, 0 ≤ j < 208 → rinode j st' = if decide (j = i) then Done e else rinode j st) ∧
    ∀ j k, 0 ≤ j < 208 → 0 ≤ k < 512 * nblk (A j) → byte_at st' (upd A i e j) k = byte_at st (A j) k.
Proof.
  intros C Hi Hk Hty Hnl T. pose proof (core_range _ _ _ _ C). pose proof (co_phys _ _ _ _ C) as HP.
  destruct (rewrite_phys st A i e HP Hi Hk) as [Hw HP'].
  exists (put_inode i e st). split_and!; [done|done|done|done| |apply (rewrite_reads st A i e HP Hk)|
    intros j k Hj Hk'; by apply (rewrite_byte st A i e HP Hi Hk)].
  split; [done|done| | |].
  - intros j Hj Hd. simpl in Hj.
    assert (isdir A j) as Hd' by (unfold isdir, upd in *; case_decide; congruence).
    destruct (co_data _ _ _ _ C j Hj Hd') as [Hn Hb].
    assert (nblk (upd A i e j) = nblk (A j)) as Hnb by (unfold upd; case_decide; [subst; apply Hk|done]).
    split; [by rewrite Hnb|]. intros k Hkr. rewrite Hnb in Hkr.
    rewrite (rewrite_byte st A i e HP Hi Hk) by (done || lia). auto.
  - rewrite (rewrite_super st A i e HP Hi). apply C.
  - intros j Hj. simpl in Hj. unfold upd. case_decide; [done|]. by apply C.
Qed.

(** Files are stored as they are. *)
Lemma file_exact st A i : phys st A → 0 ≤ i < 208 → isfile A i → exact st A i.
Proof.
  intros HP Hi Hf. destruct (ph_table _ _ HP i Hi) as [|[[Hd _] _]]; [done|]. by destruct (isdir_not_file A i).
Qed.

Lemma keeps_core st A E P i nl sz :
  core st A E P → 1 ≤ i < freeinode st → is_short nl → 0 ≤ sz ≤ 71680 → blocks_of sz = nblk (A i) →
  keeps (A i) (Dinode (di_type (A i)) (di_major (A i)) (di_minor (A i)) nl sz (di_addrs (A i))).
Proof.
  intros C Hi Hnl Hsz Hn. pose proof (core_range _ _ _ _ C).
  pose proof (bl_wf _ _ (ph_blocks _ _ (co_phys _ _ _ _ C)) i ltac:(lia)) as [W1 W2 W3 W4 W5 W6 W7].
  split_and!; [done|done|simpl; lia|simpl; lia|]. split; try done. simpl. unfold is_uint. lia.
Qed.

(** One more link to an inode. *)
Definition linked (d : dinode) : dinode :=
  Dinode (di_type d) (di_major d) (di_minor d) (di_nlink d + 1) (di_size d) (di_addrs d).

Lemma add_link_core st A E P P' i :
  core st A E P → exact st A i → 1 ≤ i < freeinode st → di_nlink (A i) < 2 + Z.of_nat (total E) ≤ 32767 →
  tree (freeinode st) (upd A i (linked (A i))) E P' →
  ∃ st', add_link i st = Done st' ∧ same_links st st' ∧ freeinode st' = freeinode st ∧
    freeblock st' = freeblock st ∧ core st' (upd A i (linked (A i))) E P' ∧
    ∀ cur, moves cur st A E st' (upd A i (linked (A i))) E.
Proof.
  intros C Hex Hi Hnl T. pose proof (co_nlink _ _ _ _ C i Hi) as Hr. pose proof (core_range _ _ _ _ C).
  unfold add_link. rewrite Hex. cbn [obind].
  rewrite (swrap_small 16) by lia.
  destruct (winode_core st A E P P' i (linked (A i))) as (st' & Hw & Hl & Hf & Hb & C' & Hrd & Hby); try done.
  - apply (keeps_core st A E P); try done; [unfold is_short; lia|].
    apply (bl_size _ _ (ph_blocks _ _ (co_phys _ _ _ _ C))). lia.
  - simpl. lia.
  - exists st'. split_and!; try done. intros cur. split; [lia| | |done|intros; apply Hby; [lia|done]|];
      intros j Hj; [unfold upd; case_decide; by subst..|]. intros _. unfold exact. rewrite Hrd by lia.
    case_decide; [subst j; right; by rewrite upd_eq|left; by rewrite upd_ne].
Qed.

(** The size of a finished directory is rounded up to whole blocks, by one
    block too many when the directory fills its blocks already. *)
Definition rounded (st : fs) (A : Z → dinode) (i n : Z) : Prop :=
  if decide (full_blocks n) then bumpable (A i) ∧ rinode i st = Done (bumped (A i)) else exact st A i.

Lemma bump_core st A E P i :
  core st A E P → exact st A i → 1 ≤ i < freeinode st → bumpable (A i) →
  ∃ st', winode i (bumped (A i)) st = Done st' ∧ same_links st st' ∧ copied i P st A E st' A E 0 0 0 ∧
    rinode i st' = Done (bumped (A i)).
Proof.
  intros C Hex Hi Hb. pose proof (core_range _ _ _ _ C).
  destruct (bump_phys st A i (co_phys _ _ _ _ C) Hi Hb Hex) as (Hw & HP' & Hsup & Hrd & Hby).
  exists (put_inode i (bumped (A i)) st). split_and!; [done|done| |by rewrite Hrd, decide_True by (done || lia)].
  destruct C as [C1 C2 C3 C4 C5]. split; [split| |simpl; lia|simpl; lia|lia]; try done.
  - intros j Hj Hd. simpl in Hj. destruct (C3 j Hj Hd) as [Hn Hk]. split; [done|]. intros k Hkr.
    rewrite Hby by (done || lia). auto.
  - by rewrite Hsup.
  - split; try done; [intros j k Hj _; apply Hby; lia|]. intros j Hj Hne. left. by rewrite Hrd, decide_False by lia.
Qed.

Lemma fix_size_core st A E P i n :
  core st A E P → exact st A i → 1 ≤ i < freeinode st → isdir A i → fill i A E n → 0 < n ≤ 4480 →
  ∃ st' A', fix_size i st = Done st' ∧ same_links st st' ∧ copied i P st A E st' A' E 0 0 0 ∧ rounded st' A' i n.
Proof.
  intros C Hex Hi Hd [Hsz Hlen] Hmax. pose proof (core_range _ _ _ _ C). pose proof (co_nlink _ _ _ _ C i Hi) as Hr.
  pose proof (bl_wf _ _ (ph_blocks _ _ (co_phys _ _ _ _ C)) i ltac:(lia)) as Hwf.
  unfold fix_size. rewrite Hex. cbn [obind].
  rewrite !xint_u32, (wrap_small 32 (di_size (A i))), (swrap_small 32 (di_size (A i))) by lia.
  rewrite Z.quot_div_nonneg by (unfold BSIZE; lia). change BSIZE with 512. unfold rounded.
  destruct (decide (full_blocks n)) as [Hf|Hf]; unfold full_blocks in Hf.
  - assert ((di_size (A i) / 512 + 1) * 512 = di_size (A i) + 512) as -> by (Z.div_mod_to_equations; lia).
    rewrite (swrap_small 32), !(wrap_small 32 (di_size (A i) + 512)) by lia.
    assert (bumpable (A i)) as Hb by (split_and!; [done|lia|Z.div_mod_to_equations; lia]).
    destruct (bump_core st A E P i C Hex Hi Hb) as (st' & Hw & Hl & CP & Hrd). exists st', A. done.
  - assert (512 * nblk (A i) = (di_size (A i) / 512 + 1) * 512) as Hnb.
    { unfold nblk, blocks_of. rewrite Hsz. Z.div_mod_to_equations. lia. }
    assert (0 ≤ nblk (A i) ≤ 140) as Hb by (apply nblk_bounds; lia).
    rewrite <- Hnb. rewrite (swrap_small 32), !(wrap_small 32 (512 * _)) by lia.
    destruct (winode_core st A E P P i (set_size (512 * nblk (A i)) (A i))) as (st' & Hw & Hl & Hfi & Hfb & C' & Hrd & Hby); try done.
    + apply (keeps_core st A E P); try done; [apply Hwf|lia|]. unfold blocks_of. Z.div_mod_to_equations. lia.
    + apply (tree_ext _ A); [apply C|..]; intros j Hj; unfold upd; case_decide; by subst.
    + exists st', (upd A i (set_size (512 * nblk (A i)) (A i))). split_and!; [done|done| |].
      * split; [done| |lia|lia|lia]. apply moves_upd; [done|done|done|..].
        -- intros j k Hj Hne Hk. rewrite <- Hby by (done || lia). by rewrite upd_ne.
        -- intros j Hj Hne. by rewrite Hrd, decide_False by lia.
      * unfold exact. by rewrite Hrd, decide_True, upd_eq by (done || lia).
Qed.

(** ** Contents of a file *)
Lemma growth_trans a b c : a ≤ b → b ≤ c → growth a b + growth b c = growth a c.
Proof. intros. unfold growth. repeat case_decide; lia. Qed.

Lemma growth_nonneg a b : a ≤ b → 0 ≤ growth a b.
Proof. intros. unfold growth. case_decide; lia. Qed.

Lemma wrote_bytes st A i p st' d' :
  wrote st A i p st' d' → 0 ≤ di_size (A i) → file_bytes st' d' = file_bytes st (A i) ++ p.
Proof.
  intros W H0. unfold file_bytes. destruct (wr_meta _ _ _ _ _ _ W) as (_ & _ & Hsz). rewrite Hsz.
  apply fmap_seqZ_app; [done|apply W|]. intros k Hk. apply (wr_new _ _ _ _ _ _ W). lia.
Qed.

Lemma copy_file_core fuel data st A E P i :
  core st A E P → 1 ≤ i < freeinode st → isfile A i → (length data ≤ fuel)%nat →
  di_size (A i) + Z.of_nat (length data) ≤ 71680 →
  freeblock st + growth (nblk (A i)) (blocks_of (di_size (A i) + Z.of_nat (length data))) ≤ 1024 →
  ∃ st' A', copy_file fuel i data st = Done st' ∧ same_links st st' ∧ freeinode st' = freeinode st ∧
    copied i P st A E st' A' E 0 (growth (nblk (A i)) (blocks_of (di_size (A i) + Z.of_nat (length data)))) 0 ∧
    file_bytes st' (A' i) = file_bytes st (A i) ++ data.
Proof.
  revert data st A. induction fuel as [|fuel IH]; intros data st A C Hi Hfile Hfuel Hmax Hroom.
  all: destruct data as [|b data']; [|try (simpl in Hfuel; lia)].
  1,2: exists st, A; split_and!; [done|done|done| |by rewrite app_nil_r]; split; [done|apply moves_refl|lia| |lia];
    pose proof (growth_nonneg (nblk (A i)) (nblk (A i))) as Hg; simpl; rewrite Z.add_0_r; unfold nblk in *; lia.
  set (data := b :: data') in *. unfold data at 1. cbn [copy_file]. fold data.
  assert (0 < length data)%nat as Hpos by (simpl; lia).
  set (p := take 512 data). set (q := drop 512 data).
  assert (length data = length p + length q)%nat as Hsplit by (unfold p, q; rewrite length_take, length_drop; lia).
  assert (0 < length p)%nat as Hp by (unfold p; rewrite length_take; lia).
  pose proof (core_range _ _ _ _ C).
  pose proof (bl_size _ _ (ph_blocks _ _ (co_phys _ _ _ _ C)) i ltac:(lia)) as Hs0.
  set (s := di_size (A i)) in *.
  pose proof (blocks_of_mono s (s + Z.of_nat (length p)) ltac:(lia)) as Hm1.
  pose proof (blocks_of_mono (s + Z.of_nat (length p)) (s + Z.of_nat (length data)) ltac:(lia)) as Hm2.
  pose proof (growth_trans _ _ _ Hm1 Hm2) as Hgt. pose proof (growth_nonneg _ _ Hm2) as Hg2.
  unfold nblk in Hroom |- *. fold s in Hroom |- *.
  destruct (iappend_phys st A i p) as (st1 & d1 & Hia & W); [apply C|apply file_exact; [apply C|lia|done]|done|fold s; lia|unfold nblk; fold s; lia|].
  rewrite Hia. cbn [obind].
  destruct (wr_meta _ _ _ _ _ _ W) as (Hty & Hnl & Hsz). fold s in Hsz. destruct (wr_rest _ _ _ _ _ _ W) as (Hfi & Hln & Hrt).
  pose proof (wr_free _ _ _ _ _ _ W) as Hfb. unfold nblk in Hfb. rewrite Hsz in Hfb. fold s in Hfb.
  assert (core st1 (upd A i d1) E P) as C1.
  { apply (core_wrote st A E P E P i p); [done|done|done|apply C|done|done|]. intros Hd. by destruct (isdir_not_file A i). }
  destruct (IH q st1 (upd A i d1) C1) as (st2 & A2 & Hcp & [Hl2 Hr2] & Hfi2 & CP & Hfb2); rewrite ?upd_eq, ?Hsz; try lia.
  - unfold isfile. by rewrite upd_eq, Hty.
  - unfold nblk. rewrite Hsz. replace (s + Z.of_nat (length p) + Z.of_nat (length q)) with (s + Z.of_nat (length data)) by lia. lia.
  - exists st2, A2. split_and!; [done|split; congruence|lia| |rewrite Hfb2, upd_eq, (wrote_bytes _ _ _ _ _ _ W), <- app_assoc by lia; unfold p, q; by rewrite take_drop].
    rewrite upd_eq, Hsz in CP. unfold nblk in CP. rewrite Hsz in CP.
    replace (s + Z.of_nat (length p) + Z.of_nat (length q)) with (s + Z.of_nat (length data)) in CP by lia.
    destruct CP as [CC CM CI CB CT]. split; [done| |lia|lia|lia].
    eapply moves_trans; [by eapply moves_wrote; [done|lia|]|done].
Qed.

