(* ===== verification/MkfsShows.v ===== *)
(** * An inode that shows a host tree

    [shows]: the inode, its entries and the files below it are the copy of a
    host tree, in the order of its entries.  Names are cut to 14 bytes; the
    contents of a file with a host inode number are those some name of that
    host inode had ([V]).  Work on other inodes keeps what is shown. *)
From S2P Require Import Prelude CInt FsLayout Image Fsck FsckSpec LsfsProof Mkfs MkfsTheorems MkfsHost MkfsTyped MkfsLinks MkfsPhysical MkfsTree MkfsCopy.
Import Mk.

(** The entries of a directory against those of the host. *)
Definition match_entries (R : host → Z → Prop) : list (list Z * host) → list dirent → Prop :=
  fix go l es :=
    match l with
    | [] => es = []
    | (name, c) :: l' =>
        if decide (skipped name) then go l' es
        else
          match es with
          | [] => False
          | e :: es' => (is_plain e ∧ e = entry_for (de_inum e) name ∧ R c (de_inum e)) ∧ go l' es'
          end
    end.

Lemma match_skip R l es name c :
  match_entries R l es → skipped name → match_entries R (l ++ [(name, c)]) es.
Proof.
  intros Hm Hs. revert es Hm. induction l as [|[n x] l IH]; intros es Hm; simpl in *.
  - by rewrite decide_True.
  - case_decide; [by apply IH|]. destruct es as [|e es]; [done|]. destruct Hm as [? ?]. split; [done|by apply IH].
Qed.

Lemma match_snoc R l es name c k :
  match_entries R l es → ¬ skipped name → is_plain (entry_for k name) → R c k →
  match_entries R (l ++ [(name, c)]) (es ++ [entry_for k name]).
Proof.
  intros Hm Hs Hp HR. revert es Hm. induction l as [|[n x] l IH]; intros es Hm; simpl in *.
  - subst es. rewrite decide_False by done. done.
  - case_decide; [by apply IH|]. destruct es as [|e es]; [done|]. destruct Hm as [? ?]. split; [done|by apply IH].
Qed.

Lemma match_plain R l es : match_entries R l es → Forall is_plain es.
Proof.
  revert es. induction l as [|[n x] l IH]; intros es Hm; simpl in *; [subst; constructor|].
  case_decide; [by apply IH|]. destruct es as [|e es]; [done|]. destruct Hm as [ [? _] ?]. constructor; [done|by apply IH].
Qed.

Lemma match_mono (R R' : host → Z → Prop) l es :
  Forall (λ p, ¬ skipped p.1 → ∀ e, e ∈ es → is_plain e → R p.2 (de_inum e) → R' p.2 (de_inum e)) l →
  match_entries R l es → match_entries R' l es.
Proof.
  revert es. induction l as [|[n x] l IH]; intros es HF Hm; simpl in *; [done|].
  apply Forall_cons in HF as [Hx HF]. case_decide; [by apply IH|].
  destruct es as [|e es]; [done|]. destruct Hm as [(Hp & He & HR) Hm]. split.
  - split_and!; [done|done|]. apply Hx; [done|apply list_elem_of_here|done|done].
  - apply IH; [|done]. eapply Forall_impl; [exact HF|]. intros p Hp' Hs' e' He'. apply Hp'; [done|]. by apply list_elem_of_further.
Qed.

(** A finished directory stays as it is stored. *)
Lemma rounded_moves cur st A E st' A' E' j n :
  moves cur st A E st' A' E' → 1 ≤ j < freeinode st → j ≠ cur → rounded st A j n → rounded st' A' j n.
Proof.
  intros M Hj Hne. unfold rounded. case_decide; [|by eapply moves_exact].
  intros [Hb Hr]. split; [|by eapply moves_bumped]. destruct Hb as (Ht & H0 & Hm).
  split_and!; [by rewrite (mv_type _ _ _ _ _ _ _ M)|by rewrite (mv_size _ _ _ _ _ _ _ M)..].
Qed.

Section Shows.
Variable V : Z → list Z → Prop.

Definition file_shows (ino nlink : Z) (data bytes : list Z) : Prop :=
  if decide (nlink > 0) then V (u32 ino) bytes else bytes = data.

(** Every name of the tree has valid contents. *)
Fixpoint host_valid (h : host) : Prop :=
  match h with
  | HDir (Some l) =>
      (fix go l := match l with
                   | [] => True
                   | p :: l' => (¬ skipped p.1 → host_valid p.2) ∧ go l'
                   end) l
  | HFile ino nlink data => file_shows ino nlink data data
  | _ => True
  end.

Lemma host_valid_cons p l :
  host_valid (HDir (Some (p :: l))) ↔ (¬ skipped p.1 → host_valid p.2) ∧ host_valid (HDir (Some l)).
Proof. done. Qed.

Fixpoint shows (st : fs) (A : Z → dinode) (E : Z → list dirent) (h : host) (i par : Z) {struct h} : Prop :=
  1 ≤ i < freeinode st ∧
  match h with
  | HDir None => isdir A i ∧ exact st A i ∧ E i = [entry_for i dot; entry_for par dotdot]
  | HDir (Some l) =>
      isdir A i ∧ rounded st A i (2 + entry_count l) ∧ ∃ es, E i = entry_for i dot :: entry_for par dotdot :: es ∧
        match_entries (λ c k, shows st A E c k i) l es
  | HFile ino nlink data => isfile A i ∧ file_shows ino nlink data (file_bytes st (A i))
  | HUnreadable => False
  end.

Lemma shows_range st A E h i par : shows st A E h i par → 1 ≤ i < freeinode st.
Proof. by destruct h as [ [l|]| |]; intros [? _]. Qed.

Lemma shows_shape st A E h i par : is_directory h = true → shows st A E h i par → isdir A i ∧ dir_shape i par (E i).
Proof.
  destruct h as [ [l|]| |]; intros Hd; try done.
  - intros (_ & Hi & _ & es & -> & Hm). split; [done|]. exists es. split; [done|]. by eapply match_plain.
  - intros (_ & Hi & _ & ->). split; [done|]. by exists [].
Qed.

(** What is shown is kept by work on an inode [cur] that no entry names. *)
Lemma shows_moves cur st A E st' A' E' h :
  moves cur st A E st' A' E' → (∀ j e, e ∈ E j → is_plain e → de_inum e ≠ cur) →
  ∀ i par, i ≠ cur → shows st A E h i par → shows st' A' E' h i par.
Proof.
  intros M Hno. pose proof (mv_ino _ _ _ _ _ _ _ M) as Hfi.
  induction h as [|l IH|ino nl data|] using host_tree_ind; intros i par Hne [Hi Hsh]; (split; [lia|]).
  - destruct Hsh as (Hd & Hx & HE). split; [unfold isdir; by rewrite (mv_type _ _ _ _ _ _ _ M)|].
    split; [by eapply moves_exact|]. by rewrite (mv_ents _ _ _ _ _ _ _ M).
  - destruct Hsh as (Hd & Hx & es & HE & Hm). split; [unfold isdir; by rewrite (mv_type _ _ _ _ _ _ _ M)|].
    split; [by eapply rounded_moves|].
    exists es. rewrite (mv_ents _ _ _ _ _ _ _ M) by done. split; [done|]. eapply match_mono; [|exact Hm].
    eapply Forall_impl; [exact IH|]. intros p Hp _ e He Hpl. apply Hp, (Hno i); [|done].
    rewrite HE. by do 2 apply list_elem_of_further.
  - destruct Hsh as [Hf Hb]. split; [unfold isfile; by rewrite (mv_type _ _ _ _ _ _ _ M)|].
    by rewrite (moves_file _ _ _ _ _ _ _ _ M).
  - done.
Qed.
End Shows.

(** Without a claim on the contents every tree is valid. *)
Lemma host_valid_any h : host_valid (λ _ _, True) h.
Proof.
  induction h as [|l IH|ino nl data|] using host_tree_ind; try done.
  - induction IH as [|p l Hp _ IHl]; [done|]. apply host_valid_cons. done.
  - simpl. unfold file_shows. by case_decide.
Qed.

(** A pending directory is named by no entry, and neither is a free inode. *)
Lemma unnamed_pending st A E P cur :
  core st A E P → cur ∈ P → isdir A cur → ∀ j e, e ∈ E j → is_plain e → de_inum e ≠ cur.
Proof.
  intros C Hp Hd j e He Hpl Heq. pose proof (co_tree _ _ _ _ C) as T. pose proof (core_range _ _ _ _ C) as Hr.
  destruct (tr_pend _ _ _ _ T) as [_ Hpe]. destruct (Hpe cur Hp) as [_ H0]. specialize (H0 Hd).
  assert (1 ≤ j < freeinode st) as Hj.
  { destruct (decide (1 ≤ j < freeinode st)); [done|]. rewrite (tr_none _ _ _ _ T) in He by done.
    by apply not_elem_of_nil in He. }
  assert (e ∈ filter (mentions cur) (E j)) as Hf by (by apply list_elem_of_filter).
  unfold refcount in H0. assert (j ∈ seqZ 1 199) as (l1 & l2 & Hl)%list_elem_of_split by (apply elem_of_seqZ; lia).
  rewrite Hl, sum_list_with_app in H0. simpl in H0. destruct (filter (mentions cur) (E j)); [|simpl in H0; lia].
  by apply not_elem_of_nil in Hf.
Qed.

Lemma unnamed_new st A E P cur :
  core st A E P → freeinode st ≤ cur → ∀ j e, e ∈ E j → is_plain e → de_inum e ≠ cur.
Proof. intros C Hc j e He _. apply (tr_ents _ _ _ _ (co_tree _ _ _ _ C)) in He. lia. Qed.
