(* ===== verification/MkfsAddDir.v ===== *)
(** * The recursive copy of mkfs.c

    [add_file], [add_dots], the loop over the entries of a directory and
    [add_dir]: on a tree whose demand is within what is left, the copy
    completes, keeps the invariant, and the directory shows the host tree. *)
From S2P Require Import Prelude CInt FsLayout Image Fsck FsckSpec LsfsProof Mkfs MkfsTheorems MkfsHost MkfsTyped MkfsLinks MkfsPhysical MkfsTree MkfsCopy MkfsShows.
Import Mk.

Section Copy.
(** The allocator, and the contents a host inode may have. *)
Variable Al : Malloc.
Variable V : Z → list Z → Prop.

(** What the hard-link list may relate to a host inode. *)
Definition listed (st : fs) (A : Z → dinode) (host i : Z) : Prop :=
  1 ≤ i < freeinode st ∧ isfile A i ∧ V host (file_bytes st (A i)).

Lemma listed_keeps cur st A E st' A' E' host i :
  moves cur st A E st' A' E' → isdir A cur ∨ freeinode st ≤ cur → listed st A host i → listed st' A' host i.
Proof.
  intros M Hcur (Hi & Hf & HV). pose proof (mv_ino _ _ _ _ _ _ _ M).
  assert (i ≠ cur) by (intros ->; destruct Hcur; [by destruct (isdir_not_file A cur)|lia]).
  split_and!; [lia|lia|unfold isfile; by rewrite (mv_type _ _ _ _ _ _ _ M)|by rewrite (moves_file _ _ _ _ _ _ _ _ M)].
Qed.

Lemma listed_moves fs cur st A E st' A' E' :
  moves cur st A E st' A' E' → isdir A cur ∨ freeinode st ≤ cur → chain Al (listed st A) fs st → same_links st st' →
  chain Al (listed st' A') fs st'.
Proof.
  intros M Hcur Hc [Hl Hr]. eapply chain_same; [exact Hl|exact Hr|]. eapply chain_weaken; [|exact Hc].
  intros h i. by eapply listed_keeps.
Qed.

(** ** Entries of a directory *)

(** What the loop over the entries maintains of the directory [cur]: [n]
    entries so far, the copies of the host entries [pre]. *)
Record open_dir (cur par : Z) (st : fs) (A : Z → dinode) (E : Z → list dirent) (P : list Z) (n : Z)
    (pre : list (list Z * host)) : Prop := {
  od_pend : cur ∈ P;
  od_dir : isdir A cur;
  od_exact : exact st A cur;
  od_fill : fill cur A E n;
  od_ents : ∃ es, E cur = entry_for cur dot :: entry_for par dotdot :: es ∧
    match_entries (λ c k, shows V st A E c k cur) pre es;
}.

Lemma pend_range st A E P i : core st A E P → i ∈ P → 1 ≤ i < freeinode st.
Proof. intros C Hi. by apply (tr_pend _ _ _ _ (co_tree _ _ _ _ C)). Qed.

(** The children shown so far are kept by work on an inode no entry names. *)
Lemma children_kept cur k st A E st' A' E' pre es :
  moves k st A E st' A' E' → (∀ j e, e ∈ E j → is_plain e → de_inum e ≠ k) → es ⊆ E cur →
  match_entries (λ c i, shows V st A E c i cur) pre es → match_entries (λ c i, shows V st' A' E' c i cur) pre es.
Proof.
  intros M Hno Hsub. apply match_mono, Forall_forall. intros p _ _ e He Hpl.
  eapply shows_moves; [done|done|]. apply (Hno cur); [by apply Hsub|done].
Qed.

(** An open directory is left alone by work on other inodes. *)
Lemma open_moves cur par k st A E P st' A' E' n pre :
  open_dir cur par st A E P n pre → moves k st A E st' A' E' →
  (∀ j e, e ∈ E j → is_plain e → de_inum e ≠ k) → 1 ≤ cur < freeinode st → cur ≠ k →
  open_dir cur par st' A' E' P n pre.
Proof.
  intros [O1 O2 Ox [O3 O3'] (es & HE & Hm)] M Hno Hc Hne. split.
  - done.
  - unfold isdir. by rewrite (mv_type _ _ _ _ _ _ _ M).
  - by eapply moves_exact.
  - split; [by rewrite (mv_size _ _ _ _ _ _ _ M)|by rewrite (mv_ents _ _ _ _ _ _ _ M)].
  - exists es. rewrite (mv_ents _ _ _ _ _ _ _ M) by done. split; [done|].
    eapply children_kept; [done|done| |done]. rewrite HE. intros e He. by do 2 apply list_elem_of_further.
Qed.

(** A name a directory entry can hold. *)
Definition name_ok (name : list Z) : Prop := ¬ skipped name ∧ (0 ∉ name) ∧ Forall is_byte name.

(** The entry of a pending inode [k] is written. *)
Lemma link_entry st A E P cur par n k name pre c :
  core st A E (k :: P) → cur ≠ k → open_dir cur par st A E P n pre → n + 1 ≤ 4480 →
  freeblock st + growth (dir_blocks n) (dir_blocks (n + 1)) ≤ 1024 → name_ok name →
  (isdir A k → cur < k ∧ dir_shape k cur (E k)) → shows V st A E c k cur →
  ∃ st' A' E', append_entry cur k name st = Done st' ∧ same_links st st' ∧
    copied cur P st A E st' A' E' 0 (growth (dir_blocks n) (dir_blocks (n + 1))) 1 ∧
    open_dir cur par st' A' E' P (n + 1) (pre ++ [(name, c)]).
Proof.
  intros C Hck [Hp Hd Hx Hf (es & HE & Hm)] Hmax Hroom (Hsk & H0 & Hb) Hk Hsh. pose proof (core_range _ _ _ _ C).
  assert (1 ≤ k < freeinode st) as Hkr by (eapply pend_range; [done|apply list_elem_of_here]).
  assert (cur ∈ k :: P) as Hp' by (by apply list_elem_of_further). pose proof (pend_range _ _ _ _ _ C Hp') as Hcr.
  pose proof (plain_entry k name H0 Hsk) as Hpl. pose proof (unnamed_pending _ _ _ _ _ C Hp' Hd) as Hno.
  destruct (append_entry_core st A E (k :: P) P cur n k name) as (st' & A' & Hap & Hl & Hfi & CP & _ & Hx' & Hfill); try done; try lia.
  - eapply tree_entry; [apply C|lia|done|done|by split|apply entry_for_wf; [lia|done]|done].
  - exists st', A', (add_ent E cur (entry_for k name)). split_and!; [done|done|done|].
    pose proof (cp_moves _ _ _ _ _ _ _ _ _ _ _ CP) as M. split; [done| |done|done|].
    + unfold isdir. by rewrite (mv_type _ _ _ _ _ _ _ M).
    + exists (es ++ [entry_for k name]). rewrite add_ent_eq, HE. split; [done|]. apply match_snoc; [|done|done|].
      * eapply children_kept; [done|done| |done]. rewrite HE. intros e He. by do 2 apply list_elem_of_further.
      * by eapply shows_moves.
Qed.

(** A new file gets its contents and its entry. *)
Lemma new_file_entry st A E P cur par n k name ino nlink data pre :
  core st A E (k :: P) → cur ≠ k → isfile A k → di_size (A k) = 0 →
  (∀ j e, e ∈ E j → is_plain e → de_inum e ≠ k) →
  open_dir cur par st A E P n pre → n + 1 ≤ 4480 → Z.of_nat (length data) ≤ 71680 →
  freeblock st + (blocks_for (Z.of_nat (length data)) + growth (dir_blocks n) (dir_blocks (n + 1))) ≤ 1024 →
  name_ok name → file_shows V ino nlink data data →
  ∃ st' A' E',
    (let! st2 := copy_file (length data) k data st in append_entry cur k name st2) = Done st' ∧ same_links st st' ∧
    core st' A' E' P ∧ open_dir cur par st' A' E' P (n + 1) (pre ++ [(name, HFile ino nlink data)]) ∧
    freeinode st' = freeinode st ∧ (isfile A' k ∧ file_bytes st' (A' k) = data) ∧
    (∀ st0 A0 E0, moves cur st0 A0 E0 st A E → freeinode st0 ≤ k → moves cur st0 A0 E0 st' A' E') ∧
    freeblock st' ≤ freeblock st + (blocks_for (Z.of_nat (length data)) + growth (dir_blocks n) (dir_blocks (n + 1))) ∧
    Z.of_nat (total E') ≤ Z.of_nat (total E) + 1.
Proof.
  intros C Hck Hk Hk0 Hno O Hmax Hlen Hroom Hname Hval.
  assert (1 ≤ k < freeinode st) as Hkr by (eapply pend_range; [done|apply list_elem_of_here]).
  assert (1 ≤ cur < freeinode st) as Hcr by (eapply pend_range; [done|apply list_elem_of_further, O]).
  assert (nblk (A k) = 0) as Hn0 by (unfold nblk; by rewrite Hk0).
  assert (file_bytes st (A k) = []) as Hb0 by (unfold file_bytes; by rewrite Hk0).
  pose proof (blocks_of_mono (16 * n) (16 * (n + 1)) ltac:(lia)) as Hm. pose proof (growth_nonneg _ _ Hm) as Hg.
  unfold blocks_for in *.
  destruct (copy_file_core (length data) data st A E (k :: P) k) as (st1 & A1 & Hcp & Hl1 & Hfi1 & CP1 & Hbytes);
    rewrite ?Hk0, ?Hn0; try done; [rewrite Z.add_0_l; lia|].
  rewrite Hcp. cbn [obind]. rewrite Hk0, Hn0, Z.add_0_l in CP1. rewrite Hb0 in Hbytes. simpl in Hbytes.
  destruct CP1 as [C1 M1 _ B1 T1].
  assert (isfile A1 k) as Hk1 by (unfold isfile; by rewrite (mv_type _ _ _ _ _ _ _ M1)).
  destruct (link_entry st1 A1 E P cur par n k name pre (HFile ino nlink data)) as (st2 & A2 & E2 & Hap & Hl2 & CP2 & O2); try done; try lia.
  - by eapply open_moves.
  - intros Hd. by destruct (isdir_not_file A1 k).
  - split; [lia|]. rewrite Hbytes. done.
  - destruct CP2 as [C2 M2 I2 B2 T2]. pose proof (mv_ino _ _ _ _ _ _ _ M2).
    exists st2, A2, E2. split_and!; [done| |done|done|lia| | | |lia|lia].
    + destruct Hl1, Hl2. split; congruence.
    + unfold isfile. rewrite (mv_type _ _ _ _ _ _ _ M2) by lia. done.
    + rewrite (moves_file _ _ _ _ _ _ _ _ M2) by (done || lia). done.
    + intros st0 A0 E0 M0 H0. eapply moves_trans; [|exact M2]. by eapply moves_new.
Qed.

(** ** A regular file of the host *)
Section AddFile.
Variables (st : fs) (A : Z → dinode) (E : Z → list dirent) (P : list Z).
Variables (cur par n : Z) (name data : list Z) (ino nlink : Z) (pre : list (list Z * host)) (rest : list (Z * Z)).
Let nb := blocks_for (Z.of_nat (length data)) + growth (dir_blocks n) (dir_blocks (n + 1)).
Hypothesis C : core st A E P.
Hypothesis HP : ∀ i, i ∈ P → isdir A i.
Hypothesis HL : chain Al (listed st A) (files (HFile ino nlink data) ++ rest) st.
Hypothesis O : open_dir cur par st A E P n pre.
Hypothesis Hmax : n + 1 ≤ 4480.
Hypothesis Hlen : Z.of_nat (length data) ≤ 71680.
Hypothesis Hino : freeinode st < 200.
Hypothesis Hroom : freeblock st + nb ≤ 1024.
Hypothesis Htot : Z.of_nat (total E) ≤ 32000.
Hypothesis Hname : name_ok name.
Hypothesis Hval : file_shows V ino nlink data data.

Definition file_added (r : M fs) : Prop :=
  ∃ st' A' E', r = Done st' ∧ copied cur P st A E st' A' E' 1 nb 1 ∧
    open_dir cur par st' A' E' P (n + 1) (pre ++ [(name, HFile ino nlink data)]) ∧ chain Al (listed st' A') rest st'.

Lemma cur_range : 1 ≤ cur < freeinode st.
Proof. eapply pend_range; [done|apply O]. Qed.

(** The inode is new: allocated in a state that differs from [st] in its
    list only, and entered in the list (or not) by [f]. *)
Lemma add_new l r (f : Z → fs → fs) :
  (∀ i s, ∃ l' r', f i s = set_links l' r' s) →
  (∀ i s K, (∀ h j, listed st A h j → K h j) → (nlink > 0 → K (u32 ino) i) → same_links (set_links l r st) s → chain Al K rest (f i s)) →
  ∃ st1, ialloc T_FILE (set_links l r st) = Done (freeinode st, st1) ∧
    file_added (let! st2 := copy_file (length data) (freeinode st) data (f (freeinode st) st1) in
                append_entry cur (freeinode st) name st2).
Proof.
  intros Hf Hc. pose proof cur_range as Hcr. set (k := freeinode st).
  destruct (ialloc_core T_FILE (set_links l r st) A E P k) as (st1 & Hia & Hl1 & Hfi1 & CP1 & _);
    [by apply core_links|by right|done|]. destruct CP1 as [C1 M1 I1 B1 T1]. apply moves_start in M1.
  simpl freeinode in *. fold k in Hia, Hfi1, C1, M1, I1. set (A1 := upd A k (new_dinode T_FILE)) in *. simpl freeblock in B1.
  exists st1. split; [done|]. destruct (Hf k st1) as (l' & r' & Hst). rewrite Hst.
  pose proof (unnamed_new st A E P k C ltac:(done)) as Hno.
  assert (moves k st A E (set_links l' r' st1) A1 E) as M1' by (destruct M1; by split).
  destruct (new_file_entry (set_links l' r' st1) A1 E P cur par n k name ino nlink data pre)
    as (st2 & A2 & E2 & Hrun & [Hl2 Hr2] & C2 & O2 & Hfi2 & [Hk2 Hb2] & M2 & B2 & T2); try done.
  - by apply core_links.
  - unfold k. lia.
  - unfold isfile, A1. by rewrite upd_eq.
  - unfold A1. by rewrite upd_eq.
  - eapply open_moves; [done|exact M1'|done|done|]. unfold k. lia.
  - fold nb. change (freeblock (set_links l' r' st1)) with (freeblock st1). lia.
  - fold nb in B2. change (freeblock (set_links l' r' st1)) with (freeblock st1) in B2.
    change (freeinode (set_links l' r' st1)) with (freeinode st1) in Hfi2.
    assert (moves cur st A E st2 A2 E2) as M by (apply M2; [apply (moves_any cur) in M1'; done|done]).
    exists st2, A2, E2. split_and!; [done| |done|].
    + split; [done|done|lia|lia|lia].
    + eapply chain_same; [exact Hl2|exact Hr2|]. rewrite <- Hst. apply Hc; [| |done].
      * intros h j. eapply listed_keeps; [exact M|]. left. apply O.
      * intros Hnl. split_and!; [lia|lia|done|]. rewrite Hb2. unfold file_shows in Hval. by rewrite decide_True in Hval.
Qed.

(** The inode is one an earlier name got. *)
Lemma add_existing l r f :
  nlink > 0 → listed st A (u32 ino) f → chain Al (listed st A) rest (set_links l r st) →
  file_added (let! st2 := add_link f (set_links l r st) in append_entry cur f name st2).
Proof.
  intros Hnl (Hf & Hft & HV) Hc. pose proof cur_range as Hcr. set (st1 := set_links l r st) in *.
  assert (core st1 A E P) as C1 by (by apply core_links). pose proof (co_tree _ _ _ _ C) as T.
  assert (f ∉ P) as HfP by (intros H%HP; by destruct (isdir_not_file A f)).
  assert (cur ≠ f) as Hne by (intros ->; by apply HfP, O).
  destruct (tr_file _ _ _ _ T f Hf Hft) as [_ Hn]. rewrite decide_False in Hn by done.
  pose proof (refcount_total E f).
  destruct (add_link_core st1 A E P (f :: P) f) as (st2 & Hadd & Hl2 & Hfi2 & Hfb2 & C2 & HM2);
    [done|apply (file_exact st1 A f); [apply C1|pose proof (core_range _ _ _ _ C); lia|done]|done|lia|by apply tree_link|].
  rewrite Hadd. cbn [obind]. set (A2 := upd A f (linked (A f))) in *.
  assert (moves cur st A E st2 A2 E) as M2 by exact (moves_start _ _ _ _ l r _ _ _ (HM2 cur)).
  assert (moves 0 st A E st2 A2 E) as M0 by exact (moves_start _ _ _ _ l r _ _ _ (HM2 0)).
  pose proof (blocks_of_mono (16 * n) (16 * (n + 1)) ltac:(lia)) as Hm. pose proof (growth_nonneg _ _ Hm) as Hg.
  pose proof (blocks_for_nonneg (Z.of_nat (length data)) ltac:(lia)) as Hbf.
  change (freeblock st1) with (freeblock st) in Hfb2. change (freeinode st1) with (freeinode st) in Hfi2.
  assert (isfile A2 f) as Hf2 by (unfold isfile, A2; by rewrite upd_eq).
  destruct (link_entry st2 A2 E P cur par n f name pre (HFile ino nlink data)) as (st3 & A3 & E3 & Hap & Hl3 & CP3 & O3); try done.
  - eapply open_moves; [done|exact M0| |done|lia]. intros j e He _. apply (tr_ents _ _ _ _ T) in He. lia.
  - unfold nb in Hroom. lia.
  - intros Hd. by destruct (isdir_not_file A2 f).
  - split; [lia|]. split; [done|]. unfold file_shows. rewrite decide_True by done.
    by rewrite (moves_file _ _ _ _ _ _ _ _ M2).
  - destruct CP3 as [C3 M3 I3 B3 T3]. pose proof (moves_trans _ _ _ _ _ _ _ _ _ _ M2 M3) as M.
    exists st3, A3, E3. split_and!; [done| |done|].
    + split; [done|done|lia|unfold nb; lia|lia].
    + apply (listed_moves rest cur st1 A E st3 A3 E3); [destruct M; by split|left; apply O|done|]. destruct Hl2, Hl3. split; congruence.
Qed.

Lemma add_file_core : file_added (add_file Al cur name ino nlink data st).
Proof.
  cbn [files] in HL. unfold add_file. destruct (decide (nlink > 0)) as [Hnl|Hnl]; cbn [app] in HL.
  - destruct (fetch_chain Al (listed st A) (u32 ino) (u32 nlink) rest st HL) as [(f & l & r & Hf & -> & Hc)|(l & r & loc & g & -> & Hc)].
    + cbn [obind]. rewrite decide_True by (destruct Hf; lia). by apply add_existing.
    + destruct (add_new l r (λ i s, set_links (<[loc := Node i (u32 ino) (u32 (u32 nlink - 1)) g]> (links s))
        (hardLinkMapRoot s) s)) as (st1 & -> & Hadd).
      * intros i s. eexists _, _. done.
      * intros i s K HK Hi [Hl Hr]. by apply Hc; auto.
      * cbn [obind fst snd]. by rewrite decide_False by (intros H; by apply H).
  - destruct (add_new (links st) (hardLinkMapRoot st) (λ _ s, s)) as (st1 & Hia & Hadd).
    + intros _ s. exists (links s), (hardLinkMapRoot s). by destruct s.
    + intros i s K HK _ [Hl Hr]. eapply chain_same; [exact Hl|exact Hr|]. by eapply chain_weaken.
    + assert (set_links (links st) (hardLinkMapRoot st) st = st) as Heq by (by destruct st).
      rewrite Heq in Hia. rewrite Hia. exact Hadd.
Qed.
End AddFile.

(** ** Directories *)

(** A directory before its first entry; its parent is being filled too. *)
Record ready (cur par : Z) (st : fs) (A : Z → dinode) (E : Z → list dirent) (P : list Z) : Prop := {
  rd_cur : cur ∈ P;
  rd_par : par ∈ P;
  rd_exact : exact st A cur ∧ exact st A par;
  rd_size : di_size (A cur) = 0;
  rd_ents : E cur = [];
}.

Definition pending (A : Z → dinode) (P : list Z) : Prop := ∀ i, i ∈ P → isdir A i.

Lemma pending_moves cur st A E P st' A' E' :
  core st A E P → moves cur st A E st' A' E' → pending A P → pending A' P.
Proof.
  intros C M HP i Hi. unfold isdir. rewrite (mv_type _ _ _ _ _ _ _ M); [by apply HP|by eapply pend_range].
Qed.

Lemma dot_names k : ¬ is_plain (entry_for k dot) ∧ ¬ is_plain (entry_for k dotdot).
Proof. split; intros [H1 H2]; [by apply H1|by apply H2]. Qed.

(** [++] on the parent's link count, unless it is the directory itself. *)
Lemma add_parent_link st A E P cur par n :
  core st A E P → pending A P → par ∈ P → 1 ≤ cur < freeinode st → exact st A cur → exact st A par → di_nlink (A par) < 2 + Z.of_nat (total E) ≤ 32767 → fill cur A E n →
  ∃ st' A', (if decide (cur ≠ par) then add_link par st else Done st) = Done st' ∧ same_links st st' ∧
    freeinode st' = freeinode st ∧ freeblock st' = freeblock st ∧ core st' A' E P ∧
    moves cur st A E st' A' E ∧ exact st' A' cur ∧ fill cur A' E n.
Proof.
  intros C HP Hp Hcr Hxc Hxp Hnl F. pose proof (pend_range _ _ _ _ _ C Hp) as Hpr.
  destruct (decide (cur ≠ par)) as [Hne|Heq]; [|exists st, A; split_and!; try done; apply moves_refl].
  destruct (add_link_core st A E P P par) as (st' & Ha & Hl & Hf & Hb & C' & HM); [done|done|lia|lia| |].
  - apply (tree_ext _ A); [apply C|..]; intros j Hj; unfold upd; case_decide as Hjp; try done; subst; try done.
    intros Hfile. destruct (isdir_not_file A par); [by apply HP|done].
  - exists st', (upd A par (linked (A par))). split_and!; try done.
    + unfold exact in *. destruct (mv_reads _ _ _ _ _ _ _ (HM 0) cur) as [[-> ->]|[_ ?]]; try done; lia.
    + destruct F. split; [by rewrite upd_ne|done].
Qed.

Lemma add_dots_core st A E P cur par :
  core st A E P → pending A P → ready cur par st A E P → freeblock st + 1 ≤ 1024 →
  Z.of_nat (total E) + 2 ≤ 32000 →
  ∃ st' A' E', add_dots cur par st = Done st' ∧ same_links st st' ∧ copied cur P st A E st' A' E' 0 1 2 ∧
    open_dir cur par st' A' E' P 2 [].
Proof.
  intros C HP [Rc Rp [Rxc Rxp] Rs Re] Hroom Htot. pose proof (core_range _ _ _ _ C).
  pose proof (pend_range _ _ _ _ _ C Rc) as Hcr. pose proof (pend_range _ _ _ _ _ C Rp) as Hpr.
  destruct dots_bytes as [Bd Bdd]. unfold add_dots.
  destruct (append_entry_core st A E P P cur 0 cur dot) as (st1 & A1 & Ha1 & Hl1 & Hf1 & [C1 M1 I1 B1 T1] & Hn1 & X1 & F1);
    [done|done|done|by apply HP|split; [lia|by rewrite Re]|lia|done|lia|done| |].
  { apply tree_dots; [apply C|lia|done|by apply HP|apply dot_names|done|apply entry_for_wf; [lia|done]]. }
  set (E1 := add_ent E cur (entry_for cur dot)) in *. rewrite Ha1. cbn [obind].
  pose proof (pending_moves _ _ _ _ _ _ _ _ C M1 HP) as HP1.
  assert (total E1 = S (total E)) as HT1 by (apply total_add; lia).
  assert (exact st1 A1 par) as Xp by (destruct (decide (par = cur)) as [->|]; [done|by eapply moves_exact]).
  destruct (add_parent_link st1 A1 E1 P cur par 1) as (st2 & A2 & Ha2 & Hl2 & Hf2 & Hb2 & C2 & M2 & X2 & F2); try done; [lia| |].
  { rewrite Hn1. pose proof (co_nlink _ _ _ _ C par Hpr). lia. }
  pose proof (pending_moves _ _ _ _ _ _ _ _ C1 M2 HP1) as HP2. rewrite Ha2. cbn [obind].
  destruct (append_entry_core st2 A2 E1 P P cur 1 par dotdot) as (st3 & A3 & Ha3 & Hl3 & Hf3 & [C3 M3 I3 B3 T3] & _ & X3 & F3);
    [done|done|lia| |done|lia|change (growth _ _) with 1 in B1; change (growth _ _) with 0; lia|lia|done| |].
  { by apply HP2. }
  { apply tree_dots; [apply C2|lia|done|by apply HP2|apply dot_names|simpl; lia|apply entry_for_wf; [lia|done]]. }
  change (growth _ _) with 1 in B1. change (growth _ _) with 0 in B3.
  assert (moves cur st A E st3 A3 (add_ent E1 cur (entry_for par dotdot))) as M
    by (eapply moves_trans; [done|]; by eapply moves_trans).
  exists st3, A3, (add_ent E1 cur (entry_for par dotdot)). split_and!; [done| | |].
  - destruct Hl1, Hl2, Hl3. split; congruence.
  - split; [done|done|lia|lia|lia].
  - split; [done|by apply (pending_moves _ _ _ _ _ _ _ _ C M HP)|done|done|]. exists [].
    rewrite add_ent_eq. unfold E1. rewrite add_ent_eq, Re. done.
Qed.

(** What copying a tree leads to. *)
Definition dir_added (cur par : Z) (P : list Z) (st : fs) (A : Z → dinode) (E : Z → list dirent)
    (ni nb ne : Z) (h : host) (rest : list (Z * Z)) (r : M fs) : Prop :=
  ∃ st' A' E', r = Done st' ∧ copied cur P st A E st' A' E' ni nb ne ∧
    shows V st' A' E' h cur par ∧ chain Al (listed st' A') rest st'.

Definition copies (h : host) : Prop :=
  ∀ st A E P cur par rest,
    is_directory h = true → host_bytes h = true → host_good h = true → host_valid V h →
    core st A E P → pending A P → chain Al (listed st A) (files h ++ rest) st → ready cur par st A E P →
    freeinode st + need_inodes h ≤ 200 → freeblock st + need_blocks h ≤ 1024 →
    Z.of_nat (total E) + need_entries h ≤ 32000 →
    dir_added cur par P st A E (need_inodes h) (need_blocks h) (need_entries h) h rest (add_dir Al h cur par st).

(** One entry has been copied: the outcome of [add_child] below. *)
Definition child_added (h : host) (name : list Z) (st : fs) (A : Z → dinode) (E : Z → list dirent) (P : list Z)
    (cur par n : Z) (pre : list (list Z * host)) (rest : list (Z * Z)) (r : M fs) : Prop :=
  ∃ st' A' E', r = Done st' ∧
    copied cur P st A E st' A' E' (1 + need_inodes h)
      (need_blocks h + growth (dir_blocks n) (dir_blocks (n + 1))) (1 + need_entries h) ∧
    open_dir cur par st' A' E' P (n + 1) (pre ++ [(name, h)]) ∧ chain Al (listed st' A') rest st'.

(** A subdirectory: its inode, its contents, its entry. *)
Lemma add_subdir_core h st A E P cur par n name pre rest :
  copies h → is_directory h = true → host_bytes h = true → host_good h = true → host_valid V h →
  core st A E P → pending A P → chain Al (listed st A) (files h ++ rest) st → open_dir cur par st A E P n pre → n + 1 ≤ 4480 →
  freeinode st + (1 + need_inodes h) ≤ 200 →
  freeblock st + (need_blocks h + growth (dir_blocks n) (dir_blocks (n + 1))) ≤ 1024 →
  Z.of_nat (total E) + (1 + need_entries h) ≤ 32000 → name_ok name →
  child_added h name st A E P cur par n pre rest
    (let! r := ialloc T_DIR st in let '(k, st1) := r in
     let! st2 := add_dir Al h k cur st1 in append_entry cur k name st2).
Proof.
  intros Hcop Hdir Hb Hg Hv C HP HL O Hmax Hni Hnb Hne Hname. pose proof (need_inodes_nonneg h).
  pose proof (pend_range _ _ _ _ _ C (od_pend _ _ _ _ _ _ _ _ O)) as Hcr. set (k := freeinode st).
  destruct (ialloc_core T_DIR st A E P k) as (st1 & Hia & Hl1 & Hf1 & [C1 M1 I1 B1 T1] & X1); [done|by left|lia|].
  fold k in Hia, C1, M1, Hf1, X1. set (A1 := upd A k (new_dinode T_DIR)) in *. rewrite Hia. cbn [obind].
  pose proof (blocks_of_mono (16 * n) (16 * (n + 1)) ltac:(lia)) as Hm. pose proof (growth_nonneg _ _ Hm) as Hgr.
  assert (isdir A1 k) as Hdk by (unfold isdir, A1; by rewrite upd_eq).
  assert (pending A1 (k :: P)) as HP1.
  { intros i [->|Hi]%elem_of_cons; [done|]. by apply (pending_moves k st A E P st1 A1 E). }
  assert (ready k cur st1 A1 E (k :: P)) as R1.
  { split; [apply list_elem_of_here|apply list_elem_of_further, O| |unfold A1; by rewrite upd_eq|].
    { split; [done|]. apply (moves_exact _ _ _ _ _ _ _ cur M1); [done|unfold k; lia|apply O]. }
    apply (tr_none _ _ _ _ (co_tree _ _ _ _ C)). unfold k. lia. }
  assert (freeinode st ≤ k) as Hkn by done.
  destruct (Hcop st1 A1 E (k :: P) k cur rest) as (st2 & A2 & E2 & Hadd & [C2 M2 I2 B2 T2] & Hs2 & HL2); try done; try lia.
  { apply (listed_moves _ k st A E st1 A1 E); [done|by right|done|done]. }
  rewrite Hadd. cbn [obind]. pose proof (mv_ino _ _ _ _ _ _ _ M2). destruct (shows_shape _ _ _ _ _ _ _ Hdir Hs2) as [Hd2 Hsh2].
  assert (cur ≠ k) as Hck by (unfold k; lia).
  assert (isdir A2 cur) as Hdc by (apply (pending_moves _ _ _ _ _ _ _ _ C1 M2 HP1), list_elem_of_further, O).
  destruct (link_entry st2 A2 E2 P cur par n k name pre h) as (st3 & A3 & E3 & Hap & Hl3 & [C3 M3 I3 B3 T3] & O3); try done; try lia.
  - eapply open_moves; [|exact M2|apply (unnamed_pending _ _ _ _ _ C1 (list_elem_of_here _ _) Hdk)|lia|done].
    eapply open_moves; [done|done|by apply (unnamed_new st A E P)|lia|done].
  - intros _. split; [unfold k; lia|done].
  - assert (moves cur st A E st3 A3 E3) as M.
    { eapply moves_trans; [|exact M3]. eapply moves_new; [eapply (moves_any cur k); [exact M1|done]|exact M2|done]. }
    exists st3, A3, E3. split_and!; [done| |done|exact (listed_moves _ _ _ _ _ _ _ _ M3 (or_introl Hdc) HL2 Hl3)].
    split; [done|done|lia|lia|lia].
Qed.

(** One entry of the host directory. *)
Definition add_child (cur : Z) (name : list Z) (child : host) (st : fs) : M fs :=
  match child with
  | HUnreadable => Exit add_dir_error
  | HDir _ =>
      let! r := ialloc T_DIR st in
      let '(k, st1) := r in
      let! st2 := add_dir Al child k cur st1 in append_entry cur k name st2
  | HFile ino nlink data => add_file Al cur name ino nlink data st
  end.

Lemma add_entries_cons cur name child l st :
  ¬ skipped name →
  add_entries Al cur ((name, child) :: l) st = let! st1 := add_child cur name child st in add_entries Al cur l st1.
Proof.
  intros Hs. cbn [add_entries]. rewrite decide_False by done. destruct child as [entries| |]; [|done|done].
  cbn [add_child]. destruct (ialloc T_DIR st) as [ [k st1]| |]; [|done|done]. cbn [obind].
  by destruct (add_dir Al (HDir entries) k cur st1).
Qed.

Lemma add_child_core h st A E P cur par n name pre rest :
  copies h → host_bytes h = true → host_good h = true → host_valid V h →
  core st A E P → pending A P → chain Al (listed st A) (files h ++ rest) st → open_dir cur par st A E P n pre → n + 1 ≤ 4480 →
  freeinode st + (1 + need_inodes h) ≤ 200 →
  freeblock st + (need_blocks h + growth (dir_blocks n) (dir_blocks (n + 1))) ≤ 1024 →
  Z.of_nat (total E) + (1 + need_entries h) ≤ 32000 → name_ok name →
  child_added h name st A E P cur par n pre rest (add_child cur name h st).
Proof.
  intros Hcop Hb Hg Hv C HP HL O Hmax Hni Hnb Hne Hname. destruct h as [entries|ino nlink data|]; [| |done].
  - by apply add_subdir_core.
  - unfold child_added. cbn [need_inodes need_blocks need_entries host_good] in *. apply bool_decide_eq_true_1 in Hg.
    apply add_file_core; try done; lia.
Qed.

(** The entries of a list are copied in turn. *)
Lemma add_entries_core cur par P l : Forall (λ p, copies p.2) l → ∀ st A E n pre rest,
  live_all (λ p, bool_decide (Forall is_byte p.1) && host_bytes p.2) l = true →
  live_all (λ p, bool_decide (0 ∉ p.1) && host_good p.2) l = true → host_valid V (HDir (Some l)) →
  core st A E P → pending A P → chain Al (listed st A) (live_concat (λ p, files p.2) l ++ rest) st →
  open_dir cur par st A E P n pre → n + entry_count l ≤ 4480 →
  freeinode st + live_sum (λ p, 1 + need_inodes p.2) l ≤ 200 →
  freeblock st + (growth (dir_blocks n) (dir_blocks (n + entry_count l)) + live_sum (λ p, need_blocks p.2) l) ≤ 1024 →
  Z.of_nat (total E) + live_sum (λ p, 1 + need_entries p.2) l ≤ 32000 →
  ∃ st' A' E', add_entries Al cur l st = Done st' ∧
    copied cur P st A E st' A' E' (live_sum (λ p, 1 + need_inodes p.2) l)
      (growth (dir_blocks n) (dir_blocks (n + entry_count l)) + live_sum (λ p, need_blocks p.2) l)
      (live_sum (λ p, 1 + need_entries p.2) l) ∧
    open_dir cur par st' A' E' P (n + entry_count l) (pre ++ l) ∧ chain Al (listed st' A') rest st'.
Proof.
  induction 1 as [|[name h] l Hh _ IH]; intros st A E n pre rest Hb Hg Hv C HP HL O Hmax Hni Hnb Hne.
  { unfold entry_count in *. simpl in *. rewrite !Z.add_0_r in *. exists st, A, E. rewrite app_nil_r. split_and!; [done| |done|done].
    pose proof (growth_nonneg (dir_blocks n) (dir_blocks n)).
    split; [done|apply moves_refl|lia|lia|lia]. }
  apply host_valid_cons in Hv as [Hv Hvl]. replace (pre ++ (name, h) :: l) with ((pre ++ [(name, h)]) ++ l) by (by rewrite <- app_assoc).
  unfold entry_count in *. cbn [live_all live_sum live_concat fst snd] in *. rewrite <- app_assoc in HL. simpl in Hh.
  apply andb_prop in Hb as [Hb Hbl], Hg as [Hg Hgl].
  destruct (decide (skipped name)) as [Hs|Hs].
  { rewrite !Z.add_0_l in *. cbn [add_entries]. rewrite decide_True by done. apply IH; try done.
    destruct O as [O1 O2 Ox O3 (es & HE & Hm)]. split; try done. exists es. split; [done|]. by apply match_skip. }
  apply andb_prop in Hb as [Hnb1%bool_decide_eq_true_1 Hb], Hg as [Hn0%bool_decide_eq_true_1 Hg].
  fold (entry_count l) in *. pose proof (entry_count_nonneg l).
  set (m := entry_count l) in *. rewrite (Z.add_assoc n 1 m) in *.
  pose proof (blocks_of_mono (16 * n) (16 * (n + 1)) ltac:(lia)) as Hm1.
  pose proof (blocks_of_mono (16 * (n + 1)) (16 * (n + 1 + m)) ltac:(lia)) as Hm2.
  pose proof (growth_trans _ _ _ Hm1 Hm2) as Hgt. pose proof (growth_nonneg _ _ Hm2) as Hg2.
  destruct (live_needs_nonneg l) as (Hs1 & Hs2 & Hs3).
  rewrite add_entries_cons by done.
  destruct (add_child_core h st A E P cur par n name pre (live_concat (λ p, files p.2) l ++ rest)) as (st1 & A1 & E1 & Hadd & CP1 & O1 & HL1); try done; try lia; [by apply Hv|].
  rewrite Hadd. cbn [obind]. pose proof CP1 as [C1 M1 I1 B1 T1].
  destruct (IH st1 A1 E1 (n + 1) (pre ++ [(name, h)]) rest) as (st2 & A2 & E2 & Hrest & CP2 & O2 & HL2); try done; try lia.
  { exact (pending_moves _ _ _ _ _ _ _ _ C M1 HP). }
  exists st2, A2, E2. split_and!; [done| |done|done].
  pose proof (copied_trans _ _ _ _ _ _ _ _ _ _ _ _ _ _ _ _ _ _ CP1 CP2) as [D1 D2 D3 D4 D5].
  split; [done|done|lia|lia|lia].
Qed.

(** The recursive copy: every tree whose demand is within what is left is
    copied, the invariant holds of the result, and the directory shows the
    tree. *)
Lemma add_dir_core h : copies h.
Proof.
  induction h as [|l IH|ino nl data|] using host_tree_ind; intros st A E P cur par rest Hdir Hb Hg Hv C HP HL R Hni Hnb Hne;
    [| |done|done]; rewrite add_dir_unfold; cbn [need_inodes need_blocks need_entries host_good host_bytes] in *;
    pose proof (HP cur (rd_cur _ _ _ _ _ _ R)) as Hdc; pose proof (pend_range _ _ _ _ _ C (rd_cur _ _ _ _ _ _ R)) as Hcr.
  - destruct (add_dots_core st A E P cur par) as (st1 & A1 & E1 & Hd & Hl1 & [C1 M1 I1 B1 T1] & O1); try done; try lia.
    rewrite Hd. cbn [obind]. exists st1, A1, E1.
    split_and!; [done| | |exact (listed_moves _ _ _ _ _ _ _ _ M1 (or_introl Hdc) HL Hl1)].
    + split; [done|done|lia|lia|lia].
    + destruct O1 as [_ O2 Ox _ (es & HE & Hm)]. simpl in Hm. subst es. pose proof (mv_ino _ _ _ _ _ _ _ M1).
      split; [lia|done].
  - apply andb_prop in Hg as [Hmax%bool_decide_eq_true_1 Hg]. pose proof (entry_count_nonneg l).
    unfold blocks_for in *. pose proof (blocks_of_mono (16 * 2) (16 * (2 + entry_count l)) ltac:(lia)) as Hm1.
    pose proof (growth_nonneg _ _ Hm1) as Hg0.
    assert (growth 0 (dir_blocks (2 + entry_count l)) = 1 + growth (dir_blocks 2) (dir_blocks (2 + entry_count l))) as Hgr
      by (by rewrite <- (growth_trans 0 (dir_blocks 2) _)).
    destruct (live_needs_nonneg l) as (_ & Hs1 & Hs2).
    destruct (add_dots_core st A E P cur par) as (st1 & A1 & E1 & Hd & Hl1 & CP1 & O1); try done; try lia.
    rewrite Hd. cbn [obind]. pose proof CP1 as [C1 M1 I1 B1 T1].
    destruct (add_entries_core cur par P l IH st1 A1 E1 2 [] rest) as (st2 & A2 & E2 & Hent & CP2 & O2 & HL2); try done; try lia.
    { exact (pending_moves _ _ _ _ _ _ _ _ C M1 HP). }
    { exact (listed_moves _ _ _ _ _ _ _ _ M1 (or_introl Hdc) HL Hl1). }
    rewrite Hent. cbn [obind]. pose proof CP2 as [C2 M2 I2 B2 T2].
    destruct O2 as [O2p O2d O2x O2f (es & HE2 & Hm2)]. pose proof (pend_range _ _ _ _ _ C2 O2p) as Hcr2.
    destruct (fix_size_core st2 A2 E2 P cur (2 + entry_count l)) as (st3 & A3 & Hfix & Hl3 & CP3 & Hrd3);
      [done|done|done|done|done|lia|].
    pose proof CP3 as [C3 M3 _ _ _].
    pose proof (copied_trans _ _ _ _ _ _ _ _ _ _ _ _ _ _ _ _ _ _ CP1 (copied_trans _ _ _ _ _ _ _ _ _ _ _ _ _ _ _ _ _ _ CP2 CP3))
      as [D1 D2 D3 D4 D5].
    exists st3, A3, E2. split_and!; [done| | |exact (listed_moves _ _ _ _ _ _ _ _ M3 (or_introl O2d) HL2 Hl3)].
    + split; [done|done|lia|lia|lia].
    + pose proof (mv_ino _ _ _ _ _ _ _ M3). split; [lia|].
      split; [unfold isdir; by rewrite (mv_type _ _ _ _ _ _ _ M3)|]. split; [done|]. exists es. split; [done|].
      eapply children_kept; [exact M3|exact (unnamed_pending _ _ _ _ _ C2 O2p O2d)| |exact Hm2].
      rewrite HE2. intros e He. by do 2 apply list_elem_of_further.
Qed.
End Copy.
