(* ===== verification/MkfsReads.v ===== *)
(** * Reading the sectors of the builder through the mapped image

    What myfsck.c and lsfs.c read at an offset of the image is what mkfs.c
    wrote in the sector there: inodes, indirect blocks and directory
    entries. *)
From S2P Require Import Prelude CInt FsLayout Image Fsck FsckSpec Mkfs MkfsTheorems MkfsTyped MkfsPhysical MkfsTree MkfsCopy.
Import Mk.

Lemma slice_S o n (l : list Z) x : l !! o = Some x → slice o (S n) l = x :: slice (S o) n l.
Proof. intros Hx. unfold slice. by rewrite (drop_S l x) by done. Qed.

Lemma slice_slice a n o m (l : list Z) : (o + m ≤ n)%nat → slice o m (slice a n l) = slice (a + o) m l.
Proof.
  intros H. unfold slice. rewrite skipn_firstn_comm, drop_drop, take_take.
  by rewrite Nat.min_l by lia.
Qed.

(** A list as a function of the position. *)
Lemma slice_fmap_seqZ (f : Z → Z) (m : Z) (o n : nat) :
  Z.of_nat (o + n) ≤ m → slice o n (f <$> seqZ 0 m) = f <$> seqZ (Z.of_nat o) (Z.of_nat n).
Proof.
  intros H. apply list_eq. intros k. unfold slice. destruct (decide (k < n)%nat).
  - rewrite lookup_take_lt, lookup_drop by done. rewrite !list_lookup_fmap, !lookup_seqZ_lt by lia. simpl. do 2 f_equal. lia.
  - rewrite lookup_take_ge by lia. rewrite list_lookup_fmap, lookup_seqZ_ge by lia. done.
Qed.

Lemma nth_seqZ (l : list Z) (a n : nat) :
  (a + n ≤ length l)%nat → (λ x, nth (Z.to_nat x) l 0) <$> seqZ (Z.of_nat a) (Z.of_nat n) = slice a n l.
Proof.
  intros H. apply list_eq. intros k. unfold slice. rewrite list_lookup_fmap. destruct (decide (k < n)%nat).
  - rewrite lookup_take_lt, lookup_drop, lookup_seqZ_lt by lia. simpl.
    destruct (lookup_lt_is_Some_2 l (a + k)) as [x Hx]; [lia|]. rewrite Hx. f_equal.
    apply nth_lookup_Some with (d := 0) in Hx. rewrite <- Hx. f_equal. lia.
  - rewrite lookup_take_ge, lookup_seqZ_ge by lia. done.
Qed.

Lemma nth_seqZ_end (l : list Z) (a n : nat) :
  (length l ≤ a)%nat → (λ x, nth (Z.to_nat x) l 0) <$> seqZ (Z.of_nat a) (Z.of_nat n) = replicate n 0.
Proof.
  intros H. apply list_eq. intros k. rewrite list_lookup_fmap. destruct (decide (k < n)%nat).
  - rewrite lookup_seqZ_lt, lookup_replicate_2 by lia. simpl. f_equal. apply nth_overflow. lia.
  - rewrite lookup_seqZ_ge by lia. symmetry. apply lookup_ge_None_2. rewrite length_replicate. lia.
Qed.

Section Reads.
Variables (st : fs) (A : Z → dinode).
Hypothesis HP : phys st A.
Hypothesis Ht : typed st.
Local Abbreviation img := (image_of st).

Lemma read_byte sec (o : nat) :
  0 ≤ sec < 1024 → (o < 512)%nat → sector st sec !! o = Some (img_byte img (512 * sec + Z.of_nat o)).
Proof.
  intros Hs Ho. destruct Ht as [Hn _]. pose proof (typed_sector st sec Ht) as [Hl Hb].
  destruct (lookup_lt_is_Some_2 (sector st sec) o) as [x Hx]; [lia|]. rewrite Hx. f_equal.
  unfold img_byte, image_of. cbn [st_size file_byte]. rewrite Hn. change BSIZE with 512.
  rewrite decide_True by lia. replace ((512 * sec + Z.of_nat o) / 512) with sec by (Z.div_mod_to_equations; lia).
  replace (Z.to_nat ((512 * sec + Z.of_nat o) mod 512)) with o by (Z.div_mod_to_equations; lia).
  rewrite Hx. simpl. symmetry. apply wrap_small. rewrite Forall_lookup in Hb. by apply Hb in Hx.
Qed.

Lemma read_bytes sec (o n : nat) :
  0 ≤ sec < 1024 → (o + n ≤ 512)%nat → rd_bytes img (512 * sec + Z.of_nat o) n = slice o n (sector st sec).
Proof.
  intros Hs. revert o. induction n as [|n IH]; intros o Ho; [by rewrite (take_0 : ∀ l, slice o 0 l = [])|].
  rewrite (slice_S o n _ _ (read_byte sec o Hs ltac:(lia))). cbn [rd_bytes]. f_equal.
  rewrite <- IH by lia. f_equal. lia.
Qed.

(** *** Inodes *)
Lemma read_inode i (o n : nat) :
  0 ≤ i < 208 → (o + n ≤ 64)%nat → rd_bytes img (inode_at i + Z.of_nat o) n = slice o n (inode_bytes i st).
Proof.
  intros Hi Ho. pose proof (i2b_range i Hi) as Hb. pose proof (inode_off_range i) as Hoff.
  unfold inode_bytes. rewrite slice_slice by done. rewrite <- read_bytes by lia. f_equal.
  unfold inode_at, startinode, i2b, inode_off in *. change IPB with 8 in *. change sizeof_dinode with 64 in *.
  change BSIZE with 512 in *. Z.div_mod_to_equations. lia.
Qed.

Lemma stored i d : 0 ≤ i < 208 → rinode i st = Done d → decode_dinode (inode_bytes i st) = d.
Proof.
  intros Hi H. rewrite rinode_in in H; [by simplify_eq|]. pose proof (i2b_range i Hi). destruct Ht. lia.
Qed.

(** What is stored is the inode, but perhaps for its size. *)
Lemma inode_decoded i : 0 ≤ i < 208 → ∃ sz, decode_dinode (inode_bytes i st) = set_size sz (A i).
Proof.
  intros Hi. destruct (ph_table _ _ HP i Hi) as [H|[_ H]]; apply (stored i _ Hi) in H; rewrite H; [|by eexists].
  exists (di_size (A i)). by destruct (A i).
Qed.

Lemma read_type i : 0 ≤ i < 208 → inode_type img i = di_type (A i).
Proof.
  intros Hi. destruct (inode_decoded i Hi) as [sz Hd]. change (di_type (A i)) with (di_type (set_size sz (A i))). rewrite <- Hd.
  unfold inode_type, rd16. cbn [decode_dinode di_type]. unfold get16. rewrite <- (read_inode i 0 2) by lia. by rewrite Z.add_0_r.
Qed.

Lemma read_nlink i : 0 ≤ i < 208 → inode_nlink img i = di_nlink (A i).
Proof.
  intros Hi. destruct (inode_decoded i Hi) as [sz Hd]. change (di_nlink (A i)) with (di_nlink (set_size sz (A i))). rewrite <- Hd.
  unfold inode_nlink, rd16. cbn [decode_dinode di_nlink]. unfold get16. by rewrite <- (read_inode i 6 2) by lia.
Qed.

Lemma read_stored_size i d : 0 ≤ i < 208 → rinode i st = Done d → inode_size img i = di_size d.
Proof.
  intros Hi H. rewrite <- (stored i d Hi H). unfold inode_size, rd32. cbn [decode_dinode di_size]. unfold get32.
  by rewrite <- (read_inode i 8 4) by lia.
Qed.

Lemma read_size i : 0 ≤ i < 208 → exact st A i → inode_size img i = di_size (A i).
Proof. apply read_stored_size. Qed.

Lemma read_addr i k : 0 ≤ i < 208 → 0 ≤ k ≤ 12 → inode_addr img i k = direct (A i) k.
Proof.
  intros Hi Hk. destruct (inode_decoded i Hi) as [sz Hd]. change (direct (A i) k) with (direct (set_size sz (A i)) k). rewrite <- Hd.
  unfold inode_addr, rd32, direct. cbn [decode_dinode di_addrs].
  rewrite nth_lookup, list_lookup_fmap, lookup_seq_lt by lia. cbn -[rd_bytes le_combine get32 Nat.mul]. unfold get32.
  rewrite <- (read_inode i) by lia. do 2 f_equal. unfold sizeof_uint. lia.
Qed.

Lemma read_entry b k : 0 ≤ b < 1024 → 0 ≤ k < 128 → rd32 img (b * BSIZE + k * sizeof_uint) = entry st b (12 + k).
Proof.
  intros Hb Hk. unfold rd32, entry, get32. rewrite <- (read_bytes b) by lia. do 2 f_equal.
  unfold BSIZE, sizeof_uint. lia.
Qed.

(** *** Block lists *)
Lemma filter_prefix (f : Z → Z) (n m : Z) :
  0 ≤ n ≤ m → (∀ k, 0 ≤ k < n → f k ≠ 0) → (∀ k, n ≤ k < m → f k = 0) →
  in_use_addrs (f <$> seqZ 0 m) = f <$> seqZ 0 n.
Proof.
  intros Hn Hnz Hz. unfold in_use_addrs. replace m with (n + (m - n)) by lia. rewrite seqZ_app by lia.
  rewrite fmap_app, filter_app. rewrite filter_all, filter_none; [by rewrite app_nil_r| |].
  - intros x (k & -> & Hk%elem_of_seqZ)%list_elem_of_fmap. rewrite Hz by lia. tauto.
  - intros x (k & -> & Hk%elem_of_seqZ)%list_elem_of_fmap. apply Hnz. lia.
Qed.

Section Blocks.
Variable i : Z.
Hypothesis Hi : 0 ≤ i < 208.
Local Abbreviation n := (nblk (A i)).

Lemma file_i : file_ok st (A i) n ∧ 0 ≤ n ≤ 140 ∧ 29 ≤ freeblock st ≤ 1024.
Proof.
  pose proof (ph_blocks _ _ HP) as HB.
  split_and!; try apply (dk_free _ (bl_disk _ _ HB)); [by apply HB|..]; apply nblk_bounds, HB; done.
Qed.

Lemma read_direct : direct_blocks img i = addr_of st (A i) <$> seqZ 0 (Z.min n 12).
Proof.
  destruct file_i as (Hf & Hn & Hfree). unfold direct_blocks.
  assert (inode_addr img i <$> seqZ 0 NDIRECT = addr_of st (A i) <$> seqZ 0 12) as ->.
  { apply list_fmap_ext. intros j k Hk. apply lookup_seqZ in Hk as [-> Hj].
    rewrite read_addr by lia. unfold addr_of. rewrite decide_True by lia. done. }
  apply filter_prefix; [lia|..]; intros k Hk.
  - pose proof (fo_range _ _ _ Hf k ltac:(lia)). lia.
  - apply (fo_zero _ _ _ Hf); lia.
Qed.

Lemma read_indirect : indirect_blocks img i = addr_of st (A i) <$> seqZ 12 (n - 12).
Proof.
  destruct file_i as (Hf & Hn & Hfree). unfold indirect_blocks. rewrite read_addr by (unfold NDIRECT; lia).
  change NDIRECT with 12. destruct (decide (12 < n)) as [H12|H12].
  - destruct (fo_ind _ _ _ Hf H12) as [Hr _]. rewrite decide_False by lia. unfold indirect_table.
    assert ((λ k, rd32 img (direct (A i) 12 * BSIZE + k * sizeof_uint)) <$> seqZ 0 NINDIRECT =
      (λ k, addr_of st (A i) (12 + k)) <$> seqZ 0 128) as ->.
    { change NINDIRECT with 128. apply list_fmap_ext. intros j k Hk. apply lookup_seqZ in Hk as [-> Hj].
      rewrite read_entry by lia. unfold addr_of. by rewrite decide_False by lia. }
    rewrite (filter_prefix _ (n - 12) 128); [|lia|..].
    + rewrite <- (Z.add_0_r 12) at 2. rewrite <- fmap_add_seqZ, <- list_fmap_compose. done.
    + intros k Hk. pose proof (fo_range _ _ _ Hf (12 + k) ltac:(lia)). lia.
    + intros k Hk. apply (fo_zero _ _ _ Hf); lia.
  - rewrite (fo_none _ _ _ Hf) by lia. rewrite decide_True by done. by rewrite seqZ_nil by lia.
Qed.

Lemma read_data : data_blocks img i = addr_of st (A i) <$> seqZ 0 n.
Proof.
  destruct file_i as (Hf & Hn & Hfree). unfold data_blocks. rewrite read_direct, read_indirect, <- fmap_app. f_equal.
  destruct (decide (12 < n)).
  - rewrite Z.min_r by lia. change 12 with (0 + 12) at 2. rewrite <- seqZ_app by lia. f_equal. lia.
  - rewrite Z.min_l by lia. by rewrite (seqZ_nil 12), app_nil_r by lia.
Qed.

(** The blocks an inode occupies: its indirect block and its data. *)
Lemma read_owned :
  owned img i ≡ₚ (if decide (12 < n) then [direct (A i) 12] else []) ++ (addr_of st (A i) <$> seqZ 0 n).
Proof.
  destruct file_i as (Hf & Hn & Hfree). rewrite <- read_data. unfold owned, data_blocks, indirect_blocks.
  rewrite read_addr by (unfold NDIRECT; lia). change NDIRECT with 12. destruct (decide (12 < n)) as [H12|H12].
  - destruct (fo_ind _ _ _ Hf H12) as [Hr _]. rewrite !(decide_False (P := direct _ _ = 0)) by lia. simpl.
    by rewrite Permutation_middle.
  - rewrite (fo_none _ _ _ Hf) by lia. by rewrite !(decide_True (P := 0 = 0)).
Qed.

Lemma elem_of_owned b : b ∈ owned img i ↔ holds st (A i) b.
Proof.
  rewrite read_owned, elem_of_app. unfold holds, owns. split.
  - intros [H|(k & -> & Hk%elem_of_seqZ)%list_elem_of_fmap]; [|left; exists k; split; [lia|done]].
    destruct (decide (12 < n)) as [H12|]; [|by apply not_elem_of_nil in H].
    apply list_elem_of_singleton in H as ->. by right.
  - intros [(k & Hk & ->)|[H12 ->]].
    + right. apply list_elem_of_fmap. exists k. split; [done|]. apply elem_of_seqZ. lia.
    + left. rewrite decide_True by done. apply list_elem_of_here.
Qed.

Lemma NoDup_owned : NoDup (owned img i).
Proof.
  destruct file_i as (Hf & Hn & Hfree). rewrite read_owned. apply NoDup_app. split_and!.
  - case_decide; [apply NoDup_singleton|apply NoDup_nil_2].
  - intros x Hx (k & -> & Hk%elem_of_seqZ)%list_elem_of_fmap.
    destruct (decide (12 < n)) as [H12|]; [|by apply not_elem_of_nil in Hx].
    apply list_elem_of_singleton in Hx. by apply (fo_ind _ _ _ Hf H12) in Hx; [|lia].
  - apply NoDup_fmap_2_strong; [|apply NoDup_seqZ]. intros x y Hx%elem_of_seqZ Hy%elem_of_seqZ Heq.
    destruct (Z.lt_trichotomy x y) as [?|[?|?]]; [|done|]; exfalso.
    + by apply (fo_inj _ _ _ Hf x y); [lia|lia|].
    + by apply (fo_inj _ _ _ Hf y x); [lia|lia|].
Qed.
End Blocks.

(** *** Directories *)

(** Entry number [g] of a directory file: an unused one past the end. *)
Definition slot (es : list dirent) (g : Z) : dirent := default (Dirent 0 (replicate 14 0)) (es !! Z.to_nat g).

Lemma slice_dir_bytes es g e :
  Forall dirent_wf es → es !! g = Some e → slice (16 * g) 16 (dir_bytes es) = encode_dirent e.
Proof.
  intros Hwf. revert g. unfold dir_bytes. induction Hwf as [|x es Hx Hes IH]; intros g Hg; [done|].
  assert (length (encode_dirent x) = 16%nat) as Hl by (by rewrite length_encode_dirent by apply Hx).
  rewrite fmap_cons, concat_cons. destruct g as [|g]; cbn in Hg.
  - simplify_eq. apply (slice_app_here []); [done|by rewrite Hl].
  - rewrite slice_app_r by lia. rewrite Hl. replace (16 * S g - 16)%nat with (16 * g)%nat by lia. by apply IH.
Qed.

Section Dir.
Variables (i : Z) (es : list dirent).
Hypothesis Hi : 0 ≤ i < 208.
Hypothesis Hd : isdir A i.
Hypothesis Hdat : dir_data st (A i) es.
Hypothesis Hwf : Forall dirent_wf es.
Hypothesis Hnz : Forall (λ e, de_inum e ≠ 0) es.
Local Abbreviation n := (nblk (A i)).

Lemma dir_sector j :
  0 ≤ j < n → sector st (addr_of st (A i) j) = (λ o, nth (Z.to_nat (512 * j + o)) (dir_bytes es) 0) <$> seqZ 0 512.
Proof.
  intros Hj. destruct Hdat as [_ Hb]. pose proof (typed_sector st (addr_of st (A i) j) Ht) as [Hl _].
  apply list_eq. intros k. rewrite list_lookup_fmap. destruct (decide (k < 512)%nat).
  - rewrite lookup_seqZ_lt by lia. cbn -[nth]. rewrite <- Hb by lia. unfold byte_at.
    replace ((512 * j + (0 + Z.of_nat k)) / 512) with j by (Z.div_mod_to_equations; lia).
    replace (Z.to_nat ((512 * j + (0 + Z.of_nat k)) mod 512)) with k by (Z.div_mod_to_equations; lia).
    rewrite nth_lookup. destruct (lookup_lt_is_Some_2 (sector st (addr_of st (A i) j)) k) as [x Hx]; [lia|]. by rewrite Hx.
  - rewrite lookup_seqZ_ge by lia. apply lookup_ge_None_2. lia.
Qed.

Lemma slot_bytes j s :
  0 ≤ j < n → 0 ≤ s < 32 →
  decode_dirent (slice (Z.to_nat (16 * s)) 16 (sector st (addr_of st (A i) j))) = slot es (32 * j + s).
Proof.
  intros Hj Hs. rewrite dir_sector, slice_fmap_seqZ by lia.
  set (g := Z.to_nat (32 * j + s)).
  assert ((λ o, nth (Z.to_nat (512 * j + o)) (dir_bytes es) 0) <$> seqZ (Z.of_nat (Z.to_nat (16 * s))) (Z.of_nat 16) =
    (λ x, nth (Z.to_nat x) (dir_bytes es) 0) <$> seqZ (Z.of_nat (16 * g)) (Z.of_nat 16)) as ->.
  { replace (Z.of_nat (16 * g)) with (512 * j + Z.of_nat (Z.to_nat (16 * s))) by (unfold g; lia).
    rewrite <- fmap_add_seqZ, <- list_fmap_compose. done. }
  pose proof (length_dir_bytes es Hwf) as Hl. unfold slot. fold g.
  destruct (es !! g) as [e|] eqn:He.
  - pose proof (lookup_lt_Some _ _ _ He). rewrite nth_seqZ by lia. rewrite (slice_dir_bytes _ _ e) by done.
    rewrite Forall_lookup in Hwf. apply decode_encode_dirent. by eapply Hwf.
  - apply lookup_ge_None_1 in He. rewrite nth_seqZ_end by lia. done.
Qed.

Lemma read_slot j s :
  0 ≤ j < n → 0 ≤ s < 32 →
  rd_dirent img (addr_of st (A i) j * BSIZE + s * sizeof_dirent) = slot es (32 * j + s).
Proof.
  intros Hj Hs. rewrite <- slot_bytes by done. destruct (file_i i Hi) as (Hf & Hn & Hfree).
  pose proof (fo_range _ _ _ Hf j Hj) as Hr. unfold rd_dirent, decode_dirent, get16, rd16.
  rewrite !slice_slice by lia. rewrite <- !read_bytes by lia. f_equal; [do 2 f_equal|f_equal];
    unfold BSIZE, sizeof_dirent; lia.
Qed.

Lemma concat_slots (m : nat) :
  concat ((λ j, (λ s, slot es (32 * j + s)) <$> seqZ 0 32) <$> seqZ 0 (Z.of_nat m)) = slot es <$> seqZ 0 (Z.of_nat (32 * m)).
Proof.
  induction m as [|m IH]; [done|]. rewrite seqZ_S, fmap_app, concat_app, IH.
  rewrite fmap_cons, concat_cons. cbn [fmap list_fmap concat]. rewrite app_nil_r.
  replace (Z.of_nat (32 * S m)) with (Z.of_nat (32 * m) + 32) by lia. rewrite seqZ_app, fmap_app by lia. f_equal.
  replace (0 + Z.of_nat (32 * m)) with (32 * (0 + Z.of_nat m) + 0) by lia.
  by rewrite <- fmap_add_seqZ, <- list_fmap_compose.
Qed.

Lemma slots_entries (m : Z) : Z.of_nat (length es) ≤ m → filter (λ e, de_inum e ≠ 0) (slot es <$> seqZ 0 m) = es.
Proof.
  intros Hm. replace m with (Z.of_nat (length es) + (m - Z.of_nat (length es))) by lia.
  rewrite seqZ_app, fmap_app, filter_app by lia.
  assert (slot es <$> seqZ 0 (Z.of_nat (length es)) = es) as ->.
  { apply list_eq. intros k. rewrite list_lookup_fmap. destruct (decide (k < length es)%nat).
    - rewrite lookup_seqZ_lt by lia. simpl. unfold slot. replace (Z.to_nat (0 + Z.of_nat k)) with k by lia.
      by destruct (lookup_lt_is_Some_2 es k) as [x ->].
    - rewrite lookup_seqZ_ge by lia. symmetry. apply lookup_ge_None_2. lia. }
  rewrite filter_all, filter_none; [apply app_nil_r| |].
  - intros x (k & -> & Hk%elem_of_seqZ)%list_elem_of_fmap. unfold slot. rewrite lookup_ge_None_2 by lia. simpl. tauto.
  - intros x Hx. rewrite Forall_forall in Hnz. by apply Hnz.
Qed.

Lemma read_dir : dir_entries img i = es.
Proof.
  destruct (file_i i Hi) as (Hf & Hn & Hfree). unfold dir_entries, entries_in.
  rewrite decide_True by (unfold is_dir; rewrite read_type by done; exact Hd). rewrite read_data by done.
  assert (block_entries img <$> (addr_of st (A i) <$> seqZ 0 n) =
    (λ j, filter (λ e, de_inum e ≠ 0) ((λ s, slot es (32 * j + s)) <$> seqZ 0 32)) <$> seqZ 0 n) as ->.
  { rewrite <- list_fmap_compose. apply list_fmap_ext. intros k j Hj. apply lookup_seqZ in Hj as [-> Hj].
    unfold block_entries. cbn [compose]. f_equal. apply list_fmap_ext. intros k' s Hs. apply lookup_seqZ in Hs as [-> Hs].
    apply read_slot; lia. }
  assert (∀ (l : list Z) (f : Z → list dirent), concat ((λ j, filter (λ e, de_inum e ≠ 0) (f j)) <$> l) =
    filter (λ e, de_inum e ≠ 0) (concat (f <$> l))) as ->.
  { induction l as [|x l IH]; intros f; [done|]. by rewrite !fmap_cons, !concat_cons, filter_app, IH. }
  replace n with (Z.of_nat (Z.to_nat n)) by lia. rewrite concat_slots. apply slots_entries.
  destruct Hdat as [Hnb _]. assert (16 * Z.of_nat (length es) ≤ 512 * n); [|lia].
  rewrite Hnb. unfold blocks_of. Z.div_mod_to_equations. lia.
Qed.
End Dir.
End Reads.
