(* ===== verification/MkfsConsistent.v ===== *)
(** * Builder, checker and lister together

    Every host tree that fits is copied completely into an image that is
    right but for the sizes of directories that exactly fill their blocks;
    myfsck accepts it if there are none and reports a size otherwise.  This
    holds unless the copy reads a pointer that [malloc] left in a fresh node
    of the hard-link list, and what can happen then is shown too.  The
    file relates the builder's view of the sectors to what the two readers
    see through the mapped image. *)
From S2P Require Import Prelude CInt FsLayout Image Fsck FsckSpec FsckProof FsckTheorems Lsfs LsfsProof LsfsTheorems Mkfs MkfsTheorems MkfsHost MkfsTyped MkfsLinks MkfsPhysical MkfsTree MkfsCopy MkfsShows MkfsAddDir MkfsReads.
Import Mk.

(** ** A finished image *)
Record final (st : fs) (A : Z → dinode) (E : Z → list dirent) : Prop := {
  fi_phys : phys st A;
  fi_tree : tree (freeinode st) A E [1];
  fi_data : ∀ i, 1 ≤ i < freeinode st → isdir A i → dir_data st (A i) (E i);
  fi_super : sector st 1 = super_bytes;
  fi_nlink : ∀ i, 1 ≤ i < freeinode st → 1 ≤ di_nlink (A i);
  fi_root : 1 < freeinode st ∧ isdir A 1 ∧ dir_shape 1 1 (E 1);
  fi_typed : typed st;
  fi_bits : ∀ b, 0 ≤ b < 1024 →
    Z.testbit (default 0 (sector st 28 !! Z.to_nat (b / 8))) (b mod 8) = bool_decide (b < freeblock st);
}.

(** The bitmap sector belongs to no file. *)
Section Bitmap.
Variables (st : fs) (A : Z → dinode) (buf : list Z).
Hypothesis HP : phys st A.
Hypothesis Hbuf : length buf = 512%nat.
Let st' := put_sector 28 buf st.

Lemma bitmap_sector sec : sec ≠ 28 → sector st' sec = sector st sec.
Proof. intros H. unfold st'. rewrite sector_put. by rewrite decide_False. Qed.

Lemma bitmap_reads j : 0 ≤ j < 208 → rinode j st' = rinode j st.
Proof.
  intros Hj. pose proof (i2b_range j Hj). pose proof (dk_nsect _ (bl_disk _ _ (ph_blocks _ _ HP))).
  rewrite !rinode_in by (simpl; lia). unfold inode_bytes. by rewrite bitmap_sector by lia.
Qed.

Lemma bitmap_phys : phys st' A ∧
  ∀ i k, 0 ≤ i < 208 → 0 ≤ k < 512 * nblk (A i) → byte_at st' (A i) k = byte_at st (A i) k.
Proof.
  destruct (blocks_frame st A st') as [HB Hby];
    [apply HP|apply put_sector_wf; [apply HP|done]|done..|intros; apply bitmap_sector; lia|].
  split; [split; [done|]|done]. apply (table_keeps st A); [apply HP|]. intros i Hi. right. by rewrite bitmap_reads.
Qed.
End Bitmap.

(** The empty image before the root directory is made. *)
Lemma blank_core st : blank_image st → core st (λ _, zero_dinode) (λ _, []) [].
Proof.
  intros [B1 B2 B3 (B4 & B5 & B6) [B7 B8] [_ B9]].
  assert (∀ sec, holds st zero_dinode sec → False) as Hno.
  { intros sec [(k & Hk & _)|[H _]]; unfold nblk in *; simpl in *; change (blocks_of 0) with 0 in *; lia. }
  split; [|split|done|done|intros; lia]; rewrite ?B6.
  - split; [split|].
    + split; [intros sec b Hb; by apply (B9 sec)|done|lia|lia|]. intros sec Hsec. apply B2. lia.
    + lia.
    + intros i Hi. split; simpl; try done. repeat (constructor; [done|]). constructor.
    + intros i Hi. destruct (new_file_ok st) as [F1 F2 F3 F4 F5 F6]. by split.
    + intros i Hi. simpl. lia.
    + intros i j sec _ _ H. by apply Hno in H.
    + lia.
    + done.
    + intros i Hi. left. unfold exact. pose proof (i2b_range i Hi). rewrite rinode_in by lia. unfold inode_bytes.
      rewrite B2 by lia. unfold zeroes, slice. rewrite drop_replicate, take_replicate.
      pose proof (inode_off_range i). rewrite Nat.min_l by lia. by vm_compute.
  - intros i Hi. lia.
  - done.
  - intros i Hi. lia.
  - by intros i e ?%not_elem_of_nil.
  - split; [apply NoDup_nil_2|]. by intros i ?%not_elem_of_nil.
  - intros i Hi. lia.
Qed.

(** The stages of [build]. *)
Lemma build_stages Al t st1 st2 st3 st4 :
  is_directory t = true →
  mkfs 995 200 1024 blank_fs = Done st1 → ialloc T_DIR st1 = Done (1, st2) →
  add_dir Al t 1 1 st2 = Done st3 → balloc (usedblocks st3) st3 = Done st4 →
  build Al (Some t) = Done st4.
Proof.
  intros Hd H1 H2 H3 H4. unfold build. rewrite H1. cbn [obind]. rewrite H2. cbn [obind].
  by rewrite (opendir_directory t Hd), H3.
Qed.

(** A root directory without entries. *)
Definition root_table : Z → dinode := upd (λ _, zero_dinode) 1 (new_dinode T_DIR).

Lemma build_root Al V files :
  null_next Al ∨ one_by_one None files = true →
  ∃ st1 st2, mkfs 995 200 1024 blank_fs = Done st1 ∧ ialloc T_DIR st1 = Done (1, st2) ∧
    core st2 root_table (λ _, []) [1] ∧ pending root_table [1] ∧ chain Al (listed V st2 root_table) files st2 ∧
    ready 1 1 st2 root_table (λ _, []) [1] ∧ freeinode st2 = 2 ∧ freeblock st2 ≤ 29.
Proof.
  intros Hfiles. destruct mkfs_blank as (st1 & Hmk & HB). destruct (bi_counters _ HB) as (Hfb & _ & Hfi).
  destruct (ialloc_core T_DIR st1 _ _ [] 1 (blank_core st1 HB))
    as (st2 & Hia & [Hl2 Hr2] & Hf2 & [C2 M2 I2 B2 T2] & X2); [by left|lia|].
  rewrite Hfi in Hia, Hf2, C2, X2. exists st1, st2. split_and!; [done|done|exact C2| | | |done|lia].
  - by intros i ->%list_elem_of_singleton.
  - apply chain_empty; [|done]. rewrite Hr2. apply (bi_links _ HB).
  - split; [apply list_elem_of_here..|by split|done|done].
Qed.

Lemma total_none : total (λ _, []) = 0%nat.
Proof. unfold total. by induction (seqZ 1 199). Qed.

Lemma bitmap_moves st A E P buf : core st A E P → length buf = 512%nat → moves 0 st A E (put_sector 28 buf st) A E.
Proof.
  intros C Hbuf. pose proof (core_range _ _ _ _ C). pose proof (co_phys _ _ _ _ C) as HP. split; try done.
  - intros j k Hj _ Hk. apply (proj2 (bitmap_phys st A buf HP Hbuf)); [lia|done].
  - intros j Hj _. left. split; [done|]. apply (bitmap_reads st A buf HP Hbuf). lia.
Qed.

(** The copy of a tree reads no pointer that [malloc] left in its memory:
    there is only NULL to be read, or the list never has a second node (a file
    with one name stays on the list for good, so it must be the last). *)
Definition reads_no_garbage (Al : Malloc) (t : host) : Prop :=
  null_next Al ∨ one_by_one None (files t) = true.

(** Every tree that fits is copied. *)
Lemma build_final Al V t :
  fits t = true → reads_no_garbage Al t → host_valid V t →
  ∃ st A E, build Al (Some t) = Done st ∧ final st A E ∧ shows V st A E t 1 1.
Proof.
  unfold fits. rewrite !andb_true_iff, bool_decide_eq_true. intros [[[Hd Hb] Hg] [Hni Hnb]] Hal Hv.
  destruct (build_root Al V (files t ++ [])) as (st1 & st2 & Hmk & Hia & C2 & HP2 & HL2 & R2 & Hfi & Hfb);
    [by rewrite app_nil_r|].
  destruct (add_dir_core Al V t st2 root_table (λ _, []) [1] 1 1 []) as (st3 & A3 & E3 & Hadd & [C3 M3 I3 B3 T3] & Hs3 & _);
    [exact Hd|exact Hb|exact Hg|exact Hv|exact C2|exact HP2|exact HL2|exact R2|lia|lia| |].
  { pose proof (need_entries_blocks t). rewrite total_none. lia. }
  pose proof (co_phys _ _ _ _ C3) as HP3. pose proof (bl_disk _ _ (ph_blocks _ _ HP3)) as Hdk.
  pose proof (dk_free _ Hdk) as Hfree.
  destruct (balloc_marks (usedblocks st3) st3) as (buf & Hbal & Hlen & Hbits);
    [rewrite (dk_used _ Hdk); lia|apply Hdk|].
  pose proof (build_stages Al t st1 st2 st3 _ Hd Hmk Hia Hadd Hbal) as Hbuild.
  pose proof (build_typed Al (Some t) Hb) as Hty. rewrite Hbuild in Hty.
  exists (put_sector 28 buf st3), A3, E3. split; [exact Hbuild|].
  destruct (shows_shape _ _ _ _ _ _ _ Hd Hs3) as [Hroot Hsh]. split.
  - split; [exact (proj1 (bitmap_phys st3 A3 buf HP3 Hlen))|exact (co_tree _ _ _ _ C3)| | | | |exact Hty|].
    + intros i Hi Hdi. destruct (co_data _ _ _ _ C3 i Hi Hdi) as [Hn Hby]. split; [exact Hn|]. intros k Hk.
      pose proof (core_range _ _ _ _ C3). simpl in Hi.
      rewrite (proj2 (bitmap_phys st3 A3 buf HP3 Hlen) i k); [by apply Hby|lia|exact Hk].
    + rewrite bitmap_sector by lia. exact (co_super _ _ _ _ C3).
    + intros i Hi. apply (co_nlink _ _ _ _ C3 i Hi).
    + split_and!; [exact (proj2 (shows_range _ _ _ _ _ _ _ Hs3))|exact Hroot|exact Hsh].
    + intros b Hbr. rewrite sector_put, decide_True by done. rewrite Hbits by lia. by rewrite (dk_used _ Hdk).
  - apply (shows_moves V 0 st3 A3 E3); [by apply (bitmap_moves _ _ _ [1])| |lia|exact Hs3].
    intros j e He _. apply (tr_ents _ _ _ _ (co_tree _ _ _ _ C3)) in He. lia.
Qed.

(** ** Counting entries *)
Definition tagged (E : Z → list dirent) (i : Z) : list (Z * dirent) := (λ e, (i, e)) <$> E i.

Lemma filter_tagged_length (P : Z * dirent → Prop) `{∀ p, Decision (P p)} (E : Z → list dirent) l :
  length (filter P (concat (tagged E <$> l))) = sum_list_with (λ i, length (filter (λ e, P (i, e)) (E i))) l.
Proof.
  induction l as [|i l IH]; [done|]. rewrite fmap_cons, concat_cons, filter_app, length_app, IH. simpl. f_equal.
  unfold tagged. clear IH. induction (E i) as [|e es IH]; [done|]. rewrite fmap_cons, !filter_cons.
  destruct (decide (P (i, e))); simpl; by rewrite IH.
Qed.

Lemma sum_list_ext {X} (f g : X → nat) l : (∀ x, x ∈ l → f x = g x) → sum_list_with f l = sum_list_with g l.
Proof.
  induction l as [|x l IH]; intros H; [done|]. simpl.
  rewrite H, IH; [done|intros; apply H; by apply list_elem_of_further|apply list_elem_of_here].
Qed.

Lemma elem_of_tagged E l p e : (p, e) ∈ concat (tagged E <$> l) ↔ p ∈ l ∧ e ∈ E p.
Proof.
  induction l as [|i l IH]; [simpl; rewrite !elem_of_nil; tauto|].
  rewrite fmap_cons, concat_cons, elem_of_app, IH, elem_of_cons. unfold tagged. rewrite list_elem_of_fmap. naive_solver.
Qed.

(** Entries tagged with another inode are not looked at. *)
Lemma filter_tagged_one (Q : dirent → Prop) `{∀ e, Decision (Q e)} (R : Z * dirent → Prop) `{∀ p, Decision (R p)} E l k :
  (∀ p, R p ↔ p.1 = k ∧ Q p.2) → NoDup l → k ∈ l →
  filter R (concat (tagged E <$> l)) = (λ e, (k, e)) <$> filter Q (E k).
Proof.
  intros HR Hnd (l1 & l2 & ->)%list_elem_of_split. rewrite fmap_app, concat_app, fmap_cons, concat_cons, !filter_app.
  apply NoDup_app in Hnd as (_ & H1 & [H2 _]%NoDup_cons).
  rewrite (filter_none R (concat (tagged E <$> l1))), (filter_none R (concat (tagged E <$> l2))).
  - rewrite app_nil_r. unfold tagged. simpl. induction (E k) as [|e es IH]; [done|]. rewrite fmap_cons, !filter_cons.
    destruct (decide (Q e)) as [Hq|Hq]; [rewrite decide_True by (by apply HR)|rewrite decide_False by (by rewrite HR; intros [_ ?])];
      rewrite IH; done.
  - intros [p e] [Hp _]%elem_of_tagged [Hk _]%HR. simpl in Hk. by subst p.
  - intros [p e] [Hp _]%elem_of_tagged [Hk _]%HR. simpl in Hk. subst p. by apply (H1 k Hp), list_elem_of_here.
Qed.

(** The "." and ".." of a directory as mkfs writes it. *)
Lemma shape_dots i p es : dir_shape i p es →
  filter is_dot es = [entry_for i dot] ∧ filter is_dotdot es = [entry_for p dotdot].
Proof.
  intros (es' & -> & Hpl). rewrite Forall_forall in Hpl.
  assert (∀ k, is_dot (entry_for k dot) ∧ ¬ is_dot (entry_for k dotdot) ∧
    is_dotdot (entry_for k dotdot) ∧ ¬ is_dotdot (entry_for k dot)) as Hd by done.
  rewrite !filter_cons.
  rewrite (decide_True (P := is_dot (entry_for i dot))), (decide_False (P := is_dot (entry_for p dotdot))),
    (decide_False (P := is_dotdot (entry_for i dot))), (decide_True (P := is_dotdot (entry_for p dotdot))) by apply Hd.
  rewrite !filter_none; [done|..]; intros e He; by apply Hpl in He as [? ?].
Qed.

Lemma NoDup_parts {X} (f : X → list Z) (l : list X) :
  NoDup l → (∀ x, x ∈ l → NoDup (f x)) → (∀ x y b, x ∈ l → y ∈ l → b ∈ f x → b ∈ f y → x = y) →
  NoDup (concat (f <$> l)).
Proof.
  induction 1 as [|x l Hx Hnd IH]; intros Hf Hdis; [apply NoDup_nil_2|]. rewrite fmap_cons, concat_cons.
  apply NoDup_app. split_and!.
  - apply Hf, list_elem_of_here.
  - intros b Hb Hb'. apply list_elem_of_In, in_concat in Hb' as (o & Ho & Hbo).
    apply list_elem_of_In, list_elem_of_fmap in Ho as (y & -> & Hy). apply list_elem_of_In in Hbo. apply Hx.
    rewrite (Hdis x y b); [done|apply list_elem_of_here|by apply list_elem_of_further|done|done].
  - apply IH; [intros; by apply Hf, list_elem_of_further|].
    intros y z b Hy Hz. apply Hdis; by apply list_elem_of_further.
Qed.

(** Among ordinary entries the references are the mentions. *)
Lemma filter_plain i k (l : list dirent) : Forall is_plain l → filter (λ e, refers k (i, e)) l = filter (mentions k) l.
Proof.
  induction 1 as [|e l [Hnd Hndd] _ IH]; [done|]. rewrite !filter_cons, IH.
  destruct (decide (mentions k e)) as [H|H]; [by rewrite decide_True by (by right)|].
  by rewrite decide_False by (intros [ [? _]|?]; done).
Qed.

Section Image.
Variables (st : fs) (A : Z → dinode) (E : Z → list dirent).
Hypothesis F : final st A E.
Local Abbreviation img := (image_of st).
Let HP := fi_phys _ _ _ F.
Let Ht := fi_typed _ _ _ F.
Let T := fi_tree _ _ _ F.

Lemma built_geometry : geometry img = Globals 1024 995 200 29 1024.
Proof.
  assert (∀ o : nat, (o ≤ 8)%nat → rd32 img (BSIZE + Z.of_nat o) = get32 super_bytes o) as Hrd.
  { intros o Ho. unfold rd32, get32. rewrite <- (fi_super _ _ _ F). rewrite <- (read_bytes st Ht 1) by lia.
    do 2 f_equal. }
  unfold geometry. pose proof (Hrd 0%nat ltac:(lia)) as H0. rewrite Z.add_0_r in H0.
  rewrite H0, (Hrd 4%nat ltac:(lia) : rd32 img (BSIZE + 4) = _), (Hrd 8%nat ltac:(lia) : rd32 img (BSIZE + 8) = _).
  reflexivity.
Qed.

Lemma inode_range : 1 < freeinode st ≤ 200.
Proof. pose proof (proj1 (fi_root _ _ _ F)). pose proof (bl_free _ _ (ph_blocks _ _ HP)). lia. Qed.

Lemma free_slot i : 0 ≤ i < 208 → i = 0 ∨ freeinode st ≤ i → A i = zero_dinode.
Proof. apply (bl_unused _ _ (ph_blocks _ _ HP)). Qed.

Lemma in_use_iff i : 0 ≤ i < 208 → in_use img i ↔ 1 ≤ i < freeinode st.
Proof.
  intros Hi. unfold in_use. rewrite (read_type st A HP Ht i Hi). split.
  - intros [Hne Hty]. split; [lia|]. apply Z.nle_gt. intros Hge. apply Hty. by rewrite free_slot by lia.
  - intros Hr. split; [lia|]. destruct (tr_types _ _ _ _ T i Hr) as [Hd|Hf]; [unfold isdir in Hd; by rewrite Hd|].
    unfold isfile in Hf. by rewrite Hf.
Qed.

Lemma is_dir_iff i : 0 ≤ i < 208 → is_dir img i ↔ 1 ≤ i < freeinode st ∧ isdir A i.
Proof.
  intros Hi. unfold is_dir. rewrite (read_type st A HP Ht i Hi). split; [|by intros [_ ?]].
  intros Hd. split; [|done]. apply in_use_iff; [done|]. split; [|rewrite (read_type st A HP Ht i Hi), Hd; done].
  intros ->. by rewrite free_slot in Hd by lia.
Qed.

Lemma entries_ok i : Forall dirent_wf (E i) ∧ Forall (λ e, de_inum e ≠ 0) (E i) ∧
  Forall (λ e, 1 ≤ de_inum e < freeinode st) (E i).
Proof.
  split_and!; apply Forall_forall; intros e He; apply (tr_ents _ _ _ _ T) in He as [? ?]; [done|lia|done].
Qed.

Lemma built_dir i : 1 ≤ i < freeinode st → isdir A i → dir_entries img i = E i.
Proof.
  intros Hi Hd. pose proof inode_range. destruct (entries_ok i) as (H1 & H2 & _).
  apply (read_dir st A HP Ht i (E i)); [lia|done|by apply F|done|done].
Qed.

Lemma built_inode_entries i : 0 ≤ i < 208 → inode_entries img i = tagged E i.
Proof.
  intros Hi. unfold inode_entries, tagged. destruct (decide (in_use img i)) as [Hu|Hu].
  - apply in_use_iff in Hu; [|done]. f_equal. destruct (tr_types _ _ _ _ T i Hu) as [Hd|Hf]; [by apply built_dir|].
    unfold dir_entries, entries_in. rewrite decide_False; [|intros [_ Hd]%is_dir_iff; [by destruct (isdir_not_file A i)|done]].
    by rewrite (proj1 (tr_file _ _ _ _ T i Hu Hf)).
  - rewrite in_use_iff in Hu by done. by rewrite (tr_none _ _ _ _ T) by done.
Qed.

Lemma built_all_entries : all_entries img = concat (tagged E <$> seqZ 1 199).
Proof.
  unfold all_entries. rewrite built_geometry. cbn [Fsck.ninodes].
  assert (inode_entries img <$> seqZ 0 200 = tagged E <$> seqZ 0 200) as ->.
  { apply list_fmap_ext. intros k i Hi. apply lookup_seqZ in Hi. apply built_inode_entries. lia. }
  change 200 with (1 + 199). rewrite seqZ_app by lia. rewrite fmap_app, concat_app. change (seqZ 0 1) with [0].
  rewrite fmap_cons, concat_cons. unfold tagged at 1. by rewrite (tr_none _ _ _ _ T) by lia.
Qed.

(** The root directory is referenced by its own ".", every other inode by
    ordinary entries. *)
Lemma built_refs k : refs (all_entries img) k = Z.of_nat (refcount E k) + (if decide (k = 1) then 1 else 0).
Proof.
  unfold refs. rewrite built_all_entries, filter_tagged_length. unfold refcount.
  assert (∀ i, i ≠ 1 ∨ k ≠ 1 → length (filter (λ e, refers k (i, e)) (E i)) = length (filter (mentions k) (E i))) as Hsame.
  { intros i Hor. f_equal. apply list_filter_iff. intros e. unfold refers, mentions, ROOTINO. simpl. naive_solver lia. }
  case_decide as Hk.
  - subst k. rewrite (sum_list_update (λ i, length (filter (mentions 1) (E i))) _ 1 1); [lia|apply NoDup_seqZ| | |].
    + apply elem_of_seqZ. lia.
    + destruct (fi_root _ _ _ F) as (_ & _ & es & -> & Hpl). rewrite !filter_cons.
      rewrite (decide_True (P := refers 1 (1, entry_for 1 dot))) by (by left).
      rewrite (decide_False (P := refers 1 (1, entry_for 1 dotdot))) by (intros [[H _]|[[_ H] _]]; [done|by apply H]).
      rewrite (decide_False (P := mentions 1 (entry_for 1 dot))) by (intros [[H _] _]; by apply H).
      rewrite (decide_False (P := mentions 1 (entry_for 1 dotdot))) by (intros [[_ H] _]; by apply H).
      simpl. rewrite Nat.add_1_r. do 2 f_equal. by apply filter_plain.
    + intros i Hi. apply Hsame. by left.
  - rewrite Z.add_0_r. f_equal. apply sum_list_ext. intros i _. apply Hsame. by right.
Qed.
(** ** Consistency *)
Lemma built_shape i : 1 ≤ i < freeinode st → isdir A i →
  ∃ p, 1 ≤ p ≤ i ∧ isdir A p ∧ dir_shape i p (E i) ∧ (i = 1 → p = 1) ∧ (i ≠ 1 → p < i ∧ ∃ e, e ∈ E p ∧ mentions i e).
Proof.
  intros Hi Hd. destruct (decide (i = 1)) as [->|Hne].
  - exists 1. destruct (fi_root _ _ _ F) as (? & ? & ?). split_and!; try done; lia.
  - destruct (tr_done _ _ _ _ T i Hi Hd) as (_ & p & Hp & Hpd & He & Hs).
    + by intros ?%list_elem_of_singleton.
    + exists p. split_and!; try done; try lia. intros _. split; [lia|done].
Qed.

Lemma built_dotdot i p : 1 ≤ i < freeinode st → dir_shape i p (E i) → FsckSpec.dotdot (all_entries img) i = p.
Proof.
  intros Hi Hs. pose proof inode_range. unfold FsckSpec.dotdot. rewrite built_all_entries.
  rewrite (filter_tagged_one is_dotdot (dotdot_of i) E (seqZ 1 199) i); [|done|apply NoDup_seqZ|apply elem_of_seqZ; lia].
  destruct (shape_dots i p (E i) Hs) as [_ ->]. done.
Qed.

Lemma elem_of_all_owned b : b ∈ all_owned img ↔ ∃ i, 0 ≤ i < 200 ∧ in_use img i ∧ b ∈ owned img i.
Proof.
  unfold all_owned. rewrite built_geometry. cbn [Fsck.ninodes]. rewrite list_elem_of_In, in_concat. split.
  - intros (o & (i & -> & Hi%elem_of_seqZ)%list_elem_of_In%list_elem_of_fmap & Hb%list_elem_of_In).
    exists i. split; [lia|]. unfold inode_owned in Hb. case_decide; [done|by apply not_elem_of_nil in Hb].
  - intros (i & Hi & Hu & Hb). exists (inode_owned img i). split.
    + apply list_elem_of_In, list_elem_of_fmap. exists i. split; [done|]. apply elem_of_seqZ. lia.
    + apply list_elem_of_In. unfold inode_owned. by rewrite decide_True.
Qed.

Lemma built_once : NoDup (all_owned img).
Proof.
  unfold all_owned. rewrite built_geometry. cbn [Fsck.ninodes].
  apply NoDup_parts; [apply NoDup_seqZ|..].
  - intros i Hi%elem_of_seqZ. unfold inode_owned. case_decide; [|apply NoDup_nil_2].
    apply (NoDup_owned st A HP Ht i). lia.
  - intros i j b Hi%elem_of_seqZ Hj%elem_of_seqZ. unfold inode_owned.
    case_decide; [|by intros ?%not_elem_of_nil]. case_decide; [|by intros _ ?%not_elem_of_nil].
    rewrite !(elem_of_owned st A HP Ht) by lia. apply (bl_disj _ _ (ph_blocks _ _ HP)); lia.
Qed.

Lemma built_bit b : 0 ≤ b < 1024 → bit_used img b = bool_decide (b < freeblock st).
Proof.
  intros Hb. unfold bit_used. rewrite built_geometry. cbn [Fsck.ninodes]. rewrite <- (fi_bits _ _ _ F b Hb).
  assert (BBLOCK b 200 * BSIZE + b mod BPB / 8 = 512 * 28 + Z.of_nat (Z.to_nat (b / 8))) as ->.
  { unfold BBLOCK. change BPB with 4096. change IPB with 8. change BSIZE with 512.
    rewrite (Z.mod_small b 4096), (Z.div_small b 4096) by lia. Z.div_mod_to_equations. lia. }
  assert (b / 8 < 512) by (Z.div_mod_to_equations; lia).
  rewrite (read_byte st Ht 28) by lia. done.
Qed.

Lemma owned_range i b : 0 ≤ i < 200 → b ∈ owned img i → 29 ≤ b < freeblock st ∧ freeblock st ≤ 1024.
Proof.
  intros Hi Hb. rewrite (elem_of_owned st A HP Ht) in Hb by lia. pose proof (ph_blocks _ _ HP) as HB.
  pose proof (dk_free _ (bl_disk _ _ HB)).
  pose proof (holds_range _ _ _ _ (bl_file _ _ HB i ltac:(lia)) Hb). lia.
Qed.

Lemma built_size i : 0 ≤ i < 200 → exact st A i → size_ok (Z.of_nat (length (data_blocks img i))) (inode_size img i).
Proof.
  intros Hi Hex. rewrite (read_data st A HP Ht), (read_size st A Ht) by (done || lia).
  pose proof (bl_size _ _ (ph_blocks _ _ HP) i ltac:(lia)) as Hs. pose proof (nblk_bounds _ Hs).
  rewrite length_fmap, length_seqZ, Z2Nat.id by lia. unfold size_ok, nblk, blocks_of. change BSIZE with 512.
  destruct (decide (di_size (A i) = 0)) as [->|Hne]; [by left|right]. Z.div_mod_to_equations. lia.
Qed.

Lemma bumped_size i :
  0 ≤ i < 200 → rinode i st = Done (bumped (A i)) → bumpable (A i) →
  ¬ size_ok (Z.of_nat (length (data_blocks img i))) (inode_size img i).
Proof.
  intros Hi Hr (_ & H0 & Hm). rewrite (read_data st A HP Ht), (read_stored_size st Ht i _ ltac:(lia) Hr) by lia.
  pose proof (bl_size _ _ (ph_blocks _ _ HP) i ltac:(lia)) as Hs. pose proof (nblk_bounds _ Hs).
  rewrite length_fmap, length_seqZ, Z2Nat.id by lia. simpl di_size. unfold size_ok, nblk, blocks_of. change BSIZE with 512.
  Z.div_mod_to_equations. lia.
Qed.

Lemma refcount_pos i : 1 ≤ i < freeinode st → 0 < refs (all_entries img) i.
Proof.
  intros Hi. rewrite built_refs. case_decide as H1; [lia|].
  assert (i ∉ [1]) as HiP by (by intros ?%list_elem_of_singleton).
  destruct (tr_types _ _ _ _ T i Hi) as [Hd|Hf].
  - destruct (tr_done _ _ _ _ T i Hi Hd HiP) as [-> _]. lia.
  - destruct (tr_file _ _ _ _ T i Hi Hf) as [_ Hn]. rewrite decide_False in Hn by done.
    pose proof (fi_nlink _ _ _ F i Hi). lia.
Qed.

Lemma built_structured : structured img.
Proof.
  pose proof inode_range as Hr. pose proof (ph_blocks _ _ HP) as HB. pose proof (dk_free _ (bl_disk _ _ HB)) as Hfree.
  assert (Fsck.ninodes (geometry img) = 200) as Hg by (by rewrite built_geometry).
  assert (∀ b, in_data_range img b ↔ 29 ≤ b < 1024) as Hrange.
  { intros b. unfold in_data_range. by rewrite built_geometry. }
  split; rewrite ?Hg.
  - by rewrite built_geometry.
  - intros i Hi. rewrite (read_type st A HP Ht) by lia. rewrite !elem_of_cons.
    destruct (decide (1 ≤ i < freeinode st)) as [Hu|Hu]; [|rewrite free_slot by lia; by left].
    destruct (tr_types _ _ _ _ T i Hu) as [Hd|Hf]; [right; by left|right; right; by left].
  - intros i b Hi Hu Hb. apply Hrange. apply owned_range in Hb; lia.
  - intros i b Hi Hu Hb. apply owned_range in Hb as [? ?]; [|lia]. rewrite built_bit by lia. apply bool_decide_eq_true. lia.
  - apply built_once.
  - intros i Hi Hu Hd. apply is_dir_iff in Hd as [Hu' Hd]; [|lia].
    destruct (built_shape i Hu' Hd) as (p & _ & _ & Hs & _). destruct (shape_dots i p (E i) Hs) as [Hd1 Hd2].
    unfold dir_format. rewrite built_dir, Hd1, Hd2 by done. split_and!; [|done|done].
    intros e He Hdot. assert (e ∈ filter is_dot (E i)) as Hf by (by apply list_elem_of_filter).
    rewrite Hd1 in Hf. by apply list_elem_of_singleton in Hf as ->.
  - intros b Hb Hbit. apply Hrange in Hb. rewrite built_bit in Hbit by lia. apply bool_decide_eq_true in Hbit.
    destruct (bl_cover _ _ HB b ltac:(lia)) as (i & Hi & Hh).
    assert (1 ≤ i < freeinode st) as Hu.
    { destruct (decide (1 ≤ i < freeinode st)); [done|]. rewrite free_slot in Hh by lia.
      destruct Hh as [(k & Hk & _)|[H _]]; unfold nblk in *; simpl in *; change (blocks_of 0) with 0 in *; lia. }
    apply elem_of_all_owned. exists i. split_and!; [lia|lia|by apply in_use_iff|]. by apply (elem_of_owned st A HP Ht).
  - intros i Hi. rewrite in_use_iff by lia. split; [apply refcount_pos|]. intros Hpos.
    split; [lia|]. apply Z.nle_gt. intros Hge. rewrite built_refs in Hpos. rewrite refcount_fresh in Hpos.
    + rewrite decide_False in Hpos by lia. lia.
    + intros j e He. apply (tr_ents _ _ _ _ T) in He. lia.
  - intros i Hi Hty. rewrite (read_type st A HP Ht) in Hty by lia. rewrite (read_nlink st A HP Ht), built_refs by lia.
    assert (1 ≤ i < freeinode st) as Hu.
    { destruct (decide (1 ≤ i < freeinode st)); [done|]. by rewrite free_slot in Hty by lia. }
    assert (i ≠ 1) as Hne by (intros ->; destruct (isdir_not_file A 1); [apply (fi_root _ _ _ F)|done]).
    destruct (tr_file _ _ _ _ T i Hu Hty) as [_ ->]. rewrite !decide_False; [done|done|]. by intros ?%list_elem_of_singleton.
  - intros i Hi Hd. apply is_dir_iff in Hd as [Hu Hd]; [|lia]. rewrite built_refs. case_decide as H1.
    + subst i. destruct (tr_pend _ _ _ _ T) as [_ Hp]. destruct (Hp 1 (list_elem_of_here _ _)) as [_ ->]; done.
    + destruct (tr_done _ _ _ _ T i Hu Hd) as [-> _]; [by intros ?%list_elem_of_singleton|done].
  - intros _ _. destruct (fi_root _ _ _ F) as (? & _ & Hs). apply built_dotdot; [unfold ROOTINO; lia|done].
  - intros i Hi Hd. apply is_dir_iff in Hd as [Hu Hd]; [|lia].
    destruct (built_shape i Hu Hd) as (p & Hp & _ & Hs & _ & Hpar). destruct (Hpar ltac:(lia)) as (Hlt & e & He & Hpl & Hin).
    exists p, e. rewrite built_all_entries, elem_of_tagged, elem_of_seqZ.
    split_and!; [lia|lia|done|done|done|]. rewrite <- built_all_entries. by apply built_dotdot.
  - intros i Hi Hd. apply is_dir_iff in Hd as [Hu Hd]; [|lia]. revert Hu Hd.
    induction (Z.lt_wf 0 i) as [j _ IH]. intros Hu Hd.
    destruct (built_shape j Hu Hd) as (p & Hp & Hpd & Hs & Hroot & Hpar).
    destruct (decide (j = 1)) as [->|Hne]; [apply reaches_root|].
    apply reaches_step; rewrite (built_dotdot j p Hu Hs); [lia|]. apply IH; [lia|lia|lia|done].
Qed.

(** The readers' side conditions. *)
Lemma built_inums i e : 0 ≤ i < 200 → in_use img i → e ∈ dir_entries img i → de_inum e < 200.
Proof.
  intros Hi Hu He. pose proof inode_range. apply in_use_iff in Hu; [|lia].
  destruct (tr_types _ _ _ _ T i Hu) as [Hd|Hf].
  - rewrite built_dir in He by done. apply (tr_ents _ _ _ _ T) in He. lia.
  - unfold dir_entries, entries_in in He. rewrite decide_False in He; [by apply not_elem_of_nil in He|].
    intros [_ ?]%is_dir_iff; [by destruct (isdir_not_file A i)|lia].
Qed.

Lemma built_readable : representable img ∧ well_mapped img ∧ entries_inside img.
Proof.
  assert (map_len img = 524288) as Hlen by (unfold map_len; simpl; destruct Ht as [-> _]; by vm_compute).
  split_and!.
  - by split; rewrite built_geometry.
  - split; rewrite ?Hlen, built_geometry; [done|done|]. intros i e Hi Hu He. simpl in *.
    pose proof (built_inums i e Hi Hu He). lia.
  - intros i e. rewrite built_geometry. apply built_inums.
Qed.
End Image.

(** ** Which inodes are stored with a size that is too large *)
Section Sizes.
Variables (V : Z → list Z → Prop) (st : fs) (A : Z → dinode) (E : Z → list dirent).
Hypothesis F : final st A E.

(** The entries of a directory that shows a host directory are its children. *)
Lemma match_child R l es e :
  match_entries R l es → e ∈ es → ∃ p, p ∈ l ∧ ¬ skipped p.1 ∧ R p.2 (de_inum e).
Proof.
  revert es. induction l as [|[name c] l IH]; intros es Hm He; simpl in Hm; [subst; by apply not_elem_of_nil in He|].
  case_decide as Hs.
  { destruct (IH es Hm He) as (p & Hp & ?). exists p. split; [by apply list_elem_of_further|done]. }
  destruct es as [|e' es]; [done|]. destruct Hm as [(_ & _ & HR) Hm]. apply elem_of_cons in He as [->|He].
  - exists (name, c). split; [apply list_elem_of_here|done].
  - destruct (IH es Hm He) as (p & Hp & ?). exists p. split; [by apply list_elem_of_further|done].
Qed.

Lemma live_all_elem f l p : live_all f l = true → p ∈ l → ¬ skipped p.1 → f p = true.
Proof.
  induction l as [|q l IH]; simpl; [by intros _ ?%not_elem_of_nil|].
  intros [H1 H2]%andb_prop [->|Hp]%elem_of_cons Hs; [by rewrite decide_False in H1|by apply IH].
Qed.

(** Every directory of the image shows a directory of the host tree. *)
Lemma directory_shown t i :
  is_directory t = true → no_full t = true → shows V st A E t 1 1 → 1 ≤ i < freeinode st → isdir A i →
  ∃ h par, is_directory h = true ∧ no_full h = true ∧ shows V st A E h i par.
Proof.
  intros Ht Hnf Hs. induction (Z.lt_wf 0 i) as [i _ IH]. intros Hi Hd.
  destruct (decide (i = 1)) as [->|Hne]; [by exists t, 1|].
  destruct (tr_done _ _ _ _ (fi_tree _ _ _ F) i Hi Hd) as [_ (p & Hp & Hpd & (e & He & Hpl & <-) & _)];
    [by intros ?%list_elem_of_singleton|].
  destruct (IH p) as (h & par & Hh & Hnh & Hsh); [lia|lia|done|].
  destruct h as [[l|]| |]; [| |done|done].
  - destruct Hsh as (_ & _ & _ & es & HE & Hm). rewrite HE in He.
    apply elem_of_cons in He as [->|He]; [by destruct (proj1 (dot_names p))|].
    apply elem_of_cons in He as [->|He]; [by destruct (proj2 (dot_names par))|].
    destruct (match_child _ _ _ _ Hm He) as (q & Hq & Hsk & Hsq). cbn [no_full] in Hnh. apply andb_prop in Hnh as [_ Hnh].
    exists q.2, p. split_and!; [|by apply (live_all_elem _ _ _ Hnh)|done].
    destruct (q.2); [done| |by destruct Hsq]. destruct Hsq as (_ & Hf & _). by destruct (isdir_not_file A (de_inum e)).
  - destruct Hsh as (_ & _ & _ & HE). rewrite HE in He.
    apply elem_of_cons in He as [->|He]; [by destruct (proj1 (dot_names p))|].
    apply list_elem_of_singleton in He as ->. by destruct (proj2 (dot_names par)).
Qed.

Lemma all_exact t i :
  is_directory t = true → no_full t = true → shows V st A E t 1 1 → 1 ≤ i < freeinode st → exact st A i.
Proof.
  intros Ht Hnf Hs Hi. pose proof (inode_range st A E F) as Hr.
  destruct (tr_types _ _ _ _ (fi_tree _ _ _ F) i Hi) as [Hd|Hf]; [|apply file_exact; [apply F|lia|done]].
  destruct (directory_shown t i Ht Hnf Hs Hi Hd) as (h & par & Hh & Hnh & Hsh). destruct h as [[l|]| |]; [| |done|done].
  - destruct Hsh as (_ & _ & Hx & _). unfold rounded in Hx. cbn [no_full] in Hnh. apply andb_prop in Hnh as [Hn _].
    apply bool_decide_eq_true_1 in Hn. by rewrite decide_False in Hx.
  - by destruct Hsh as (_ & _ & Hx & _).
Qed.

(** A directory that fills its blocks leaves an inode with a wrong size. *)
Lemma some_bumped h i par :
  no_full h = false → shows V st A E h i par →
  ∃ j, 1 ≤ j < freeinode st ∧ bumpable (A j) ∧ rinode j st = Done (bumped (A j)).
Proof.
  revert i par. induction h as [|l IH|ino nl data|] using host_tree_ind; intros i par Hnf Hsh; try done.
  destruct Hsh as (Hi & _ & Hx & es & _ & Hm). cbn [no_full] in Hnf. apply andb_false_iff in Hnf as [Hn|Hn].
  - apply bool_decide_eq_false_1 in Hn. unfold rounded in Hx. destruct (decide (full_blocks (2 + entry_count l))); [|done].
    by exists i.
  - clear Hx. revert es Hm Hn. induction IH as [|[name c] l Hc _ IHl]; intros es Hm Hn; [done|].
    cbn [live_all match_entries fst snd] in Hn, Hm. case_decide; [by apply (IHl es)|].
    destruct es as [|e es]; [done|]. destruct Hm as [(_ & _ & HR) Hm].
    apply andb_false_iff in Hn as [Hn|Hn]; [by eapply Hc|by apply (IHl es)].
Qed.

Lemma consistent_iff t :
  is_directory t = true → shows V st A E t 1 1 → consistent (image_of st) ↔ no_full t = true.
Proof.
  intros Hd Hs. pose proof (inode_range st A E F) as Hr.
  assert (Fsck.ninodes (geometry (image_of st)) = 200) as Hg by (rewrite (built_geometry st A E F); reflexivity).
  split; intros H.
  - destruct (no_full t) eqn:Hnf; [reflexivity|]. exfalso. destruct (some_bumped t 1 1 Hnf Hs) as (j & Hj & Hbj & Hrj).
    apply (bumped_size st A E F j ltac:(lia) Hrj Hbj). apply (c_size _ H); [lia|]. apply (in_use_iff st A E F); lia.
  - split; [exact (built_structured st A E F)|]. intros i Hi Hu. rewrite Hg in Hi. apply (in_use_iff st A E F) in Hu; [|lia].
    exact (built_size st A E F i Hi (all_exact t i Hd H Hs Hu)).
Qed.
End Sizes.

(** ** Results *)

(** C11: what mkfs builds and what myfsck says of it.  For every host tree that
    fits the image (readable, names without NUL, files and directories of at
    most 140 blocks, demand within 199 inodes and 995 data blocks counting
    every name as a file of its own), as long as the copy reads no pointer
    that [malloc] left in its memory, the copy completes, and everything about the image but the sizes is right:
    blocks are owned once and marked exactly, link counts match the entries,
    every directory is reachable through "..".  myfsck accepts the image if
    no directory exactly fills its blocks, and then the image is consistent;
    otherwise it rejects it, always for the size of a directory, which mkfs
    has rounded up by one block too many.  No garbage is read when [malloc]
    hands out memory with a NULL in the place of [next], which it does not
    promise, or, whatever it hands out, when every file but the last has at
    least two names, all of them in the tree and one after the other (a file
    with a single name never leaves the list, so two such files already need
    the NULL). *)
Theorem built_tree_verdict Al t :
  fits t = true → reads_no_garbage Al t →
  ∃ st, build Al (Some t) = Done st ∧ structured (image_of st) ∧
    (consistent (image_of st) ↔ no_full t = true) ∧
    check_image (image_of st) = if no_full t then Done tt else Exit bad_file_size_error.
Proof.
  intros Hfits Hal. destruct (build_final Al _ t Hfits Hal (host_valid_any t)) as (st & A & E & Hb & F & Hs).
  exists st. pose proof (built_structured st A E F) as Hst. destruct (built_readable st A E F) as (Hrep & Hwm & _).
  pose proof (consistent_iff _ st A E F t (fits_directory t Hfits) Hs) as Hiff.
  split; [exact Hb|]. split; [exact Hst|]. split; [exact Hiff|]. pose proof (check_image_wp (image_of st) Hrep) as H.
  destruct (check_image (image_of st)) as [[]|e|]; simpl in H; [| |destruct (H Hwm)].
  - apply Hiff in H. rewrite H. reflexivity.
  - pose proof (violates_inconsistent _ e H) as Hn. rewrite (violates_structured _ e Hst H).
    destruct (no_full t); [|reflexivity]. destruct Hn. apply Hiff. reflexivity.
Qed.

(** A tree with a hard link and a large file is accepted, one with a
    directory of 30 files is rejected, both with zeroed memory; a tree whose
    names come one by one is accepted although [malloc] leaves pointers to
    memory that is not in use. *)
Lemma built_tree_verdict_witness :
  (∃ st, build zeroed (Some mixed_tree) = Done st ∧ check_image (image_of st) = Done tt) ∧
  (∃ st, build zeroed (Some (flat_tree 30)) = Done st ∧ check_image (image_of st) = Exit bad_file_size_error) ∧
  (∃ st, build dirty (Some grouped_tree) = Done st ∧ check_image (image_of st) = Done tt).
Proof.
  assert (null_next zeroed) as Hz by (intros st; reflexivity). split; [|split].
  - destruct (built_tree_verdict zeroed mixed_tree) as (st & Hb & _ & _ & Hc); [vm_compute; reflexivity|left; exact Hz|].
    exists st. split; [exact Hb|exact Hc].
  - destruct (built_tree_verdict zeroed (flat_tree 30)) as (st & Hb & _ & _ & Hc); [vm_compute; reflexivity|left; exact Hz|].
    exists st. split; [exact Hb|exact Hc].
  - destruct (built_tree_verdict dirty grouped_tree) as (st & Hb & _ & _ & Hc);
      [vm_compute; reflexivity|right; vm_compute; reflexivity|].
    exists st. split; [exact Hb|exact Hc].
Defined.

