(* ===== verification/MkfsFaithful.v ===== *)
(** * The image is the host tree

    What a reader of the image finds is what the host tree holds: the names
    (cut to 14 bytes) in the order of the host directory, the contents of
    every file, and a listing by lsfs that is the outline of the host tree. *)
From S2P Require Import Prelude CInt FsLayout Image Fsck FsckSpec FsckProof FsckTheorems Lsfs LsfsProof LsfsTheorems Mkfs MkfsTheorems MkfsHost MkfsTyped MkfsLinks MkfsPhysical MkfsTree MkfsCopy MkfsShows MkfsAddDir MkfsReads MkfsConsistent.
Import Mk.

(** ** What a reader finds *)

(** The contents of a file: the bytes of its blocks, up to its size. *)
Definition contents (img : image) (i : Z) : list Z :=
  take (Z.to_nat (inode_size img i)) (concat ((λ b, rd_bytes img (b * BSIZE) 512) <$> data_blocks img i)).

(** Inode [i] of the image holds the host tree [h]; [par] is what its ".."
    names. *)
Fixpoint image_shows (img : image) (h : host) (i par : Z) {struct h} : Prop :=
  match h with
  | HDir entries =>
      inode_type img i = T_DIR ∧
      ∃ es, dir_entries img i = entry_for i dot :: entry_for par dotdot :: es ∧
        match entries with
        | None => es = []
        | Some l => match_entries (λ c k, image_shows img c k i) l es
        end
  | HFile _ _ data =>
      inode_type img i = T_FILE ∧ inode_size img i = Z.of_nat (length data) ∧ contents img i = data
  | HUnreadable => False
  end.

(** All names of a host inode have the contents [D] gives it: names are
    copied once per host inode number, and that number is cut to 32 bits. *)
Fixpoint same_contents (D : Z → list Z) (h : host) : bool :=
  match h with
  | HDir (Some l) => live_all (λ p, same_contents D p.2) l
  | HFile ino nlink data => bool_decide (nlink > 0 → data = D (u32 ino))
  | _ => true
  end.

Definition contents_of (D : Z → list Z) (host : Z) (data : list Z) : Prop := data = D host.

Lemma same_contents_valid D h : same_contents D h = true → host_valid (contents_of D) h.
Proof.
  induction h as [|l IH|ino nl data|] using host_tree_ind; intros Hs; try done.
  - cbn [same_contents] in Hs. induction IH as [|p l Hp _ IHl]; [done|]. cbn [live_all] in Hs.
    apply andb_prop in Hs as [H1 H2]. apply host_valid_cons. split; [|by apply IHl].
    intros Hsk. rewrite decide_False in H1 by done. by apply Hp.
  - cbn [same_contents] in Hs. apply bool_decide_eq_true_1 in Hs. simpl. unfold file_shows. case_decide; [by apply Hs|done].
Qed.

(** ** From the builder's view to the reader's *)
Section Bridge.
Variables (st : fs) (A : Z → dinode) (E : Z → list dirent).
Hypothesis F : final st A E.
Local Abbreviation img := (image_of st).
Let HP := fi_phys _ _ _ F.
Let Ht := fi_typed _ _ _ F.

(** The blocks of a file, one after the other. *)
Lemma file_blocks_bytes i (m : nat) :
  0 ≤ i < 208 → Z.of_nat m ≤ nblk (A i) →
  concat ((λ b, rd_bytes img (b * BSIZE) 512) <$> (addr_of st (A i) <$> seqZ 0 (Z.of_nat m))) =
  byte_at st (A i) <$> seqZ 0 (512 * Z.of_nat m).
Proof.
  intros Hi. destruct (file_i st A HP i Hi) as (Hf & Hn & Hfree).
  induction m as [|m IH]; intros Hm; [done|]. rewrite seqZ_S, !fmap_app, concat_app, IH by lia. clear IH.
  replace (512 * Z.of_nat (S m)) with (512 * Z.of_nat m + 512) by lia. rewrite (seqZ_app 0 _ 512), fmap_app by lia. f_equal.
  rewrite !fmap_cons, concat_cons. change (concat _) with (@nil Z). rewrite app_nil_r.
  set (b := addr_of st (A i) (0 + Z.of_nat m)).
  assert (29 ≤ b < freeblock st) as Hb by (apply (fo_range _ _ _ Hf); lia).
  replace (b * BSIZE) with (512 * b + Z.of_nat 0) by (unfold BSIZE; lia). rewrite (read_bytes st Ht b 0 512) by lia.
  pose proof (typed_sector st b Ht) as [Hl _]. unfold slice. rewrite drop_0, take_ge by lia.
  apply list_eq. intros k. rewrite list_lookup_fmap. destruct (decide (k < 512)%nat).
  - rewrite lookup_seqZ_lt by lia. simpl. unfold byte_at.
    replace ((0 + 512 * Z.of_nat m + Z.of_nat k) / 512) with (0 + Z.of_nat m) by (Z.div_mod_to_equations; lia).
    replace (Z.to_nat ((0 + 512 * Z.of_nat m + Z.of_nat k) mod 512)) with k by (Z.div_mod_to_equations; lia). fold b.
    rewrite nth_lookup. destruct (lookup_lt_is_Some_2 (sector st b) k) as [x Hx]; [lia|]. by rewrite Hx.
  - rewrite lookup_seqZ_ge by lia. apply lookup_ge_None_2. lia.
Qed.

Lemma contents_bytes i : 0 ≤ i < 208 → exact st A i → contents img i = file_bytes st (A i).
Proof.
  intros Hi Hex. unfold contents, file_bytes. rewrite (read_size st A Ht), (read_data st A HP Ht) by done.
  pose proof (bl_size _ _ (ph_blocks _ _ HP) i Hi) as Hs. pose proof (nblk_bounds _ Hs) as Hn.
  replace (nblk (A i)) with (Z.of_nat (Z.to_nat (nblk (A i)))) by lia. rewrite file_blocks_bytes by lia.
  rewrite <- fmap_take. f_equal.
  assert (di_size (A i) ≤ 512 * nblk (A i)) as Hle by (unfold nblk, blocks_of; Z.div_mod_to_equations; lia).
  replace (512 * Z.of_nat (Z.to_nat (nblk (A i)))) with (di_size (A i) + (512 * nblk (A i) - di_size (A i))) by lia.
  rewrite seqZ_app by lia. apply take_app_length'. rewrite length_seqZ. lia.
Qed.

Lemma shows_image D h :
  same_contents D h = true → ∀ i par, shows (contents_of D) st A E h i par → image_shows img h i par.
Proof.
  induction h as [|l IH|ino nl data|] using host_tree_ind; intros Hsame i par [Hi Hsh]; pose proof (inode_range st A E F); [| | |done].
  - destruct Hsh as (Hd & _ & HE). split; [rewrite (read_type st A HP Ht) by lia; done|].
    exists []. by rewrite (built_dir st A E F), HE.
  - destruct Hsh as (Hd & _ & es & HE & Hm). split; [rewrite (read_type st A HP Ht) by lia; done|].
    exists es. rewrite (built_dir st A E F) by done. split; [done|]. eapply match_mono; [|exact Hm].
    clear Hm HE. cbn [same_contents] in Hsame. induction IH as [|p l Hp _ IHl]; constructor.
    + cbn [live_all] in Hsame. apply andb_prop in Hsame as [H1 _]. intros Hsk e _ _. rewrite decide_False in H1 by done.
      by apply Hp.
    + cbn [live_all] in Hsame. apply andb_prop in Hsame as [_ H2]. by apply IHl.
  - destruct Hsh as [Hf Hb]. cbn [same_contents] in Hsame. apply bool_decide_eq_true_1 in Hsame.
    assert (file_bytes st (A i) = data) as Hdata.
    { unfold file_shows in Hb. case_decide; [|done]. rewrite Hsame by done. exact Hb. }
    assert (exact st A i) as Hex by (apply file_exact; [done|lia|done]). split_and!.
    + rewrite (read_type st A HP Ht) by lia. done.
    + rewrite (read_size st A Ht), <- Hdata by (done || lia). unfold file_bytes. rewrite length_fmap, length_seqZ.
      pose proof (bl_size _ _ (ph_blocks _ _ HP) i ltac:(lia)). lia.
    + rewrite contents_bytes by (done || lia). done.
Qed.
End Bridge.

(** ** The listing *)

(** A line without its link count: the path, and the size of a file. *)
Definition outline (l : Ls.line) : list Z * option Z :=
  match l with
  | Ls.LDir path _ => (path, None)
  | Ls.LFile path size _ => (path, Some size)
  | Ls.LDev path _ _ => (path, None)
  | Ls.LSuper _ _ _ => ([], None)
  end.

(** The outline of a host tree: the tree in the order of its entries, names
    cut to 14 bytes, paths built as lsfs does. *)
Fixpoint host_outline (h : host) (path : list Z) : list (list Z * option Z) :=
  match h with
  | HDir None => [(path, None)]
  | HDir (Some l) => (path, None) :: live_concat (λ p, host_outline p.2 (Ls.childpath path (take 14 p.1))) l
  | HFile _ _ data => [(path, Some (Z.of_nat (length data)))]
  | HUnreadable => []
  end.

Local Abbreviation outlines ls := (outline <$> (snd <$> ls)).

(** The lines of one entry. *)
Lemma entry_outline img rec path e name c :
  is_plain e → e = entry_for (de_inum e) name → 0 ∉ name → (∃ p, image_shows img c (de_inum e) p) →
  (is_directory c = true → outlines (rec (de_inum e) (Ls.childpath path (take 14 name))) =
     host_outline c (Ls.childpath path (take 14 name))) →
  outlines (entry_lines img rec path e) = host_outline c (Ls.childpath path (take 14 name)).
Proof.
  intros Hp He H0 (p & Hs) Hrec.
  unfold entry_lines. rewrite decide_True by done.
  assert (cstring (de_name e) = take 14 name) as -> by (rewrite He; simpl; by apply cstring_name).
  destruct c as [entries|ino nlink data|]; [| |done].
  - destruct Hs as [Hty _]. rewrite decide_True by done. by apply Hrec.
  - destruct Hs as (Hty & Hsz & _). rewrite Hty. rewrite decide_False, decide_True by done. simpl. by rewrite Hsz.
Qed.

Lemma entry_lines_dot img rec path k : entry_lines img rec path (entry_for k dot) = [].
Proof. unfold entry_lines. rewrite decide_False; [done|]. apply dot_names. Qed.
Lemma entry_lines_dotdot img rec path k : entry_lines img rec path (entry_for k dotdot) = [].
Proof. unfold entry_lines. rewrite decide_False; [done|]. apply dot_names. Qed.

(** The listing of an inode that holds a host directory is its outline. *)
Lemma listing_outline img h : ∀ depth i par path,
  is_directory h = true → host_good h = true → image_shows img h i par → 1 + need_inodes h ≤ Z.of_nat depth →
  outlines (listing img depth i path) = host_outline h path.
Proof.
  induction h as [|l IH|ino nl data|] using host_tree_ind; intros depth i par path Hd Hg Hsh Hdep; [| |done|done].
  - destruct depth as [|depth]; [simpl in Hdep; lia|]. destruct Hsh as (_ & es & HE & ->). cbn [listing]. rewrite HE.
    rewrite !fmap_cons, !concat_cons, entry_lines_dot, entry_lines_dotdot. done.
  - destruct depth as [|depth]; [pose proof (need_inodes_nonneg (HDir (Some l))); lia|].
    destruct Hsh as (_ & es & HE & Hm). cbn [listing host_outline need_inodes] in *. rewrite HE.
    rewrite !fmap_cons, !concat_cons, entry_lines_dot, entry_lines_dotdot. cbn [app].
    f_equal. cbn [host_good] in Hg. apply andb_prop in Hg as [_ Hg]. clear HE Hd.
    revert es Hm Hg Hdep. induction IH as [|[name c] l Hc _ IHl]; intros es Hm Hg Hdep; [simpl in Hm; by subst|].
    cbn [match_entries live_all live_concat live_sum fst snd] in *. apply andb_prop in Hg as [Hg Hgl].
    case_decide as Hsk; [by apply IHl|]. destruct es as [|e es]; [done|]. destruct Hm as [(Hpl & He & Hs) Hm].
    apply andb_prop in Hg as [H0%bool_decide_eq_true_1 Hgc].
    assert (0 ≤ live_sum (λ p, 1 + need_inodes p.2) l) by (apply live_needs_nonneg). pose proof (need_inodes_nonneg c).
    rewrite fmap_cons, concat_cons, !fmap_app. f_equal; [|apply IHl; [done|done|lia]].
    apply (entry_outline img _ _ _ _ _ Hpl He H0); [eauto|]. intros Hdc. eapply Hc; [done|done|exact Hs|lia].
Qed.

(** ** Result *)

(** C12: the copy is faithful.  For every host tree that fits, in which files
    whose inode numbers are equal modulo 2^32 have the same contents [D], and
    as long as the copy reads no pointer that [malloc] left in its memory,
    mkfs completes and the
    root directory of the image holds the host tree: every directory has "."
    and "..", then one entry per entry of the host directory, in the same
    order, under the name cut to 14 bytes; every file has the size and the
    contents of the host file, also when it was reached by a hard link.  Even
    where mkfs gets the size of a directory wrong, lsfs
    prints the outline of the host tree: the same paths in the same order,
    and the sizes of the files. *)
Theorem copy_faithful Al D t depth :
  fits t = true → reads_no_garbage Al t → same_contents D t = true → (200 ≤ depth)%nat →
  ∃ st lines, build Al (Some t) = Done st ∧ image_shows (image_of st) t ROOTINO ROOTINO ∧
    Ls.main depth 2 (Some (Some (image_of st))) = Done (Ls.LSuper 1024 995 200 :: lines) ∧
    outline <$> lines = host_outline t [].
Proof.
  intros Hfits Hal Hsame Hdepth.
  destruct (build_final Al _ t Hfits Hal (same_contents_valid D t Hsame)) as (st & A & E & Hb & F & Hshow).
  pose proof (shows_image st A E F D t Hsame 1 1 Hshow) as Hsh. set (img := image_of st).
  pose proof (built_structured st A E F) as Hc. destruct (built_readable st A E F) as (Hrep & Hwm & Hin).
  pose proof (built_geometry st A E F) as Hg. fold img in Hc, Hrep, Hwm, Hin, Hg, Hsh.
  assert (Fsck.ninodes (geometry img) = 200) as Hn by (by rewrite Hg).
  unfold fits in Hfits. rewrite !andb_true_iff, bool_decide_eq_true in Hfits. destruct Hfits as [[[Hd _] Hgood] [Hni _]].
  assert (used_dir img ROOTINO) as Hroot.
  { split; [unfold ROOTINO; lia|]. destruct t as [entries| |]; [exact (proj1 Hsh)|discriminate Hd..]. }
  exists st, (snd <$> listing img depth ROOTINO []). split_and!; [exact Hb|exact Hsh| |].
  - fold img. rewrite (main_lines img depth Hrep Hwm).
    rewrite (ls_dir_listing img Hrep Hwm Hc Hin depth ROOTINO 0 [] Hroot); [|constructor|lia].
    unfold superblock_line. rewrite Hg. reflexivity.
  - apply (listing_outline img t depth ROOTINO ROOTINO []); [done|done|exact Hsh|lia].
Qed.

(** A file with two names, in different directories, and a large file. *)
Definition mixed_contents (host : Z) : list Z :=
  if decide (host = 5) then [104; 105] else replicate (Z.to_nat 7000) 65.

Lemma copy_faithful_witness :
  ∃ st (lines : list Ls.line), build zeroed (Some mixed_tree) = Done st ∧
    image_shows (image_of st) mixed_tree ROOTINO ROOTINO ∧
    outline <$> lines = [([], None); ([47; 97], Some 2); ([47; 98], None); ([47; 98; 47; 99], Some 2); ([47; 100], Some 7000)].
Proof.
  destruct (copy_faithful zeroed mixed_contents mixed_tree 200) as (st & lines & Hb & Hs & _ & Hl);
    [vm_compute; reflexivity|left; intros st; reflexivity|vm_compute; reflexivity|lia|].
  exists st, lines. split; [exact Hb|]. split; [exact Hs|]. rewrite Hl. vm_compute. reflexivity.
Defined.
