(* ===== verification/ProcText.v ===== *)
(** * Text at the proc interface

    What the three kernel modules use to talk to user space: decimal
    formatting ([scnprintf] with "%d" and "%lu"), the parsers ([strim],
    [kstrtoint], [sscanf]), and the formatting loop and read window of their
    [my_read] handlers, proved once against an interface ([ProcEntry]) that
    each module instantiates. *)
From S2P Require Import Prelude CInt.

(** ** Decimal digits *)
Definition is_digit (c : Z) : Prop := 48 ≤ c ≤ 57.

(** [dec_digits fuel n]: the digits of [n], at most [fuel] + 1 of them. *)
Fixpoint dec_digits (fuel : nat) (n : Z) : list Z :=
  match fuel with
  | O => [48 + n mod 10]
  | S fuel' =>
      if decide (n < 10) then [48 + n] else dec_digits fuel' (n / 10) ++ [48 + n mod 10]
  end.

(** "%lu": an unsigned 64-bit value has at most 20 digits. *)
Definition fmt_lu (n : Z) : list Z := dec_digits 20 n.
(** "%d". *)
Definition fmt_d (n : Z) : list Z := if decide (n < 0) then 45 :: fmt_lu (- n) else fmt_lu n.

(** The value of a run of digits, and the rest of the string after it. *)
Fixpoint digits_value (acc : Z) (s : list Z) : Z * list Z :=
  match s with
  | c :: s' => if decide (is_digit c) then digits_value (10 * acc + (c - 48)) s' else (acc, s)
  | [] => (acc, [])
  end.

(** The kernel's [isspace]. *)
Definition is_space (c : Z) : Prop := (9 ≤ c ≤ 13) ∨ c = 32 ∨ c = 160.
#[export] Instance is_space_dec c : Decision (is_space c).
Proof. unfold is_space. apply _. Defined.
#[export] Instance is_digit_dec c : Decision (is_digit c).
Proof. unfold is_digit. apply _. Defined.

Fixpoint skip_spaces (s : list Z) : list Z :=
  match s with
  | c :: s' => if decide (is_space c) then skip_spaces s' else s
  | [] => []
  end.

(** [strim] used as a statement: the buffer loses its trailing white space;
    the pointer past the leading white space is its result, which the
    callers in this repository discard. *)
Definition strim_in_place (s : list Z) : list Z := reverse (skip_spaces (reverse s)).

(** [kstrtoint] in base 10: an optional sign, at least one digit, at most
    one newline, nothing else, and a value that fits an [int]. *)
Definition kstrtoint (s : list Z) : option Z :=
  let '(neg, s1) :=
    match s with
    | c :: s' => if decide (c = 45) then (true, s') else if decide (c = 43) then (false, s') else (false, s)
    | [] => (false, [])
    end in
  match s1 with
  | c :: _ =>
      if decide (is_digit c) then
        let '(v, rest) := digits_value 0 s1 in
        let v' := if neg : bool then - v else v in
        if decide (rest = [] ∨ rest = [10]) then
          if decide (- 2 ^ 31 ≤ v' < 2 ^ 31) then Some v' else None
        else None
      else None
  | [] => None
  end.

(** ** sscanf

    The directives the modules use: a literal character, white space, "%d"
    and "%c". *)
Inductive directive := Lit (c : Z) | Space | ConvD | ConvC.

(** "%d": white space, an optional minus sign, at least one digit; the value
    is stored in an [int]. *)
Definition scan_int (s : list Z) : option (Z * list Z) :=
  let s1 := skip_spaces s in
  let '(neg, s2) :=
    match s1 with
    | c :: s' => if decide (c = 45) then (true, s') else (false, s1)
    | [] => (false, [])
    end in
  match s2 with
  | c :: _ =>
      if decide (is_digit c) then
        let '(v, rest) := digits_value 0 s2 in
        Some (s32 (if neg : bool then - v else v), rest)
      else None
  | [] => None
  end.

(** The number of conversions made, and the integers stored. *)
Fixpoint sscanf (fmt : list directive) (s : list Z) : nat * list Z :=
  match fmt with
  | [] => (0%nat, [])
  | Lit c :: fmt' =>
      match s with
      | c' :: s' => if decide (c = c') then sscanf fmt' s' else (0%nat, [])
      | [] => (0%nat, [])
      end
  | Space :: fmt' => sscanf fmt' (skip_spaces s)
  | ConvC :: fmt' =>
      match s with
      | _ :: s' => let '(n, vs) := sscanf fmt' s' in (S n, vs)
      | [] => (0%nat, [])
      end
  | ConvD :: fmt' =>
      match scan_int s with
      | Some (v, s') => let '(n, vs) := sscanf fmt' s' in (S n, v :: vs)
      | None => (0%nat, [])
      end
  end.

(** ** Facts about decimal text *)
Definition ends_number (rest : list Z) : Prop := ∀ c, head rest = Some c → ¬ is_digit c.

Lemma digits_value_app acc ds rest :
  Forall is_digit ds → ends_number rest →
  digits_value acc (ds ++ rest) = (fold_left (λ a c, 10 * a + (c - 48)) ds acc, rest).
Proof.
  intros Hds Hrest. revert acc. induction Hds as [|c ds Hc _ IH]; intros acc; simpl.
  - destruct rest as [|c rest]; [done|]. simpl. rewrite decide_False; [done|]. by apply Hrest.
  - rewrite decide_True by done. apply IH.
Qed.

Lemma dec_digits_spec fuel n :
  0 ≤ n < 10 ^ (Z.of_nat fuel + 1) →
  Forall is_digit (dec_digits fuel n) ∧
  fold_left (λ a c, 10 * a + (c - 48)) (dec_digits fuel n) 0 = n ∧ dec_digits fuel n ≠ [].
Proof.
  revert n. induction fuel as [|fuel IH]; intros n Hn; simpl.
  - change (10 ^ (0 + 1)) with 10 in Hn. rewrite Z.mod_small by lia.
    split_and!; [repeat constructor; unfold is_digit; lia|simpl; lia|done].
  - case_decide.
    { split_and!; [repeat constructor; unfold is_digit; lia|simpl; lia|done]. }
    destruct (IH (n / 10)) as (H1 & H2 & H3).
    { replace (Z.of_nat (S fuel) + 1) with (1 + (Z.of_nat fuel + 1)) in Hn by lia.
      rewrite Z.pow_add_r in Hn by lia. split; [apply Z.div_pos; lia|].
      apply Z.div_lt_upper_bound; lia. }
    pose proof (Z.mod_pos_bound n 10).
    split_and!; [|rewrite fold_left_app, H2; simpl; Z.div_mod_to_equations; lia|by destruct (dec_digits _ _)].
    apply Forall_app. split; [done|]. repeat constructor; unfold is_digit; lia.
Qed.

Lemma fmt_lu_spec n :
  0 ≤ n < 2 ^ 64 →
  Forall is_digit (fmt_lu n) ∧ (∀ rest, ends_number rest → digits_value 0 (fmt_lu n ++ rest) = (n, rest)) ∧
  ∃ c l, fmt_lu n = c :: l ∧ is_digit c.
Proof.
  intros Hn. destruct (dec_digits_spec 20 n) as (H1 & H2 & H3); [split; [lia|]|].
  { etrans; [apply Hn|]. done. }
  fold (fmt_lu n) in *. split_and!; [done| |].
  - intros rest Hr. rewrite digits_value_app by done. by rewrite H2.
  - destruct (fmt_lu n) as [|c l]; [done|].
    exists c, l. split; [done|]. by apply Forall_cons in H1 as [? _].
Qed.

Lemma digit_not_space c : is_digit c → ¬ is_space c ∧ c ≠ 45 ∧ c ≠ 43.
Proof. unfold is_digit, is_space. lia. Qed.

(** Printing with "%d" and scanning with "%d" are inverse. *)
Lemma scan_int_fmt_d n rest :
  - 2 ^ 31 ≤ n < 2 ^ 31 → ends_number rest → scan_int (fmt_d n ++ rest) = Some (n, rest).
Proof.
  intros Hn Hr. unfold scan_int, fmt_d. case_decide as Hneg.
  - destruct (fmt_lu_spec (- n)) as (_ & Hv & c & l & Hcl & Hc); [lia|].
    specialize (Hv rest Hr). rewrite Hcl in *. cbn [app] in *.
    cbn [skip_spaces]. rewrite decide_False by (unfold is_space; lia).
    rewrite (decide_True (P := 45 = 45)) by done.
    rewrite (decide_True (P := is_digit c)) by done. rewrite Hv.
    rewrite Z.opp_involutive, swrap_small by lia. done.
  - destruct (fmt_lu_spec n) as (_ & Hv & c & l & Hcl & Hc); [lia|].
    specialize (Hv rest Hr). rewrite Hcl in *. cbn [app] in *.
    destruct (digit_not_space c Hc) as (Hs & H45 & _).
    cbn [skip_spaces]. rewrite decide_False by done. rewrite (decide_False (P := c = 45)) by done.
    rewrite (decide_True (P := is_digit c)) by done. rewrite Hv.
    by rewrite swrap_small by lia.
Qed.

(** Printing with "%d" and parsing with [kstrtoint] are inverse. *)
Lemma kstrtoint_fmt_d n : - 2 ^ 31 ≤ n < 2 ^ 31 → kstrtoint (fmt_d n) = Some n.
Proof.
  intros Hn. assert (ends_number []) as Hnil by done.
  unfold kstrtoint, fmt_d. case_decide as Hneg.
  - destruct (fmt_lu_spec (- n)) as (_ & Hv & c & l & Hcl & Hc); [lia|].
    specialize (Hv [] Hnil). rewrite app_nil_r in Hv. rewrite decide_True by done.
    rewrite Hcl in *. rewrite (decide_True (P := is_digit c)) by done. rewrite Hv.
    rewrite decide_True by auto. rewrite Z.opp_involutive, decide_True by lia. done.
  - destruct (fmt_lu_spec n) as (_ & Hv & c & l & Hcl & Hc); [lia|].
    specialize (Hv [] Hnil). rewrite app_nil_r in Hv. rewrite Hcl in *.
    destruct (digit_not_space c Hc) as (Hs & H45 & H43).
    rewrite (decide_False (P := c = 45)), (decide_False (P := c = 43)) by done.
    rewrite (decide_True (P := is_digit c)) by done. rewrite Hv.
    rewrite decide_True by auto. rewrite decide_True by lia. done.
Qed.

(** ** The read handlers

    A module prints one line per node of its list into a buffer of
    [pe_cap] bytes, stopping once fewer than [pe_margin] bytes are left. *)
Class ProcEntry (A : Type) := {
  pe_cap : Z;
  pe_margin : Z;
  pe_line : A → list Z;
  pe_bounds : 0 < pe_margin < pe_cap;
}.

Section Read.
Context `{ProcEntry A}.

(** [if(total>=cap-margin) break; total+=scnprintf(kbuf+total,cap-total,...)]:
    [scnprintf] writes at most [cap-total-1] characters and returns the
    number it wrote.  The buffer is the text so far, [total] its length. *)
Fixpoint render_from (kbuf : list Z) (nodes : list A) : list Z :=
  match nodes with
  | [] => kbuf
  | x :: nodes' =>
      let total := Z.of_nat (length kbuf) in
      if decide (total >= pe_cap - pe_margin) then kbuf
      else render_from (kbuf ++ take (Z.to_nat (pe_cap - total - 1)) (pe_line x)) nodes'
  end.

Definition render (nodes : list A) : list Z := render_from [] nodes.

Definition full_text (nodes : list A) : list Z := concat (pe_line <$> nodes).

Lemma render_from_bound kbuf nodes :
  Z.of_nat (length kbuf) < pe_cap → Z.of_nat (length (render_from kbuf nodes)) < pe_cap.
Proof.
  revert kbuf. induction nodes as [|x nodes IH]; intros kbuf Hk; simpl; [done|].
  case_decide; [done|]. apply IH. rewrite length_app, length_take. pose proof pe_bounds. lia.
Qed.

Lemma render_from_full kbuf nodes :
  pe_cap - pe_margin ≤ Z.of_nat (length kbuf) → render_from kbuf nodes = kbuf.
Proof. intros. destruct nodes; simpl; [done|]. by rewrite decide_True by lia. Qed.

(** A line is cut only when the buffer is full, and then nothing follows. *)
Lemma render_from_prefix kbuf nodes :
  Z.of_nat (length kbuf) < pe_cap →
  render_from kbuf nodes `prefix_of` kbuf ++ full_text nodes.
Proof.
  revert kbuf. induction nodes as [|x nodes IH]; intros kbuf Hk; unfold full_text; csimpl.
  { by rewrite app_nil_r. }
  case_decide; [by apply prefix_app_r|]. pose proof pe_bounds.
  set (n := Z.to_nat _). destruct (decide (length (pe_line x) ≤ n)%nat) as [Hn|Hn].
  - rewrite take_ge by done. rewrite app_assoc. apply IH. rewrite length_app. lia.
  - rewrite render_from_full by len.
    apply prefix_app. apply prefix_app_r. apply prefix_take.
Qed.

Lemma render_from_complete kbuf nodes :
  Z.of_nat (length (kbuf ++ full_text nodes)) ≤ pe_cap - pe_margin →
  render_from kbuf nodes = kbuf ++ full_text nodes.
Proof.
  revert kbuf. induction nodes as [|x nodes IH]; intros kbuf Hk; unfold full_text in *; csimpl.
  { by rewrite app_nil_r. }
  pose proof pe_bounds. csimpl in Hk. rewrite !length_app in Hk.
  case_decide as Hd.
  - assert (length (pe_line x ++ concat (pe_line <$> nodes)) = 0%nat) as Hz%nil_length_inv
      by len.
    by rewrite Hz, app_nil_r.
  - rewrite take_ge by lia. rewrite app_assoc. apply IH. rewrite !length_app. lia.
Qed.

Lemma render_bound nodes : Z.of_nat (length (render nodes)) < pe_cap.
Proof. apply render_from_bound. simpl. pose proof pe_bounds. lia. Qed.

Lemma render_prefix nodes : render nodes `prefix_of` full_text nodes.
Proof. apply (render_from_prefix []). simpl. pose proof pe_bounds. lia. Qed.

Lemma render_complete nodes :
  Z.of_nat (length (full_text nodes)) ≤ pe_cap - pe_margin → render nodes = full_text nodes.
Proof. apply (render_from_complete []). Qed.
End Read.

(** What a read returns: the value of the call, the bytes copied to the
    user buffer, and the new file offset. *)
Record read_reply := ReadReply {
  rr_ret : Z;
  rr_out : list Z;
  rr_pos : Z;
}.

(** The window [my_read] copies in mp1.c and mp3.c, from the offset test to
    the return: [kbuf] holds the [total] bytes of [text]. *)
Definition read_window (efault : Z) (copy_ok : bool) (text : list Z) (len pos : Z) : read_reply :=
  let total := Z.of_nat (length text) in
  if decide (pos >= total) then ReadReply 0 [] pos
  else
    let left := total - pos in
    let len' := if decide (left < len) then left else len in
    if copy_ok then ReadReply len' (take (Z.to_nat len') (drop (Z.to_nat pos) text)) (pos + len')
    else ReadReply efault [] pos.

(** A reader that calls [read] until it returns 0, as cat does. *)
Fixpoint read_all (fuel : nat) (efault : Z) (text : list Z) (len pos : Z) : option (list Z) :=
  match fuel with
  | O => None
  | S fuel' =>
      let r := read_window efault true text len pos in
      if decide (rr_ret r = 0) then Some []
      else (λ rest, rr_out r ++ rest) <$> read_all fuel' efault text len (rr_pos r)
  end.

(** The bytes copied lie inside the text, their number is the result. *)
Lemma read_window_bounds efault text len pos :
  0 ≤ pos → 0 ≤ len →
  let r := read_window efault true text len pos in
  rr_ret r = Z.of_nat (length (rr_out r)) ∧ rr_ret r ≤ len ∧
  rr_pos r = pos + rr_ret r ∧
  (rr_ret r = 0 ∨ rr_pos r ≤ Z.of_nat (length text)).
Proof.
  intros Hp Hl. unfold read_window. case_decide; simpl; [split_and!; auto; lia|].
  rewrite length_take, length_drop. case_decide; split_and!; lia.
Qed.

Lemma read_all_drop efault text len fuel pos :
  0 < len → 0 ≤ pos → (length text - Z.to_nat pos < fuel)%nat →
  read_all fuel efault text len pos = Some (drop (Z.to_nat pos) text).
Proof.
  intros Hlen. revert pos. induction fuel as [|fuel IH]; intros pos Hp Hf; [lia|].
  cbn [read_all]. unfold read_window.
  destruct (decide (pos >= Z.of_nat (length text))) as [Hge|Hge]; simpl.
  { by rewrite drop_ge by lia. }
  set (n := if decide (Z.of_nat (length text) - pos < len) then Z.of_nat (length text) - pos else len).
  assert (0 < n ≤ Z.of_nat (length text) - pos) as Hn by (unfold n; case_decide; lia).
  rewrite decide_False by lia. rewrite IH by lia. simpl.
  f_equal. rewrite Z2Nat.inj_add, <- drop_drop by lia. apply take_drop.
Qed.

(** ** Lengths and trimming of printed numbers *)
Lemma length_dec_digits fuel n k :
  0 ≤ n < 10 ^ (Z.of_nat k + 1) → (length (dec_digits fuel n) ≤ k + 1)%nat.
Proof.
  revert n k. induction fuel as [|fuel IH]; intros n k Hn; simpl; [lia|].
  case_decide; simpl; [lia|]. destruct k as [|k].
  { change (10 ^ (Z.of_nat 0 + 1)) with 10 in Hn. lia. }
  rewrite length_app. simpl. specialize (IH (n / 10) k).
  replace (Z.of_nat (S k) + 1) with (1 + (Z.of_nat k + 1)) in Hn by lia.
  rewrite Z.pow_add_r in Hn by lia.
  assert (0 ≤ n / 10 < 10 ^ (Z.of_nat k + 1)); [|lia].
  split; [apply Z.div_pos; lia|]. apply Z.div_lt_upper_bound; lia.
Qed.

Lemma length_fmt_d n : - 2 ^ 31 ≤ n < 2 ^ 31 → (length (fmt_d n) ≤ 11)%nat.
Proof.
  intros Hn. assert (2 ^ 31 < 10 ^ (Z.of_nat 9 + 1)) as Hlt by done.
  unfold fmt_d, fmt_lu. case_decide.
  - pose proof (length_dec_digits 20 (- n) 9 ltac:(lia)). cbn [length]. lia.
  - pose proof (length_dec_digits 20 n 9 ltac:(lia)). lia.
Qed.

(** Characters of printed numbers are neither NUL nor white space. *)
Definition is_graph (c : Z) : Prop := c ≠ 0 ∧ ¬ is_space c.

Lemma fmt_d_graph n : - 2 ^ 31 ≤ n < 2 ^ 31 → Forall is_graph (fmt_d n) ∧ fmt_d n ≠ [].
Proof.
  assert (∀ c, is_digit c → is_graph c) as Hdig.
  { intros c Hc. split; [unfold is_digit in Hc; lia|]. by apply digit_not_space. }
  intros Hn. unfold fmt_d. case_decide.
  - destruct (fmt_lu_spec (- n)) as (Hd & _ & _); [lia|]. split; [|done].
    constructor; [split; [lia|unfold is_space; lia]|]. by eapply Forall_impl.
  - destruct (fmt_lu_spec n) as (Hd & _ & c & l & Hcl & _); [lia|]. rewrite Hcl in *.
    split; [|done]. by eapply Forall_impl.
Qed.

Lemma cstring_no_nul l : Forall is_graph l → ∀ rest, cstring (l ++ rest) = l ++ cstring rest.
Proof.
  induction 1 as [|c l [Hc _] _ IH]; intros rest; simpl; [done|].
  rewrite decide_False by done. by rewrite IH.
Qed.

Lemma skip_spaces_graph c l : is_graph c → skip_spaces (c :: l) = c :: l.
Proof. intros [_ Hs]. simpl. by rewrite decide_False. Qed.

(** Trailing white space after a printed word is removed, nothing else. *)
Lemma strim_word l sp :
  Forall is_graph l → Forall is_space sp → l ≠ [] → strim_in_place (l ++ sp) = l.
Proof.
  intros Hl Hsp Hne. unfold strim_in_place. rewrite reverse_app.
  assert (skip_spaces (reverse sp ++ reverse l) = reverse l) as ->; [|apply reverse_involutive].
  assert (Forall is_space (reverse sp)) as Hsp' by by apply Forall_reverse.
  induction Hsp' as [|c r Hc _ IH]; simpl.
  - destruct l as [|c l _] using rev_ind; [done|]. rewrite reverse_snoc.
    apply skip_spaces_graph. apply Forall_app in Hl as [_ Hl]. by apply Forall_cons in Hl as [? _].
  - rewrite decide_True by done. done.
Qed.

(** The in-place trim keeps leading white space: the first character of the
    buffer, if any is left, is the first character of the input. *)
Lemma strim_in_place_head c s :
  strim_in_place (c :: s) = [] ∨ ∃ s', strim_in_place (c :: s) = c :: s'.
Proof.
  unfold strim_in_place. rewrite reverse_cons.
  assert (∀ r, skip_spaces (r ++ [c]) = [] ∨ ∃ r', skip_spaces (r ++ [c]) = r' ++ [c]) as Hgen.
  { induction r as [|d r IH]; simpl.
    - case_decide; [by left|right; by exists []].
    - case_decide; [done|]. right. by exists (d :: r). }
  destruct (Hgen (reverse s)) as [->|[r' ->]]; [by left|].
  right. rewrite reverse_snoc. eauto.
Qed.

Lemma kstrtoint_space c s : is_space c → kstrtoint (c :: s) = None.
Proof.
  intros Hc. unfold kstrtoint.
  rewrite (decide_False (P := c = 45)), (decide_False (P := c = 43)) by (unfold is_space in Hc; lia).
  rewrite decide_False; [done|]. unfold is_digit, is_space in *. lia.
Qed.
