(* ===== verification/CpuTracker.v ===== *)
(** * The CPU usage tracker (src/CPU_Usage_Tracker/mp1.c, mp1_given.h)

    The module keeps a mutex-protected list of tracked processes, a slab
    cache for its nodes, a timer that queues a work item every five seconds
    and a proc entry.  Every critical section is one transition of the
    state; kernel services that can fail (allocation, user copies) take
    their outcome as an argument, and the process table is a function from
    pids to user times. *)
From S2P Require Import Prelude CInt ProcText.

Module Mp1.

(** ** Error numbers *)
Definition ENOMEM : Z := 12.
Definition EFAULT : Z := 14.
Definition EEXIST : Z := 17.
Definition EINVAL : Z := 22.

(** ** mp1_given.h

    [pid_task(find_vpid(nr), PIDTYPE_PID)] is the process table: the user
    time of the live task with that pid. *)
Definition process_table : Type := Z → option Z.

Definition find_task_by_pid (tasks : process_table) (nr : Z) : option Z := tasks nr.

(** [get_cpu_use]: the return value and what is stored in [cpu_use]. *)
Definition get_cpu_use (tasks : process_table) (pid : Z) : Z * Z :=
  match find_task_by_pid tasks pid with
  | Some utime => (0, utime)
  | None => (-1, 0)
  end.

(** ** State *)
Record listnode := Node {
  pid : Z;
  cpu_time : Z;
}.

Record state := State {
  mp1dir : bool;              (* proc directory registered *)
  mp1status : bool;           (* proc entry registered *)
  mp1cache : bool;            (* slab cache exists *)
  slab_live : Z;              (* objects allocated from it *)
  mp1list : list listnode;    (* mp1listhead *)
  worker : bool;              (* work item queued *)
  timer : option Z;           (* expiry of the pending timer *)
}.

Definition unloaded : state := State false false false 0 [] false None.

Definition set_list (l : list listnode) (live : Z) (st : state) : state :=
  State (mp1dir st) (mp1status st) (mp1cache st) live l (worker st) (timer st).

(** ** Periodic refresh *)

(** The loop of [work_func]: the nodes kept, and how many were freed. *)
Fixpoint refresh (tasks : process_table) (l : list listnode) : list listnode * Z :=
  match l with
  | [] => ([], 0)
  | cur :: l' =>
      let '(ret, temptime) := get_cpu_use tasks (pid cur) in
      let '(kept, freed) := refresh tasks l' in
      if decide (ret = -1) then (kept, freed + 1)
      else (Node (pid cur) temptime :: kept, freed)
  end.

Definition work_func (tasks : process_table) (st : state) : state :=
  let '(kept, freed) := refresh tasks (mp1list st) in
  State (mp1dir st) (mp1status st) (mp1cache st) (slab_live st - freed) kept false (timer st).

Section Timed.
Variable HZ : Z.

(** [jiffies+5*HZ] in an [unsigned long]. *)
Definition next_tick (jiffies : Z) : Z := u64 (jiffies + 5 * HZ).

Definition timercb (jiffies : Z) (st : state) : state :=
  State (mp1dir st) (mp1status st) (mp1cache st) (slab_live st) (mp1list st)
        true (Some (next_tick jiffies)).

(** ** Registration *)

(** [idregister]: allocating from a cache that does not exist dereferences
    a null pointer. *)
Definition idregister (alloc_ok : bool) (p : Z) (st : state) : outcome Empty_set (Z * state) :=
  if mp1cache st then
    if alloc_ok then
      if decide (p ∈ (pid <$> mp1list st)) then
        (* the node is allocated, then freed again *)
        Done (- EEXIST, set_list (mp1list st) (slab_live st + 1 - 1) st)
      else Done (0, set_list (mp1list st ++ [Node p 0]) (slab_live st + 1) st)
    else Done (- ENOMEM, st)
  else Fault.

(** ** The proc entry *)
Lemma mp1_bounds : 0 < 16 < 10240.
Proof. lia. Qed.

#[export] Instance mp1_line : ProcEntry listnode := {|
  pe_cap := 10240;
  pe_margin := 16;
  pe_line := λ n, fmt_d (pid n) ++ [58; 32] ++ fmt_lu (cpu_time n) ++ [10];
  pe_bounds := mp1_bounds;
|}.

Definition my_read (kmalloc_ok copy_ok : bool) (len pos : Z) (st : state) : read_reply :=
  if kmalloc_ok then read_window (- EFAULT) copy_ok (render (mp1list st)) len pos
  else ReadReply (- ENOMEM) [] pos.

(** [my_write] of [input], the [len] bytes of the user buffer. *)
Definition my_write (copy_ok alloc_ok : bool) (input : list Z) (st : state)
  : outcome Empty_set (Z * state) :=
  let len := Z.of_nat (length input) in
  if decide (len = 0 ∨ len >= 16) then Done (- EINVAL, st)
  else if copy_ok then
    let kbuf := strim_in_place (cstring input) in
    match kstrtoint kbuf with
    | None => Done (- EINVAL, st)
    | Some p =>
        let! r := idregister alloc_ok p st in
        let '(res, st') := r in
        Done (if decide (res ≠ 0) then res else len, st')
    end
  else Done (- EFAULT, st).

(** ** Loading and unloading *)
Definition cleanuplist (st : state) : state :=
  set_list [] (slab_live st - Z.of_nat (length (mp1list st))) st.

(** [test_module_init]: [mkdir_ok], [create_ok] and [cache_ok] are the
    outcomes of [proc_mkdir], [proc_create] and [kmem_cache_create]. *)
Definition test_module_init (mkdir_ok create_ok cache_ok : bool) (jiffies : Z) : Z * state :=
  if mkdir_ok then
    if create_ok then
      if cache_ok then (0, State true true true 0 [] false (Some (next_tick jiffies)))
      else (* proc_remove of both entries *) (- ENOMEM, unloaded)
    else (* proc_remove(mp1dir) *) (- ENOMEM, unloaded)
  else (- ENOMEM, unloaded).

(** [test_module_exit], call by call.  [flush_work] runs the queued work. *)
Definition exit_del_timer (st : state) : state :=
  State (mp1dir st) (mp1status st) (mp1cache st) (slab_live st) (mp1list st) (worker st) None.
Definition exit_flush_work (tasks : process_table) (st : state) : state :=
  if worker st then work_func tasks st else st.
Definition exit_destroy_cache (st : state) : state :=
  State (mp1dir st) (mp1status st) false (slab_live st) (mp1list st) (worker st) (timer st).
Definition exit_remove_status (st : state) : state :=
  State (mp1dir st) false (mp1cache st) (slab_live st) (mp1list st) (worker st) (timer st).
Definition exit_remove_dir (st : state) : state :=
  State false (mp1status st) (mp1cache st) (slab_live st) (mp1list st) (worker st) (timer st).

Definition exit_calls (tasks : process_table) : list (state → state) :=
  [exit_del_timer; exit_flush_work tasks; cleanuplist; exit_destroy_cache;
   exit_remove_status; exit_remove_dir].

Definition run_calls (calls : list (state → state)) (st : state) : state :=
  fold_left (λ s f, f s) calls st.

Definition test_module_exit (tasks : process_table) (st : state) : state :=
  run_calls (exit_calls tasks) st.

(** ** The module while it is loaded *)
Inductive event :=
| EvWrite (copy_ok alloc_ok : bool) (input : list Z)
| EvTimer (jiffies : Z)
| EvWork (tasks : process_table).

(** A timer fires only when it is pending, a work item runs only when it is
    queued; writes come at any time. *)
Inductive step : state → event → state → Prop :=
| StepWrite copy_ok alloc_ok input st ret st' :
    my_write copy_ok alloc_ok input st = Done (ret, st') →
    step st (EvWrite copy_ok alloc_ok input) st'
| StepTimer jiffies st t :
    timer st = Some t → step st (EvTimer jiffies) (timercb jiffies st)
| StepWork tasks st :
    worker st = true → step st (EvWork tasks) (work_func tasks st).

Inductive reachable (jiffies0 : Z) : state → Prop :=
| reachable_init : reachable jiffies0 (test_module_init true true true jiffies0).2
| reachable_step st ev st' : reachable jiffies0 st → step st ev st' → reachable jiffies0 st'.

(** Pids are tracked once, every slab object is on the list, and the timer
    is always pending. *)
Record wf (st : state) : Prop := {
  wf_loaded : mp1dir st = true ∧ mp1status st = true ∧ mp1cache st = true;
  wf_nodup : NoDup (pid <$> mp1list st);
  wf_slab : slab_live st = Z.of_nat (length (mp1list st));
  wf_timer : is_Some (timer st);
}.
End Timed.

(** ** The abstract view: a finite map from pid to user time *)
Definition table (l : list listnode) : gmap Z Z :=
  list_to_map ((λ n, (pid n, cpu_time n)) <$> l).
End Mp1.
