(* ===== verification/CpuTrackerTheorems.v ===== *)
(** * Theorems about the CPU usage tracker *)
From S2P Require Import Prelude CInt ProcText CpuTracker.
Import Mp1.

(** ** Refreshing *)
Lemma refresh_pids tasks l : pid <$> (refresh tasks l).1 = filter (λ p, is_Some (tasks p)) (pid <$> l).
Proof.
  induction l as [|n l IH]; [done|]. csimpl. unfold get_cpu_use, find_task_by_pid.
  destruct (refresh tasks l) as [kept freed] eqn:Hr. simpl in IH.
  rewrite filter_cons. destruct (decide (is_Some (tasks (pid n)))) as [[t Ht]|Hn].
  - rewrite Ht. csimpl. by rewrite IH.
  - apply eq_None_not_Some in Hn. rewrite Hn. done.
Qed.

Lemma refresh_count tasks l :
  Z.of_nat (length (refresh tasks l).1) + (refresh tasks l).2 = Z.of_nat (length l).
Proof.
  induction l as [|n l IH]; [done|]. simpl. destruct (get_cpu_use _ _) as [ret t].
  destruct (refresh tasks l) as [kept freed]. simpl in *. case_decide; simpl; lia.
Qed.

Lemma refresh_lookup tasks l p :
  table (refresh tasks l).1 !! p = (table l !! p) ≫= λ _, tasks p.
Proof.
  unfold table. induction l as [|n l IH]; [done|]. csimpl. unfold get_cpu_use, find_task_by_pid.
  destruct (refresh tasks l) as [kept freed] eqn:Hr. simpl in IH.
  destruct (decide (pid n = p)) as [<-|Hne].
  - rewrite lookup_insert_eq. simpl. destruct (tasks (pid n)) eqn:Ht; simpl.
    + by rewrite lookup_insert_eq.
    + rewrite IH. by match goal with |- ?o ≫= _ = _ => destruct o end.
  - rewrite lookup_insert_ne by done. rewrite <- IH.
    destruct (tasks (pid n)); simpl; [by rewrite lookup_insert_ne|done].
Qed.

(** C16: the periodic refresh implements its abstract specification: a pid
    stays in the table exactly when it was tracked and its process is alive,
    and the time stored for it is the current user time of the process. *)
Theorem work_func_refines tasks st p :
  table (mp1list (work_func tasks st)) !! p = (table (mp1list st) !! p) ≫= λ _, tasks p.
Proof.
  unfold work_func. rewrite <- refresh_lookup.
  by destruct (refresh tasks (mp1list st)).
Qed.

Lemma wf_set_list st l live :
  wf st → NoDup (pid <$> l) → live = Z.of_nat (length l) → wf (set_list l live st).
Proof. intros [? ? ? ?] ? ->. by split. Qed.

Lemma wf_init HZ j : wf (test_module_init HZ true true true j).2.
Proof. by split; simpl; [|constructor| |eauto]. Qed.

Lemma idregister_spec alloc_ok p st :
  mp1cache st = true →
  idregister alloc_ok p st = Done
    (if alloc_ok then
       if decide (p ∈ pid <$> mp1list st) then (- EEXIST, set_list (mp1list st) (slab_live st + 1 - 1) st)
       else (0, set_list (mp1list st ++ [Node p 0]) (slab_live st + 1) st)
     else (- ENOMEM, st)).
Proof. intros Hc. unfold idregister. rewrite Hc. destruct alloc_ok; [|done]. by case_decide. Qed.

Lemma wf_idregister alloc_ok p st ret st' :
  wf st → idregister alloc_ok p st = Done (ret, st') → wf st'.
Proof.
  intros Hwf. rewrite idregister_spec by apply Hwf. intros Heq.
  destruct alloc_ok; [case_decide as Hin|]; simplify_eq; try done.
  - apply wf_set_list; [done|apply Hwf|]. rewrite (wf_slab st Hwf). lia.
  - apply wf_set_list; [done| |rewrite (wf_slab st Hwf), length_app; simpl; lia].
    rewrite fmap_app, NoDup_app. split_and!; [apply Hwf|set_solver|apply NoDup_singleton].
Qed.

Lemma wf_my_write copy_ok alloc_ok input st ret st' :
  wf st → my_write copy_ok alloc_ok input st = Done (ret, st') → wf st'.
Proof.
  intros Hwf. unfold my_write. case_decide; [congruence|].
  destruct copy_ok; [|congruence]. destruct (kstrtoint _) as [p|]; [|congruence].
  destruct (idregister alloc_ok p st) as [[res st1]|[]|] eqn:Hr; simpl; [|done].
  intros. simplify_eq. by eapply wf_idregister.
Qed.

Lemma wf_work_func tasks st : wf st → wf (work_func tasks st).
Proof.
  intros [Hl Hnd Hs Ht]. unfold work_func.
  pose proof (refresh_pids tasks (mp1list st)) as Hp.
  pose proof (refresh_count tasks (mp1list st)) as Hc.
  destruct (refresh tasks (mp1list st)) as [kept freed]. simpl in *.
  split; simpl; [done| |lia|done]. rewrite Hp. by apply NoDup_filter.
Qed.

(** C17: the invariant of the tracker.  In every state reachable from a
    successful load by any interleaving of writes, timer ticks and work
    items, pids are tracked at most once, every object of the slab cache is
    on the list (no leak, no double free), and the timer is pending, so the
    refresh never stops. *)
Theorem tracker_invariant HZ j st : reachable HZ j st → wf st.
Proof.
  induction 1 as [|st ev st' _ IH Hs]; [apply wf_init|].
  destruct Hs as [copy_ok alloc_ok input st ret st' Hw|jiffies st t Ht|tasks st Hw].
  - by eapply wf_my_write.
  - destruct IH. split; simpl; eauto.
  - by apply wf_work_func.
Qed.

Lemma tracker_invariant_witness :
  wf (timercb 250 7 (test_module_init 250 true true true 0).2).
Proof.
  apply (tracker_invariant 250 0). eapply reachable_step; [apply reachable_init|].
  by eapply StepTimer.
Defined.

(** ** Writing and reading *)
Lemma newline_space : Forall is_space [10].
Proof. constructor; [left; lia|constructor]. Qed.

(** A write of a printed number reaches [idregister] with that number. *)
Lemma my_write_number alloc_ok p st :
  - 2 ^ 31 ≤ p < 2 ^ 31 →
  my_write true alloc_ok (fmt_d p ++ [10]) st =
  let! r := idregister alloc_ok p st in
  let '(res, st') := r in
  Done (if decide (res ≠ 0) then res else Z.of_nat (length (fmt_d p ++ [10])), st').
Proof.
  intros Hp. destruct (fmt_d_graph p Hp) as [Hg Hne]. pose proof (length_fmt_d p Hp) as Hlen.
  assert (0 < Z.of_nat (length (fmt_d p))) as Hpos by (destruct (fmt_d p); [done|simpl; lia]).
  unfold my_write. rewrite decide_False by (rewrite length_app; simpl; lia).
  rewrite cstring_no_nul by done. change (cstring [10]) with [10].
  rewrite strim_word by (done || apply newline_space).
  by rewrite kstrtoint_fmt_d by done.
Qed.

(** The write handler parses what the test program prints.  Writing
    "%d\n" of an [int] that is not tracked registers it with time 0 at the
    end of the list and returns the number of bytes written; for one that is
    tracked it fails with -EEXIST and changes nothing, the node allocated for
    it going back to the cache. *)
Lemma write_registers p st :
  wf st → - 2 ^ 31 ≤ p < 2 ^ 31 →
  let input := fmt_d p ++ [10] in
  my_write true true input st =
  Done (if decide (p ∈ pid <$> mp1list st) then (- EEXIST, st)
        else (Z.of_nat (length input), set_list (mp1list st ++ [Node p 0]) (slab_live st + 1) st)).
Proof.
  intros Hwf Hp input. unfold input.
  rewrite my_write_number, idregister_spec by (done || apply Hwf).
  case_decide; simpl; [|done]. destruct st. unfold set_list. simpl. do 3 f_equal. lia.
Qed.

(** Leading white space is not trimmed: the handler discards the result
    of [strim], so a write that starts with white space is refused with
    -EINVAL and no process is registered. *)
Lemma write_leading_space c rest alloc_ok st :
  is_space c → my_write true alloc_ok (c :: rest) st = Done (- EINVAL, st).
Proof.
  intros Hc. unfold my_write. case_decide; [done|].
  assert (c ≠ 0) by (unfold is_space in Hc; lia).
  cbn [cstring]. rewrite decide_False by done.
  destruct (strim_in_place_head c (cstring rest)) as [->|[s' ->]]; [done|].
  by rewrite kstrtoint_space.
Qed.

(** Reading works with file offsets.  A reader that calls [read] with
    any buffer size until it returns 0 gets the formatted list and stops;
    the text is a prefix of one line per process, shorter than the kernel
    buffer, and is complete when the lines fit in it. *)
Lemma read_returns_list len st :
  0 < len →
  let text := render (mp1list st) in
  read_all (S (length text)) (- EFAULT) text len 0 = Some text ∧
  my_read true true len 0 st = read_window (- EFAULT) true text len 0 ∧
  text `prefix_of` full_text (mp1list st) ∧ Z.of_nat (length text) < 10240 ∧
  (Z.of_nat (length (full_text (mp1list st))) ≤ 10224 → text = full_text (mp1list st)).
Proof.
  intros Hlen text. split_and!; [|done|apply render_prefix| |].
  - rewrite (read_all_drop (- EFAULT) text len) by lia. by rewrite drop_0.
  - pose proof (render_bound (mp1list st)) as Hb. exact Hb.
  - intros Hfit. apply render_complete. change (pe_cap - pe_margin) with 10224. lia.
Qed.

(** ** Loading and unloading *)

(** Loading is all or nothing: when any of the three allocations fails,
    [test_module_init] returns -ENOMEM and leaves no proc entry, cache or
    timer behind; otherwise the tracker invariant holds. *)
Lemma init_all_or_nothing HZ mkdir_ok create_ok cache_ok j :
  let r := test_module_init HZ mkdir_ok create_ok cache_ok j in
  (r.1 = 0 ∧ wf r.2 ∧ mkdir_ok && create_ok && cache_ok = true) ∨ r = (- ENOMEM, unloaded).
Proof.
  destruct mkdir_ok, create_ok, cache_ok; simpl; auto.
  left. split_and!; [done|apply wf_init|done].
Qed.

(** Unloading releases everything: from any state the invariant allows,
    [test_module_exit] ends with no timer, no queued work, no list node, no
    live slab object, no cache and no proc entry. *)
Lemma exit_releases_all tasks st : wf st → test_module_exit tasks st = unloaded.
Proof.
  intros Hwf. pose proof (wf_slab _ (wf_work_func tasks _ Hwf)) as Hs1.
  pose proof (wf_slab _ Hwf) as Hs0.
  unfold test_module_exit, exit_calls, run_calls. simpl.
  unfold exit_flush_work. destruct (worker (exit_del_timer st)) eqn:Hw; simpl in Hw.
  - unfold work_func in *. simpl in *. destruct (refresh tasks (mp1list st)) as [kept freed].
    unfold exit_remove_dir, exit_remove_status, exit_destroy_cache, cleanuplist, set_list, unloaded. simpl in *. f_equal. lia.
  - unfold exit_remove_dir, exit_remove_status, exit_destroy_cache, cleanuplist, set_list, unloaded. simpl. rewrite Hw. f_equal. lia.
Qed.

(** C18: the proc entry outlives the slab cache during unloading.  After the
    calls up to [kmem_cache_destroy] the entry is still registered, and a
    well-formed write at that point allocates through a null cache pointer. *)
Theorem exit_write_window tasks st p :
  wf st → - 2 ^ 31 ≤ p < 2 ^ 31 →
  let st' := run_calls (take 4 (exit_calls tasks)) st in
  mp1status st' = true ∧ my_write true true (fmt_d p ++ [10]) st' = Fault.
Proof.
  intros Hwf Hp st'. assert (mp1cache st' = false) as Hc by done. split.
  - unfold st', run_calls, exit_calls. simpl. unfold exit_flush_work, work_func.
    destruct (worker _); [destruct (refresh _ _)|]; apply Hwf.
  - clearbody st'. rewrite my_write_number by done. unfold idregister. by rewrite Hc.
Qed.

Lemma exit_write_window_witness :
  my_write true true (fmt_d 7 ++ [10])
    (run_calls (take 4 (exit_calls (λ _, None))) (test_module_init 250 true true true 0).2) = Fault.
Proof. apply (exit_write_window (λ _, None) _ 7); [apply wf_init|lia]. Defined.
