(* ===== verification/RmsSched.v ===== *)
(** * The rate-monotonic scheduler (src/RMS_Linux_Schedular/mp2.c)

    PCBs live in a slab heap and are shared by reference: the task list, the
    global [currtask] and the timers all hold their locations.  A critical
    section under [mp2mutex] by a writer is one transition; the dispatcher
    thread is modelled statement by statement, because timer callbacks run
    without the mutex and wake it at any of its statements.  Tasks of the
    kernel are named by integers and taken to stay valid; the policy the
    dispatcher thread gives itself when it starts (SCHED_FIFO, 99) is not
    part of the state. *)
From S2P Require Import Prelude CInt ProcText.

Module Mp2.

Inductive rms_state := SLEEPING | READY | RUNNING.
#[export] Instance rms_state_eq_dec : EqDecision rms_state.
Proof. solve_decision. Defined.

(** ** Data *)
Record mp2pcb := Pcb {
  pid : Z;
  comp_time : Z;
  period : Z;
  nxt_wake_up_time : Z;
  RMSstate : rms_state;
  linux_task : Z;          (* the task_struct, named by an integer *)
  timer : option Z;        (* expiry when the timer is pending *)
}.

(** An object fresh from the cache: nothing is initialised, no timer is
    pending. *)
Definition blank : mp2pcb := Pcb 0 0 0 0 SLEEPING 0 None.

Definition set_state (s : rms_state) (p : mp2pcb) : mp2pcb :=
  Pcb (pid p) (comp_time p) (period p) (nxt_wake_up_time p) s (linux_task p) (timer p).

(** Scheduling attributes set through [sched_setattr_nocheck]. *)
Definition SCHED_NORMAL : Z := 0.
Definition SCHED_FIFO : Z := 1.
Record sched_attr := Attr { sched_policy : Z; sched_priority : Z }.

(** The statement the dispatcher thread is at:
    [DLock] before [mutex_lock], [DScan rest next] inside the loop over the
    list (mutex held), [DAct prot dem] after [mutex_unlock], [DSetState]
    before [set_current_state(TASK_INTERRUPTIBLE)], [DSchedule] before
    [schedule], [DWoken] there too but woken meanwhile, [DAsleep] inside
    [schedule]. *)
Inductive dispatcher_pc :=
| DLock
| DScan (rest : list nat) (next : option nat)
| DAct (protaskptr demtaskptr : option Z)
| DSetState
| DSchedule
| DWoken
| DAsleep.

(** Where a process is in [taskyield] after its critical section: before
    [wakethread], or before [set_current_state] and [schedule]. *)
Inductive yield_pc := YWake | YSleep.
#[export] Instance yield_pc_eq_dec : EqDecision yield_pc.
Proof. solve_decision. Defined.

Record state := State {
  heap : gmap nat mp2pcb;        (* objects of mp2cache *)
  mp2list : list nat;            (* mp2listhead *)
  dying : list nat;              (* unlinked by deregister, not yet freed *)
  yielding : list (Z * yield_pc); (* processes inside taskyield *)
  currtask : option nat;
  dpc : dispatcher_pc;
  attrs : gmap Z sched_attr;     (* scheduling attributes of Linux tasks *)
  runnable : gset Z;             (* Linux tasks woken and not asleep *)
}.

Definition set_heap (x : gmap nat mp2pcb) (st : state) : state :=
  State x (mp2list st) (dying st) (yielding st) (currtask st) (dpc st) (attrs st) (runnable st).
Definition set_list (x : list nat) (st : state) : state :=
  State (heap st) x (dying st) (yielding st) (currtask st) (dpc st) (attrs st) (runnable st).
Definition set_dying (x : list nat) (st : state) : state :=
  State (heap st) (mp2list st) x (yielding st) (currtask st) (dpc st) (attrs st) (runnable st).
Definition set_yielding (x : list (Z * yield_pc)) (st : state) : state :=
  State (heap st) (mp2list st) (dying st) x (currtask st) (dpc st) (attrs st) (runnable st).
Definition set_currtask (x : option nat) (st : state) : state :=
  State (heap st) (mp2list st) (dying st) (yielding st) x (dpc st) (attrs st) (runnable st).
Definition set_dpc (x : dispatcher_pc) (st : state) : state :=
  State (heap st) (mp2list st) (dying st) (yielding st) (currtask st) x (attrs st) (runnable st).
Definition set_attrs (x : gmap Z sched_attr) (st : state) : state :=
  State (heap st) (mp2list st) (dying st) (yielding st) (currtask st) (dpc st) x (runnable st).
Definition set_runnable (x : gset Z) (st : state) : state :=
  State (heap st) (mp2list st) (dying st) (yielding st) (currtask st) (dpc st) (attrs st) x.

Abbreviation M := (outcome Empty_set).

(** Dereferencing a pcb: a [Fault] when the object is not allocated. *)
Definition deref (st : state) (l : nat) : M mp2pcb :=
  match heap st !! l with Some p => Done p | None => Fault end.
Definition store (l : nat) (p : mp2pcb) (st : state) : state := set_heap (<[l := p]> (heap st)) st.

(** ** Objects and timers *)

(** [del_timer_sync]: the timer is not pending any more, and its callback,
    which is a single transition here, is not running. *)
Definition del_timer_sync (l : nat) (st : state) : M state :=
  let! p := deref st l in
  Done (store l (Pcb (pid p) (comp_time p) (period p) (nxt_wake_up_time p) (RMSstate p)
                     (linux_task p) None) st).

(** [kmem_cache_free]: to free an object whose timer is pending is a [Fault],
    because the callback would run on the freed object. *)
Definition kmem_cache_free (l : nat) (st : state) : M state :=
  let! p := deref st l in
  match timer p with
  | Some _ => Fault
  | None => Done (set_heap (delete l (heap st)) st)
  end.

(** ** Linux tasks *)
Definition promote_task (intask : option Z) (st : state) : state :=
  match intask with
  | None => st
  | Some t =>
      set_runnable ({[t]} ∪ runnable st) (set_attrs (<[t := Attr SCHED_FIFO 98]> (attrs st)) st)
  end.

Definition demote_task (intask : option Z) (st : state) : state :=
  match intask with
  | None => st
  | Some t => set_attrs (<[t := Attr SCHED_NORMAL 0]> (attrs st)) st
  end.

(** [wake_up_process(dispathread)]: only a thread that is asleep or has
    declared itself TASK_INTERRUPTIBLE is affected. *)
Definition wakethread (st : state) : state :=
  match dpc st with
  | DAsleep => set_dpc DLock st
  | DSchedule => set_dpc DWoken st
  | _ => st
  end.

(** ** The dispatcher *)

(** The body of the selection loop for the pcb at [l]. *)
Definition better (st : state) (l : nat) (nexttask : option nat) : M (option nat) :=
  let! curr := deref st l in
  if decide (RMSstate curr ≠ READY) then Done nexttask
  else
    match nexttask with
    | None => Done (Some l)
    | Some n =>
        let! nx := deref st n in
        if decide (period curr < period nx) then Done (Some l) else Done (Some n)
    end.

Fixpoint select (st : state) (l : list nat) (nexttask : option nat) : M (option nat) :=
  match l with
  | [] => Done nexttask
  | x :: l' => let! n := better st x nexttask in select st l' n
  end.

(** From the end of the loop to [mutex_unlock]: the new state and the tasks
    to promote and to demote. *)
Definition decide_next (nexttask : option nat) (st : state) : M (state * option Z * option Z) :=
  let switch (n : nat) (st : state) :=
    let! nx := deref st n in
    Done (store n (set_state RUNNING nx) (set_currtask (Some n) st), Some (linux_task nx)) in
  match currtask st with
  | None =>
      match nexttask with
      | None => Done (st, None, None)
      | Some n => let! r := switch n st in Done (r.1, r.2, None)
      end
  | Some c =>
      let! cur := deref st c in
      match RMSstate cur with
      | SLEEPING =>
          match nexttask with
          | None => Done (st, None, None)
          | Some n => let! r := switch n st in Done (r.1, r.2, None)
          end
      | RUNNING =>
          match nexttask with
          | None => Done (st, None, None)
          | Some n =>
              let! nx := deref st n in
              if decide (period cur > period nx) then
                let! r := switch n (store c (set_state READY cur) st) in
                Done (r.1, r.2, Some (linux_task cur))
              else Done (st, None, None)
          end
      | READY => Done (st, None, None)
      end
  end.

(** [dispatcher], run without interruption. *)
Definition dispatcher (st : state) : M state :=
  let! next := select st (mp2list st) None in
  let! r := decide_next next st in
  let '(st1, prot, dem) := r in
  Done (demote_task dem (promote_task prot st1)).

(** One statement of the dispatcher thread ([threadfunc] and [dispatcher]). *)
Definition dispatch_step (st : state) : M state :=
  match dpc st with
  | DLock => Done (set_dpc (DScan (mp2list st) None) st)
  | DScan (x :: rest) next =>
      let! next' := better st x next in Done (set_dpc (DScan rest next') st)
  | DScan [] next =>
      let! r := decide_next next st in
      let '(st1, prot, dem) := r in Done (set_dpc (DAct prot dem) st1)
  | DAct prot dem => Done (set_dpc DSetState (demote_task dem (promote_task prot st)))
  | DSetState => Done (set_dpc DSchedule st)
  | DSchedule => Done (set_dpc DAsleep st)
  | DWoken => Done (set_dpc DLock st)
  | DAsleep => Done st
  end.

(** How many statements are left until [dispatcher] has returned. *)
Definition statements_left (st : state) : nat :=
  match dpc st with
  | DLock => length (mp2list st) + 3
  | DScan rest _ => length rest + 2
  | DAct _ _ => 1
  | _ => 0
  end%nat.

(** The round the thread is in, up to the return of [dispatcher]. *)
Definition finish_round (st : state) : M state :=
  mfor (seq 0 (statements_left st)) (λ _ st, dispatch_step st) st.

(** ** Timers *)
Definition timercb (l : nat) (st : state) : M state :=
  let! p := deref st l in
  Done (wakethread (store l (Pcb (pid p) (comp_time p) (period p) (nxt_wake_up_time p) READY
                                 (linux_task p) None) st)).

Section Kernel.
(** [msecs_to_jiffies] takes an [unsigned int]. *)
Variable msecs_to_jiffies : Z → Z.

(** ** Registration *)

(** [(comp_time*1000)/period] in [unsigned long]. *)
Definition utilization (comp period : Z) : Z := u64 (comp * 1000) / period.

(** The loop of [taskregister] over the list: [Some usum], or [None] when
    the pid is found. *)
Fixpoint usum_loop (st : state) (l : list nat) (newpid usum : Z) : M (option Z) :=
  match l with
  | [] => Done (Some usum)
  | x :: l' =>
      let! temp := deref st x in
      if decide (period temp = 0) then Fault
      else
        let usum' := u64 (usum + utilization (comp_time temp) (period temp)) in
        if decide (pid temp = newpid) then Done None else usum_loop st l' newpid usum'
  end.

(** [taskregister]: [alloc] is the location [kmem_cache_alloc] returns.  The
    result is the new pcb, [None] for NULL. *)
Definition taskregister (alloc : option nat) (jiffies task newpid newperiod newcomp : Z)
    (st : state) : M (option nat * state) :=
  match alloc with
  | None => Done (None, st)
  | Some l =>
      let allocated := store l blank st in
      let freed := set_heap (delete l (heap st)) st in
      if decide (newperiod = 0 ∨ newcomp = 0) then Done (None, allocated)
      else
        let curnode := Pcb newpid newcomp newperiod jiffies SLEEPING task None in
        let! usum := usum_loop st (mp2list st) newpid (utilization newcomp newperiod) in
        match usum with
        | None => Done (None, freed)
        | Some u =>
            if decide (u > 693) then Done (None, freed)
            else
              Done (Some l, set_list (mp2list st ++ [l]) (store l curnode st))
        end
  end.

(** The first pcb of the list with the given pid. *)
Fixpoint find_pid (st : state) (l : list nat) (p : Z) : M (option nat) :=
  match l with
  | [] => Done None
  | x :: l' =>
      let! curr := deref st x in
      if decide (pid curr = p) then Done (Some x) else find_pid st l' p
  end.

(** ** Deregistration *)

(** The critical section of [deregister]: the target is unlinked. *)
Definition deregister_unlink (p : Z) (st : state) : M (option nat * state) :=
  let! target := find_pid st (mp2list st) p in
  match target with
  | None => Done (None, st)
  | Some l =>
      let c := if decide (currtask st = Some l) then None else currtask st in
      Done (Some l,
        set_currtask c (set_dying (l :: dying st) (set_list (filter (λ x, x ≠ l) (mp2list st)) st)))
  end.

(** The rest of it: demote, stop the timer, free the object, wake the
    dispatcher when no task is current. *)
Definition deregister_free (l : nat) (st : state) : M state :=
  let! target := deref st l in
  let st1 := demote_task (Some (linux_task target)) st in
  let! st2 := del_timer_sync l st1 in
  let! st3 := kmem_cache_free l st2 in
  let st4 := set_dying (filter (λ x, x ≠ l) (dying st3)) st3 in
  Done (match currtask st4 with None => wakethread st4 | Some _ => st4 end).

Definition deregister (p : Z) (st : state) : M (bool * state) :=
  let! r := deregister_unlink p st in
  match r.1 with
  | None => Done (false, r.2)
  | Some l => let! st' := deregister_free l r.2 in Done (true, st')
  end.

(** ** Yield

    [current_pid] and [current_task] are the calling process.  The critical
    section of [taskyield]: *)
Definition yield_lock (current_pid current_task p : Z) (st : state) : M (bool * state) :=
  if decide (p ≠ current_pid) then Done (false, st)
  else
    let! target := find_pid st (mp2list st) p in
    match target with
    | None => Done (false, st)
    | Some l =>
        let! curr := deref st l in
        let wake := u64 (nxt_wake_up_time curr + msecs_to_jiffies (u32 (period curr))) in
        let st1 := store l (Pcb (pid curr) (comp_time curr) (period curr) wake SLEEPING
                                (linux_task curr) (Some wake)) st in
        let st2 := if decide (currtask st1 = Some l) then set_currtask None st1 else st1 in
        Done (true, set_yielding ((current_task, YWake) :: yielding st2) st2)
    end.

(** [wakethread()]. *)
Definition yield_wake (current_task : Z) (st : state) : state :=
  let st1 := wakethread st in
  set_yielding ((current_task, YSleep) :: filter (λ y, y ≠ (current_task, YWake)) (yielding st1)) st1.

(** [set_current_state(TASK_UNINTERRUPTIBLE); schedule()]. *)
Definition yield_sleep (current_task : Z) (st : state) : state :=
  set_runnable (runnable st ∖ {[current_task]})
    (set_yielding (filter (λ y, y ≠ (current_task, YSleep)) (yielding st)) st).

(** [taskyield] up to the point where the process is asleep. *)
Definition taskyield (current_pid current_task p : Z) (st : state) : M (bool * state) :=
  let! r := yield_lock current_pid current_task p st in
  if r.1 : bool then Done (true, yield_sleep current_task (yield_wake current_task r.2))
  else Done (false, r.2).

(** ** The proc entry *)
Definition fmt_R : list directive :=
  [Lit 82; Lit 44; ConvD; Lit 44; ConvD; Lit 44; ConvD; Lit 44; ConvC].
Definition fmt_Y : list directive := [Lit 89; Lit 44; ConvD; Lit 44; ConvC].
Definition fmt_D : list directive := [Lit 68; Lit 44; ConvD; Lit 44; ConvC].

(** What a write asks for, after [strim] and [sscanf]: the three [int]s of a
    registration in the order of the message (pid, period, computation). *)
Inductive command :=
| CmdR (p period comp : Z)
| CmdY (p : Z)
| CmdD (p : Z)
| CmdBad.

Definition parse_command (kbuf : list Z) : command :=
  match kbuf with
  | 82 :: _ =>
      match sscanf fmt_R kbuf with
      | (3%nat, [p; per; comp]) => CmdR p per comp
      | _ => CmdBad
      end
  | 89 :: _ => match sscanf fmt_Y kbuf with (1%nat, [p]) => CmdY p | _ => CmdBad end
  | 68 :: _ => match sscanf fmt_D kbuf with (1%nat, [p]) => CmdD p | _ => CmdBad end
  | _ => CmdBad
  end.

(** What the kernel supplies to a write: the outcome of [copy_from_user],
    the object the cache would return, [jiffies], the process table and the
    calling process. *)
Record write_env := WriteEnv {
  copy_ok : bool;
  alloc : option nat;
  jiffies : Z;
  pid_table : Z → option Z;
  current_pid : Z;
  current_task : Z;
}.

(** [find_task_by_pid] (mp2_given.h): [pid_table] is [find_vpid] followed by
    [pid_task].  An [int] survives the conversion to [unsigned int] and back. *)
Definition find_task_by_pid (env : write_env) (nr : Z) : option Z := pid_table env nr.

(** [int] arguments are converted to [unsigned long]. *)
Definition run_command (env : write_env) (c : command) (st : state) : M (bool * state) :=
  match c with
  | CmdR p per comp =>
      match find_task_by_pid env p with
      | None => Done (false, st)
      | Some task =>
          let! r := taskregister (alloc env) (jiffies env) task p (u64 per) (u64 comp) st in
          Done (match r.1 with Some _ => true | None => false end, r.2)
      end
  | CmdY p => taskyield (current_pid env) (current_task env) p st
  | CmdD p => deregister p st
  | CmdBad => Done (false, st)
  end.

Definition my_write (env : write_env) (input : list Z) (st : state) : M (Z * state) :=
  let len := Z.of_nat (length input) in
  if decide (len >= 51 ∨ len = 0) then Done (-1, st)
  else if copy_ok env then
    let kbuf := strim_in_place (cstring input) in
    let! r := run_command env (parse_command kbuf) st in
    Done (if r.1 : bool then len else -1, r.2)
  else Done (-1, st).
End Kernel.

Lemma mp2_bounds : 0 < 16 < 10240.
Proof. lia. Qed.

#[export] Instance mp2_line : ProcEntry mp2pcb := {|
  pe_cap := 10240;
  pe_margin := 16;
  pe_line := λ p, fmt_d (pid p) ++ [58; 32] ++ fmt_lu (period p) ++ [44; 32] ++
                  fmt_lu (comp_time p) ++ [10];
  pe_bounds := mp2_bounds;
|}.

(** The pcbs of the list, in order. *)
Fixpoint deref_all (st : state) (l : list nat) : M (list mp2pcb) :=
  match l with
  | [] => Done []
  | x :: l' => let! p := deref st x in let! ps := deref_all st l' in Done (p :: ps)
  end.

(** [my_read]: [left=total-*p] is an [int] while the offset is 64 bits wide;
    [kbuf] has [cap] bytes and copying from outside it is a [Fault]. *)
Definition my_read (kmalloc_ok copy_ok : bool) (len pos : Z) (st : state) : M read_reply :=
  if kmalloc_ok then
    let! ps := deref_all st (mp2list st) in
    let text := render ps in
    let total := Z.of_nat (length text) in
    let left := s32 (total - pos) in
    if decide (left ≤ 0) then Done (ReadReply 0 [] pos)
    else
      let len' := if decide (left < len) then left else len in
      if decide (pos + len' ≤ pe_cap (A := mp2pcb)) then
        if copy_ok then
          Done (ReadReply len' (take (Z.to_nat len') (drop (Z.to_nat pos) text)) (pos + len'))
        else Done (ReadReply (-1) [] pos)
      else Fault
  else Done (ReadReply (-1) [] pos).

(** ** Loading and unloading *)
Fixpoint cleanup (l : list nat) (st : state) : M state :=
  match l with
  | [] => Done st
  | x :: l' =>
      let! p := deref st x in
      let st1 := demote_task (Some (linux_task p)) (set_list (filter (λ y, y ≠ x) (mp2list st)) st) in
      let! st2 := del_timer_sync x st1 in
      let! st3 := kmem_cache_free x st2 in
      cleanup l' st3
  end.

Definition cleanuplist (st : state) : M state := cleanup (mp2list st) st.

(** [dispathread] after [kthread_run]: a thread, or an error pointer. *)
Inductive thread := TNull | TThread | TErrPtr.

Record module_state := Module_ {
  mp2dir : bool;
  mp2status : bool;
  mp2cache : bool;               (* the pointer *)
  slab : bool;                   (* the cache it points to, or pointed to, exists *)
  dispathread : thread;
  sched : state;
}.

Definition empty_state : state := State ∅ [] [] [] None DLock ∅ ∅.
Definition unloaded : module_state := Module_ false false false false TNull empty_state.

Definition mp2_init (mkdir_ok create_ok cache_ok thread_ok : bool) : Z * module_state :=
  if mkdir_ok then
    if create_ok then
      if cache_ok then
        (0, Module_ true true true true (if thread_ok then TThread else TErrPtr) empty_state)
      else (-1, unloaded)
    else (-1, unloaded)
  else (-1, unloaded).

(** [mp2_exit], call by call.  [kthread_stop] wakes the thread and waits for
    its end: the thread looks for the request when [dispatcher] has
    returned. *)
Definition exit_stop_thread (m : module_state) : M module_state :=
  match dispathread m with
  | TErrPtr => Fault
  | TNull => Done m
  | TThread =>
      let! st := finish_round (sched m) in
      Done (Module_ (mp2dir m) (mp2status m) (mp2cache m) (slab m) TNull st)
  end.
Definition exit_cleanup (m : module_state) : M module_state :=
  let! st := cleanuplist (sched m) in
  Done (Module_ (mp2dir m) (mp2status m) (mp2cache m) (slab m) (dispathread m) st).
(** [kmem_cache_destroy] leaves a cache alone that still has objects. *)
Definition exit_destroy_cache (m : module_state) : M module_state :=
  if mp2cache m then
    Done (Module_ (mp2dir m) (mp2status m) false (bool_decide (heap (sched m) ≠ ∅)) (dispathread m) (sched m))
  else Done m.
Definition exit_remove_status (m : module_state) : M module_state :=
  Done (Module_ (mp2dir m) false (mp2cache m) (slab m) (dispathread m) (sched m)).
Definition exit_remove_dir (m : module_state) : M module_state :=
  Done (Module_ false (mp2status m) (mp2cache m) (slab m) (dispathread m) (sched m)).

Definition exit_calls : list (module_state → M module_state) :=
  [exit_stop_thread; exit_cleanup; exit_destroy_cache; exit_remove_status; exit_remove_dir].
Definition exit_run (calls : list (module_state → M module_state)) (m : module_state) : M module_state :=
  mfor calls (λ f m, f m) m.
Definition mp2_exit (m : module_state) : M module_state := exit_run exit_calls m.

(** A write to the proc entry of the module, while there is one.  With a NULL
    cache [kmem_cache_alloc] is a [Fault]: the writes that get there are the
    registrations of processes that exist. *)
Definition reaches_alloc (env : write_env) (input : list Z) : bool :=
  let len := Z.of_nat (length input) in
  bool_decide (¬ (len >= 51 ∨ len = 0)) && copy_ok env &&
  match parse_command (strim_in_place (cstring input)) with
  | CmdR p _ _ => bool_decide (is_Some (find_task_by_pid env p))
  | _ => false
  end.

Definition module_write (msecs_to_jiffies : Z → Z) (env : write_env) (input : list Z) (m : module_state)
  : M (Z * module_state) :=
  if mp2status m then
    if negb (mp2cache m) && reaches_alloc env input then Fault
    else
      let! r := my_write msecs_to_jiffies env input (sched m) in
      Done (r.1, Module_ (mp2dir m) (mp2status m) (mp2cache m) (slab m) (dispathread m) r.2)
  else Done (-1, m).

(** ** The running module as a transition system *)
Section Steps.
Variable msecs_to_jiffies : Z → Z.

(** A writer can take the mutex unless the dispatcher holds it. *)
Definition mutex_free (st : state) : Prop :=
  match dpc st with DScan _ _ => False | _ => True end.

Inductive event :=
| EvRegister (alloc : option nat) (jiffies task p per comp : Z)
| EvYield (current_pid current_task p : Z)
| EvYieldWake (current_task : Z)
| EvYieldSleep (current_task : Z)
| EvUnlink (p : Z)
| EvFree (l : nat)
| EvTimer (l : nat)
| EvDispatch.

(** The handlers.  Registration gets an object that is not in use; the
    arguments are [int]s converted to [unsigned long]; a timer fires only
    when it is pending, and no pcb is freed while its timer is; an unlinked pcb is freed by the call that unlinked
    it. *)
Definition exec (ev : event) (st : state) : M state :=
  match ev with
  | EvRegister alloc jiffies task p per comp =>
      let! r := taskregister alloc jiffies task p (u64 per) (u64 comp) st in Done r.2
  | EvYield cp ct p => let! r := yield_lock msecs_to_jiffies cp ct p st in Done r.2
  | EvYieldWake t => Done (yield_wake t st)
  | EvYieldSleep t => Done (yield_sleep t st)
  | EvUnlink p => let! r := deregister_unlink p st in Done r.2
  | EvFree l => deregister_free l st
  | EvTimer l => timercb l st
  | EvDispatch => dispatch_step st
  end.

Definition is_int (x : Z) : Prop := - 2 ^ 31 ≤ x < 2 ^ 31.

Definition enabled (ev : event) (st : state) : Prop :=
  match ev with
  | EvRegister alloc _ _ _ per comp =>
      mutex_free st ∧ is_int per ∧ is_int comp ∧ (∀ l, alloc = Some l → heap st !! l = None)
  | EvYield _ _ _ => mutex_free st
  | EvYieldWake t => (t, YWake) ∈ yielding st
  | EvYieldSleep t => (t, YSleep) ∈ yielding st
  | EvUnlink _ => mutex_free st
  | EvFree l => l ∈ dying st
  | EvTimer l => ∃ p t, heap st !! l = Some p ∧ timer p = Some t
  | EvDispatch => True
  end.

Inductive step : state → event → M state → Prop :=
| Step st ev : enabled ev st → step st ev (exec ev st).

Inductive reachable : state → Prop :=
| reachable_init : reachable empty_state
| reachable_step st ev st' : reachable st → step st ev (Done st') → reachable st'.
End Steps.
End Mp2.
