(* ===== verification/RmsTheorems.v ===== *)
(** * Theorems about the rate-monotonic scheduler

    The invariant of the running module over every interleaving of writers,
    timers and dispatcher statements; rate-monotonic optimality of the
    dispatcher; exactness of admission control; the proc interface; unloading,
    with and without a registration in between; and the schedules in which a wake-up is lost. *)
From S2P Require Import Prelude CInt ProcText RmsSched.
Import Mp2.

(** ** The invariant *)

(** Total utilisation of the tasks of a list, in thousandths. *)
Fixpoint usage (h : gmap nat mp2pcb) (l : list nat) : Z :=
  match l with
  | [] => 0
  | x :: l' =>
      match h !! x with
      | Some p => utilization (comp_time p) (period p)
      | None => 0
      end + usage h l'
  end.

Record inv (h : gmap nat mp2pcb) (l d : list nat) (c : option nat) (pc : dispatcher_pc) : Prop := {
  inv_nodup : NoDup (l ++ d);
  inv_heap : ∀ x, x ∈ l ++ d → is_Some (h !! x);
  inv_period : ∀ x p, x ∈ l → h !! x = Some p → 0 < period p < 2 ^ 64;
  inv_pids : ∀ x y p q, x ∈ l → y ∈ l → h !! x = Some p → h !! y = Some q → pid p = pid q → x = y;
  inv_curr : ∀ x, c = Some x → x ∈ l;
  inv_run : ∀ x p, x ∈ l → h !! x = Some p → RMSstate p = RUNNING ↔ c = Some x;
  inv_timer : ∀ x p, h !! x = Some p → timer p ≠ None → RMSstate p = SLEEPING;
  inv_scan : ∀ rest next, pc = DScan rest next →
    (∀ x, x ∈ rest → x ∈ l) ∧
    ∀ n, next = Some n → n ∈ l ∧ ∃ p, h !! n = Some p ∧ RMSstate p = READY;
  inv_usage : usage h l ≤ 693;
}.

Definition inv_st (st : state) : Prop :=
  inv (heap st) (mp2list st) (dying st) (currtask st) (dpc st).

(** What no operation after the registration changes in a pcb. *)
Definition same_task (p q : mp2pcb) : Prop :=
  pid p = pid q ∧ comp_time p = comp_time q ∧ period p = period q ∧ linux_task p = linux_task q.

Lemma usage_insert_same h l x p q :
  h !! x = Some p → same_task p q → usage (<[x := q]> h) l = usage h l.
Proof.
  intros Hx (_ & Hc & Hp & _). induction l as [|y l IH]; simpl; [done|].
  destruct (decide (x = y)) as [<-|Hne].
  - rewrite lookup_insert_eq, Hx, IH. by rewrite Hc, Hp.
  - by rewrite lookup_insert_ne, IH.
Qed.

Lemma usage_insert_notin h l x q : x ∉ l → usage (<[x := q]> h) l = usage h l.
Proof.
  intros Hx. induction l as [|y l IH]; simpl; [done|].
  apply not_elem_of_cons in Hx as [Hne Hx]. by rewrite lookup_insert_ne, IH.
Qed.

Lemma usage_delete_notin h l x : x ∉ l → usage (delete x h) l = usage h l.
Proof.
  intros Hx. induction l as [|y l IH]; simpl; [done|].
  apply not_elem_of_cons in Hx as [Hne Hx]. by rewrite lookup_delete_ne, IH.
Qed.

Lemma usage_app h l1 l2 : usage h (l1 ++ l2) = usage h l1 + usage h l2.
Proof. induction l1 as [|x l1 IH]; simpl; [done|]. rewrite IH. lia. Qed.

Lemma utilization_nonneg comp per : 0 ≤ utilization comp per ∨ per < 0.
Proof.
  destruct (decide (per < 0)); [by right|left]. unfold utilization.
  destruct (decide (per = 0)) as [->|]; [by rewrite Z.div_0_r|].
  apply Z.div_pos; [apply (wrap_range 64); lia|lia].
Qed.

Lemma usage_nonneg h l :
  (∀ x p, x ∈ l → h !! x = Some p → 0 < period p) → 0 ≤ usage h l.
Proof.
  induction l as [|x l IH]; intros Hp; simpl; [done|].
  assert (0 ≤ usage h l) by (apply IH; intros; eapply Hp; [by right|done]).
  destruct (h !! x) as [p|] eqn:Hx; [|lia].
  pose proof (Hp x p ltac:(left) Hx). destruct (utilization_nonneg (comp_time p) (period p)); lia.
Qed.

Lemma usage_filter h l x :
  (∀ y p, y ∈ l → h !! y = Some p → 0 < period p) → usage h (filter (λ y, y ≠ x) l) ≤ usage h l.
Proof.
  induction l as [|y l IH]; intros Hp; [done|].
  assert (usage h (filter (λ y, y ≠ x) l) ≤ usage h l)
    by (apply IH; intros; eapply Hp; [by right|done]).
  rewrite filter_cons. cbn [usage]. case_decide; cbn [usage]; [lia|].
  pose proof (usage_nonneg h [y]) as Hy. cbn [usage] in Hy.
  assert (0 ≤ match h !! y with Some p => utilization (comp_time p) (period p) | None => 0 end + 0); [|lia].
  apply Hy. intros z p ->%list_elem_of_singleton. apply Hp. left.
Qed.

(** ** Preservation by the primitive updates *)
Section Updates.
Context (h : gmap nat mp2pcb) (l d : list nat) (c : option nat) (pc : dispatcher_pc).
Hypothesis HI : inv h l d c pc.

(** The dispatcher moves outside its critical section. *)
Lemma inv_pc pc' : (∀ rest next, pc' ≠ DScan rest next) → inv h l d c pc'.
Proof. intros Hpc. destruct HI. split; try done. by intros rest next ?%Hpc. Qed.

(** The state and the timer of one pcb change, and the current task with it. *)
Lemma inv_update x p p' c' :
  h !! x = Some p → same_task p p' →
  (timer p' ≠ None → RMSstate p' = SLEEPING) →
  (x ∈ l → RMSstate p' = RUNNING ↔ c' = Some x) →
  (∀ y, y ≠ x → c' = Some y ↔ c = Some y) →
  (c' = Some x → x ∈ l) →
  (∀ rest, pc = DScan rest (Some x) → RMSstate p' = READY) →
  inv (<[x := p']> h) l d c' pc.
Proof.
  intros Hx Hsame Ht Hr Hc Hcx Hs.
  assert (∀ y q, <[x := p']> h !! y = Some q → ∃ q0, h !! y = Some q0 ∧ same_task q0 q) as Hback.
  { intros y q. destruct (decide (x = y)) as [<-|Hne].
    - rewrite lookup_insert_eq. intros [= <-]. eauto.
    - rewrite lookup_insert_ne by done. intros. exists q. by split. }
  destruct HI as [H1 H2 H3 H4 H5 H6 H7 H8 H9]. split.
  - done.
  - intros y [q Hq]%H2. destruct (decide (x = y)) as [<-|Hne].
    + rewrite lookup_insert_eq. eauto.
    + rewrite lookup_insert_ne by done. eauto.
  - intros y q Hy (q0 & Hq0 & _ & _ & <- & _)%Hback. by eapply H3.
  - intros y z q r Hy Hz (q0 & Hq0 & <- & _)%Hback (r0 & Hr0 & <- & _)%Hback. by apply H4.
  - intros y Hy. destruct (decide (y = x)) as [->|Hne]; [auto|]. apply H5. by apply Hc.
  - intros y q Hy. destruct (decide (x = y)) as [<-|Hne].
    + rewrite lookup_insert_eq. intros [= <-]. auto.
    + rewrite lookup_insert_ne by done. intros Hq. rewrite (H6 y q) by done. symmetry. by apply Hc.
  - intros y q. destruct (decide (x = y)) as [<-|Hne].
    + rewrite lookup_insert_eq. intros [= <-]. done.
    + rewrite lookup_insert_ne by done. apply H7.
  - intros rest next Hpc. destruct (H8 rest next Hpc) as [Hrest Hnext]. split; [done|].
    intros n ->. destruct (Hnext n eq_refl) as [Hn (q & Hq & Hready)]. split; [done|].
    destruct (decide (x = n)) as [<-|Hne].
    + rewrite lookup_insert_eq. exists p'. split; [done|]. by eapply Hs.
    + rewrite lookup_insert_ne by done. eauto.
  - by rewrite (usage_insert_same h l x p).
Qed.

(** A pcb outside the list and the dying set can be allocated or freed. *)
Lemma inv_alloc_blank x : h !! x = None → inv (<[x := blank]> h) l d c pc.
Proof.
  intros Hx. destruct HI as [H1 H2 H3 H4 H5 H6 H7 H8 H9].
  assert (x ∉ l ++ d) as Hnew by (intros [? ?]%H2; congruence).
  assert (x ∉ l) as Hnl by set_solver.
  assert (∀ y, y ∈ l → <[x := blank]> h !! y = h !! y) as Hsame.
  { intros y Hy. apply lookup_insert_ne. by intros ->. }
  split; try done.
  - intros y Hy. rewrite lookup_insert_ne by (by intros ->). auto.
  - intros y q Hy. rewrite Hsame by done. by apply H3.
  - intros y z q r Hy Hz. rewrite !Hsame by done. by apply H4.
  - intros y q Hy. rewrite Hsame by done. by apply H6.
  - intros y q. destruct (decide (x = y)) as [<-|Hne].
    + rewrite lookup_insert_eq. by intros [= <-].
    + rewrite lookup_insert_ne by done. apply H7.
  - intros rest next Hpc. destruct (H8 rest next Hpc) as [Hr Hn]. split; [done|].
    intros n Hnn. destruct (Hn n Hnn) as [Hnl' ?]. by rewrite Hsame.
  - by rewrite usage_insert_notin.
Qed.

Lemma inv_free x : x ∉ l → inv (delete x h) l (filter (λ y, y ≠ x) d) c pc.
Proof.
  intros Hx. destruct HI as [H1 H2 H3 H4 H5 H6 H7 H8 H9].
  assert (∀ y, y ∈ l → delete x h !! y = h !! y) as Hsame.
  { intros y Hy. apply lookup_delete_ne. by intros ->. }
  split; try done.
  - apply NoDup_app in H1 as (Ha & Hb & Hc'). apply NoDup_app. split_and!; [done| |by apply NoDup_filter].
    intros y Hy [_ Hyd]%list_elem_of_filter. by eapply Hb.
  - intros y Hy. rewrite lookup_delete_ne.
    + apply H2. apply elem_of_app in Hy as [?|[_ ?]%list_elem_of_filter]; apply elem_of_app; auto.
    + intros <-. apply elem_of_app in Hy as [?|[? _]%list_elem_of_filter]; done.
  - intros y q Hy. rewrite Hsame by done. by apply H3.
  - intros y z q r Hy Hz. rewrite !Hsame by done. by apply H4.
  - intros y q Hy. rewrite Hsame by done. by apply H6.
  - intros y q [_ Hq]%lookup_delete_Some. by eapply H7.
  - intros rest next Hpc. destruct (H8 rest next Hpc) as [Hr Hn]. split; [done|].
    intros n Hnn. destruct (Hn n Hnn) as [Hnl' ?]. by rewrite Hsame.
  - by rewrite usage_delete_notin.
Qed.

(** A registered task joins the end of the list. *)
Lemma inv_append x p :
  h !! x = None → (∀ rest next, pc ≠ DScan rest next) →
  0 < period p < 2 ^ 64 → RMSstate p = SLEEPING →
  (∀ y q, y ∈ l → h !! y = Some q → pid q ≠ pid p) →
  usage h l + utilization (comp_time p) (period p) ≤ 693 →
  inv (<[x := p]> h) (l ++ [x]) d c pc.
Proof.
  intros Hx Hpc Hper Hsl Hpid Hu. destruct HI as [H1 H2 H3 H4 H5 H6 H7 H8 H9].
  assert (x ∉ l ++ d) as Hnew by (intros [? ?]%H2; congruence).
  assert (∀ y q, y ∈ l ++ [x] → <[x := p]> h !! y = Some q →
    (y = x ∧ q = p) ∨ (y ∈ l ∧ y ≠ x ∧ h !! y = Some q)) as Hcase.
  { intros y q [Hy| ->%list_elem_of_singleton]%elem_of_app.
    - assert (x ≠ y) by set_solver. rewrite lookup_insert_ne by done. naive_solver.
    - rewrite lookup_insert_eq. naive_solver. }
  split.
  - rewrite <- app_assoc. simpl. rewrite <- Permutation_middle. by constructor.
  - intros y Hy. destruct (decide (x = y)) as [<-|Hne]; [rewrite lookup_insert_eq; eauto|].
    rewrite lookup_insert_ne by done. apply H2. set_solver.
  - intros y q Hy [ [-> ->]|(? & ? & ?)]%Hcase; [done| |done]. by eapply H3.
  - intros y z q r Hy Hz Hq Hr. destruct (Hcase _ _ Hy Hq) as [ [-> ->]|(? & ? & ?)];
      destruct (Hcase _ _ Hz Hr) as [ [-> ->]|(? & ? & ?)]; [done| | |by apply H4].
    + intros He. by destruct (Hpid z r).
    + intros He. by destruct (Hpid y q).
  - intros y Hy%H5. set_solver.
  - intros y q Hy [ [-> ->]|(? & ? & ?)]%Hcase; [|by apply H6|done]. rewrite Hsl. split; [done|].
    intros Hc%H5. set_solver.
  - intros y q. destruct (decide (x = y)) as [<-|Hne].
    + rewrite lookup_insert_eq. by intros [= <-].
    + rewrite lookup_insert_ne by done. apply H7.
  - by intros rest next ?%Hpc.
  - rewrite usage_app, usage_insert_notin by set_solver. cbn [usage].
    rewrite lookup_insert_eq. lia.
Qed.

(** A task leaves the list and joins the dying set. *)
Lemma inv_unlink x :
  x ∈ l → (∀ rest next, pc ≠ DScan rest next) →
  inv h (filter (λ y, y ≠ x) l) (x :: d) (if decide (c = Some x) then None else c) pc.
Proof.
  intros Hx Hpc. destruct HI as [H1 H2 H3 H4 H5 H6 H7 H8 H9].
  assert (∀ y, y ∈ filter (λ y, y ≠ x) l ↔ y ≠ x ∧ y ∈ l) as Hf by (intros; by rewrite list_elem_of_filter).
  apply NoDup_app in H1 as (Ha & Hb & Hd).
  split; try done.
  - apply NoDup_app. split_and!; [by apply NoDup_filter| |].
    + intros y [Hne Hy]%Hf. apply not_elem_of_cons. eauto.
    + constructor; eauto.
  - intros y Hy. apply H2. apply elem_of_app in Hy as [[_ ?]%Hf|Hy]; [set_solver|].
    apply elem_of_cons in Hy as [->|?]; set_solver.
  - intros y q [_ Hy]%Hf. by apply H3.
  - intros y z q r [_ Hy]%Hf [_ Hz]%Hf. by apply H4.
  - intros y. case_decide as Hc; [done|]. intros Hcy. apply Hf. split; [congruence|auto].
  - intros y q [Hne Hy]%Hf Hq. rewrite (H6 y q) by done. case_decide; naive_solver.
  - by intros rest next ?%Hpc.
  - etrans; [|exact H9]. apply usage_filter. intros y q Hy Hq. by apply (H3 y q).
Qed.
End Updates.

(** ** Searching and admission *)
Lemma deref_some st x p : heap st !! x = Some p → deref st x = Done p.
Proof. unfold deref. by intros ->. Qed.

Lemma find_pid_spec st l p :
  (∀ x, x ∈ l → is_Some (heap st !! x)) →
  ∃ r, find_pid st l p = Done r ∧
  match r with
  | Some x => x ∈ l ∧ ∃ q, heap st !! x = Some q ∧ pid q = p
  | None => ∀ x q, x ∈ l → heap st !! x = Some q → pid q ≠ p
  end.
Proof.
  induction l as [|x l IH]; intros Hh; simpl.
  { exists None. split; [done|]. by intros x q ?%not_elem_of_nil. }
  destruct (Hh x) as [q Hq]; [left|]. rewrite (deref_some _ _ _ Hq). simpl.
  case_decide as Hp.
  - exists (Some x). split; [done|]. split; [left|eauto].
  - destruct IH as (r & -> & Hr); [intros; apply Hh; by right|].
    exists r. split; [done|]. destruct r as [y|].
    + destruct Hr as [? ?]. split; [by right|done].
    + intros y q' [->|Hy]%elem_of_cons Hq'; [congruence|eauto].
Qed.

Lemma usum_loop_spec st l newpid usum :
  (∀ x, x ∈ l → ∃ p, heap st !! x = Some p ∧ 0 < period p) →
  0 ≤ usum → usum + usage (heap st) l < 2 ^ 64 →
  ∃ r, usum_loop st l newpid usum = Done r ∧
  match r with
  | Some u => u = usum + usage (heap st) l ∧
      ∀ x q, x ∈ l → heap st !! x = Some q → pid q ≠ newpid
  | None => ∃ x q, x ∈ l ∧ heap st !! x = Some q ∧ pid q = newpid
  end.
Proof.
  revert usum. induction l as [|x l IH]; intros usum Hh Hu Hb; simpl.
  { exists (Some usum). split; [done|]. split; [simpl; lia|]. by intros x q ?%not_elem_of_nil. }
  destruct (Hh x) as (p & Hp & Hper); [left|]. rewrite (deref_some _ _ _ Hp). simpl.
  rewrite decide_False by lia. cbn [usage] in Hb. rewrite Hp in *.
  destruct (utilization_nonneg (comp_time p) (period p)) as [Hn|]; [|lia].
  assert (∀ x, x ∈ l → ∃ p, heap st !! x = Some p ∧ 0 < period p) as Hh'
    by (intros; apply Hh; by right).
  assert (0 ≤ usage (heap st) l).
  { apply usage_nonneg. intros y q Hy Hq. destruct (Hh' y Hy) as (q' & ? & ?). congruence. }
  rewrite wrap_small by lia. case_decide as Hpid.
  - exists None. split; [done|]. exists x, p. split_and!; [left|done|done].
  - destruct (IH (usum + utilization (comp_time p) (period p))) as (r & -> & Hr); [done|lia|lia|].
    exists r. split; [done|]. destruct r as [u|].
    + destruct Hr as [-> Hr]. split; [lia|].
      intros y q [->|Hy]%elem_of_cons Hq; [congruence|eauto].
    + destruct Hr as (y & q & Hy & ?). exists y, q. split; [by right|done].
Qed.

(** The utilisation of [int] arguments leaves room for the admitted tasks
    below 2^64: the sum in [taskregister] does not wrap. *)
Lemma utilization_int per comp :
  is_int per → is_int comp → u64 per ≠ 0 → u64 comp ≠ 0 →
  0 ≤ utilization (u64 comp) (u64 per) ≤ 2 ^ 64 - 1000.
Proof.
  intros Hper Hcomp Hper0 Hcomp0. unfold is_int in *.
  pose proof (wrap_range 64 per ltac:(lia)) as Hr.
  assert (comp ≠ 0) by (intros ->; by apply Hcomp0).
  assert (0 ≤ u64 (u64 comp * 1000) ≤ 2 ^ 64 - 1000) as Hc.
  { unfold wrap. rewrite Zmult_mod_idemp_l. destruct (decide (0 < comp)).
    - rewrite Z.mod_small by lia. lia.
    - rewrite <- (Z.mod_add (comp * 1000) 1) by lia. rewrite Z.mod_small by lia. lia. }
  unfold utilization. split; [apply Z.div_pos; lia|].
  etrans; [apply Z.div_le_upper_bound with (q := u64 (u64 comp * 1000)); [lia|]|lia]. nia.
Qed.

(** Whether a task with this pid is on the list. *)
Definition registered (st : state) (p : Z) : Prop :=
  ∃ x q, x ∈ mp2list st ∧ heap st !! x = Some q ∧ pid q = p.

(** [taskregister] on a well-formed state: either the new pcb joins the
    list, or the list is unchanged. *)
Lemma taskregister_spec st x j task p per comp :
  inv_st st → is_int per → is_int comp → u64 per ≠ 0 → u64 comp ≠ 0 →
  let u := utilization (u64 comp) (u64 per) + usage (heap st) (mp2list st) in
  let ok := set_list (mp2list st ++ [x])
              (store x (Pcb p (u64 comp) (u64 per) j SLEEPING task None) st) in
  let freed := set_heap (delete x (heap st)) st in
  (¬ registered st p ∧ u ≤ 693 ∧
     taskregister (Some x) j task p (u64 per) (u64 comp) st = Done (Some x, ok)) ∨
  ((registered st p ∨ u > 693) ∧
     taskregister (Some x) j task p (u64 per) (u64 comp) st = Done (None, freed)).
Proof.
  intros HI Hper Hcomp Hper0 Hcomp0 u ok freed.
  pose proof (utilization_int per comp Hper Hcomp Hper0 Hcomp0) as Hu.
  pose proof (inv_usage _ _ _ _ _ HI) as Hus.
  destruct (usum_loop_spec st (mp2list st) p (utilization (u64 comp) (u64 per))) as (r & Hr & Hspec).
  { intros y Hy. destruct (inv_heap _ _ _ _ _ HI y) as [q Hq]; [by apply elem_of_app; left|].
    exists q. split; [done|]. by apply (inv_period _ _ _ _ _ HI y q). }
  { lia. } { lia. }
  unfold taskregister. rewrite decide_False by naive_solver. rewrite Hr. simpl.
  destruct r as [v|].
  - destruct Hspec as [-> Hnot]. case_decide as Hgt.
    + right. split; [right; exact Hgt|done].
    + left. split_and!; [intros (y & q & ? & ? & ?); by eapply Hnot|unfold u; lia|done].
  - right. split; [by left|done].
Qed.

Lemma not_scan_mutex st rest next : mutex_free st → dpc st ≠ DScan rest next.
Proof. unfold mutex_free. intros Hm Hd. by rewrite Hd in Hm. Qed.

(** Deleting a location that is not allocated changes nothing. *)
Lemma set_heap_delete_fresh x st : heap st !! x = None → set_heap (delete x (heap st)) st = st.
Proof. intros Hx. unfold set_heap. rewrite delete_id by done. by destruct st. Qed.

Lemma register_inv st alloc j task p per comp :
  inv_st st → mutex_free st → is_int per → is_int comp →
  (∀ x, alloc = Some x → heap st !! x = None) →
  ∃ r st', taskregister alloc j task p (u64 per) (u64 comp) st = Done (r, st') ∧ inv_st st'.
Proof.
  intros HI Hm Hper Hcomp Hnew. destruct alloc as [x|]; [|by exists None, st].
  specialize (Hnew x eq_refl).
  destruct (decide (u64 per = 0 ∨ u64 comp = 0)) as [H0|H0].
  { exists None, (store x blank st). split; [|by apply inv_alloc_blank].
    unfold taskregister. by rewrite decide_True by done. }
  assert (u64 per ≠ 0 ∧ u64 comp ≠ 0) as [Hp0 Hc0] by naive_solver.
  destruct (taskregister_spec st x j task p per comp) as [(Hreg & Hu & ->)|[_ ->]]; try done.
  - eexists _, _. split; [done|]. apply inv_append; simpl; try done.
    + intros. by apply not_scan_mutex.
    + pose proof (wrap_range 64 per ltac:(lia)). lia.
    + intros y q Hy Hq Heq. by destruct Hreg; exists y, q.
    + lia.
  - eexists _, _. split; [done|]. by rewrite set_heap_delete_fresh.
Qed.

(** ** The other events *)
Lemma wakethread_inv st : inv_st st → inv_st (wakethread st).
Proof.
  intros HI. unfold wakethread. destruct (dpc st) eqn:Hpc; try done.
  all: by eapply inv_pc.
Qed.

Lemma yield_inv f cp ct p st :
  inv_st st → mutex_free st → ∃ r st', yield_lock f cp ct p st = Done (r, st') ∧ inv_st st'.
Proof.
  intros HI Hm. unfold yield_lock. case_decide; [by exists false, st|].
  destruct (find_pid_spec st (mp2list st) p) as (r & -> & Hr).
  { intros x Hx. apply (inv_heap _ _ _ _ _ HI). by apply elem_of_app; left. }
  simpl. destruct r as [x|]; [|by exists false, st].
  destruct Hr as (Hx & q & Hq & _). rewrite (deref_some _ _ _ Hq). simpl.
  eexists true, _. split; [done|]. unfold inv_st.
  assert (∀ rest, dpc st ≠ DScan rest (Some x)) as Hpc by (intros; by apply not_scan_mutex).
  case_decide as Hc; simpl in *; (eapply inv_update; [done|done|..]); simpl; try done;
    try (intros; by exfalso; eapply Hpc); naive_solver.
Qed.

Lemma unlink_inv p st :
  inv_st st → mutex_free st → ∃ r st', deregister_unlink p st = Done (r, st') ∧ inv_st st'.
Proof.
  intros HI Hm. unfold deregister_unlink.
  destruct (find_pid_spec st (mp2list st) p) as (r & -> & Hr).
  { intros x Hx. apply (inv_heap _ _ _ _ _ HI). by apply elem_of_app; left. }
  simpl. destruct r as [x|]; [|by exists None, st]. destruct Hr as [Hx _].
  eexists (Some x), _. split; [done|]. apply inv_unlink; [done|done|].
  intros. by apply not_scan_mutex.
Qed.

(** Stopping the timer and freeing the object. *)
Lemma release_object x p st :
  heap st !! x = Some p →
  (let! st1 := del_timer_sync x st in kmem_cache_free x st1) = Done (set_heap (delete x (heap st)) st).
Proof.
  intros Hp. unfold del_timer_sync. rewrite (deref_some _ _ _ Hp). cbn [obind].
  unfold kmem_cache_free, deref, store. cbn [heap set_heap]. rewrite lookup_insert_eq. cbn [obind timer].
  by rewrite delete_insert_eq.
Qed.

(** [deregister_free] on an object that is there. *)
Lemma deregister_free_eq x p st :
  heap st !! x = Some p →
  deregister_free x st =
    let st1 := set_dying (filter (λ y, y ≠ x) (dying st))
                 (set_heap (delete x (heap st)) (demote_task (Some (linux_task p)) st)) in
    Done (match currtask st with None => wakethread st1 | Some _ => st1 end).
Proof.
  intros Hp. unfold deregister_free. rewrite (deref_some _ _ _ Hp). cbn [obind].
  pose proof (release_object x p (demote_task (Some (linux_task p)) st) Hp) as Hr.
  destruct (del_timer_sync _ _) as [st1|e|]; [|done..]. cbn [obind] in Hr |- *. by rewrite Hr.
Qed.

Lemma free_inv x st :
  inv_st st → x ∈ dying st → ∃ st', deregister_free x st = Done st' ∧ inv_st st'.
Proof.
  intros HI Hx. destruct (inv_heap _ _ _ _ _ HI x) as [p Hp]; [by apply elem_of_app; right|].
  rewrite (deregister_free_eq x p st Hp). cbv zeta.
  assert (x ∉ mp2list st) as Hnl.
  { intros Hl. pose proof (inv_nodup _ _ _ _ _ HI) as (_ & Hd & _)%NoDup_app. by eapply Hd. }
  pose proof (inv_free _ _ _ _ _ HI x Hnl) as HI'.
  eexists. split; [done|]. destruct (currtask st) eqn:Hc; [|apply wakethread_inv];
    unfold inv_st; simpl; by rewrite Hc.
Qed.

Lemma timer_inv x p t st :
  inv_st st → heap st !! x = Some p → timer p = Some t → ∃ st', timercb x st = Done st' ∧ inv_st st'.
Proof.
  intros HI Hp Ht. unfold timercb. rewrite (deref_some _ _ _ Hp). simpl.
  eexists. split; [done|]. apply wakethread_inv.
  assert (RMSstate p = SLEEPING) as Hs by (eapply inv_timer; [apply HI|done|by rewrite Ht]).
  assert (currtask st ≠ Some x) as Hc.
  { intros Hc. pose proof (inv_curr _ _ _ _ _ HI x Hc) as Hl.
    apply (inv_run _ _ _ _ _ HI x p) in Hc; [congruence|done|done]. }
  eapply inv_update; [done|done|done|..]; simpl; naive_solver.
Qed.

(** ** The dispatcher *)

(** [n] is READY and on the list. *)
Definition ready (st : state) (n : nat) : Prop :=
  n ∈ mp2list st ∧ ∃ p, heap st !! n = Some p ∧ RMSstate p = READY.

(** No READY task of [l] has a smaller period than [next]. *)
Definition best_of (st : state) (l : list nat) (next : option nat) : Prop :=
  ∀ y q, y ∈ l → heap st !! y = Some q → RMSstate q = READY →
  ∃ n p, next = Some n ∧ heap st !! n = Some p ∧ period p ≤ period q.

Lemma better_spec st x next done_ :
  x ∈ mp2list st → is_Some (heap st !! x) → (∀ n, next = Some n → ready st n) →
  best_of st done_ next →
  ∃ next', better st x next = Done next' ∧ (∀ n, next' = Some n → ready st n) ∧
    best_of st (done_ ++ [x]) next'.
Proof.
  intros Hl [p Hp] Hnext Hbest. unfold better. rewrite (deref_some _ _ _ Hp). simpl.
  case_decide as Hst.
  { exists next. split_and!; [done|done|].
    intros y q [Hy| ->%list_elem_of_singleton]%elem_of_app; [by apply Hbest|congruence]. }
  assert (RMSstate p = READY) as Hr by (destruct (decide (RMSstate p = READY)); done || tauto).
  assert (ready st x) as Hx by (split; eauto).
  destruct next as [n|].
  - destruct (Hnext n eq_refl) as (Hn & pn & Hpn & Hrn).
    rewrite (deref_some _ _ _ Hpn). simpl. case_decide as Hlt.
    + exists (Some x). split_and!; [done|by intros ? [= <-]|].
      intros y q [Hy| ->%list_elem_of_singleton]%elem_of_app Hq Hrq; [|naive_solver lia].
      destruct (Hbest y q Hy Hq Hrq) as (n' & p' & [= <-] & Hp' & ?).
      exists x, p. simplify_eq. split_and!; [done|done|lia].
    + exists (Some n). split_and!; [done|done|].
      intros y q [Hy| ->%list_elem_of_singleton]%elem_of_app Hq Hrq; [by apply (Hbest y q)|].
      exists n, pn. simplify_eq. split_and!; [done|done|lia].
  - exists (Some x). split_and!; [done|by intros ? [= <-]|].
    intros y q [Hy| ->%list_elem_of_singleton]%elem_of_app Hq Hrq; [|naive_solver lia].
    by destruct (Hbest y q Hy Hq Hrq) as (n' & p' & ? & _).
Qed.

Lemma select_spec st l next done_ :
  (∀ x, x ∈ l → x ∈ mp2list st ∧ is_Some (heap st !! x)) →
  (∀ n, next = Some n → ready st n) → best_of st done_ next →
  ∃ next', select st l next = Done next' ∧ (∀ n, next' = Some n → ready st n) ∧
    best_of st (done_ ++ l) next'.
Proof.
  revert next done_. induction l as [|x l IH]; intros next done_ Hl Hn Hb; simpl.
  { exists next. by rewrite app_nil_r. }
  destruct (Hl x) as [Hx Hsome]; [left|].
  destruct (better_spec st x next done_) as (next' & -> & Hn' & Hb'); try done.
  destruct (IH next' (done_ ++ [x])) as (r & Hr & Hrn & Hrb); try done.
  { intros y Hy. apply Hl. by right. }
  exists r. rewrite <- app_assoc in Hrb. done.
Qed.

(** The outcome of the decision: who is current, and what changed.  [pc] is
    where the dispatcher goes on. *)
Record decided (st st' : state) (next : option nat) (prot dem : option Z) : Prop := {
  dec_list : mp2list st' = mp2list st;
  dec_dying : dying st' = dying st;
  dec_attrs : attrs st' = attrs st;
  dec_dpc : dpc st' = dpc st;
  dec_inv : ∀ pc, (∀ rest n, pc ≠ DScan rest n) → inv_st (set_dpc pc st');
  dec_same : ∀ x p, heap st !! x = Some p → ∃ p', heap st' !! x = Some p' ∧ same_task p p';
  dec_none : currtask st' = None → next = None;
  dec_curr : ∀ c p, currtask st' = Some c → heap st' !! c = Some p →
    (∀ n q, next = Some n → heap st !! n = Some q → period p ≤ period q) ∧
    match prot with Some t => t = linux_task p | None => currtask st = Some c end;
  dec_ready : ∀ y q, y ∈ mp2list st → heap st' !! y = Some q → RMSstate q = READY →
    (∃ q0, heap st !! y = Some q0 ∧ RMSstate q0 = READY ∧ period q0 = period q) ∨
    (∃ n qn, next = Some n ∧ heap st !! n = Some qn ∧ period qn < period q);
}.

Lemma decided_same st next :
  inv_st st → (currtask st = None → next = None) →
  (∀ c p n q, currtask st = Some c → heap st !! c = Some p →
     next = Some n → heap st !! n = Some q → period p ≤ period q) →
  decided st st next None None.
Proof.
  intros HI Hnone Hcmp. split; try done.
  - intros pc Hpc. by eapply inv_pc.
  - intros x p Hp. exists p. by split.
  - intros c p Hc Hp. split; [|done]. intros n q Hn Hq. by eapply Hcmp.
  - intros y q Hy Hq Hr. left. exists q. done.
Qed.

Lemma awake_no_timer h l d c pc x p :
  inv h l d c pc → h !! x = Some p → RMSstate p ≠ SLEEPING → timer p = None.
Proof.
  intros HI Hp Hs. destruct (timer p) eqn:Ht; [|done].
  destruct Hs. eapply inv_timer; [done|done|by rewrite Ht].
Qed.

(** Switching to a READY task when no task runs. *)
Lemma decided_switch st n p :
  inv_st st → currtask st = None → heap st !! n = Some p → RMSstate p = READY →
  n ∈ mp2list st →
  decided st (store n (set_state RUNNING p) (set_currtask (Some n) st)) (Some n) (Some (linux_task p)) None.
Proof.
  intros HI Hc Hp Hr Hn.
  assert (timer p = None) as Ht by (eapply awake_no_timer; [apply HI|done|congruence]).
  split; try done; simpl.
  - intros pc Hpc. apply (inv_update _ _ _ (currtask st) _) with (p := p); simpl; try done.
    + by eapply inv_pc.
    + rewrite Hc. naive_solver.
    + intros rest ?. by destruct (Hpc rest (Some n)).
  - intros x q Hq. destruct (decide (n = x)) as [<-|Hne].
    + rewrite lookup_insert_eq. eexists. split; [done|]. by simplify_eq.
    + rewrite lookup_insert_ne by done. exists q. by split.
  - intros c q [= <-]. rewrite lookup_insert_eq. intros [= <-]. split; [|done].
    intros m r [= <-] Hm. by simplify_eq.
  - intros y q Hy. destruct (decide (n = y)) as [<-|Hne].
    + rewrite lookup_insert_eq. by intros [= <-].
    + rewrite lookup_insert_ne by done. intros. left. eauto.
Qed.

(** Preempting the current task. *)
Lemma decided_preempt st c cur n p :
  inv_st st → currtask st = Some c → heap st !! c = Some cur →
  heap st !! n = Some p → RMSstate p = READY → n ∈ mp2list st → period cur > period p →
  decided st
    (store n (set_state RUNNING p) (set_currtask (Some n) (store c (set_state READY cur) st)))
    (Some n) (Some (linux_task p)) (Some (linux_task cur)).
Proof.
  intros HI Hc Hcur Hp Hr Hn Hgt.
  pose proof (inv_curr _ _ _ _ _ HI c Hc) as Hcl.
  assert (RMSstate cur = RUNNING) as Hrun by (by apply (inv_run _ _ _ _ _ HI c cur)).
  assert (c ≠ n) as Hne by (intros ->; congruence).
  assert (timer cur = None) as Ht by (eapply awake_no_timer; [apply HI|done|congruence]).
  set (st1 := set_currtask None (set_dpc DLock (store c (set_state READY cur) st))).
  assert (inv_st st1) as HI1.
  { apply (inv_update _ _ _ (currtask st) _) with (p := cur); simpl; try done.
    - by eapply inv_pc.
    - rewrite Hc. naive_solver. }
  assert (heap st1 !! n = Some p) as Hp1 by (simpl; by rewrite lookup_insert_ne).
  destruct (decided_switch st1 n p HI1 eq_refl Hp1 Hr Hn) as [? ? ? ? Hinv Hsame ? Hcurr Hrdy].
  split; try done; simpl in *.
  - intros x q Hq. destruct (decide (c = x)) as [<-|Hcx].
    + destruct (Hsame c (set_state READY cur)) as (p' & ? & ?); [by rewrite lookup_insert_eq|].
      exists p'. simplify_eq. done.
    + apply Hsame. by rewrite lookup_insert_ne.
  - intros c' q [= <-] Hq. destruct (Hcurr n q eq_refl Hq) as [Hle Hl]. split; [|done].
    intros m r [= <-] Hm. apply (Hle n r); [done|]. by rewrite lookup_insert_ne.
  - intros y q Hy Hq Hrq. destruct (Hrdy y q Hy Hq Hrq) as [(q0 & Hq0 & Hr0 & Hper)|(m & qm & [= <-] & Hqm & Hlt)].
    + destruct (decide (c = y)) as [<-|Hcy].
      * rewrite lookup_insert_eq in Hq0. simplify_eq. right. exists n, p. simpl in *.
        split_and!; [done|done|lia].
      * rewrite lookup_insert_ne in Hq0 by done. left. eauto.
    + right. exists n, qm. rewrite lookup_insert_ne in Hqm by done. done.
Qed.

Lemma decide_next_spec st next :
  inv_st st → (∀ n, next = Some n → ready st n) →
  ∃ st' prot dem, decide_next next st = Done (st', prot, dem) ∧ decided st st' next prot dem.
Proof.
  intros HI Hnext. unfold decide_next. destruct (currtask st) as [c|] eqn:Hc.
  - pose proof (inv_curr _ _ _ _ _ HI c Hc) as Hcl.
    destruct (inv_heap _ _ _ _ _ HI c) as [cur Hcur]; [by apply elem_of_app; left|].
    assert (RMSstate cur = RUNNING) as Hrun by (by apply (inv_run _ _ _ _ _ HI c cur)).
    rewrite (deref_some _ _ _ Hcur). simpl. rewrite Hrun.
    destruct next as [n|].
    + destruct (Hnext n eq_refl) as (Hn & p & Hp & Hr). rewrite (deref_some _ _ _ Hp). simpl.
      case_decide as Hgt.
      * assert (c ≠ n) by (intros ->; congruence).
        rewrite (deref_some _ n p) by (simpl; by rewrite lookup_insert_ne). simpl.
        eexists _, _, _. split; [done|]. by apply (decided_preempt st c cur n p).
      * eexists _, _, _. split; [done|]. apply decided_same; [done|congruence|].
        intros c' q m r ? ? ? ?. simplify_eq. lia.
    + eexists _, _, _. split; [done|]. apply decided_same; [done|congruence|done].
  - destruct next as [n|].
    + destruct (Hnext n eq_refl) as (Hn & p & Hp & Hr).
      rewrite (deref_some _ n p) by done. simpl.
      eexists _, _, _. split; [done|]. by apply decided_switch.
    + eexists _, _, _. split; [done|]. apply decided_same; [done|done|congruence].
Qed.

Lemma promote_inv t st : inv_st st → inv_st (promote_task t st).
Proof. by destruct t. Qed.
Lemma demote_inv t st : inv_st st → inv_st (demote_task t st).
Proof. by destruct t. Qed.

Lemma dispatch_step_inv st : inv_st st → ∃ st', dispatch_step st = Done st' ∧ inv_st st'.
Proof.
  intros HI. unfold dispatch_step. destruct (dpc st) as [|[|x rest] next|prot dem| | | |] eqn:Hpc.
  - eexists. split; [done|]. destruct HI. split; try done. by intros ? ? [= <- <-].
  - destruct (decide_next_spec st next) as (st' & prot & dem & -> & Hd); [done| |].
    { intros n Hn. destruct (inv_scan _ _ _ _ _ HI _ _ Hpc) as [_ Hs]. by apply Hs. }
    simpl. eexists. split; [done|]. by apply (dec_inv _ _ _ _ _ Hd).
  - destruct (inv_scan _ _ _ _ _ HI _ _ Hpc) as [Hrest Hs].
    destruct (better_spec st x next []) as (next' & -> & Hn' & _).
    + apply Hrest. left.
    + apply (inv_heap _ _ _ _ _ HI). apply elem_of_app. left. apply Hrest. left.
    + exact Hs.
    + by intros y q ?%not_elem_of_nil.
    + simpl. eexists. split; [done|]. destruct HI. split; try done.
      intros ? ? [= <- <-]. split; [|exact Hn']. intros y Hy. apply Hrest. by right.
  - eexists. split; [done|].
    assert (inv_st (set_dpc DSetState st)) as HI' by (by eapply inv_pc).
    by destruct prot, dem.
  - eexists. split; [done|]. by eapply inv_pc.
  - eexists. split; [done|]. by eapply inv_pc.
  - eexists. split; [done|]. by eapply inv_pc.
  - eexists. split; [done|]. done.
Qed.

(** ** Every interleaving is safe *)
Lemma exec_inv f ev st :
  inv_st st → enabled ev st → ∃ st', exec f ev st = Done st' ∧ inv_st st'.
Proof.
  intros HI Hen. destruct ev as [alloc j task p per comp|cp ct p|t|t|p|x|x|]; simpl in *.
  - destruct Hen as (Hm & Hper & Hcomp & Hnew).
    destruct (register_inv st alloc j task p per comp) as (r & st' & -> & ?); simpl; eauto.
  - destruct (yield_inv f cp ct p st) as (r & st' & -> & ?); simpl; eauto.
  - eexists. split; [done|]. by apply wakethread_inv.
  - eexists. by split.
  - destruct (unlink_inv p st) as (r & st' & -> & ?); simpl; eauto.
  - by apply free_inv.
  - destruct Hen as (p & t & Hp & Ht). by eapply timer_inv.
  - by apply dispatch_step_inv.
Qed.

Lemma inv_empty : inv_st empty_state.
Proof.
  split; simpl; try done.
  - constructor.
  - by intros x ?%not_elem_of_nil.
Qed.

Lemma reachable_inv f st : reachable f st → inv_st st.
Proof.
  induction 1 as [|st ev st' _ IH Hs]; [apply inv_empty|].
  inversion Hs as [? ? Hen Heq1 Heq2 Heq]. subst.
  destruct (exec_inv f ev st IH Hen) as (st1 & Hex & Hi). congruence.
Qed.

(** Running a sequence of events from the empty module. *)
Lemma reachable_exec f evs st st' :
  reachable f st → mfor evs (exec f) st = Done st' →
  (∀ l1 ev l2 s, evs = l1 ++ ev :: l2 → mfor l1 (exec f) st = Done s → enabled ev s) →
  reachable f st'.
Proof.
  revert st. induction evs as [|ev evs IH]; intros st Hr Hm Hen; simpl in Hm; [congruence|].
  destruct (exec f ev st) as [s|[]|] eqn:Hex; [|done]. simpl in Hm.
  apply (IH s); [|done|].
  - eapply reachable_step; [exact Hr|]. rewrite <- Hex. constructor. by apply (Hen [] ev evs st).
  - intros l1 ev' l2 s' -> Hl1. apply (Hen (ev :: l1) ev' l2 s'); [done|]. simpl. by rewrite Hex.
Qed.

(** C20: the invariant of the scheduler.  In every state reached by any
    interleaving of registrations, yields, deregistrations, timer callbacks
    and single statements of the dispatcher: tasks on the list are allocated,
    distinct and have distinct pids; exactly the current task is RUNNING; a
    task with a pending timer is SLEEPING; the task the dispatcher is about
    to pick is READY and on the list; admitted utilisation is at most 693
    thousandths. *)
Theorem scheduler_invariant f st : reachable f st → inv_st st.
Proof. apply reachable_inv. Qed.

Lemma scheduler_invariant_witness :
  ∃ st, exec (λ ms, ms) (EvRegister (Some 5%nat) 100 7 42 1000 500) empty_state = Done st ∧ inv_st st.
Proof.
  eexists. split; [reflexivity|]. apply (scheduler_invariant (λ ms, ms)).
  eapply reachable_step; [apply reachable_init|].
  apply (Step (λ ms, ms) empty_state (EvRegister (Some 5%nat) 100 7 42 1000 500)). simpl. unfold is_int.
  split_and!; try lia; done.
Defined.

(** C21: no handler, callback or dispatcher statement ever dereferences a
    pcb that has been freed, or divides by a zero period: in every reachable
    state every event that can happen completes. *)
Theorem scheduler_never_faults f ev st :
  reachable f st → enabled ev st → ∃ st', exec f ev st = Done st' ∧ reachable f st'.
Proof.
  intros Hr Hen. destruct (exec_inv f ev st) as (st' & Hex & _); [by eapply reachable_inv|done|].
  exists st'. split; [done|]. eapply reachable_step; [exact Hr|]. rewrite <- Hex. by constructor.
Qed.

Lemma scheduler_never_faults_witness :
  ∃ st', exec (λ ms, ms) (EvUnlink 42) empty_state = Done st' ∧ reachable (λ ms, ms) st'.
Proof. apply (scheduler_never_faults (λ ms, ms) (EvUnlink 42) empty_state); [apply reachable_init|done]. Defined.

(** ** Rate-monotonic optimality *)
Lemma select_list st :
  inv_st st → ∃ next, select st (mp2list st) None = Done next ∧
    (∀ n, next = Some n → ready st n) ∧ best_of st (mp2list st) next.
Proof.
  intros HI. destruct (select_spec st (mp2list st) None []) as (next & Hs & Hn & Hb).
  - intros x Hx. split; [done|]. apply (inv_heap _ _ _ _ _ HI). by apply elem_of_app; left.
  - done.
  - by intros y q ?%not_elem_of_nil.
  - eauto.
Qed.

Lemma promote_demote_fields prot dem st :
  let st' := demote_task dem (promote_task prot st) in
  heap st' = heap st ∧ mp2list st' = mp2list st ∧ currtask st' = currtask st ∧
  dying st' = dying st ∧ dpc st' = dpc st ∧
  ∀ t, prot = Some t → t ∈ runnable st' ∧
    (dem ≠ Some t → attrs st' !! t = Some (Attr SCHED_FIFO 98)).
Proof.
  destruct prot as [t|], dem as [t'|]; simpl; split_and!; try done; intros ? [= <-].
  - split; [set_solver|]. intros Hne. rewrite lookup_insert_ne by congruence. apply lookup_insert_eq.
  - split; [set_solver|]. intros _. apply lookup_insert_eq.
Qed.

(** Two tasks, the longer one current, the shorter one READY. *)
Definition two_tasks : state :=
  State {[0%nat := Pcb 10 100 1000 0 RUNNING 110 None; 1%nat := Pcb 11 10 200 0 READY 111 None]}
        [0; 1]%nat [] [] (Some 0%nat) DLock ∅ {[110]}.

Lemma two_tasks_lookup x p :
  heap two_tasks !! x = Some p →
  (x = 0%nat ∧ p = Pcb 10 100 1000 0 RUNNING 110 None) ∨
  (x = 1%nat ∧ p = Pcb 11 10 200 0 READY 111 None).
Proof.
  cbn [heap two_tasks]. intros [ [<- <-]|[_ [<- <-]%lookup_singleton_Some] ]%lookup_insert_Some; auto.
Qed.

Lemma two_tasks_inv : inv_st two_tasks.
Proof.
  split; try done.
  - repeat constructor; set_solver.
  - intros x Hx. assert (x = 0%nat ∨ x = 1%nat) as [->| ->] by set_solver; by eexists.
  - by intros x p _ [ [-> ->]|[-> ->] ]%two_tasks_lookup.
  - by intros x y p q _ _ [ [-> ->]|[-> ->] ]%two_tasks_lookup [ [-> ->]|[-> ->] ]%two_tasks_lookup.
  - intros x [= <-]. left.
  - by intros x p _ [ [-> ->]|[-> ->] ]%two_tasks_lookup.
  - by intros x p [ [-> ->]|[-> ->] ]%two_tasks_lookup.
Qed.

(** ** The dispatcher statement by statement *)
Lemma scan_run f rest next st :
  mfor (replicate (length rest) EvDispatch) (exec f) (set_dpc (DScan rest next) st) =
  let! n := select st rest next in Done (set_dpc (DScan [] n) st).
Proof.
  revert next. induction rest as [|x rest IH]; intros next; [done|].
  change (mfor (replicate (length (x :: rest)) EvDispatch) (exec f) (set_dpc (DScan (x :: rest) next) st))
    with (let! s := (let! n := better st x next in Done (set_dpc (DScan rest n) st)) in
          mfor (replicate (length rest) EvDispatch) (exec f) s).
  cbn [select]. destruct (better st x next) as [n|[]|]; [|done]. apply IH.
Qed.

Lemma decide_next_dpc next pc st :
  decide_next next (set_dpc pc st) =
  let! r := decide_next next st in Done (set_dpc pc r.1.1, r.1.2, r.2).
Proof.
  unfold decide_next, deref, store. simpl.
  repeat (match goal with
          | |- context [match ?e with _ => _ end] => destruct e
          end; simpl; try done).
Qed.

(** The two descriptions of the dispatcher agree.  When nothing else
    happens, one round of the thread's statements (lock, one per task of the
    list, the decision, the priority changes) has exactly the effect, or the
    fault, of [dispatcher] as a function. *)
Lemma dispatch_sequential f st :
  dpc st = DLock →
  mfor (replicate (length (mp2list st) + 3) EvDispatch) (exec f) st =
  let! st' := dispatcher st in Done (set_dpc DSetState st').
Proof.
  intros Hpc. rewrite Nat.add_comm.
  assert (∀ n s, mfor (replicate (S (S n)) EvDispatch) (exec f) s =
    let! s1 := mfor (replicate n EvDispatch) (exec f) s in
    mfor [EvDispatch; EvDispatch] (exec f) s1) as Happ.
  { induction n as [|n IH]; intros s; [done|].
    change (replicate (S (S (S n))) EvDispatch) with (EvDispatch :: replicate (S (S n)) EvDispatch).
    cbn [mfor replicate]. destruct (exec f EvDispatch s) as [s1|[]|]; [|done]. apply IH. }
  change (replicate (3 + length (mp2list st)) EvDispatch)
    with (EvDispatch :: replicate (S (S (length (mp2list st)))) EvDispatch).
  cbn [mfor exec]. unfold dispatch_step at 1. rewrite Hpc. cbn [obind]. rewrite Happ, scan_run.
  unfold dispatcher. destruct (select st (mp2list st) None) as [n|[]|]; [|done].
  cbn [obind mfor exec]. unfold dispatch_step at 1. cbn [dpc set_dpc].
  change (State (heap st) (mp2list st) (dying st) (yielding st) (currtask st) (DScan [] n) (attrs st)
    (runnable st)) with (set_dpc (DScan [] n) st).
  rewrite decide_next_dpc.
  destruct (decide_next n st) as [ [ [st1 prot] dem]|[]|]; [|done]. cbn [obind fst snd].
  unfold dispatch_step. cbn [dpc set_dpc obind]. by destruct prot, dem.
Qed.

(** C22: the dispatcher implements rate-monotonic scheduling.  On any
    well-formed state [dispatcher] completes; afterwards no task is current
    only if no task is READY, the current task is RUNNING and its period is at
    most that of every READY task; and when it is a newly chosen one, its
    process has been woken (a task that stays current is left as it is).  When
    nothing else happens, the statements of the dispatcher thread, from the
    lock to the priority changes, lead to exactly that state. *)
Theorem dispatcher_optimal f st :
  inv_st st →
  ∃ st', dispatcher st = Done st' ∧ mp2list st' = mp2list st ∧
  match currtask st' with
  | None => ∀ y q, y ∈ mp2list st' → heap st' !! y = Some q → RMSstate q ≠ READY
  | Some c => ∃ p, heap st' !! c = Some p ∧ RMSstate p = RUNNING ∧
      (∀ y q, y ∈ mp2list st' → heap st' !! y = Some q → RMSstate q = READY → period p ≤ period q) ∧
      (currtask st ≠ Some c → linux_task p ∈ runnable st')
  end ∧
  (dpc st = DLock →
   mfor (replicate (length (mp2list st) + 3) EvDispatch) (exec f) st = Done (set_dpc DSetState st')).
Proof.
  intros HI. destruct (select_list st HI) as (next & Hs & Hready & Hbest).
  destruct (decide_next_spec st next HI Hready) as (st1 & prot & dem & Hd & Hdec).
  pose proof (dispatch_sequential f st) as Hseq.
  unfold dispatcher in *. rewrite Hs in *. simpl in *. rewrite Hd in *. simpl in *. eexists. split; [done|].
  destruct (promote_demote_fields prot dem st1) as (Fh & Fl & Fc & _ & _ & Hrun).
  split_and!; [rewrite Fl; apply Hdec| |exact Hseq]. rewrite Fh, Fl, Fc, (dec_list _ _ _ _ _ Hdec).
  destruct (currtask st1) as [c|] eqn:Hc.
  - pose proof (dec_inv _ _ _ _ _ Hdec DLock ltac:(done)) as HI1. unfold inv_st in HI1. simpl in HI1.
    pose proof (inv_curr _ _ _ _ _ HI1 c Hc) as Hcl.
    destruct (inv_heap _ _ _ _ _ HI1 c) as [p Hp]; [by apply elem_of_app; left|].
    destruct (dec_curr _ _ _ _ _ Hdec c p Hc Hp) as [Hle Hprot].
    exists p. split_and!; [done|by apply (inv_run _ _ _ _ _ HI1 c p)| |].
    + intros y q Hy Hq Hr.
      destruct (dec_ready _ _ _ _ _ Hdec y q Hy Hq Hr) as [(q0 & Hq0 & Hr0 & <-)|(n & qn & Hn & Hqn & Hlt)].
      * destruct (Hbest y q0 Hy Hq0 Hr0) as (n & pn & Hn & Hpn & ?).
        etrans; [by apply (Hle n pn)|done].
      * pose proof (Hle n qn Hn Hqn). lia.
    + intros Hne. destruct prot as [t|]; [|done]. subst. by apply Hrun.
  - intros y q Hy Hq Hr. pose proof (dec_none _ _ _ _ _ Hdec Hc) as ->.
    destruct (dec_ready _ _ _ _ _ Hdec y q Hy Hq Hr) as [(q0 & Hq0 & Hr0 & _)|(n & qn & ? & _)]; [|done].
    by destruct (Hbest y q0 Hy Hq0 Hr0) as (n & pn & ? & _).
Qed.

Lemma dispatcher_optimal_witness :
  ∃ st', mfor (replicate 5 EvDispatch) (exec (λ ms, ms)) two_tasks = Done (set_dpc DSetState st') ∧
    currtask st' = Some 1%nat ∧ 111 ∈ runnable st'.
Proof.
  destruct (dispatcher_optimal (λ ms, ms) two_tasks two_tasks_inv) as (st' & Hd & _ & Hc & Hseq).
  exists st'. split; [exact (Hseq eq_refl)|].
  assert (dispatcher two_tasks = Done st') as Hd' by exact Hd. vm_compute in Hd'.
  injection Hd' as <-. split; [reflexivity|].
  destruct Hc as (p & Hp & _ & _ & Hrun). vm_compute in Hp. injection Hp as <-. by apply Hrun.
Defined.

(** ** Admission control *)

(** The utilisation a registration is charged.  For positive arguments the
    multiplication does not wrap around; two negative ones become unsigned
    numbers so close to 2^64 that the quotient is 0 or 1. *)
Lemma utilization_positive per comp :
  is_int per → is_int comp → 0 < per → 0 < comp → utilization (u64 comp) (u64 per) = comp * 1000 / per.
Proof.
  unfold is_int. intros Hper Hcomp Hp Hc. unfold utilization. by rewrite (wrap_small 64 comp), (wrap_small 64 per), wrap_small by lia.
Qed.

Lemma u64_negative x : is_int x → x < 0 → u64 x = x + 2 ^ 64.
Proof. unfold is_int. intros Hx Hn. unfold wrap. rewrite <- (Z.mod_add x 1) by lia. rewrite Z.mod_small by lia. lia. Qed.

Lemma u64_nonzero x : is_int x → x ≠ 0 → u64 x ≠ 0.
Proof.
  intros Hx H0. destruct (decide (0 < x)); [by rewrite wrap_small by (unfold is_int in Hx; lia)|].
  rewrite u64_negative by (done || lia). unfold is_int in Hx. lia.
Qed.

Lemma utilization_negative per comp :
  is_int per → is_int comp → per < 0 → comp < 0 → 0 ≤ utilization (u64 comp) (u64 per) ≤ 1.
Proof.
  intros Hper Hcomp Hp Hc. unfold utilization. rewrite (u64_negative per) by done.
  pose proof (wrap_range 64 (u64 comp * 1000) ltac:(lia)) as Hr. unfold is_int in *.
  split; [apply Z.div_pos; lia|]. apply Z.lt_succ_r. apply Z.div_lt_upper_bound; lia.
Qed.

(** C24: admission control.  For non-zero [int] arguments a registration
    succeeds exactly when its pid is new and the utilisations of the admitted
    tasks and its own, as the code computes them, add up to at most 693 (the
    sum does not wrap around); otherwise it is refused and the object goes
    back to the cache.  For positive arguments the utilisation is the
    computation time in thousandths of the period, rounded down; a negative
    period with a negative computation time is charged at most 1, because the
    conversion to [unsigned long] and the multiplication wrap around. *)
Theorem admission_exact st x j task p per comp :
  inv_st st → heap st !! x = None → is_int per → is_int comp → per ≠ 0 → comp ≠ 0 →
  let r := taskregister (Some x) j task p (u64 per) (u64 comp) st in
  let own := utilization (u64 comp) (u64 per) in
  let u := own + usage (heap st) (mp2list st) in
  (¬ registered st p ∧ u ≤ 693 ↔ ∃ st', r = Done (Some x, st') ∧ mp2list st' = mp2list st ++ [x]) ∧
  (registered st p ∨ 693 < u ↔ r = Done (None, st)) ∧
  (0 < per → 0 < comp → own = comp * 1000 / per) ∧
  (per < 0 → comp < 0 → 0 ≤ own ≤ 1).
Proof.
  intros HI Hx Hper Hcomp Hper0 Hcomp0 r own u.
  pose proof (taskregister_spec st x j task p per comp HI Hper Hcomp
    (u64_nonzero per Hper Hper0) (u64_nonzero comp Hcomp Hcomp0)) as Hspec.
  cbv zeta in Hspec. fold own in Hspec. fold u r in Hspec. rewrite (set_heap_delete_fresh x st Hx) in Hspec.
  split; [|split; [|split; [by apply utilization_positive|by apply utilization_negative]]];
    destruct Hspec as [(Hreg & Hle & Hr)|[Hbad Hr]].
  - split; [|done]. intros _. eexists. split; [exact Hr|done].
  - split; [intros [? ?]; destruct Hbad; [done|lia]|]. intros (st' & Hr' & _). congruence.
  - split; [intros [?|?]; [done|lia]|congruence].
  - split; [done|]. intros _. destruct Hbad; [by left|right; lia].
Qed.

Lemma admission_exact_witness :
  ∃ st', taskregister (Some 9%nat) 0 112 12 (u64 100) (u64 50) two_tasks = Done (Some 9%nat, st') ∧
    mp2list st' = [0; 1; 9]%nat.
Proof.
  apply (admission_exact two_tasks 9 0 112 12 100 50); try (unfold is_int; lia).
  - apply two_tasks_inv.
  - reflexivity.
  - split; [|by vm_compute].
    intros (x & q & _ & [ [-> ->]|[-> ->] ]%two_tasks_lookup & ?); done.
Defined.

(** [int] arguments whose product with 1000 is smaller than the period count
    for nothing: any number of such tasks is admitted. *)
Definition light_task (x : nat) : event := EvRegister (Some x) 0 (Z.of_nat x) (Z.of_nat x) 1001 1.

Lemma truncation_over_admits f n :
  ∃ st, reachable f st ∧ mp2list st = seq 0 n ∧ dpc st = DLock ∧
  ∀ x, heap st !! x = if decide (x < n)%nat then Some (Pcb (Z.of_nat x) 1 1001 0 SLEEPING (Z.of_nat x) None) else None.
Proof.
  induction n as [|n (st & Hr & Hl & Hpc & Hh)].
  { exists empty_state. split; [apply reachable_init|done]. }
  pose proof (reachable_inv f st Hr) as HI.
  assert (heap st !! n = None) as Hn by (by rewrite Hh, decide_False by lia).
  assert (usage (heap st) (mp2list st) = 0) as Hu.
  { rewrite Hl. clear -Hh. assert (∀ l, (∀ x, x ∈ l → (x < n)%nat) → usage (heap st) l = 0) as Hg.
    - induction l as [|x l IH]; intros Hx; [done|]. cbn [usage].
      rewrite Hh, decide_True by (apply Hx; left). rewrite IH by (intros; apply Hx; by right). done.
    - apply Hg. intros x ?%elem_of_seq. lia. }
  destruct (taskregister_spec st n 0 (Z.of_nat n) (Z.of_nat n) 1001 1) as [(_ & _ & Ht)|[Hbad _]];
    try (unfold is_int; done).
  - eexists. split_and!.
    + eapply reachable_step; [exact Hr|].
      assert (exec f (light_task n) st = Done (set_list (mp2list st ++ [n])
        (store n (Pcb (Z.of_nat n) (u64 1) (u64 1001) 0 SLEEPING (Z.of_nat n) None) st))) as <-.
      { cbn [exec light_task]. by rewrite Ht. }
      constructor. cbn [enabled light_task]. unfold is_int. split_and!; try lia; [|by intros ? [= <-] ].
      unfold mutex_free. by rewrite Hpc.
    + cbn [mp2list set_list]. by rewrite Hl, seq_S.
    + done.
    + intros x. simpl. destruct (decide (n = x)) as [<-|Hne].
      * rewrite lookup_insert_eq, decide_True by lia. done.
      * rewrite lookup_insert_ne, Hh by done. repeat case_decide; done || lia.
  - exfalso. destruct Hbad as [(x & q & Hx & Hq & Hp)|Hgt]; [|rewrite Hu in Hgt; by vm_compute in Hgt].
    rewrite Hh in Hq. case_decide as Hd; [|done]. simplify_eq. simpl in Hp. lia.
Qed.

(** A zero argument makes [taskregister] return before it frees the object
    it has just allocated: the object is neither on the list nor freed. *)
Lemma zero_argument_leaks x j task p per comp st :
  per = 0 ∨ comp = 0 →
  ∃ st', taskregister (Some x) j task p per comp st = Done (None, st') ∧
    heap st' !! x = Some blank ∧ mp2list st' = mp2list st.
Proof.
  intros H0. unfold taskregister. rewrite decide_True by done. eexists. split; [done|].
  split; [apply lookup_insert_eq|done].
Qed.

(** ** Schedules in which a wake-up is lost *)

(** Decidable guards, to run a concrete schedule. *)
Definition enabledb (ev : event) (st : state) : bool :=
  let free := match dpc st with DScan _ _ => false | _ => true end in
  match ev with
  | EvRegister alloc _ _ _ per comp =>
      free && bool_decide (is_int per) && bool_decide (is_int comp) &&
      match alloc with
      | None => true
      | Some x => match heap st !! x with None => true | Some _ => false end
      end
  | EvYield _ _ _ | EvUnlink _ => free
  | EvYieldWake t => bool_decide ((t, YWake) ∈ yielding st)
  | EvYieldSleep t => bool_decide ((t, YSleep) ∈ yielding st)
  | EvFree x => bool_decide (x ∈ dying st)
  | EvTimer x =>
      match heap st !! x with
      | Some p => match timer p with Some _ => true | None => false end
      | None => false
      end
  | EvDispatch => true
  end.

Fixpoint run (f : Z → Z) (evs : list event) (st : state) : option state :=
  match evs with
  | [] => Some st
  | ev :: evs' =>
      if enabledb ev st then
        match exec f ev st with Done st' => run f evs' st' | _ => None end
      else None
  end.

Lemma enabledb_sound ev st : enabledb ev st = true → enabled ev st.
Proof.
  destruct ev as [alloc j task p per comp|cp ct p|t|t|p|x|x|]; simpl; unfold mutex_free.
  - rewrite !andb_true_iff, !bool_decide_eq_true. intros [ [ [Hm ?] ?] Ha].
    split_and!; [by destruct (dpc st)|done|done|]. intros x ->. by destruct (heap st !! x).
  - by destruct (dpc st).
  - by rewrite bool_decide_eq_true.
  - by rewrite bool_decide_eq_true.
  - by destruct (dpc st).
  - by rewrite bool_decide_eq_true.
  - destruct (heap st !! x) as [p|]; [|done]. destruct (timer p) eqn:?; [|done]. eauto.
  - done.
Qed.

Lemma run_reachable f evs st st' : reachable f st → run f evs st = Some st' → reachable f st'.
Proof.
  revert st. induction evs as [|ev evs IH]; intros st Hr; simpl; [by intros [= <-]|].
  destruct (enabledb ev st) eqn:Hen; [|done].
  destruct (exec f ev st) as [s|[]|] eqn:Hex; [|done]. apply IH.
  eapply reachable_step; [exact Hr|]. rewrite <- Hex. constructor. by apply enabledb_sound.
Qed.

(** A task registers and yields; the dispatcher looks at it while it sleeps;
    its timer fires after that look and before the dispatcher has announced
    that it is going to sleep. *)
Definition stranding_schedule : list event :=
  [EvRegister (Some 0%nat) 0 7 42 1000 500; EvYield 42 7 42; EvYieldWake 7; EvYieldSleep 7;
   EvDispatch; EvDispatch; EvDispatch; EvTimer 0%nat; EvDispatch; EvDispatch; EvDispatch].

(** A task registers and yields; its timer fires and the dispatcher promotes
    it before it has set its own state to TASK_UNINTERRUPTIBLE. *)
Definition oversleeping_schedule : list event :=
  [EvRegister (Some 0%nat) 0 7 42 1000 500; EvYield 42 7 42; EvYieldWake 7; EvTimer 0%nat;
   EvDispatch; EvDispatch; EvDispatch; EvDispatch; EvYieldSleep 7; EvDispatch; EvDispatch].

Lemma stranded_run f :
  run f stranding_schedule empty_state =
  Some (State {[0%nat := Pcb 42 500 1000 (u64 (0 + f 1000)) READY 7 None]} [0%nat] [] [] None DAsleep ∅ ∅).
Proof. reflexivity. Qed.

Lemma overslept_run f :
  run f oversleeping_schedule empty_state =
  Some (State {[0%nat := Pcb 42 500 1000 (u64 (0 + f 1000)) RUNNING 7 None]} [0%nat] [] []
              (Some 0%nat) DAsleep {[7 := Attr SCHED_FIFO 98]} ∅).
Proof. reflexivity. Qed.

(** The dispatcher can miss a wake-up.  [threadfunc] declares itself
    TASK_INTERRUPTIBLE only after [dispatcher] has returned, so there is a
    schedule after which a READY task is on the list, no task is current,
    no timer is pending, no handler is in progress, and the dispatcher
    sleeps: only an unrelated later write can start the task. *)
Lemma ready_task_stranded f :
  ∃ st x p, reachable f st ∧ x ∈ mp2list st ∧ heap st !! x = Some p ∧ RMSstate p = READY ∧
    currtask st = None ∧ dpc st = DAsleep ∧ yielding st = [] ∧ dying st = [] ∧
    ∀ y q, heap st !! y = Some q → timer q = None.
Proof.
  eexists _, 0%nat, _. split; [eapply run_reachable; [apply reachable_init|apply stranded_run]|].
  split_and!; [left|reflexivity|done..|]. cbn [heap]. by intros y q [_ <-]%lookup_singleton_Some.
Qed.

(** A task can sleep through its own promotion.  [taskyield] starts the
    timer before it declares itself TASK_UNINTERRUPTIBLE, so there is a
    schedule after which the current task is RUNNING, its process is asleep,
    no timer is pending and the dispatcher sleeps. *)
Lemma promoted_task_oversleeps f :
  ∃ st x p, reachable f st ∧ currtask st = Some x ∧ heap st !! x = Some p ∧
    RMSstate p = RUNNING ∧ (linux_task p ∉ runnable st) ∧ dpc st = DAsleep ∧
    yielding st = [] ∧ dying st = [] ∧ ∀ y q, heap st !! y = Some q → timer q = None.
Proof.
  eexists _, 0%nat, _. split; [eapply run_reachable; [apply reachable_init|apply overslept_run]|].
  split_and!; [done|reflexivity|done|set_solver|done..|]. cbn [heap]. by intros y q [_ <-]%lookup_singleton_Some.
Qed.

(** C25: two wake-ups can be lost.  There are schedules after which every
    timer has fired, no handler is in progress and the dispatcher sleeps, but
    a READY task is on the list with no task current, because the dispatcher
    declares itself TASK_INTERRUPTIBLE too late; or the current task is
    RUNNING while its process is asleep, because [taskyield] declares itself
    TASK_UNINTERRUPTIBLE after its timer has been started. *)
Theorem lost_wakeups f :
  let quiet st := dpc st = DAsleep ∧ yielding st = [] ∧ dying st = [] ∧
                  ∀ y q, heap st !! y = Some q → timer q = None in
  (∃ st x p, reachable f st ∧ quiet st ∧ x ∈ mp2list st ∧ heap st !! x = Some p ∧
     RMSstate p = READY ∧ currtask st = None) ∧
  (∃ st x p, reachable f st ∧ quiet st ∧ currtask st = Some x ∧ heap st !! x = Some p ∧
     RMSstate p = RUNNING ∧ (linux_task p ∉ runnable st)).
Proof.
  intros quiet. split.
  - destruct (ready_task_stranded f) as (st & x & p & ?). exists st, x, p. unfold quiet. tauto.
  - destruct (promoted_task_oversleeps f) as (st & x & p & ?). exists st, x, p. unfold quiet. tauto.
Qed.

(** ** The proc interface *)

(** What userapp.c prints for a command. *)
Definition message (c : command) : list Z :=
  match c with
  | CmdR p per comp => [82; 44] ++ fmt_d p ++ [44] ++ fmt_d per ++ [44] ++ fmt_d comp
  | CmdY p => [89; 44] ++ fmt_d p
  | CmdD p => [68; 44] ++ fmt_d p
  | CmdBad => []
  end.

Definition command_ok (c : command) : Prop :=
  match c with
  | CmdR p per comp => is_int p ∧ is_int per ∧ is_int comp
  | CmdY p | CmdD p => is_int p
  | CmdBad => False
  end.

Lemma comma_ends rest : ends_number (44 :: rest).
Proof. intros c [= <-]. unfold is_digit. lia. Qed.

Lemma scan_int_last n : is_int n → scan_int (fmt_d n) = Some (n, []).
Proof. intros Hn. rewrite <- (app_nil_r (fmt_d n)). by apply scan_int_fmt_d. Qed.

Lemma parse_message c : command_ok c → parse_command (message c) = c.
Proof.
  destruct c as [p per comp|p|p|]; simpl; [intros (Hp & Hper & Hcomp)|intros Hp|intros Hp|done].
  - rewrite (scan_int_fmt_d p) by (done || apply comma_ends). cbn [sscanf].
    rewrite (decide_True (P := 44 = 44)) by done.
    rewrite (scan_int_fmt_d per) by (done || apply comma_ends).
    rewrite (decide_True (P := 44 = 44)) by done.
    by rewrite scan_int_last.
  - by rewrite scan_int_last.
  - by rewrite scan_int_last.
Qed.

Lemma message_graph c :
  command_ok c → Forall is_graph (message c) ∧ message c ≠ [] ∧ (length (message c) ≤ 37)%nat.
Proof.
  assert (∀ k, 33 ≤ k ≤ 126 → is_graph k) as Hk by (intros; split; [lia|unfold is_space; lia]).
  assert (∀ n, is_int n → Forall is_graph (fmt_d n) ∧ (length (fmt_d n) ≤ 11)%nat) as Hd.
  { intros n Hn. split; [by apply fmt_d_graph|by apply length_fmt_d]. }
  destruct c as [p per comp|p|p|]; simpl;
    [intros ([Gp Lp]%Hd & [Gr Lr]%Hd & [Gc Lc]%Hd)|intros [Gp Lp]%Hd|intros [Gp Lp]%Hd|done];
    (split_and!; [|done|rewrite ?length_app; simpl; rewrite ?length_app; simpl; lia]);
    repeat (apply Forall_cons; split; [apply Hk; lia|]); try done.
  apply Forall_app. split; [done|]. apply Forall_cons. split; [apply Hk; lia|].
  apply Forall_app. split; [done|]. apply Forall_cons. split; [apply Hk; lia|done].
Qed.

(** What the handler parses of a message. *)
Lemma message_trimmed c : command_ok c → strim_in_place (cstring (message c)) = message c.
Proof.
  intros Hc. destruct (message_graph c Hc) as (Hg & Hne & _). rewrite <- (app_nil_r (message c)) at 1.
  rewrite cstring_no_nul by done. by rewrite strim_word.
Qed.

Lemma my_write_message f env c sp st :
  command_ok c → Forall is_space sp → (length sp ≤ 13)%nat → copy_ok env = true →
  let input := message c ++ sp in
  my_write f env input st =
  let! r := run_command f env c st in
  Done (if r.1 then Z.of_nat (length input) else -1, r.2).
Proof.
  intros Hc Hsp Hlen Hcopy input. destruct (message_graph c Hc) as (Hg & Hne & Hl).
  assert (length (message c) ≠ 0%nat) by (by destruct (message c)).
  unfold my_write, input. rewrite decide_False by (rewrite length_app; lia). rewrite Hcopy.
  rewrite cstring_no_nul by done.
  assert (cstring sp = sp) as ->.
  { clear -Hsp. induction Hsp as [|k sp Hk _ IH]; simpl; [done|].
    rewrite decide_False, IH; [done|]. unfold is_space in Hk. lia. }
  by rewrite strim_word, parse_message.
Qed.

(** C26: the write handler understands the client.  A command printed the
    way userapp.c prints it, with any [int] arguments and up to thirteen
    trailing white-space characters, fits the kernel buffer, is parsed back
    to the same command, and the handler returns the length written exactly
    when the operation succeeds, -1 otherwise. *)
Theorem write_parses_commands f env c sp st :
  command_ok c → Forall is_space sp → (length sp ≤ 13)%nat → copy_ok env = true →
  let input := message c ++ sp in
  my_write f env input st =
  let! r := run_command f env c st in
  Done (if r.1 then Z.of_nat (length input) else -1, r.2).
Proof. apply my_write_message. Qed.

Lemma write_parses_commands_witness :
  let env := WriteEnv true (Some 3%nat) 100 (λ _, Some 55) 42 55 in
  my_write (λ ms, ms) env [82; 44; 52; 50; 44; 49; 48; 48; 44; 49; 48; 10] empty_state =
  Done (12, set_list [3%nat] (store 3 (Pcb 42 10 100 100 SLEEPING 55 None) empty_state)).
Proof.
  etrans.
  - apply (write_parses_commands (λ ms, ms) (WriteEnv true (Some 3%nat) 100 (λ _, Some 55) 42 55)
             (CmdR 42 100 10) [10] empty_state).
    + by vm_compute.
    + constructor; [left; lia|constructor].
    + simpl. lia.
    + reflexivity.
  - reflexivity.
Defined.

Lemma deref_all_spec st l :
  (∀ x, x ∈ l → is_Some (heap st !! x)) →
  ∃ ps, deref_all st l = Done ps ∧ length ps = length l.
Proof.
  induction l as [|x l IH]; intros Hh; simpl; [by exists []|].
  destruct (Hh x) as [p Hp]; [left|]. rewrite (deref_some _ _ _ Hp). simpl.
  destruct IH as (ps & -> & Hlen); [intros; apply Hh; by right|].
  exists (p :: ps). simpl. by rewrite Hlen.
Qed.

Lemma render_nonempty (p : mp2pcb) ps : render (p :: ps) ≠ [].
Proof.
  intros Hr. assert (∀ (l : list mp2pcb) k, (1 ≤ length k)%nat → (1 ≤ length (render_from k l))%nat) as Hg.
  { induction l as [|q l IH]; intros k Hk; simpl; [done|]. case_decide; [done|].
    apply IH. rewrite length_app. lia. }
  assert (1 ≤ length (render (p :: ps)))%nat as Hlen; [|rewrite Hr in Hlen; simpl in Hlen; lia].
  clear Hr.
  unfold render. cbn [render_from]. rewrite decide_False by (by vm_compute).
  apply Hg. rewrite app_nil_l, length_take. apply Nat.min_glb; [by apply Nat2Z.inj_le; rewrite Z2Nat.id|].
  simpl. unfold fmt_d. case_decide; simpl; [lia|].
  rewrite !length_app. simpl. rewrite !length_app. simpl. lia.
Qed.

(** C27: reading and file offsets.  Below 2^31 a read copies exactly the
    window of the printed list that the offset and the length select, inside
    the kernel buffer.  The remaining length is kept in an [int]: at offset
    2^32 the truncated difference is positive again and the handler copies
    from outside its buffer. *)
Theorem read_offsets st copied len :
  inv_st st → 0 < len →
  ∃ ps, deref_all st (mp2list st) = Done ps ∧
  (∀ pos, 0 ≤ pos < 2 ^ 31 →
     my_read true copied len pos st = Done (read_window (-1) copied (render ps) len pos)) ∧
  (mp2list st ≠ [] → my_read true copied len (2 ^ 32) st = Fault).
Proof.
  intros HI Hlen. destruct (deref_all_spec st (mp2list st)) as (ps & Hps & Hlps).
  { intros x Hx. apply (inv_heap _ _ _ _ _ HI). by apply elem_of_app; left. }
  exists ps. pose proof (render_bound ps) as Hb. change pe_cap with 10240 in Hb.
  split_and!; [done| |]; unfold my_read; rewrite Hps; cbn [obind].
  - intros pos Hpos. unfold read_window. rewrite swrap_small by lia.
    destruct (decide (pos >= Z.of_nat (length (render ps)))).
    + by rewrite decide_True by lia.
    + rewrite decide_False by lia. change pe_cap with 10240.
      destruct (decide (Z.of_nat (length (render ps)) - pos < len)); rewrite decide_True by lia;
        by destruct copied.
  - intros Hne. destruct ps as [|p ps]; [by destruct (mp2list st)|].
    assert (0 < Z.of_nat (length (render (p :: ps)))) as Hpos.
    { pose proof (render_nonempty p ps). destruct (render (p :: ps)); [done|simpl; lia]. }
    assert (s32 (Z.of_nat (length (render (p :: ps))) - 2 ^ 32) = Z.of_nat (length (render (p :: ps)))) as ->.
    { unfold swrap. rewrite <- (Z.mod_add _ 1) by lia. rewrite Z.mod_small; lia. }
    rewrite decide_False by lia. change pe_cap with 10240.
    destruct (decide (Z.of_nat (length (render (p :: ps))) < len)); by rewrite decide_False by lia.
Qed.

Lemma read_offsets_witness : my_read true true 100 (2 ^ 32) two_tasks = Fault.
Proof.
  destruct (read_offsets two_tasks true 100 two_tasks_inv) as (ps & _ & _ & Hf); [lia|].
  by apply Hf.
Defined.

(** ** Unloading *)

(** Statements of the dispatcher keep the list and the objects. *)
Definition same_objects (h h' : gmap nat mp2pcb) : Prop :=
  ∀ x, match h !! x, h' !! x with
       | Some p, Some q => same_task p q
       | None, None => True
       | _, _ => False
       end.

Lemma same_objects_refl h : same_objects h h.
Proof. intros x. by destruct (h !! x). Qed.

Lemma same_objects_trans h1 h2 h3 : same_objects h1 h2 → same_objects h2 h3 → same_objects h1 h3.
Proof.
  intros H12 H23 x. specialize (H12 x). specialize (H23 x).
  destruct (h1 !! x), (h2 !! x), (h3 !! x); try done. unfold same_task in *. naive_solver congruence.
Qed.

Lemma same_objects_store h h' x p s :
  same_objects h h' → h' !! x = Some p → same_objects h (<[x := set_state s p]> h').
Proof.
  intros Hs Hx y. specialize (Hs y). destruct (decide (x = y)) as [<-|Hne].
  - rewrite lookup_insert_eq. by rewrite Hx in Hs.
  - by rewrite lookup_insert_ne.
Qed.

Definition keeps (st st' : state) : Prop :=
  mp2list st' = mp2list st ∧ same_objects (heap st) (heap st').

Lemma decide_next_keeps next st st' prot dem :
  decide_next next st = Done (st', prot, dem) → keeps st st'.
Proof.
  assert (∀ n s r, keeps st s → (let! nx := deref s n in
      Done (store n (set_state RUNNING nx) (set_currtask (Some n) s), Some (linux_task nx))) = Done r →
      keeps st r.1) as Hsw.
  { intros n s r [Hl Hh]. unfold deref. destruct (heap s !! n) as [nx|] eqn:Hn; [|done]. intros [= <-].
    split; [exact Hl|]. by apply same_objects_store. }
  assert (keeps st st) as Hrefl by (split; [done|apply same_objects_refl]).
  unfold decide_next. destruct (currtask st) as [c|].
  - unfold deref at 1. destruct (heap st !! c) as [cur|] eqn:Hc; [|done]. cbn [obind].
    destruct (RMSstate cur), next as [n|]; try (by intros [= <- <- <-]).
    + destruct (let! nx := deref st n in _) as [q|e|] eqn:Hq; [|done..]. intros [= <- <- <-]. by eapply Hsw.
    + unfold deref at 1. destruct (heap st !! n) as [nx|]; [|done]. cbn [obind].
      case_decide; [|by intros [= <- <- <-]].
      destruct (let! nx := deref (store c _ st) n in _) as [q|e|] eqn:Hq; [|done..]. intros [= <- <- <-].
      eapply Hsw; [|exact Hq]. split; [done|]. by apply same_objects_store; [apply same_objects_refl|].
  - destruct next as [n|]; [|by intros [= <- <- <-]].
    destruct (let! nx := deref st n in _) as [q|e|] eqn:Hq; [|done..]. intros [= <- <- <-]. by eapply Hsw.
Qed.

Lemma dispatch_step_keeps st st' : dispatch_step st = Done st' → keeps st st'.
Proof.
  assert (∀ pc, keeps st (set_dpc pc st)) as Hpc by (split; [done|apply same_objects_refl]).
  unfold dispatch_step. destruct (dpc st) as [|[|x rest] next|prot dem| | | |]; try (by intros [= <-]).
  - destruct (decide_next next st) as [[[st1 prot] dem]|e|] eqn:Hd; [|done..]. intros [= <-].
    apply decide_next_keeps in Hd. exact Hd.
  - destruct (better st x next); [|done..]. by intros [= <-].
  - intros [= <-]. destruct prot, dem; (split; [done|apply same_objects_refl]).
  - intros [= <-]. split; [done|apply same_objects_refl].
Qed.

(** The round of the thread ends, and keeps the list and the objects. *)
Lemma finish_round_spec st :
  inv_st st → ∃ st', finish_round st = Done st' ∧ inv_st st' ∧ keeps st st'.
Proof.
  unfold finish_round. generalize (seq 0 (statements_left st)). intros l. revert st.
  induction l as [|k l IH]; intros st HI; cbn [mfor].
  { exists st. split_and!; [done|done|]. split; [done|apply same_objects_refl]. }
  destruct (dispatch_step_inv st HI) as (st1 & Hs & HI1). rewrite Hs. cbn [obind].
  destruct (IH st1 HI1) as (st' & -> & HI' & Hl & Hh). exists st'. split_and!; [done|done|].
  destruct (dispatch_step_keeps st st1 Hs) as [Hl1 Hh1]. split; [congruence|by eapply same_objects_trans].
Qed.

Lemma cleanup_spec l st :
  NoDup l → (∀ x, x ∈ l → is_Some (heap st !! x)) →
  ∃ st', cleanup l st = Done st' ∧ mp2list st' = filter (λ y, y ∉ l) (mp2list st) ∧
    (∀ x, heap st' !! x = if decide (x ∈ l) then None else heap st !! x) ∧
    (∀ x p, x ∈ l → heap st !! x = Some p → attrs st' !! linux_task p = Some (Attr SCHED_NORMAL 0)) ∧
    (∀ t, attrs st !! t = Some (Attr SCHED_NORMAL 0) → attrs st' !! t = Some (Attr SCHED_NORMAL 0)).
Proof.
  intros Hnd. revert st. induction Hnd as [|x l Hx Hnd IH]; intros st Hh; cbn [cleanup].
  { exists st. split_and!; try done.
    - symmetry. apply filter_all. intros. by apply not_elem_of_nil.
    - by intros x p ?%not_elem_of_nil. }
  destruct (Hh x) as [p Hp]; [left|]. rewrite (deref_some _ _ _ Hp). cbn [obind].
  set (s1 := demote_task _ _). pose proof (release_object x p s1 Hp) as Hrel.
  destruct (del_timer_sync x s1) as [s2|e|]; [|done..]. cbn [obind] in Hrel |- *. rewrite Hrel. cbn [obind].
  set (st1 := set_heap _ _).
  destruct (IH st1) as (st' & -> & Hl & Hheap & Hat & Hmono).
  { intros y Hy. simpl. rewrite lookup_delete_ne by (by intros ->). apply Hh. by right. }
  exists st'. split_and!; [done| | | |].
  - rewrite Hl. simpl. rewrite list_filter_filter. apply list_filter_iff. intros y. simpl.
    rewrite not_elem_of_cons. tauto.
  - intros y. rewrite Hheap. simpl. destruct (decide (y = x)) as [->|Hne].
    + rewrite lookup_delete_eq. rewrite (decide_True (P := x ∈ x :: l)) by left. by case_decide.
    + rewrite lookup_delete_ne by done. destruct (decide (y ∈ l)).
      * by rewrite decide_True by (by right).
      * rewrite decide_False; [done|]. by apply not_elem_of_cons.
  - intros y q [->|Hy]%elem_of_cons Hq.
    + simplify_eq. apply Hmono. simpl. apply lookup_insert_eq.
    + apply (Hat y q Hy). simpl. rewrite lookup_delete_ne; [done|]. by intros ->.
  - intros t Ht. apply Hmono. simpl. destruct (decide (linux_task p = t)) as [->|Hne].
    + apply lookup_insert_eq.
    + by rewrite lookup_insert_ne.
Qed.

(** The module with its scheduler, loaded. *)
Definition loaded (st : state) : module_state := Module_ true true true true TThread st.

(** The first two calls: the thread has ended, the list is empty, what was on
    it is freed and demoted. *)
Lemma exit_cleaned st :
  inv_st st →
  ∃ st', exit_run [exit_stop_thread; exit_cleanup] (loaded st) = Done (Module_ true true true true TNull st') ∧
    mp2list st' = [] ∧
    (∀ x, heap st' !! x = None ↔ x ∈ mp2list st ∨ heap st !! x = None) ∧
    (∀ x p, x ∈ mp2list st → heap st !! x = Some p →
       attrs st' !! linux_task p = Some (Attr SCHED_NORMAL 0)).
Proof.
  intros HI. destruct (finish_round_spec st HI) as (s1 & Hf & HI1 & Hl1 & Hh1).
  destruct (cleanup_spec (mp2list s1) s1) as (st' & Hc & Hl & Hh & Ha & _).
  - by pose proof (inv_nodup _ _ _ _ _ HI1) as (? & _ & _)%NoDup_app.
  - intros x Hx. apply (inv_heap _ _ _ _ _ HI1). by apply elem_of_app; left.
  - exists st'. split_and!.
    + unfold exit_run, loaded. cbn [mfor exit_stop_thread dispathread sched]. rewrite Hf. cbn [obind].
      unfold exit_cleanup, cleanuplist. cbn [sched]. by rewrite Hc.
    + rewrite Hl. apply filter_none. intros y Hy. by intros Hn.
    + intros x. rewrite Hh, Hl1. specialize (Hh1 x). case_decide; [tauto|].
      destruct (heap st !! x), (heap s1 !! x); naive_solver.
    + intros x p Hx Hp. specialize (Hh1 x). rewrite Hp in Hh1. destruct (heap s1 !! x) as [q|] eqn:Hq; [|done].
      destruct Hh1 as (_ & _ & _ & ->). apply (Ha x q); [by rewrite Hl1|done].
Qed.

(** A registration on an empty list. *)
Lemma register_empty x j task p per comp st :
  mp2list st = [] → per ≠ 0 → comp ≠ 0 → utilization comp per ≤ 693 →
  taskregister (Some x) j task p per comp st =
    Done (Some x, set_list [x] (store x (Pcb p comp per j SLEEPING task None) st)).
Proof.
  intros Hl Hper Hcomp Hu. unfold taskregister. rewrite decide_False by tauto. rewrite Hl. cbn [usum_loop obind].
  by rewrite decide_False by lia.
Qed.

(** C28: unloading.  From any state the invariant allows, wherever the
    dispatcher is, [mp2_exit] completes when nothing else happens meanwhile:
    no object is freed while its timer is pending, the thread and both proc
    entries are gone, the list is empty, every pcb that was on it has been
    freed and its process is back to the normal policy, and nothing else was
    freed.  The cache is destroyed exactly if no other object is left, that
    is, if no registration with a zero argument has leaked one and no
    deregistration is on its way.  But the proc entry is removed last: a
    registration that is written after the list has been cleaned up is
    admitted, and its pcb and the cache survive the module; one that is
    written after the cache is gone uses a NULL cache. *)
Theorem exit_releases_tasks f st env x p per comp task :
  inv_st st → copy_ok env = true → alloc env = Some x →
  find_task_by_pid env p = Some task → is_int p → is_int per → is_int comp → per ≠ 0 → comp ≠ 0 →
  utilization (u64 comp) (u64 per) ≤ 693 →
  let input := message (CmdR p per comp) in
  (∃ st' left, mp2_exit (loaded st) = Done (Module_ false false false left TNull st') ∧
    mp2list st' = [] ∧
    (∀ y, heap st' !! y = None ↔ y ∈ mp2list st ∨ heap st !! y = None) ∧
    (∀ y q, y ∈ mp2list st → heap st !! y = Some q →
       attrs st' !! linux_task q = Some (Attr SCHED_NORMAL 0)) ∧
    (left = false ↔ ∀ y, is_Some (heap st !! y) → y ∈ mp2list st)) ∧
  (∃ m1 m2 st', exit_run (take 2 exit_calls) (loaded st) = Done m1 ∧
    module_write f env input m1 = Done (Z.of_nat (length input), m2) ∧
    exit_run (drop 2 exit_calls) m2 = Done (Module_ false false false true TNull st') ∧
    mp2list st' = [x] ∧ is_Some (heap st' !! x)) ∧
  (∃ m1, exit_run (take 3 exit_calls) (loaded st) = Done m1 ∧ module_write f env input m1 = Fault).
Proof.
  intros HI Hcopy Halloc Htask Hp Hper Hcomp Hper0 Hcomp0 Hu input.
  destruct (exit_cleaned st HI) as (s1 & Hrun & Hl & Hh & Ha).
  assert (∀ l m, exit_run (exit_stop_thread :: exit_cleanup :: l) m =
    let! m' := exit_run [exit_stop_thread; exit_cleanup] m in exit_run l m') as Hsplit.
  { intros l m. unfold exit_run. change (exit_stop_thread :: exit_cleanup :: l) with ([exit_stop_thread; exit_cleanup] ++ l).
    by rewrite mfor_app. }
  split_and!.
  - exists s1, (bool_decide (heap s1 ≠ ∅)). split_and!; [|done|done|done|].
    + unfold mp2_exit, exit_calls. rewrite Hsplit, Hrun. done.
    + rewrite bool_decide_eq_false. split.
      * intros Hne y Hy. apply dec_stable in Hne. assert (heap s1 !! y = None) as [?|Hn]%Hh by (by rewrite Hne); [done|].
        rewrite Hn in Hy. by destruct Hy.
      * intros Hall. intros Hne. apply Hne. apply map_empty. intros y. apply Hh.
        destruct (heap st !! y) eqn:Hy; [left; apply Hall; by rewrite Hy|by right].
  - set (q := Pcb p (u64 comp) (u64 per) (jiffies env) SLEEPING task None).
    assert (my_write f env input s1 = Done (Z.of_nat (length input), set_list [x] (store x q s1))) as Hw.
    { pose proof (my_write_message f env (CmdR p per comp) [] s1) as Hm. cbv zeta in Hm.
      rewrite app_nil_r in Hm. unfold input. rewrite Hm; [|done|constructor|simpl; lia|done]. cbn [run_command].
      rewrite Htask, Halloc. by rewrite register_empty by (done || by apply u64_nonzero). }
    exists (Module_ true true true true TNull s1), (Module_ true true true true TNull (set_list [x] (store x q s1))),
      (set_list [x] (store x q s1)). split; [exact Hrun|].
    split; [unfold module_write; cbn [mp2status mp2cache negb andb sched]; by rewrite Hw|].
    split; [|split; [reflexivity|]].
    + unfold exit_calls. cbn [drop exit_run mfor exit_destroy_cache mp2cache obind sched]. rewrite bool_decide_eq_true_2; [reflexivity|].
      apply insert_non_empty.
    + cbn [heap set_list store set_heap]. rewrite lookup_insert_eq. eauto.
  - exists (Module_ true true false (bool_decide (heap s1 ≠ ∅)) TNull s1). split.
    + unfold exit_calls. cbn [take]. by rewrite Hsplit, Hrun.
    + unfold module_write. cbn [mp2status mp2cache negb andb].
      destruct (message_graph (CmdR p per comp)) as (_ & Hne & Hlen); [done|].
      assert (reaches_alloc env input = true) as ->; [|done].
      unfold reaches_alloc. rewrite Hcopy, andb_true_r. rewrite bool_decide_eq_true_2.
      * unfold input. rewrite message_trimmed, parse_message by done. apply bool_decide_eq_true_2. by rewrite Htask.
      * fold input in Hne, Hlen. destruct input; [done|]. simpl in *. lia.
Qed.

(** Process 12 registers while the module goes away. *)
Lemma exit_releases_tasks_witness :
  let env := WriteEnv true (Some 9%nat) 0 (λ _, Some 112) 12 112 in
  (∃ st', mp2_exit (loaded two_tasks) = Done (Module_ false false false false TNull st')) ∧
  ∃ m1, exit_run (take 3 exit_calls) (loaded two_tasks) = Done m1 ∧
    module_write (λ m, m) env (message (CmdR 12 100 50)) m1 = Fault.
Proof.
  destruct (exit_releases_tasks (λ m, m) two_tasks (WriteEnv true (Some 9%nat) 0 (λ _, Some 112) 12 112) 9 12 100 50 112)
    as ((st' & left & He & _ & _ & _ & Hleft) & _ & Hnull); try done.
  - apply two_tasks_inv.
  - split; [|exact Hnull]. exists st'. replace false with left at 4; [exact He|]. apply Hleft.
    intros y [q [[-> _]|[-> _]]%two_tasks_lookup]; set_solver.
Defined.

(** [kthread_run] reports failure with an error pointer, which [mp2_init]
    stores without looking: the load succeeds, no dispatcher runs, and the
    unload hands the pointer to [kthread_stop]. *)
Lemma thread_failure_unnoticed :
  ∃ m, mp2_init true true true false = (0, m) ∧ mp2_exit m = Fault.
Proof. eexists. split; reflexivity. Qed.
