(* ===== verification/RmsTime.v ===== *)
(** * Release times of the rate-monotonic scheduler

    The transition system of mp2.c under a clock: a registration reads
    [jiffies], a timer fires at its expiry or later.  With every task goes a
    history (when it registered, how often it yielded, when its timer fired)
    which the code does not keep; the theorem says that the wake-up times the
    code computes are the multiples of the period counted from the
    registration, so releases do not drift and are never early. *)
From S2P Require Import Prelude CInt ProcText RmsSched RmsTheorems.
Import Mp2.

Record history := Hist {
  registered_at : Z;
  yields : nat;
  releases : list Z;      (* times at which the timer fired, in order *)
}.

Record timed := Timed { now : Z; sys : state; hist : gmap nat history }.

Section Clock.
Variable msecs_to_jiffies : Z → Z.

Definition interval (p : mp2pcb) : Z := msecs_to_jiffies (u32 (period p)).

(** When an event may happen: a registration reads the clock, a timer is not
    early, and a wake-up time fits the 64-bit counter. *)
Definition on_time (t : Z) (ev : event) (st : state) : Prop :=
  match ev with
  | EvRegister _ j _ _ _ _ => j = t
  | EvYield _ _ p => ∀ x q, x ∈ mp2list st → heap st !! x = Some q → pid q = p →
      nxt_wake_up_time q + interval q < 2 ^ 64
  | EvTimer x => ∀ q e, heap st !! x = Some q → timer q = Some e → e ≤ t
  | _ => True
  end.

Definition count_yield (h : history) : history := Hist (registered_at h) (S (yields h)) (releases h).
Definition add_release (t : Z) (h : history) : history :=
  Hist (registered_at h) (yields h) (releases h ++ [t]).

(** What an event that leads from [st] to [st'] adds to the histories. *)
Definition note (t : Z) (ev : event) (st st' : state) (h : gmap nat history) : gmap nat history :=
  match ev with
  | EvRegister (Some x) _ _ _ _ _ => if decide (x ∈ mp2list st') then <[x := Hist t 0 []]> h else h
  | EvYield cp _ p =>
      if decide (p ≠ cp) then h
      else match find_pid st (mp2list st) p with
           | Done (Some x) => alter count_yield x h
           | _ => h
           end
  | EvTimer x => alter (add_release t) x h
  | EvFree x => delete x h
  | _ => h
  end.

Inductive timed_reachable : timed → Prop :=
| timed_init t : 0 ≤ t < 2 ^ 64 → timed_reachable (Timed t empty_state ∅)
| timed_tick T : timed_reachable T → now T + 1 < 2 ^ 64 →
    timed_reachable (Timed (now T + 1) (sys T) (hist T))
| timed_event T ev st' : timed_reachable T → on_time (now T) ev (sys T) →
    step msecs_to_jiffies (sys T) ev (Done st') →
    timed_reachable (Timed (now T) st' (note (now T) ev (sys T) st' (hist T))).

Lemma timed_is_reachable T : timed_reachable T → reachable msecs_to_jiffies (sys T).
Proof. induction 1; [constructor|done|]. by eapply reachable_step. Qed.

(** ** What an event does to one pcb *)

(** The fields a wake-up time depends on, and whether the task is awake. *)
Definition same_timing (p q : mp2pcb) : Prop :=
  nxt_wake_up_time q = nxt_wake_up_time p ∧ period q = period p ∧ timer q = timer p ∧
  (RMSstate q = SLEEPING ↔ RMSstate p = SLEEPING).

Definition yielded (p : mp2pcb) : mp2pcb :=
  let wake := u64 (nxt_wake_up_time p + interval p) in
  Pcb (pid p) (comp_time p) (period p) wake SLEEPING (linux_task p) (Some wake).
Definition fired (p : mp2pcb) : mp2pcb :=
  Pcb (pid p) (comp_time p) (period p) (nxt_wake_up_time p) READY (linux_task p) None.

Lemma same_timing_refl p : same_timing p p.
Proof. by split_and!. Qed.

Lemma set_state_timing s p : s ≠ SLEEPING → RMSstate p ≠ SLEEPING → same_timing p (set_state s p).
Proof. intros. unfold same_timing. simpl. naive_solver. Qed.

(** The dispatcher changes no timing. *)
Definition keeps_timing (st st' : state) : Prop :=
  mp2list st' = mp2list st ∧
  ∀ x p, heap st !! x = Some p → ∃ q, heap st' !! x = Some q ∧ same_timing p q.

Lemma keeps_timing_refl st st' : mp2list st' = mp2list st → heap st' = heap st → keeps_timing st st'.
Proof. intros Hl Hh. split; [done|]. intros x q Hq. rewrite Hh. eauto using same_timing_refl. Qed.

Lemma keeps_timing_store st st' x p s :
  heap st !! x = Some p → RMSstate p ≠ SLEEPING → s ≠ SLEEPING →
  mp2list st' = mp2list st → heap st' = <[x := set_state s p]> (heap st) → keeps_timing st st'.
Proof.
  intros Hp Hs Hs' Hl Hh. split; [done|]. intros y q. rewrite Hh. destruct (decide (x = y)) as [<-|Hne].
  - rewrite lookup_insert_eq. intros. simplify_eq. eauto using set_state_timing.
  - rewrite lookup_insert_ne by done. eauto using same_timing_refl.
Qed.

Lemma keeps_timing_trans st1 st2 st3 : keeps_timing st1 st2 → keeps_timing st2 st3 → keeps_timing st1 st3.
Proof.
  intros [L12 H12] [L23 H23]. split; [congruence|]. intros x p Hp.
  destruct (H12 x p Hp) as (q & Hq & Hpq). destruct (H23 x q Hq) as (r & Hr & Hqr).
  exists r. split; [done|]. destruct Hpq as (? & ? & ? & ?), Hqr as (? & ? & ? & ?). split_and!; [congruence..|tauto].
Qed.

Lemma wakethread_timing st : keeps_timing st (wakethread st).
Proof. unfold wakethread. by destruct (dpc st); apply keeps_timing_refl. Qed.

Lemma decide_next_timing st next r :
  inv_st st → (∀ n, next = Some n → ready st n) → decide_next next st = Done r → keeps_timing st r.1.1.
Proof.
  intros HI Hnext. unfold decide_next. destruct next as [n|].
  2: { destruct (currtask st) as [c|]; [|intros [= <-]; by apply keeps_timing_refl].
       unfold deref. destruct (heap st !! c) as [cur|]; [|done]. simpl.
       destruct (RMSstate cur); intros [= <-]; by apply keeps_timing_refl. }
  destruct (Hnext n eq_refl) as (Hn & p & Hp & Hr).
  assert (∀ st0, mp2list st0 = mp2list st → heap st0 = heap st → keeps_timing st (store n (set_state RUNNING p) st0)) as Hswitch.
  { intros st0 Hl Hh. apply (keeps_timing_store _ _ n p RUNNING); [done|by rewrite Hr|done|by simpl|by simpl; rewrite Hh]. }
  destruct (currtask st) as [c|] eqn:Hc.
  - pose proof (inv_curr _ _ _ _ _ HI c Hc) as Hcl.
    destruct (inv_heap _ _ _ _ _ HI c) as [cur Hcur]; [by apply elem_of_app; left|].
    assert (RMSstate cur = RUNNING) as Hrun by (by apply (inv_run _ _ _ _ _ HI c cur)).
    rewrite (deref_some _ _ _ Hcur). simpl. rewrite Hrun, (deref_some _ _ _ Hp). simpl.
    case_decide; [|intros [= <-]; by apply keeps_timing_refl].
    assert (c ≠ n) by (intros ->; congruence).
    rewrite (deref_some _ n p) by (simpl; by rewrite lookup_insert_ne). simpl. intros [= <-]. simpl.
    eapply keeps_timing_trans.
    + apply (keeps_timing_store st (store c (set_state READY cur) st) c cur READY); [done|by rewrite Hrun|done..].
    + apply (keeps_timing_store _ _ n p RUNNING); simpl; [by rewrite lookup_insert_ne|by rewrite Hr|done..].
  - rewrite (deref_some _ n p) by done. simpl. intros [= <-]. by apply Hswitch.
Qed.

Lemma dispatch_step_timing st st' : inv_st st → dispatch_step st = Done st' → keeps_timing st st'.
Proof.
  intros HI. unfold dispatch_step. destruct (dpc st) as [|[|x rest] next|prot dem| | | |] eqn:Hpc;
    try (intros [= <-]; by apply keeps_timing_refl).
  - destruct (decide_next next st) as [r| |] eqn:Hr; [|done|done]. simpl. destruct r as [ [st1 prot] dem].
    intros [= <-]. apply (decide_next_timing st next (st1, prot, dem)); [done| |done].
    intros n Hn. by apply (inv_scan _ _ _ _ _ HI _ _ Hpc).
  - destruct (better st x next); [|done|done]. intros [= <-]. by apply keeps_timing_refl.
  - intros [= <-]. by destruct prot, dem; apply keeps_timing_refl.
Qed.

(** ** The invariant *)

(** [msecs_to_jiffies] returns an [unsigned long]. *)
Hypothesis jiffies_unsigned : ∀ ms, 0 ≤ msecs_to_jiffies ms.

Record in_time (t : Z) (p : mp2pcb) (h : history) : Prop := {
  it_born : 0 ≤ registered_at h ≤ t;
  it_next : nxt_wake_up_time p = registered_at h + Z.of_nat (yields h) * interval p;
  it_fits : nxt_wake_up_time p < 2 ^ 64;
  it_timer : timer p = None ∨ timer p = Some (nxt_wake_up_time p);
  it_awake : RMSstate p ≠ SLEEPING → nxt_wake_up_time p ≤ t;
  it_count : (length (releases h) + match timer p with Some _ => 1 | None => 0 end ≤ yields h)%nat;
  it_releases : ∀ j r, releases h !! j = Some r →
    registered_at h + Z.of_nat (S j) * interval p ≤ r ≤ t;
}.

Record timed_inv (T : timed) : Prop := {
  ti_clock : 0 ≤ now T < 2 ^ 64;
  ti_hist : ∀ x h, hist T !! x = Some h → ∃ p, heap (sys T) !! x = Some p ∧ in_time (now T) p h;
  ti_list : ∀ x, x ∈ mp2list (sys T) → is_Some (hist T !! x);
}.

Lemma in_time_same t p q h : same_timing p q → in_time t p h → in_time t q h.
Proof.
  intros (Hn & Hp & Ht & Hs) []. assert (interval q = interval p) as Hi by (unfold interval; congruence).
  split; rewrite ?Hn, ?Hi, ?Ht; tauto || done.
Qed.

Lemma in_time_later t p h : in_time t p h → in_time (t + 1) p h.
Proof.
  intros []. split; try done; [lia|intros; etrans; [eauto|lia]|]. intros j r Hr. specialize (it_releases0 j r Hr). lia.
Qed.

Lemma in_time_yield t p h :
  nxt_wake_up_time p + interval p < 2 ^ 64 → in_time t p h → in_time t (yielded p) (count_yield h).
Proof.
  intros Hb [Hborn Hnext Hfit Htm Haw Hc Hr]. pose proof (jiffies_unsigned (u32 (period p))) as Hi.
  fold (interval p) in Hi. assert (interval (yielded p) = interval p) as He by done.
  assert (0 ≤ nxt_wake_up_time p) by (rewrite Hnext; nia).
  assert (u64 (nxt_wake_up_time p + interval p) = nxt_wake_up_time p + interval p) as Hu by (apply wrap_small; lia).
  split; simpl; rewrite ?Hu, ?He; [done| |lia|by right|done| |done].
  - rewrite Hnext. lia.
  - destruct (timer p); lia.
Qed.

Lemma in_time_fired t p h e : timer p = Some e → e ≤ t → in_time t p h → in_time t (fired p) (add_release t h).
Proof.
  intros He Ht [Hborn Hnext Hfit Htm Haw Hc Hr]. pose proof (jiffies_unsigned (u32 (period p))) as Hi.
  fold (interval p) in Hi. assert (interval (fired p) = interval p) as Hint by done.
  rewrite He in Htm, Hc. destruct Htm as [|[= ->]]; [done|].
  split; simpl; rewrite ?Hint; [done|done|done|by left|done| |].
  - rewrite length_app. simpl. lia.
  - intros j r. destruct (decide (j < length (releases h))%nat) as [Hj|Hj].
    + rewrite lookup_app_l by done. apply Hr.
    + rewrite lookup_app_r by lia. intros [Hj0 <-]%list_lookup_singleton_Some. split; [|done].
      rewrite Hnext in Ht. nia.
Qed.

(** Steps that keep the timing and the histories. *)
Lemma timed_keeps t st st' H :
  keeps_timing st st' → timed_inv (Timed t st H) → timed_inv (Timed t st' H).
Proof.
  intros [Hl Hk] [Hc Hh Hli]. split; simpl in *; [done| |by rewrite Hl].
  intros x h Hx. destruct (Hh x h Hx) as (p & Hp & Hi). destruct (Hk x p Hp) as (q & Hq & Hpq).
  eauto using in_time_same.
Qed.

(** One pcb changes together with its history. *)
Lemma timed_alter t st st' H x p p' g :
  mp2list st' = mp2list st → heap st' = <[x := p']> (heap st) → heap st !! x = Some p →
  (∀ h, in_time t p h → in_time t p' (g h)) →
  timed_inv (Timed t st H) → timed_inv (Timed t st' (alter g x H)).
Proof.
  intros Hl Hhp Hp Hg [Hc Hh Hli]. split; simpl in *; [done| |].
  - intros y h. rewrite Hhp. destruct (decide (x = y)) as [<-|Hne].
    + rewrite lookup_alter_eq, lookup_insert_eq. intros (h0 & Hh0 & ->)%fmap_Some.
      destruct (Hh x h0 Hh0) as (p0 & ? & ?). simplify_eq. eauto.
    + rewrite lookup_alter_ne, lookup_insert_ne by done. apply Hh.
  - intros y. rewrite Hl. intros Hy%Hli. destruct (decide (x = y)) as [<-|Hne].
    + rewrite lookup_alter_eq. destruct Hy as [h ->]. by eexists.
    + by rewrite lookup_alter_ne.
Qed.

(** ** Preservation *)
Lemma timed_register t alloc task p per comp st st' H :
  inv_st st → enabled (EvRegister alloc t task p per comp) st →
  exec msecs_to_jiffies (EvRegister alloc t task p per comp) st = Done st' →
  timed_inv (Timed t st H) →
  timed_inv (Timed t st' (note t (EvRegister alloc t task p per comp) st st' H)).
Proof.
  intros HI (Hm & Hper & Hcomp & Hnew) Hex HT. cbn [exec] in Hex. destruct alloc as [x|]; [|by simplify_eq/=].
  specialize (Hnew x eq_refl). destruct HT as [Hc Hh Hli]. cbn [note now sys hist] in *.
  assert (x ∉ mp2list st) as Hx.
  { intros Hin. destruct (inv_heap _ _ _ _ _ HI x) as [? ?]; [by apply elem_of_app; left|]. congruence. }
  assert (∀ y h, H !! y = Some h → x ≠ y) as Hne by (intros y h (q & Hq & _)%Hh; congruence).
  destruct (decide (u64 per = 0 ∨ u64 comp = 0)) as [H0|H0].
  { unfold taskregister in Hex. rewrite decide_True in Hex by done. simplify_eq/=. rewrite decide_False by done.
    split; simpl; [done| |done]. intros y h Hy. rewrite lookup_insert_ne by eauto. by apply Hh. }
  assert (u64 per ≠ 0 ∧ u64 comp ≠ 0) as [Hp0 Hc0] by naive_solver.
  destruct (taskregister_spec st x t task p per comp) as [(_ & _ & Hr)|[_ Hr]]; try done;
    rewrite Hr in Hex; simplify_eq/=.
  - rewrite decide_True by (apply elem_of_app; right; apply list_elem_of_here). split; simpl; [done| |].
    + intros y h. destruct (decide (x = y)) as [<-|Hxy].
      * rewrite !lookup_insert_eq. intros [= <-]. eexists. split; [done|]. split; simpl; try done; try lia. by left.
      * rewrite !lookup_insert_ne by done. apply Hh.
    + intros y [Hy| ->%list_elem_of_singleton]%elem_of_app; [|rewrite lookup_insert_eq; by eexists].
      rewrite lookup_insert_ne by (by intros ->). by apply Hli.
  - rewrite decide_False by done. rewrite set_heap_delete_fresh by done. by split.
Qed.

Lemma timed_yield t cp ct p st st' H :
  inv_st st → on_time t (EvYield cp ct p) st → exec msecs_to_jiffies (EvYield cp ct p) st = Done st' →
  timed_inv (Timed t st H) → timed_inv (Timed t st' (note t (EvYield cp ct p) st st' H)).
Proof.
  intros HI Hon Hex HT. simpl in *. unfold yield_lock in Hex. case_decide; [by simplify_eq/=|].
  destruct (find_pid_spec st (mp2list st) p) as (r & Hr & Hspec).
  { intros x Hx. apply (inv_heap _ _ _ _ _ HI). by apply elem_of_app; left. }
  rewrite Hr in Hex |- *. simpl in Hex. destruct r as [x|]; [|by simplify_eq/=].
  destruct Hspec as (Hx & q & Hq & Hpid). rewrite (deref_some _ _ _ Hq) in Hex. simpl in Hex.
  eapply (timed_alter t st _ H x q (yielded q)); [| |done| |done].
  - case_decide; by simplify_eq/=.
  - case_decide; by simplify_eq/=.
  - intros h. apply in_time_yield. by apply (Hon x q).
Qed.

Lemma timed_timer t x st st' H :
  enabled (EvTimer x) st → on_time t (EvTimer x) st → exec msecs_to_jiffies (EvTimer x) st = Done st' →
  timed_inv (Timed t st H) → timed_inv (Timed t st' (note t (EvTimer x) st st' H)).
Proof.
  intros (p & e & Hp & He) Hon Hex HT. simpl in *. unfold timercb in Hex. rewrite (deref_some _ _ _ Hp) in Hex.
  simpl in Hex. simplify_eq/=. eapply timed_keeps; [apply wakethread_timing|].
  eapply (timed_alter t st _ H x p (fired p)); [done|done|done| |done].
  intros h. eapply in_time_fired; [done|]. by eapply Hon.
Qed.

Lemma timed_free t x st st' H :
  inv_st st → x ∈ dying st → deregister_free x st = Done st' →
  timed_inv (Timed t st H) → timed_inv (Timed t st' (delete x H)).
Proof.
  intros HI Hx Hex [Hc Hh Hli]. simpl in *.
  destruct (inv_heap _ _ _ _ _ HI x) as [target Ht]; [by apply elem_of_app; right|].
  rewrite (deregister_free_eq x target st Ht) in Hex. cbv zeta in Hex.
  assert (x ∉ mp2list st) as Hnl.
  { intros Hl. pose proof (inv_nodup _ _ _ _ _ HI) as (_ & Hd & _)%NoDup_app. by eapply Hd. }
  set (st2 := set_dying _ _) in Hex.
  assert (timed_inv (Timed t st2 (delete x H))) as HT2.
  { split; simpl; [done| |].
    - intros y h [Hxy Hy]%lookup_delete_Some. rewrite lookup_delete_ne by done. by apply Hh.
    - intros y Hy. rewrite lookup_delete_ne by (by intros ->). by apply Hli. }
  destruct (currtask st); simplify_eq/=; [done|]. eapply timed_keeps; [apply wakethread_timing|done].
Qed.

Lemma timed_unlink t p st st' H :
  inv_st st → exec msecs_to_jiffies (EvUnlink p) st = Done st' →
  timed_inv (Timed t st H) → timed_inv (Timed t st' H).
Proof.
  intros HI Hex [Hc Hh Hli]. simpl in *. unfold deregister_unlink in Hex.
  destruct (find_pid st (mp2list st) p) as [ [x|]| |]; [| |done|done]; simplify_eq/=; [|done].
  split; simpl; [done|done|]. intros y [_ Hy]%list_elem_of_filter. by apply Hli.
Qed.

Lemma timed_reachable_inv T : timed_reachable T → timed_inv T.
Proof.
  induction 1 as [t Ht|T HT IH Ht|T ev st' HT IH Hon Hstep].
  - split; simpl; [done| |by intros x ?%not_elem_of_nil]. intros x h. by rewrite lookup_empty.
  - destruct IH as [Hc Hh Hl]. split; simpl; [lia| |done].
    intros x h (p & Hp & Hi)%Hh. eauto using in_time_later.
  - pose proof (reachable_inv _ _ (timed_is_reachable T HT)) as HI. destruct T as [t st H]. simpl in *.
    inversion Hstep as [? ? Hen Hs Hev Hex]; subst. symmetry in Hex.
    destruct ev as [alloc j task p per comp|cp ct p|k|k|p|x|x|]; simpl in Hon.
    + subst j. by eapply timed_register.
    + by eapply timed_yield.
    + simpl in Hex. simplify_eq. eapply timed_keeps; [|done]. apply wakethread_timing.
    + simpl in Hex. simplify_eq. eapply timed_keeps; [|done]. by apply keeps_timing_refl.
    + by eapply timed_unlink.
    + by eapply timed_free.
    + by eapply timed_timer.
    + eapply timed_keeps; [|done]. by apply dispatch_step_timing.
Qed.
End Clock.

(** ** Result *)

(** C23: releases are periodic, do not drift and are never early.  In every
    timed run, for every registered task: its next wake-up time is the time
    of its registration plus one period (in jiffies) for each yield so far,
    whatever the delays between yields, and that is what its timer is set to;
    a task that is READY or RUNNING has reached its wake-up time; its [j]-th
    release is at least [j] periods after the registration, so it is never
    released more often than once per period.  The kernel's conversion to
    jiffies is any function with unsigned results. *)
Theorem release_times f T x p :
  (∀ ms, 0 ≤ f ms) → timed_reachable f T → x ∈ mp2list (sys T) → heap (sys T) !! x = Some p →
  ∃ h, hist T !! x = Some h ∧
    nxt_wake_up_time p = registered_at h + Z.of_nat (yields h) * interval f p ∧
    (timer p = None ∨ timer p = Some (nxt_wake_up_time p)) ∧
    (RMSstate p ≠ SLEEPING → nxt_wake_up_time p ≤ now T) ∧
    (∀ j r, releases h !! j = Some r → registered_at h + Z.of_nat (S j) * interval f p ≤ r ≤ now T) ∧
    Z.of_nat (length (releases h)) * interval f p ≤ now T - registered_at h.
Proof.
  intros Hf HT Hx Hp. destruct (timed_reachable_inv f Hf T HT) as [_ Hh Hl].
  destruct (Hl x Hx) as [h Hhx]. destruct (Hh x h Hhx) as (p' & Hp' & Hi). simplify_eq.
  destruct Hi as [Hborn Hnext _ Htm Haw _ Hr]. exists h. split_and!; [done..|].
  destruct (length (releases h)) as [|n] eqn:Hn; [simpl; lia|].
  destruct (lookup_lt_is_Some_2 (releases h) n) as [r Hlast]; [lia|]. pose proof (Hr n r Hlast). lia.
Qed.

(** A concrete run: [None] is a tick of the clock. *)
Definition on_timeb (f : Z → Z) (t : Z) (ev : event) (st : state) : bool :=
  match ev with
  | EvRegister _ j _ _ _ _ => bool_decide (j = t)
  | EvYield _ _ p =>
      forallb (λ x, match heap st !! x with
                    | Some q => bool_decide (pid q ≠ p ∨ nxt_wake_up_time q + interval f q < 2 ^ 64)
                    | None => true
                    end) (mp2list st)
  | EvTimer x =>
      match heap st !! x with
      | Some q => match timer q with Some e => bool_decide (e ≤ t) | None => true end
      | None => true
      end
  | _ => true
  end.

Lemma on_timeb_sound f t ev st : on_timeb f t ev st = true → on_time f t ev st.
Proof.
  destruct ev as [alloc j task p per comp|cp ct p|k|k|p|x|x|]; simpl; try done.
  - by rewrite bool_decide_eq_true.
  - rewrite forallb_forall. intros Hall x q Hx%list_elem_of_In Hq Hp. specialize (Hall x Hx). simpl in Hall.
    rewrite Hq, bool_decide_eq_true in Hall. naive_solver.
  - intros Hb q e Hq He. rewrite Hq, He in Hb. by apply bool_decide_eq_true in Hb.
Qed.

Fixpoint timed_run (f : Z → Z) (evs : list (option event)) (T : timed) : option timed :=
  match evs with
  | [] => Some T
  | None :: evs' =>
      if decide (now T + 1 < 2 ^ 64) then timed_run f evs' (Timed (now T + 1) (sys T) (hist T)) else None
  | Some ev :: evs' =>
      if enabledb ev (sys T) && on_timeb f (now T) ev (sys T) then
        match exec f ev (sys T) with
        | Done st' => timed_run f evs' (Timed (now T) st' (note (now T) ev (sys T) st' (hist T)))
        | _ => None
        end
      else None
  end.

Lemma timed_run_reachable f evs T T' : timed_reachable f T → timed_run f evs T = Some T' → timed_reachable f T'.
Proof.
  revert T. induction evs as [|[ev|] evs IH]; intros T HT; simpl; [by intros [= <-]| |].
  - destruct (enabledb ev (sys T)) eqn:Hen; [|done]. destruct (on_timeb f (now T) ev (sys T)) eqn:Hon; [|done]. simpl.
    destruct (exec f ev (sys T)) as [s|[]|] eqn:Hex; [|done]. apply IH.
    apply (timed_event f T ev s HT (on_timeb_sound _ _ _ _ Hon)). rewrite <- Hex. constructor. by apply enabledb_sound.
  - case_decide; [|done]. apply IH. by apply timed_tick.
Qed.

(** A task of period 3 registers at time 10 and yields at once; its timer
    fires one tick late; it yields again, three ticks later than it could. *)
Definition drifting_run : list (option event) :=
  [Some (EvRegister (Some 0%nat) 10 7 42 3 1); Some (EvYield 42 7 42); None; None; None; None;
   Some (EvTimer 0%nat); None; None; None; Some (EvYield 42 7 42)].

(** One jiffy per millisecond. *)
Definition hz_1000 (ms : Z) : Z := Z.max 0 ms.

Lemma release_times_witness :
  ∃ T p h, timed_run hz_1000 drifting_run (Timed 10 empty_state ∅) = Some T ∧ heap (sys T) !! 0%nat = Some p ∧
    hist T !! 0%nat = Some h ∧ now T = 17 ∧ releases h = [14] ∧ timer p = Some 16 ∧
    nxt_wake_up_time p = registered_at h + Z.of_nat (yields h) * interval hz_1000 p.
Proof.
  destruct (timed_run hz_1000 drifting_run (Timed 10 empty_state ∅)) as [T|] eqn:HT; [|vm_compute in HT; discriminate HT].
  assert (timed_reachable hz_1000 T) as Hr by (eapply timed_run_reachable; [apply (timed_init _ 10); lia|exact HT]).
  vm_compute in HT. injection HT as <-.
  destruct (release_times hz_1000 _ 0%nat (Pcb 42 1 3 16 SLEEPING 7 (Some 16)) ltac:(unfold hz_1000; lia) Hr
    ltac:(apply list_elem_of_here) eq_refl) as (h & Hh & Hn & _).
  eexists _, _, h. split_and!; [reflexivity|reflexivity|exact Hh|reflexivity| |reflexivity|exact Hn].
  vm_compute in Hh. injection Hh as <-. reflexivity.
Defined.
