(* ===== verification/Profiler.v ===== *)
(** * The page-fault profiler (src/Virtual_Memory_Page_Fault_Profiler/mp3.c,
      mp3_given.h)

    A list of registered pids, a delayed work item that samples them twenty
    times a second into a ring inside a vmalloc'ed buffer, and a character
    device that maps the buffer into a monitor.  A critical section under
    [mp3mutex] is one transition; what a handler does after it has released
    the mutex is a transition of its own. *)
From S2P Require Import Prelude CInt ProcText.

Module Mp3.

(** ** Processes (mp3_given.h) *)
Record task := Task {
  min_flt : Z;
  maj_flt : Z;
  utime : Z;
  stime : Z;
}.

Abbreviation process_table := (gmap Z task).

(** [find_task_by_pid]: what [find_vpid] and [pid_task] find in the process
    table.  An [int] survives the conversion to [unsigned int] and back. *)
Definition find_task_by_pid (nr : Z) (tasks : process_table) : option task := tasks !! nr.

(** [get_cpu_use]: the counters of the process, which are reset; [None] for
    the result -1. *)
Definition get_cpu_use (p : Z) (tasks : process_table) : option task * process_table :=
  match find_task_by_pid p tasks with
  | Some t => (Some t, <[p := Task 0 0 0 0]> tasks)
  | None => (None, tasks)
  end.

(** ** The profiler buffer *)
Definition PAGE_SIZE : Z := 4096.
Definition buff_size : Z := 128 * PAGE_SIZE.
(** [gbuffer] as an array of [unsigned long]. *)
Definition buff_longs : Z := buff_size / 8.
Definition ring : Z := 48000.
(** What [memset(gbuffer,-1,buff_size)] leaves in every long. *)
Definition EMPTY : Z := 2 ^ 64 - 1.

Definition allocatebuffer (vmalloc_ok : bool) : option (list Z) :=
  if vmalloc_ok then Some (tab buff_longs (λ _, EMPTY)) else None.

Abbreviation M := (outcome Empty_set).

(** One sample: jiffies, soft faults, hard faults, CPU time. *)
Record sample := Sample {
  timesum : Z;
  minfault : Z;
  majfault : Z;
  cpu : Z;
}.

(** [gbuffer[indx++]=v; indx%=48000;] *)
Definition put (v : Z) (s : list Z * Z) : M (list Z * Z) :=
  let! b := aset s.1 s.2 v in Done (b, (s.2 + 1) mod ring).

Definition put_sample (x : sample) (s : list Z * Z) : M (list Z * Z) :=
  mfor [timesum x; minfault x; majfault x; cpu x] put s.

(** ** State *)
Record state := State {
  tasks : process_table;      (* the processes of the system *)
  mp3head : list Z;           (* registered pids *)
  gbuffer : list Z;
  indx : Z;
  pending : bool;             (* the delayed work is queued *)
  running : option (option sample);
                              (* the handler has left its critical section;
                                 [Some None]: it found no live process *)
  queueing : nat;             (* registrations about to queue the work *)
  cancelling : nat;           (* deregistrations about to cancel it *)
}.

Definition set_head (l : list Z) (st : state) : state :=
  State (tasks st) l (gbuffer st) (indx st) (pending st) (running st) (queueing st) (cancelling st).
Definition set_work (pend : bool) (run : option (option sample)) (st : state) : state :=
  State (tasks st) (mp3head st) (gbuffer st) (indx st) pend run (queueing st) (cancelling st).
Definition set_buffer (b : list Z) (i : Z) (st : state) : state :=
  State (tasks st) (mp3head st) b i (pending st) (running st) (queueing st) (cancelling st).
Definition set_calls (q c : nat) (st : state) : state :=
  State (tasks st) (mp3head st) (gbuffer st) (indx st) (pending st) (running st) q c.

(** ** Sampling *)

(** The loop of [workhandler]: the pids kept, the accumulated sample, the
    process table with its counters reset, and whether no process was alive. *)
Fixpoint collect (l : list Z) (acc : sample) (empty : bool) (ts : process_table)
  : list Z * sample * bool * process_table :=
  match l with
  | [] => ([], acc, empty, ts)
  | curr :: l' =>
      match get_cpu_use curr ts with
      | (Some t, ts') =>
          let acc' := Sample (timesum acc) (u64 (minfault acc + min_flt t))
                             (u64 (majfault acc + maj_flt t))
                             (u64 (cpu acc + u64 (utime t + stime t))) in
          let '(kept, r, e, ts'') := collect l' acc' false ts' in (curr :: kept, r, e, ts'')
      | (None, ts') => collect l' acc empty ts'
      end
  end.

(** [workhandler] up to [mutex_unlock]. *)
Definition work_lock (jiffies : Z) (st : state) : state :=
  let '(kept, r, e, ts) := collect (mp3head st) (Sample jiffies 0 0 0) true (tasks st) in
  State ts kept (gbuffer st) (indx st) false (Some (if e : bool then None else Some r))
        (queueing st) (cancelling st).

(** Its four writes to the ring. *)
Definition work_store (r : option sample) (st : state) : M state :=
  match r with
  | None => Done st
  | Some x => let! s := put_sample x (gbuffer st, indx st) in Done (set_buffer s.1 s.2 st)
  end.

(** The rest of it: the writes and [mod_delayed_work]. *)
Definition work_finish (r : option sample) (st : state) : M state :=
  let! st1 := work_store r st in
  Done (set_work (match r with Some _ => true | None => pending st1 end) None st1).

(** [workhandler], run without interruption. *)
Definition workhandler (jiffies : Z) (st : state) : M state :=
  let st1 := work_lock jiffies st in
  match running st1 with
  | Some r => work_finish r st1
  | None => Done st1
  end.

(** [queue_delayed_work(wq,&worker,0)]. *)
Definition queue_work (st : state) : state := set_work true (running st) st.

(** [cancel_delayed_work_sync(&worker)]: the work is dequeued and a running
    handler is waited for; it cannot queue itself again. *)
Definition cancel_sync (st : state) : M state :=
  let! st1 := match running st with
              | Some r => work_store r st
              | None => Done st
              end in
  Done (set_work false None st1).

(** ** Registration *)

(** [taskregister] up to [mutex_unlock]: the result, and whether the work is
    to be queued. *)
Definition register_lock (kmalloc_ok : bool) (p : Z) (st : state) : bool * bool * state :=
  if decide (p ≤ 0) then (false, false, st)
  else if kmalloc_ok then
    if decide (p ∈ mp3head st) then (true, false, st)
    else (true, bool_decide (mp3head st = []), set_head (mp3head st ++ [p]) st)
  else (false, false, st).

Definition taskregister (kmalloc_ok : bool) (p : Z) (st : state) : bool * state :=
  let '(ret, first, st1) := register_lock kmalloc_ok p st in
  (ret, if first : bool then queue_work st1 else st1).

(** [deregister] up to [mutex_unlock]: the result, and whether the work is
    to be cancelled.  The loop stops at the first node with this pid. *)
Fixpoint remove_first (p : Z) (l : list Z) : list Z :=
  match l with
  | [] => []
  | x :: l' => if decide (x = p) then l' else x :: remove_first p l'
  end.

Definition deregister_lock (p : Z) (st : state) : bool * bool * state :=
  if decide (p ∈ mp3head st) then
    let l := remove_first p (mp3head st) in (true, bool_decide (l = []), set_head l st)
  else (false, false, st).

Definition deregister (p : Z) (st : state) : M (bool * state) :=
  let '(ret, last, st1) := deregister_lock p st in
  if last : bool then let! st2 := cancel_sync st1 in Done (ret, st2) else Done (ret, st1).

Definition cleanlist (st : state) : state := set_head [] st.

(** ** The proc entry *)
Lemma mp3_bounds : 0 < 8 < 2048.
Proof. lia. Qed.

#[export] Instance mp3_line : ProcEntry Z := {|
  pe_cap := 2048;
  pe_margin := 8;
  pe_line := λ p, fmt_d p ++ [10];
  pe_bounds := mp3_bounds;
|}.

Definition my_read (kmalloc_ok copy_ok : bool) (len pos : Z) (st : state) : read_reply :=
  if kmalloc_ok then read_window (-1) copy_ok (render (mp3head st)) len pos
  else ReadReply (-1) [] pos.

Definition fmt_R : list directive := [Lit 82; Space; ConvD].
Definition fmt_U : list directive := [Lit 85; Space; ConvD].

Definition my_write (copy_ok kmalloc_ok : bool) (input : list Z) (st : state) : M (Z * state) :=
  let len := Z.of_nat (length input) in
  if decide (len >= 25 ∨ len = 0) then Done (-1, st)
  else if copy_ok then
    let kbuf := cstring input in
    match kbuf with
    | 82 :: _ =>
        match sscanf fmt_R kbuf with
        | (1%nat, [p]) => Done (len, (taskregister kmalloc_ok p st).2)
        | _ => Done (-1, st)
        end
    | 85 :: _ =>
        match sscanf fmt_U kbuf with
        | (1%nat, [p]) => let! r := deregister p st in Done (len, r.2)
        | _ => Done (-1, st)
        end
    | _ => Done (-1, st)
    end
  else Done (-1, st).

(** ** The character device *)
Definition myopen : Z := 0.
Definition myclose : Z := 0.

Section Mmap.
(** [vmalloc_to_pfn] of an address [off] bytes into the buffer, and whether
    [remap_pfn_range] accepts a user address. *)
Variable pfn_of : Z → Z.
Variable remap_ok : Z → bool.

(** [mymmap]: the result, and the pairs of user address and page frame that
    have been mapped. *)
Fixpoint map_pages (offs : list Z) (vm_start : Z) (mapped : list (Z * Z)) : Z * list (Z * Z) :=
  match offs with
  | [] => (0, mapped)
  | i :: offs' =>
      let pfn := pfn_of i in
      let usraddr := u64 (vm_start + i) in
      if remap_ok usraddr then map_pages offs' vm_start (mapped ++ [(usraddr, pfn)])
      else (-1, mapped)
  end.

(** The values of [i] in [for(i=0;i<usrbsize;i+=PAGE_SIZE)]. *)
Definition page_offsets (usrbsize : Z) : list Z :=
  (λ k, k * PAGE_SIZE) <$> seqZ 0 ((usrbsize + PAGE_SIZE - 1) / PAGE_SIZE).

Definition mymmap (vm_start vm_end : Z) : Z * list (Z * Z) :=
  let usrbsize := u64 (vm_end - vm_start) in
  if decide (usrbsize > buff_size) then (-1, [])
  else map_pages (page_offsets usrbsize) vm_start [].

Record file_operations := Fops {
  fop_open : Z;
  fop_release : Z;
  fop_mmap : Z → Z → Z * list (Z * Z);
}.

Definition myfops : file_operations := Fops myopen myclose mymmap.
End Mmap.

(** ** Loading and unloading *)
Record module_state := Module_ {
  mp3dir : bool;
  mp3status : bool;
  region : bool;              (* register_chrdev_region *)
  mp3cdev : bool;             (* cdev_add *)
  buffer : bool;              (* gbuffer allocated *)
  wq : bool;
  prof : state;
}.

Definition empty_state (ts : process_table) (b : list Z) : state :=
  State ts [] b 0 false None 0 0.
Definition unloaded (ts : process_table) : module_state :=
  Module_ false false false false false false (empty_state ts []).

(** [chardvcini]: the results of [register_chrdev_region] and [cdev_add];
    the value returned, whether the region and the device stay registered. *)
Definition chardvcini (reg add : Z) : Z * bool * bool :=
  if decide (reg < 0) then (reg, false, false)
  else if decide (add < 0) then (add, false, false)
  else (0, true, true).

Definition mp3_init (mkdir_ok create_ok : bool) (reg add : Z) (vmalloc_ok wq_ok : bool)
    (ts : process_table) : Z * module_state :=
  if mkdir_ok then
    if create_ok then
      let '(ret, r, c) := chardvcini reg add in
      if decide (ret < 0) then (-1, Module_ true true r c false false (empty_state ts []))
      else
        match allocatebuffer vmalloc_ok with
        | None => (-1, Module_ true true r c false false (empty_state ts []))
        | Some b =>
            if wq_ok then (0, Module_ true true r c true true (empty_state ts b))
            else (-1, Module_ true true r c true false (empty_state ts b))
        end
    else (-1, unloaded ts)
  else (-1, unloaded ts).

(** [mp3_exit], call by call. *)
Definition exit_cancel (m : module_state) : M module_state :=
  let! st := cancel_sync (prof m) in
  Done (Module_ (mp3dir m) (mp3status m) (region m) (mp3cdev m) (buffer m) (wq m) st).
Definition exit_destroy_wq (m : module_state) : M module_state :=
  Done (Module_ (mp3dir m) (mp3status m) (region m) (mp3cdev m) (buffer m) false (prof m)).
Definition freebuffer (m : module_state) : M module_state :=
  Done (Module_ (mp3dir m) (mp3status m) (region m) (mp3cdev m) false (wq m)
                (set_buffer [] (indx (prof m)) (prof m))).
Definition chardvcexit (m : module_state) : M module_state :=
  Done (Module_ (mp3dir m) (mp3status m) false false (buffer m) (wq m) (prof m)).
Definition exit_cleanlist (m : module_state) : M module_state :=
  Done (Module_ (mp3dir m) (mp3status m) (region m) (mp3cdev m) (buffer m) (wq m) (cleanlist (prof m))).
Definition exit_remove_status (m : module_state) : M module_state :=
  Done (Module_ (mp3dir m) false (region m) (mp3cdev m) (buffer m) (wq m) (prof m)).
Definition exit_remove_dir (m : module_state) : M module_state :=
  Done (Module_ false (mp3status m) (region m) (mp3cdev m) (buffer m) (wq m) (prof m)).

Definition exit_calls : list (module_state → M module_state) :=
  [exit_cancel; exit_destroy_wq; freebuffer; chardvcexit; exit_cleanlist; exit_remove_status;
   exit_remove_dir].
Definition mp3_exit (m : module_state) : M module_state := mfor exit_calls (λ f m, f m) m.

(** ** The running module as a transition system *)
Inductive event :=
| EvRegister (kmalloc_ok : bool) (p : Z)   (* up to mutex_unlock *)
| EvQueue                                  (* queue_delayed_work *)
| EvUnregister (p : Z)                     (* up to mutex_unlock *)
| EvCancel                                 (* cancel_delayed_work_sync *)
| EvWork (jiffies : Z)                     (* the handler up to mutex_unlock *)
| EvStore                                  (* its writes and re-arming *)
| EvProcesses (ts : process_table).        (* processes run, start and end *)

Definition exec (ev : event) (st : state) : M state :=
  match ev with
  | EvRegister kmalloc_ok p =>
      let '(_, first, st1) := register_lock kmalloc_ok p st in
      Done (if first : bool then set_calls (S (queueing st1)) (cancelling st1) st1 else st1)
  | EvQueue => Done (queue_work (set_calls (pred (queueing st)) (cancelling st) st))
  | EvUnregister p =>
      let '(_, last, st1) := deregister_lock p st in
      Done (if last : bool then set_calls (queueing st1) (S (cancelling st1)) st1 else st1)
  | EvCancel => cancel_sync (set_calls (queueing st) (pred (cancelling st)) st)
  | EvWork jiffies => Done (work_lock jiffies st)
  | EvStore => match running st with Some r => work_finish r st | None => Done st end
  | EvProcesses ts =>
      Done (State ts (mp3head st) (gbuffer st) (indx st) (pending st) (running st)
                  (queueing st) (cancelling st))
  end.

(** [serial]: no registration starts between the two halves of a
    deregistration. *)
Definition enabled (serial : bool) (ev : event) (st : state) : Prop :=
  match ev with
  | EvRegister _ _ => serial = true → cancelling st = 0%nat
  | EvQueue => (0 < queueing st)%nat
  | EvUnregister _ => True
  | EvCancel => (0 < cancelling st)%nat
  | EvWork _ => pending st = true ∧ running st = None
  | EvStore => running st ≠ None
  | EvProcesses _ => True
  end.

Inductive reachable (serial : bool) (ts : process_table) : state → Prop :=
| reachable_init b : allocatebuffer true = Some b → reachable serial ts (empty_state ts b)
| reachable_step st ev st' :
    reachable serial ts st → enabled serial ev st → exec ev st = Done st' → reachable serial ts st'.
End Mp3.
