(* ===== verification/ProfilerTheorems.v ===== *)
(** * Theorems about the page-fault profiler *)
From S2P Require Import Prelude CInt ProcText Profiler.
Import Mp3.

(** ** The ring *)

(** A buffer that agrees with [f]; the part after the ring is never written. *)
Definition is_buffer (b : list Z) (f : Z → Z) : Prop :=
  b = tab buff_longs f ∧ ∀ i, ring ≤ i < buff_longs → f i = EMPTY.

Lemma put_tab f i v :
  0 ≤ i < ring →
  put v (tab buff_longs f, i) = Done (tab buff_longs (λ k, if decide (k = i) then v else f k), (i + 1) mod ring).
Proof.
  intros Hi. unfold put. change ring with 48000 in *.
  cbn [fst snd]. rewrite aset_tab by (change buff_longs with 65536; lia). done.
Qed.

(** The [unsigned long]s of a sample, in the order they are written. *)
Definition words (x : sample) : list Z := [timesum x; minfault x; majfault x; cpu x].

(** The buffer after a sample has been written at [i]. *)
Definition with_sample (i : Z) (x : sample) (f : Z → Z) (k : Z) : Z :=
  if decide (i ≤ k < i + 4) then nth (Z.to_nat (k - i)) (words x) EMPTY else f k.

Lemma with_sample_at i x f k j v :
  words x !! k = Some v → j = i + Z.of_nat k → with_sample i x f j = v.
Proof.
  intros Hk ->. pose proof (lookup_lt_Some _ _ _ Hk) as Hlt. simpl in Hlt.
  unfold with_sample. rewrite decide_True by lia.
  replace (Z.to_nat (i + Z.of_nat k - i)) with k by lia. by apply nth_lookup_Some.
Qed.

Lemma with_sample_out i x f j : ¬ (i ≤ j < i + 4) → with_sample i x f j = f j.
Proof. intros. unfold with_sample. by rewrite decide_False. Qed.

(** A sample never straddles the end of the ring, because 4 divides 48000. *)
Lemma put_sample_tab f i x :
  0 ≤ i < ring → i mod 4 = 0 →
  put_sample x (tab buff_longs f, i) = Done (tab buff_longs (with_sample i x f), (i + 4) mod ring).
Proof.
  intros Hi H4. assert (i + 4 ≤ ring) as Hend by (change ring with 48000 in *; Z.div_mod_to_equations; lia).
  assert (∀ d, 0 ≤ d < 4 → (i + d) mod ring = i + d) as Hmod by (intros; apply Z.mod_small; lia).
  unfold put_sample. cbn [mfor].
  rewrite put_tab by lia. cbn [obind]. rewrite (Hmod 1) by lia.
  rewrite put_tab by lia. cbn [obind]. rewrite <- Z.add_assoc, (Hmod (1 + 1)) by lia.
  rewrite put_tab by lia. cbn [obind]. rewrite <- Z.add_assoc, (Hmod (1 + 1 + 1)) by lia.
  rewrite put_tab by lia. cbn [obind]. rewrite <- Z.add_assoc.
  f_equal. apply f_equal2; [|f_equal; lia]. apply tab_ext. intros k _. symmetry.
  repeat case_decide; subst.
  - by apply (with_sample_at i x f 3).
  - by apply (with_sample_at i x f 2).
  - by apply (with_sample_at i x f 1).
  - apply (with_sample_at i x f 0); [done|lia].
  - apply with_sample_out. lia.
Qed.

(** ** One sampling pass *)

(** Sum over the live registered processes, as the hardware adds. *)
Definition total (g : task → Z) (ts : process_table) (l : list Z) : Z :=
  foldr (λ p acc, match ts !! p with Some t => g t + acc | None => acc end) 0 l.

Lemma total_insert_notin g ts l p t : p ∉ l → total g (<[p := t]> ts) l = total g ts l.
Proof.
  induction l as [|q l IH]; intros Hp; [done|]. apply not_elem_of_cons in Hp as [Hne Hp].
  simpl. rewrite lookup_insert_ne by done. by rewrite IH.
Qed.

Lemma u64_add x y : u64 (u64 x + y) = u64 (x + y).
Proof. apply Zplus_mod_idemp_l. Qed.
Lemma u64_add_mid x y z : u64 (x + u64 y + z) = u64 (x + y + z).
Proof. replace (x + u64 y + z) with (u64 y + (x + z)) by lia. rewrite u64_add. f_equal. lia. Qed.

(** The process table after a pass: counters of the sampled processes are 0. *)
Definition reset_all (l : list Z) (ts : process_table) : process_table :=
  map_imap (λ p t, Some (if decide (p ∈ l) then Task 0 0 0 0 else t)) ts.

Lemma lookup_reset l ts p :
  reset_all l ts !! p = (λ t, if decide (p ∈ l) then Task 0 0 0 0 else t) <$> ts !! p.
Proof. unfold reset_all. rewrite map_lookup_imap. by destruct (ts !! p). Qed.

Lemma collect_spec l acc e ts :
  NoDup l →
  u64 (minfault acc) = minfault acc → u64 (majfault acc) = majfault acc → u64 (cpu acc) = cpu acc →
  collect l acc e ts =
    (filter (λ p, is_Some (ts !! p)) l,
     Sample (timesum acc) (u64 (minfault acc + total min_flt ts l))
       (u64 (majfault acc + total maj_flt ts l))
       (u64 (cpu acc + total (λ t, utime t + stime t) ts l)),
     e && bool_decide (filter (λ p, is_Some (ts !! p)) l = []),
     reset_all l ts).
Proof.
  intros Hnd. revert acc e ts. induction Hnd as [|p l Hp Hnd IH]; intros acc e ts H1 H2 H3.
  { cbn [collect total foldr filter list_filter]. rewrite !Z.add_0_r, H1, H2, H3, andb_true_r.
    do 2 f_equal; [by destruct acc|]. apply map_eq. intros q. rewrite lookup_reset.
    destruct (ts !! q); done. }
  cbn [collect]. unfold get_cpu_use, find_task_by_pid. destruct (ts !! p) as [t|] eqn:Ht.
  - assert (filter (λ q, is_Some (<[p := Task 0 0 0 0]> ts !! q)) l = filter (λ q, is_Some (ts !! q)) l) as Hf.
    { clear -Hp. induction l as [|q l IH]; [done|]. apply not_elem_of_cons in Hp as [Hne Hp].
      rewrite !filter_cons, IH by done. rewrite lookup_insert_ne by done. done. }
    rewrite IH by (simpl; by rewrite wrap_wrap). simpl.
    rewrite !total_insert_notin by done. rewrite Ht, Hf, filter_cons, decide_True by eauto.
    rewrite !u64_add, u64_add_mid, !Z.add_assoc.
    rewrite (bool_decide_false (p :: _ = [])), andb_false_r by done. f_equal.
    + apply map_eq. intros q. rewrite !lookup_reset. destruct (decide (q = p)) as [->|Hne].
      * rewrite lookup_insert_eq, Ht. simpl. rewrite (decide_True (P := p ∈ p :: l)) by left.
        by case_decide.
      * rewrite lookup_insert_ne by done. destruct (ts !! q); [|done]. simpl. f_equal.
        destruct (decide (q ∈ l)).
        -- by rewrite decide_True by (by right).
        -- rewrite decide_False; [done|]. by apply not_elem_of_cons.
  - rewrite IH by done. simpl. rewrite Ht, filter_cons, decide_False by (by apply eq_None_not_Some).
    f_equal. apply map_eq. intros q. rewrite !lookup_reset. destruct (ts !! q) as [t|] eqn:Hq; [|done].
    simpl. f_equal. assert (q ≠ p) by congruence. destruct (decide (q ∈ l)).
    + by rewrite decide_True by (by right).
    + rewrite decide_False; [done|]. by apply not_elem_of_cons.
Qed.

(** ** The invariant *)
Record wf (st : state) : Prop := {
  wf_nodup : NoDup (mp3head st);
  wf_pos : ∀ p, p ∈ mp3head st → 0 < p;
  wf_buffer : ∃ f, is_buffer (gbuffer st) f;
  wf_indx : 0 ≤ indx st < ring ∧ indx st mod 4 = 0;
}.

(** Sampling goes on: while a process is registered, the work is queued, is
    running with something to record, or is about to be queued. *)
Definition will_sample (st : state) : Prop :=
  pending st = true ∨ (∃ x, running st = Some (Some x)) ∨ (0 < queueing st)%nat.

Definition sampled (st : state) : Prop :=
  mp3head st ≠ [] → cancelling st = 0%nat ∧ will_sample st.

Lemma put_sample_wf b i x f :
  is_buffer b f → 0 ≤ i < ring → i mod 4 = 0 →
  ∃ b', put_sample x (b, i) = Done (b', (i + 4) mod ring) ∧ is_buffer b' (with_sample i x f) ∧
    0 ≤ (i + 4) mod ring < ring ∧ ((i + 4) mod ring) mod 4 = 0.
Proof.
  intros [-> Hf] Hi H4. rewrite put_sample_tab by done. eexists. split; [done|].
  split; [split; [done|]|split_and!].
  - intros k Hk. rewrite with_sample_out; [by apply Hf|]. change ring with 48000 in *.
    Z.div_mod_to_equations. lia.
  - apply Z.mod_pos_bound. done.
  - apply Z.mod_pos_bound. done.
  - change ring with 48000 in *. Z.div_mod_to_equations. lia.
Qed.

Lemma work_store_spec r st :
  wf st → ∃ b i, work_store r st = Done (set_buffer b i st) ∧ wf (set_buffer b i st).
Proof.
  intros Hwf. destruct r as [x|].
  - destruct Hwf as [H1 H2 [f Hf] [Hi H4] ].
    destruct (put_sample_wf (gbuffer st) (indx st) x f Hf Hi H4) as (b & Hp & Hb & Hi' & H4').
    exists b, ((indx st + 4) mod ring). simpl. rewrite Hp. split; [done|]. by split; simpl; eauto.
  - exists (gbuffer st), (indx st). assert (set_buffer (gbuffer st) (indx st) st = st) as -> by (by destruct st).
    done.
Qed.

Lemma wf_work st run pend : wf st → wf (set_work pend run st).
Proof. intros [? ? ? ?]. by split. Qed.

Lemma cancel_sync_spec st :
  wf st → ∃ b i, cancel_sync st = Done (set_work false None (set_buffer b i st)) ∧
    wf (set_work false None (set_buffer b i st)).
Proof.
  intros Hwf. unfold cancel_sync. destruct (running st) as [r|] eqn:Hr.
  - destruct (work_store_spec r st Hwf) as (b & i & -> & Hwf'). exists b, i. split; [done|]. by apply wf_work.
  - exists (gbuffer st), (indx st).
    assert (set_buffer (gbuffer st) (indx st) st = st) as -> by (by destruct st). split; [done|].
    by apply wf_work.
Qed.

Lemma work_lock_head j st :
  wf st → mp3head (work_lock j st) = filter (λ p, is_Some (tasks st !! p)) (mp3head st) ∧
  running (work_lock j st) =
    Some (if decide (filter (λ p, is_Some (tasks st !! p)) (mp3head st) = []) then None
          else Some (Sample j (u64 (total min_flt (tasks st) (mp3head st)))
                 (u64 (total maj_flt (tasks st) (mp3head st)))
                 (u64 (total (λ t, utime t + stime t) (tasks st) (mp3head st))))) ∧
  tasks (work_lock j st) = reset_all (mp3head st) (tasks st).
Proof.
  intros Hwf. unfold work_lock. rewrite collect_spec by (done || apply Hwf). simpl.
  split_and!; [done| |done]. rewrite !Z.add_0_l. by case_bool_decide; case_decide.
Qed.

Lemma elem_of_remove_first p q l : q ∈ remove_first p l → q ∈ l.
Proof.
  induction l as [|x l IH]; simpl; [done|]. case_decide; [by right|].
  intros [->|?]%elem_of_cons; [left|right; auto].
Qed.

Lemma NoDup_remove_first p l : NoDup l → NoDup (remove_first p l).
Proof.
  induction 1 as [|x l Hx Hl IH]; simpl; [constructor|]. case_decide; [done|].
  constructor; [|done]. by intros ?%elem_of_remove_first.
Qed.

Lemma exec_wf serial ev st :
  wf st → enabled serial ev st →
  ∃ st', exec ev st = Done st' ∧ wf st' ∧ (serial = true → sampled st → sampled st').
Proof.
  intros Hwf Hen. destruct ev as [ok p| |p| |j| |ts]; simpl in *.
  - unfold register_lock. case_decide as Hp; [by exists st|]. destruct ok; [|by exists st].
    case_decide as Hin; [by exists st|].
    assert (wf (set_head (mp3head st ++ [p]) st)) as Hwf'.
    { destruct Hwf as [H1 H2 H3 H4]. split; simpl; [|set_solver by lia|done|done].
      apply NoDup_app. split_and!; [done|set_solver|apply NoDup_singleton]. }
    eexists. split; [done|]. case_bool_decide as He; (split; [by destruct Hwf'|]).
    + intros Hs _ _. split; [by apply Hen|]. right. right. simpl. lia.
    + intros Hs Hsam _. by apply Hsam.
  - eexists. split; [done|]. split; [by destruct Hwf|]. intros _ Hs Hne.
    destruct (Hs Hne) as [? _]. split; [done|by left].
  - unfold deregister_lock. case_decide as Hin; [|by exists st].
    assert (wf (set_head (remove_first p (mp3head st)) st)) as Hwf'.
    { destruct Hwf as [H1 H2 H3 H4]. split; simpl; [by apply NoDup_remove_first| |done|done].
      intros q ?%elem_of_remove_first. auto. }
    eexists. split; [done|]. case_bool_decide as He; (split; [by destruct Hwf'|]).
    + by intros _ _ ?.
    + intros _ Hs _. apply Hs. by intros Hn; rewrite Hn in Hin; apply not_elem_of_nil in Hin.
  - destruct (cancel_sync_spec (set_calls (queueing st) (pred (cancelling st)) st)) as (b & i & -> & Hwf').
    { by destruct Hwf. }
    eexists. split; [done|]. split; [done|]. intros _ Hs Hne. destruct (Hs Hne) as [Hc _]. lia.
  - destruct (work_lock_head j st Hwf) as (Hh & Hr & _).
    eexists. split; [done|].
    assert (gbuffer (work_lock j st) = gbuffer st ∧ indx (work_lock j st) = indx st ∧
            cancelling (work_lock j st) = cancelling st) as (Hg & Hi & Hc).
    { unfold work_lock. by destruct (collect _ _ _ _) as [ [ [? ?] ?] ?]. }
    split.
    + destruct Hwf as [H1 H2 H3 H4]. split; rewrite ?Hh, ?Hg, ?Hi; try done.
      * by apply NoDup_filter.
      * intros q [_ ?]%list_elem_of_filter. auto.
    + intros _ Hs Hne. rewrite Hh in Hne. rewrite Hc. split.
      * apply Hs. intros He. by rewrite He in Hne.
      * right. left. rewrite Hr, decide_False by done. eauto.
  - destruct (running st) as [r|] eqn:Hr; [|done]. unfold work_finish.
    destruct (work_store_spec r st Hwf) as (b & i & -> & Hwf'). eexists. split; [done|].
    split; [by apply wf_work|]. intros _ Hs Hne. destruct (Hs Hne) as [Hc Hw]. split; [done|].
    destruct r as [x|]; [by left|]. unfold will_sample in *. simpl. rewrite Hr in Hw.
    destruct Hw as [?|[ [x ?]|?] ]; [by left|done|auto].
  - eexists. split; [done|]. split; [by destruct Hwf|done].
Qed.

Lemma empty_wf ts b : allocatebuffer true = Some b → wf (empty_state ts b).
Proof.
  intros [= <-]. split; simpl; [constructor|by intros p ?%not_elem_of_nil| |done].
  by exists (λ _, EMPTY).
Qed.

Lemma reachable_wf serial ts st : reachable serial ts st → wf st ∧ (serial = true → sampled st).
Proof.
  induction 1 as [b Hb|st ev st' _ [Hwf Hs] Hen Hex].
  - split; [by apply empty_wf|]. by intros _ ?.
  - destruct (exec_wf serial ev st Hwf Hen) as (st1 & Hex1 & Hwf1 & Hs1).
    replace st' with st1 by congruence. auto.
Qed.

(** C31: safety of the profiler.  Whatever the interleaving of
    registrations, deregistrations, sampling passes and process activity,
    registered pids stay distinct and positive, every access to the buffer
    is inside it, samples start at multiples of four so that none straddles
    the end of the ring, and the longs after the ring stay empty; every
    event that can happen completes. *)
Theorem profiler_safe serial ts st :
  reachable serial ts st →
  wf st ∧ ∀ ev, enabled serial ev st → ∃ st', exec ev st = Done st' ∧ reachable serial ts st'.
Proof.
  intros Hr. destruct (reachable_wf serial ts st Hr) as [Hwf _]. split; [done|].
  intros ev Hen. destruct (exec_wf serial ev st Hwf Hen) as (st' & Hex & _).
  exists st'. split; [done|]. by eapply reachable_step.
Qed.

Lemma profiler_safe_witness :
  wf (empty_state ∅ (tab buff_longs (λ _, EMPTY))).
Proof. apply (profiler_safe true ∅). by apply reachable_init. Defined.

(** C32: sampling does not stop.  As long as no registration starts between
    the two halves of a deregistration, in every reachable state in which a
    process is registered the work is queued, is running with a sample to
    record (after which it queues itself), or is about to be queued, and no
    cancellation is outstanding. *)
Theorem sampling_continues ts st :
  reachable true ts st → mp3head st ≠ [] → cancelling st = 0%nat ∧ will_sample st.
Proof. intros Hr. destruct (reachable_wf true ts st Hr) as [_ Hs]. by apply Hs. Qed.

Lemma sampling_continues_witness :
  ∃ st, exec (EvRegister true 7) (empty_state ∅ (tab buff_longs (λ _, EMPTY))) = Done st ∧
    cancelling st = 0%nat ∧ will_sample st.
Proof.
  eexists. split; [reflexivity|]. apply (sampling_continues ∅); [|done].
  eapply (reachable_step true ∅ _ (EvRegister true 7)); [by apply reachable_init|done|reflexivity].
Defined.

(** What a pass over the registered pids [l] at time [j] records: nothing
    when none of them is alive. *)
Definition recorded (j : Z) (ts : process_table) (l : list Z) : list sample :=
  if decide (filter (λ p, is_Some (ts !! p)) l = []) then []
  else [Sample j (u64 (total min_flt ts l)) (u64 (total maj_flt ts l))
          (u64 (total (λ t, utime t + stime t) ts l))].

Lemma work_put j st :
  wf st →
  let live := filter (λ p, is_Some (tasks st !! p)) (mp3head st) in
  ∃ st', workhandler j st = Done st' ∧ wf st' ∧ mp3head st' = live ∧
    tasks st' = reset_all (mp3head st) (tasks st) ∧ running st' = None ∧
    pending st' = negb (bool_decide (live = [])) ∧
    mfor (recorded j (tasks st) (mp3head st)) put_sample (gbuffer st, indx st) =
      Done (gbuffer st', indx st').
Proof.
  intros Hwf live. destruct (work_lock_head j st Hwf) as (Hh & Hr & Ht). fold live in Hh, Hr.
  assert (gbuffer (work_lock j st) = gbuffer st ∧ indx (work_lock j st) = indx st ∧
          pending (work_lock j st) = false) as (Hg & Hi & Hp).
  { unfold work_lock. by destruct (collect _ _ _ _) as [ [ [? ?] ?] ?]. }
  destruct (exec_wf false (EvWork j) (set_work true None st)) as (st1 & [= Hst1] & Hwf1 & _);
    [by apply wf_work|done|].
  assert (wf (work_lock j st)) as Hwf2 by (rewrite <- Hst1 in Hwf1; by destruct Hwf1).
  destruct (work_store_spec (if decide (live = []) then None else
    head (recorded j (tasks st) (mp3head st))) _ Hwf2) as (b & i & Hstore & Hwf3).
  unfold workhandler. rewrite Hr. revert Hstore. unfold recorded. fold live.
  case_decide as Hlive; cbn [head hd_error work_store work_finish obind]; intros Hstore.
  - eexists. split; [done|]. split_and!; [by apply wf_work|done|done|done| |].
    + simpl. by rewrite Hp, bool_decide_eq_true_2.
    + simpl. by rewrite Hg, Hi.
  - unfold work_finish, work_store. revert Hstore. cbn [mfor]. rewrite Hg, Hi.
    destruct (put_sample _ _) as [ [b' i']|e|]; cbn [obind fst snd]; intros [= Hb Hi']; subst.
    eexists. split; [done|]. split_and!; [by apply wf_work|done|done|done| |done].
    simpl. by rewrite bool_decide_eq_false_2.
Qed.

(** C33: what a sampling pass records.  On a well-formed state [workhandler]
    completes; dead processes leave the list; the counters of the registered
    processes are reset and no other process is touched; if a process is
    alive, one sample with the time and the sums of the counters modulo 2^64
    is written at the current index, the index advances by four around the
    ring and the work is queued again; otherwise nothing is written and the
    work stops. *)
Theorem work_samples j st f :
  wf st → is_buffer (gbuffer st) f →
  let live := filter (λ p, is_Some (tasks st !! p)) (mp3head st) in
  let sum g := u64 (total g (tasks st) (mp3head st)) in
  let x := Sample j (sum min_flt) (sum maj_flt) (sum (λ t, utime t + stime t)) in
  ∃ st', workhandler j st = Done st' ∧ mp3head st' = live ∧
    tasks st' = reset_all (mp3head st) (tasks st) ∧ running st' = None ∧
    if decide (live = []) then
      gbuffer st' = gbuffer st ∧ indx st' = indx st ∧ pending st' = false
    else
      is_buffer (gbuffer st') (with_sample (indx st) x f) ∧
      indx st' = (indx st + 4) mod 48000 ∧ pending st' = true.
Proof.
  intros Hwf Hf live sum x. destruct (work_put j st Hwf) as (st' & Hw & _ & Hh & Ht & Hr & Hp & Hput).
  fold live in Hh, Hp. exists st'. split_and!; [done|done|done|done|]. revert Hput. unfold recorded. fold live.
  destruct (wf_indx st Hwf) as [Hi1 Hi2]. case_decide as Hlive; cbn [mfor].
  - intros [= Hg Hi]. by rewrite Hp, bool_decide_eq_true_2 by done.
  - match goal with |- context [put_sample ?y _] => change y with x end.
    destruct (put_sample_wf (gbuffer st) (indx st) x f Hf Hi1 Hi2) as (b & -> & Hb & _). cbn [obind].
    intros [= <- <-]. by rewrite Hp, bool_decide_eq_false_2 by done.
Qed.

Lemma work_samples_witness :
  let st := set_head [7; 8] (empty_state {[7 := Task 3 1 10 5; 9 := Task 100 100 100 100]}
                              (tab buff_longs (λ _, EMPTY))) in
  ∃ st', workhandler 1000 st = Done st' ∧ mp3head st' = [7] ∧ indx st' = 4 ∧
    is_buffer (gbuffer st') (with_sample 0 (Sample 1000 3 1 15) (λ _, EMPTY)).
Proof.
  intros st.
  destruct (work_samples 1000 st (λ _, EMPTY)) as (st' & Hw & Hh & _ & _ & Hs).
  - split; simpl; [|set_solver by lia| |done].
    + repeat constructor; set_solver.
    + by exists (λ _, EMPTY).
  - done.
  - exists st'. rewrite decide_False in Hs by done.
    destruct Hs as (Hb & Hi & _). split_and!; [exact Hw|exact Hh|exact Hi|exact Hb].
Defined.

(** Running a concrete schedule (no seriality required). *)
Definition enabledb (ev : event) (st : state) : bool :=
  match ev with
  | EvRegister _ _ | EvUnregister _ | EvProcesses _ => true
  | EvQueue => match queueing st with O => false | S _ => true end
  | EvCancel => match cancelling st with O => false | S _ => true end
  | EvWork _ => pending st && match running st with None => true | Some _ => false end
  | EvStore => match running st with None => false | Some _ => true end
  end.

Fixpoint run (evs : list event) (st : state) : option state :=
  match evs with
  | [] => Some st
  | ev :: evs' =>
      if enabledb ev st then
        match exec ev st with Done st' => run evs' st' | _ => None end
      else None
  end.

Lemma schedule_guard_sound ev st : enabledb ev st = true → enabled false ev st.
Proof.
  destruct ev; simpl; try done.
  - destruct (queueing st); [done|lia].
  - destruct (cancelling st); [done|lia].
  - intros [? ?]%andb_true_iff. by destruct (running st).
  - by destruct (running st).
Qed.

Lemma schedule_reachable ts evs st st' :
  reachable false ts st → run evs st = Some st' → reachable false ts st'.
Proof.
  revert st. induction evs as [|ev evs IH]; intros st Hr; simpl; [by intros [= <-]|].
  destruct (enabledb ev st) eqn:Hen; [|done].
  destruct (exec ev st) as [s|[]|] eqn:Hex; [|done]. apply IH.
  eapply reachable_step; [exact Hr|by apply schedule_guard_sound|done].
Qed.

(** The work is cancelled by a deregistration that finished its critical
    section before the registration that queued it. *)
Definition race_schedule : list event :=
  [EvRegister true 7; EvQueue; EvUnregister 7; EvRegister true 8; EvQueue; EvCancel].

Lemma race_run ts b :
  run race_schedule (empty_state ts b) = Some (set_head [8] (empty_state ts b)).
Proof. vm_compute. reflexivity. Qed.

(** C34: a registration between the two halves of a deregistration loses the
    work.  [deregister] decides under the mutex that the list is empty and
    cancels after releasing it; a first registration in between queues the
    work, which is then cancelled: a reachable state has a registered
    process, no queued or running work, and no call in progress, so nothing
    is sampled until the list becomes empty again. *)
Theorem registration_race ts :
  ∃ st, reachable false ts st ∧ mp3head st = [8] ∧ pending st = false ∧ running st = None ∧
    queueing st = 0%nat ∧ cancelling st = 0%nat.
Proof.
  assert (∃ b, allocatebuffer true = Some b) as [b Hb] by (by eexists).
  exists (set_head [8] (empty_state ts b)). split; [|done].
  eapply schedule_reachable; [by apply reachable_init|apply race_run].
Qed.

(** ** Mapping the buffer *)
Lemma map_pages_ok pfn_of remap_ok offs vm_start mapped :
  (∀ i, i ∈ offs → remap_ok (u64 (vm_start + i)) = true) →
  map_pages pfn_of remap_ok offs vm_start mapped =
  (0, mapped ++ ((λ i, (u64 (vm_start + i), pfn_of i)) <$> offs)).
Proof.
  revert mapped. induction offs as [|i offs IH]; intros mapped Hok; simpl.
  { by rewrite app_nil_r. }
  rewrite Hok by left. rewrite IH by (intros; apply Hok; by right). by rewrite <- app_assoc.
Qed.

Lemma mymmap_pages pfn_of remap_ok vm_start n :
  0 ≤ vm_start → 0 ≤ n ≤ 128 → vm_start + n * PAGE_SIZE < 2 ^ 64 → (∀ a, remap_ok a = true) →
  mymmap pfn_of remap_ok vm_start (vm_start + n * PAGE_SIZE) =
  (0, (λ k, (vm_start + k * PAGE_SIZE, pfn_of (k * PAGE_SIZE))) <$> seqZ 0 n).
Proof.
  change PAGE_SIZE with 4096. intros Hs Hn Hend Hok.
  assert (u64 (vm_start + n * 4096 - vm_start) = n * 4096) as Hsize by (rewrite wrap_small; lia).
  unfold mymmap. rewrite Hsize. change buff_size with 524288.
  rewrite decide_False by lia. rewrite map_pages_ok by (intros; apply Hok).
  unfold page_offsets. change PAGE_SIZE with 4096.
  replace ((n * 4096 + 4096 - 1) / 4096) with n by (Z.div_mod_to_equations; lia).
  simpl. f_equal. rewrite <- list_fmap_compose. apply list_fmap_ext. intros i k Hk.
  apply lookup_seqZ in Hk. simpl. f_equal. apply wrap_small. lia.
Qed.

(** C35: the device maps the buffer and nothing else.  A request for [n]
    pages is refused when [n] exceeds 128; otherwise, if every remapping is
    accepted, page [k] of the buffer appears at page [k] of the user area,
    for exactly the [n] pages asked for, all inside the buffer. *)
Theorem mmap_maps_buffer pfn_of remap_ok vm_start n :
  0 ≤ vm_start → 0 ≤ n → vm_start + n * PAGE_SIZE < 2 ^ 64 →
  (∀ a, remap_ok a = true) →
  let r := mymmap pfn_of remap_ok vm_start (vm_start + n * PAGE_SIZE) in
  (n ≤ 128 → r = (0, (λ k, (vm_start + k * PAGE_SIZE, pfn_of (k * PAGE_SIZE))) <$> seqZ 0 n) ∧
     ∀ k, k ∈ seqZ 0 n → k * PAGE_SIZE + PAGE_SIZE ≤ buff_size) ∧
  (128 < n → r = (-1, [])).
Proof.
  intros Hs Hn Hend Hok r. split.
  - intros Hle. split; [by apply mymmap_pages|]. change buff_size with 524288. change PAGE_SIZE with 4096.
    intros k ?%elem_of_seqZ. lia.
  - intros Hgt. subst r. unfold mymmap. change buff_size with 524288. change PAGE_SIZE with 4096 in *.
    rewrite (wrap_small 64) by lia. by rewrite decide_True by lia.
Qed.

Lemma mmap_maps_buffer_witness :
  mymmap (λ off, 1000 + off / 4096) (λ _, true) 65536 (65536 + 2 * PAGE_SIZE) =
  (0, [(65536, 1000); (69632, 1001)]).
Proof.
  apply (mmap_maps_buffer (λ off, 1000 + off / 4096) (λ _, true) 65536 2); done || lia.
Defined.

(** ** Loading *)

(** When a later step of [mp3_init] fails, the load is refused but the proc
    entries (and the device, when it was registered) stay behind, with
    handlers that point into a module that is gone. *)
Lemma init_failure_leaks ts reg add vmalloc_ok wq_ok ret m :
  mp3_init true true reg add vmalloc_ok wq_ok ts = (ret, m) → ret ≠ 0 →
  ret = -1 ∧ mp3dir m = true ∧ mp3status m = true.
Proof.
  unfold mp3_init. destruct (chardvcini reg add) as [ [r ?] ?]. case_decide; [by intros [= <- <-]|].
  unfold allocatebuffer. destruct vmalloc_ok; [|by intros [= <- <-] ].
  destruct wq_ok; by intros [= <- <-].
Qed.
