(* ===== verification/Monitor.v ===== *)
(** * The monitor (src/Virtual_Memory_Page_Fault_Profiler/monitor.c)

    The program that maps the profiler buffer and drains it: data, loops and
    the theorems that it terminates on every buffer, stays inside it, and
    reads back what the profiler has written. *)
From S2P Require Import Prelude CInt ProcText Profiler ProfilerTheorems.
Import Mp3.

Module Mon.
Definition NPAGES : Z := 128.
Definition BUFD_MAX : Z := 48000.

(** A loop that has used up its fuel. *)
Inductive no_fuel := OutOfFuel.
Abbreviation MF := (outcome no_fuel).

(** The buffer is read as [long]. *)
Definition to_long (v : Z) : Z := swrap 64 v.

(** [for(index=0; index<BUFD_MAX; index++) if(buf[index] != -1) break;] over
    the remaining values of [index]. *)
Fixpoint find_start (idxs : list Z) (buf : list Z) : MF Z :=
  match idxs with
  | [] => Done BUFD_MAX
  | index :: idxs' =>
      let! v := aget buf index in
      if decide (to_long v ≠ -1) then Done index else find_start idxs' buf
  end.

(** [printf("%ld ", buf[index]); buf[index++] = -1;
    if(index >= BUFD_MAX) index = 0;] *)
Definition take_long (s : list Z * Z) : MF (Z * (list Z * Z)) :=
  let! v := aget s.1 s.2 in
  let! b := aset s.1 s.2 EMPTY in
  Done (to_long v, (b, if decide (s.2 + 1 >= BUFD_MAX) then 0 else s.2 + 1)).

(** The body of the while loop: the line printed. *)
Definition take_line (s : list Z * Z) : MF (list Z * (list Z * Z)) :=
  let! r1 := take_long s in
  let! r2 := take_long r1.2 in
  let! r3 := take_long r2.2 in
  let! r4 := take_long r3.2 in
  Done ([r1.1; r2.1; r3.1; r4.1], r4.2).

(** [while(buf[index] != -1)]: the lines printed, and the buffer. *)
Fixpoint drain (fuel : nat) (s : list Z * Z) : MF (list (list Z) * list Z) :=
  let! v := aget s.1 s.2 in
  if decide (to_long v ≠ -1) then
    match fuel with
    | O => Exit OutOfFuel
    | S fuel' =>
        let! r := take_line s in
        let! rest := drain fuel' r.2 in
        Done (r.1 :: rest.1, rest.2)
    end
  else Done ([], s.1).

(** [main] after [buf_init]: the lines, the count printed last, and what is
    left in the buffer.  Every iteration empties at least one long of the
    ring or the one after it, so 48001 iterations are enough. *)
Definition main (buf : list Z) : MF (list (list Z) * Z * list Z) :=
  let! index := find_start (seqZ 0 BUFD_MAX) buf in
  let! r := drain (Z.to_nat 48001) (buf, index) in
  Done (r.1, Z.of_nat (length r.1), r.2).

(** The descriptor of the device and the length mapped. *)
Record device := Device {
  buf_fd : Z;
  buf_len : Z;
}.
Definition device0 : device := Device (-1) 0.

(** [buf_init]: [opened] is the result of [open], [mmap_ok] the outcome of
    [mmap] of [buf_len] bytes; whether a pointer is returned. *)
Definition buf_init (pagesize opened : Z) (mmap_ok : bool) (d : device) : bool * device :=
  if decide (buf_fd d = -1) then
    let d1 := Device opened (s32 (NPAGES * pagesize)) in
    if decide (opened < 0) then (false, d1) else (mmap_ok, d1)
  else (mmap_ok, d).

Definition buf_exit (d : device) : device :=
  if decide (buf_fd d ≠ -1) then Device (-1) (buf_len d) else d.

(** The whole program: [mapped] is what the mapping shows, [None] when
    [mmap] fails.  The exit code, the lines with their number, what is left
    in the buffer, and the descriptor. *)
Definition program (pagesize opened : Z) (mapped : option (list Z)) (d : device)
  : MF (Z * (list (list Z) * Z) * option (list Z) * device) :=
  let '(ok, d1) := buf_init pagesize opened (bool_decide (is_Some mapped)) d in
  match ok, mapped with
  | true, Some buf =>
      let! r := main buf in
      Done (0, r.1, Some r.2, buf_exit d1)
  | _, _ => Done (-1, ([], 0), mapped, d1)
  end.
End Mon.
Import Mon.

(** ** Termination *)

(** Number of non-empty longs at the indices the loops can reach. *)
Definition load (f : Z → Z) : nat := length (filter (λ i, to_long (f i) ≠ -1) (seqZ 0 48001)).

Definition clear_at (i : Z) (f : Z → Z) (k : Z) : Z := if decide (k = i) then EMPTY else f k.

Lemma to_long_empty : to_long EMPTY = -1.
Proof. done. Qed.

Lemma filter_length_lt {A} (P Q : A → Prop) `{∀ x, Decision (P x), ∀ x, Decision (Q x)} (l : list A) x :
  (∀ y, P y → Q y) → x ∈ l → Q x → ¬ P x → (length (filter P l) < length (filter Q l))%nat.
Proof.
  intros HPQ Hx HQ HP.
  assert (∀ l, (length (filter P l) ≤ length (filter Q l))%nat) as Hle.
  { induction l0 as [|y l0 IH]; [done|]. rewrite !filter_cons.
    destruct (decide (P y)) as [Hy|Hy].
    - rewrite decide_True by auto. simpl. lia.
    - case_decide; simpl; lia. }
  induction Hx as [x l|x y l Hx IH]; rewrite !filter_cons.
  - rewrite decide_False, decide_True by done. simpl. pose proof (Hle l). lia.
  - specialize (IH HQ HP). destruct (decide (P y)) as [Hy|Hy].
    + rewrite decide_True by auto. simpl. lia.
    + case_decide; simpl; lia.
Qed.

Lemma load_clear_le i f : (load (clear_at i f) ≤ load f)%nat.
Proof.
  unfold load. induction (seqZ 0 48001) as [|k l IH]; [done|]. rewrite !filter_cons.
  unfold clear_at in *. destruct (decide (k = i)) as [->|Hne].
  - rewrite decide_False by (intros H; by apply H). case_decide; simpl; lia.
  - case_decide; simpl; lia.
Qed.

Lemma load_clear_lt i f : 0 ≤ i ≤ 48000 → to_long (f i) ≠ -1 → (load (clear_at i f) < load f)%nat.
Proof.
  intros Hi Hf. unfold load. apply (filter_length_lt _ _ _ i); unfold clear_at.
  - intros y. case_decide; [by rewrite to_long_empty|done].
  - apply elem_of_seqZ. lia.
  - done.
  - rewrite decide_True by done. intros Hne; by destruct Hne.
Qed.

(** Where the index goes. *)
Definition next_index (i : Z) : Z := if decide (i + 1 >= BUFD_MAX) then 0 else i + 1.

Lemma next_index_range i : 0 ≤ i ≤ 48000 → 0 ≤ next_index i < 48000.
Proof. unfold next_index. change BUFD_MAX with 48000. intros. case_decide; lia. Qed.

Lemma take_long_tab f i :
  0 ≤ i ≤ 48000 →
  take_long (tab buff_longs f, i) = Done (to_long (f i), (tab buff_longs (clear_at i f), next_index i)).
Proof.
  intros Hi. assert (0 ≤ i < buff_longs) by (change buff_longs with 65536; lia).
  unfold take_long. cbn [fst snd]. rewrite aget_tab by done. cbn [obind].
  rewrite aset_tab by done. done.
Qed.

(** The buffer function after one line. *)
Definition clear_line (i : Z) (f : Z → Z) : Z → Z :=
  let i2 := next_index i in
  let i3 := next_index i2 in
  let i4 := next_index i3 in
  clear_at i4 (clear_at i3 (clear_at i2 (clear_at i f))).

Lemma take_line_tab f i :
  0 ≤ i ≤ 48000 →
  ∃ line, take_line (tab buff_longs f, i) =
    Done (line, (tab buff_longs (clear_line i f), next_index (next_index (next_index (next_index i))))).
Proof.
  intros Hi. pose proof (next_index_range i Hi) as H2.
  pose proof (next_index_range (next_index i) ltac:(lia)) as H3.
  pose proof (next_index_range (next_index (next_index i)) ltac:(lia)) as H4.
  unfold take_line. rewrite take_long_tab by lia. cbn [obind snd].
  rewrite take_long_tab by lia. cbn [obind snd]. rewrite take_long_tab by lia. cbn [obind snd].
  rewrite take_long_tab by lia. cbn [obind snd]. eauto.
Qed.

Lemma drain_total fuel f i :
  0 ≤ i ≤ 48000 → (load f ≤ fuel)%nat →
  ∃ lines g, drain fuel (tab buff_longs f, i) = Done (lines, tab buff_longs g).
Proof.
  revert f i. induction fuel as [|fuel IH]; intros f i Hi Hl; cbn [drain fst snd];
    rewrite aget_tab by (change buff_longs with 65536; lia); cbn [obind];
    (case_decide as Hv; [|eauto]).
  - pose proof (load_clear_lt i f Hi Hv). lia.
  - destruct (take_line_tab f i Hi) as [line ->]. cbn [obind snd fst].
    set (i' := next_index (next_index (next_index (next_index i)))).
    destruct (IH (clear_line i f) i') as (lines & g & ->).
    + pose proof (next_index_range i Hi). pose proof (next_index_range (next_index i) ltac:(lia)).
      pose proof (next_index_range (next_index (next_index i)) ltac:(lia)).
      pose proof (next_index_range (next_index (next_index (next_index i))) ltac:(lia)).
      unfold i'. lia.
    + pose proof (load_clear_lt i f Hi Hv). unfold clear_line.
      etrans; [apply load_clear_le|]. etrans; [apply load_clear_le|]. etrans; [apply load_clear_le|]. lia.
    + cbn [obind]. eauto.
Qed.

Lemma find_start_spec idxs f :
  (∀ i, i ∈ idxs → 0 ≤ i < buff_longs) →
  ∃ i, find_start idxs (tab buff_longs f) = Done i ∧ (i ∈ idxs ∨ i = BUFD_MAX).
Proof.
  induction idxs as [|k idxs IH]; intros His; simpl; [eauto|].
  rewrite aget_tab by (apply His; left). cbn [obind]. case_decide.
  - exists k. split; [done|]. left. left.
  - destruct IH as (i & -> & Hi); [intros; apply His; by right|]. exists i. split; [done|].
    destruct Hi; [left; by right|by right].
Qed.

Lemma buffer_is_tab (b : list Z) :
  length b = Z.to_nat buff_longs → b = tab buff_longs (λ i, default 0 (b !! Z.to_nat i)).
Proof.
  intros Hlen. apply list_eq. intros k. destruct (decide (Z.of_nat k < buff_longs)) as [Hk|Hk].
  - replace k with (Z.to_nat (Z.of_nat k)) at 2 by lia. rewrite lookup_tab by lia.
    rewrite Nat2Z.id. destruct (b !! k) eqn:Hb; [done|]. apply lookup_ge_None in Hb. lia.
  - rewrite !lookup_ge_None_2; [done| |]; [rewrite length_tab|]; lia.
Qed.

Lemma main_total b :
  length b = Z.to_nat buff_longs → ∃ lines b', main b = Done (lines, Z.of_nat (length lines), b').
Proof.
  intros Hlen. rewrite (buffer_is_tab b Hlen). set (f := λ i : Z, default 0 (b !! Z.to_nat i)). unfold main.
  destruct (find_start_spec (seqZ 0 BUFD_MAX) f) as (i & -> & Hi).
  { intros k ?%elem_of_seqZ. change BUFD_MAX with 48000 in *. change buff_longs with 65536. lia. }
  cbn [obind]. destruct (drain_total (Z.to_nat 48001) f i) as (lines & g & ->).
  - change BUFD_MAX with 48000 in Hi. destruct Hi as [?%elem_of_seqZ| ->]; lia.
  - unfold load. etrans; [apply length_filter|]. by rewrite length_seqZ.
  - cbn [obind]. eauto.
Qed.

(** C38: the monitor terminates.  Whatever [open] and [mmap] return and
    whatever the 128 pages it maps contain, the program ends without leaving
    them.  It returns 0 exactly when the device could be opened and mapped,
    then reports as many records as it has printed, and has closed the
    device; otherwise it returns -1 and prints no record, and when it was
    [mmap] that failed the device stays open. *)
Theorem monitor_total pagesize opened mapped :
  -1 ≤ opened → (∀ b, mapped = Some b → length b = Z.to_nat buff_longs) →
  ∃ code lines rest d,
    program pagesize opened mapped device0 =
      Done (code, (lines, Z.of_nat (length lines)), rest, d) ∧
    (code = 0 ∧ 0 ≤ opened ∧ is_Some mapped ∧ buf_fd d = -1 ∨
     code = -1 ∧ lines = [] ∧ rest = mapped ∧ buf_fd d = opened ∧ (opened = -1 ∨ mapped = None)).
Proof.
  intros Ho Hlen. unfold program, buf_init. rewrite decide_True by done.
  case_decide as Hneg.
  { eexists (-1), [], _, _. split; [done|]. right. split_and!; [done..|left; lia]. }
  destruct mapped as [b|].
  - rewrite bool_decide_eq_true_2 by eauto.
    destruct (main_total b (Hlen b eq_refl)) as (lines & b' & ->). cbn [obind fst snd].
    eexists 0, lines, _, _. split; [done|]. left. split_and!; [done|lia|eauto|].
    unfold buf_exit. cbn [buf_fd]. by rewrite decide_True by lia.
  - rewrite bool_decide_eq_false_2 by (by intros [? ?]).
    eexists (-1), [], _, _. split; [done|]. right. split_and!; [done..|by right].
Qed.

Lemma monitor_total_witness :
  ∃ code lines rest d,
    program 4096 3 (Some (tab buff_longs (λ i, i))) device0 =
      Done (code, (lines, Z.of_nat (length lines)), rest, d) ∧ (code = 0 ∨ code = -1).
Proof.
  destruct (monitor_total 4096 3 (Some (tab buff_longs (λ i, i)))) as (code & lines & rest & d & Hp & Hc);
    [lia|intros b [= <-]; apply length_tab|].
  exists code, lines, rest, d. split; [exact Hp|]. destruct Hc as [[H _]|[H _]]; [left|right]; exact H.
Defined.

(** ** Reading back what was written *)
Definition flat (xs : list sample) : list Z := concat (words <$> xs).

Lemma length_flat xs : length (flat xs) = (4 * length xs)%nat.
Proof. unfold flat. induction xs as [|x xs IH]; [done|]. csimpl. lia. Qed.

Lemma flat_snoc xs x : flat (xs ++ [x]) = flat xs ++ words x.
Proof. unfold flat. by rewrite fmap_app, concat_app. Qed.

(** The samples [xs] from index [s] on, everything else as in [g]. *)
Definition over (g : Z → Z) (s : Z) (xs : list sample) (k : Z) : Z :=
  if decide (s ≤ k < s + 4 * Z.of_nat (length xs)) then default EMPTY (flat xs !! Z.to_nat (k - s)) else g k.

Lemma over_snoc g s xs x k :
  with_sample (s + 4 * Z.of_nat (length xs)) x (over g s xs) k = over g s (xs ++ [x]) k.
Proof.
  pose proof (length_flat xs) as Hl. unfold with_sample, over. rewrite flat_snoc, length_app. simpl length.
  destruct (decide (_ ≤ k < _ + 4)) as [Hk|Hk].
  - rewrite decide_True by lia. rewrite lookup_app_r by lia.
    replace (Z.to_nat (k - s) - length (flat xs))%nat
      with (Z.to_nat (k - (s + 4 * Z.of_nat (length xs)))) by lia.
    by rewrite nth_lookup.
  - destruct (decide (s ≤ k < s + 4 * Z.of_nat (length xs))).
    + rewrite decide_True by lia. by rewrite lookup_app_l by lia.
    + by rewrite decide_False by lia.
Qed.

Lemma put_samples g s ys xs :
  0 ≤ s → s mod 4 = 0 → s + 4 * Z.of_nat (length xs + length ys) ≤ 48000 →
  mfor ys put_sample (tab buff_longs (over g s xs), (s + 4 * Z.of_nat (length xs)) mod ring) =
  Done (tab buff_longs (over g s (xs ++ ys)), (s + 4 * Z.of_nat (length xs + length ys)) mod ring).
Proof.
  intros Hs H4. revert xs. induction ys as [|y ys IH]; intros xs Hlen; cbn [mfor].
  { rewrite app_nil_r. simpl. by rewrite Nat.add_0_r. }
  simpl in Hlen. change ring with 48000 in *. rewrite (Z.mod_small (s + 4 * Z.of_nat (length xs))) by lia.
  rewrite put_sample_tab by (change ring with 48000; Z.div_mod_to_equations; lia). cbn [obind].
  rewrite (tab_ext _ _ (over g s (xs ++ [y]))) by (intros; apply over_snoc).
  specialize (IH (xs ++ [y])). rewrite length_app, <- app_assoc in IH. simpl in IH.
  change ring with 48000.
  replace (s + 4 * Z.of_nat (length xs) + 4) with (s + 4 * Z.of_nat (length xs + 1)) by lia.
  rewrite IH by lia. do 3 f_equal. simpl. lia.
Qed.

Lemma over_head g s x xs d v : words x !! d = Some v → over g s (x :: xs) (s + Z.of_nat d) = v.
Proof.
  intros Hd. pose proof (lookup_lt_Some _ _ _ Hd) as Hlt. simpl in Hlt. unfold over, flat. csimpl.
  rewrite decide_True by lia. replace (Z.to_nat (s + Z.of_nat d - s)) with d by lia.
  change (default EMPTY ((words x ++ flat xs) !! d) = v). rewrite lookup_app_l by done. by rewrite Hd.
Qed.

Lemma over_first g s x xs : over g s (x :: xs) s = timesum x.
Proof. pose proof (over_head g s x xs 0 _ eq_refl) as H. rewrite Z.add_0_r in H. exact H. Qed.

Lemma over_nil g s k : over g s [] k = g k.
Proof. unfold over. by rewrite decide_False by (simpl; lia). Qed.

Lemma over_before g s xs k : k < s → over g s xs k = g k.
Proof. intros. unfold over. by rewrite decide_False by lia. Qed.

(** Where [g] is empty under the first sample, reading it leaves the rest. *)
Lemma over_tail g s x xs k :
  (∀ j, s ≤ j < s + 4 → g j = EMPTY) →
  clear_at (s + 3) (clear_at (s + 2) (clear_at (s + 1) (clear_at s (over g s (x :: xs))))) k =
  over g (s + 4) xs k.
Proof.
  intros Hg. unfold clear_at. repeat case_decide; try (rewrite over_before, Hg by lia; done).
  unfold over. simpl length. destruct (decide (s + 4 ≤ k < s + 4 + 4 * Z.of_nat (length xs))).
  - rewrite decide_True by lia. unfold flat at 1. csimpl.
    change (default EMPTY ((words x ++ flat xs) !! Z.to_nat (k - s)) = default EMPTY (flat xs !! Z.to_nat (k - (s + 4)))).
    rewrite lookup_app_r by (simpl; lia). do 2 f_equal. simpl. lia.
  - by rewrite decide_False by lia.
Qed.

(** One line of output for each sample. *)
Definition line (x : sample) : list Z := to_long <$> words x.

Lemma take_line_over g s x xs :
  0 ≤ s → s + 4 ≤ 48000 → (∀ j, s ≤ j < s + 4 → g j = EMPTY) →
  take_line (tab buff_longs (over g s (x :: xs)), s) =
  Done (line x, (tab buff_longs (over g (s + 4) xs), next_index (s + 3))).
Proof.
  intros Hs Hend Hg. set (f := over g s (x :: xs)).
  assert (∀ d, 0 ≤ d < 3 → next_index (s + d) = s + (d + 1)) as Hn.
  { intros d Hd. unfold next_index. change BUFD_MAX with 48000. rewrite decide_False; lia. }
  pose proof (Hn 0 ltac:(lia)) as Hn0. rewrite Z.add_0_r in Hn0.
  unfold take_line. rewrite take_long_tab by lia. cbn [obind fst snd]. rewrite Hn0.
  rewrite take_long_tab by lia. cbn [obind fst snd]. rewrite (Hn (0 + 1)) by lia.
  rewrite take_long_tab by lia. cbn [obind fst snd]. rewrite (Hn (0 + 1 + 1)) by lia.
  rewrite take_long_tab by lia. cbn [obind fst snd].
  change (0 + 1 + 1 + 1) with 3. change (0 + 1 + 1) with 2. change (0 + 1) with 1.
  pose proof (over_first g s x xs : f s = timesum x) as Hf0.
  f_equal. f_equal; [|f_equal; apply tab_ext; intros; by apply over_tail].
  unfold line, words. csimpl. unfold clear_at. repeat (rewrite decide_False by lia).
  pose proof (over_head g s x xs 1 _ eq_refl : f (s + 1) = minfault x) as Hf1.
  pose proof (over_head g s x xs 2 _ eq_refl : f (s + 2) = majfault x) as Hf2.
  pose proof (over_head g s x xs 3 _ eq_refl : f (s + 3) = cpu x) as Hf3.
  by rewrite Hf0, Hf1, Hf2, Hf3.
Qed.

(** Time stamps that are not the mark of an empty long. *)
Definition stamped (x : sample) : Prop := to_long (timesum x) ≠ -1.

(** The loop reads the samples from [s] on and stops where [g] is empty after
    them, at [s + 4n] or, at the end of the ring, at 0. *)
Lemma drain_over g fuel s xs i :
  0 ≤ s → s + 4 * Z.of_nat (length xs) ≤ 48000 → (length xs ≤ fuel)%nat →
  Forall stamped xs → 0 ≤ i ≤ 48000 → (xs ≠ [] → i = s) →
  (∀ j, s ≤ j < s + 4 * Z.of_nat (length xs) → g j = EMPTY) →
  g (if decide (xs = []) then i else (s + 4 * Z.of_nat (length xs)) mod 48000) = EMPTY →
  drain fuel (tab buff_longs (over g s xs), i) = Done (line <$> xs, tab buff_longs g).
Proof.
  revert s xs i. induction fuel as [|fuel IH]; intros s xs i Hs Hlen Hfuel Hst Hi His Hg Hend;
    (destruct xs as [|x xs]; [|try (simpl in Hfuel; lia)]).
  1, 2: cbn [drain fst snd]; rewrite aget_tab by (change buff_longs with 65536; lia); cbn [obind];
    rewrite over_nil; rewrite decide_True in Hend by done; rewrite Hend, decide_False by (intros H; by apply H); csimpl;
    do 2 f_equal; apply tab_ext; intros; apply over_nil.
  specialize (His ltac:(done)). subst i. simpl in Hlen. apply Forall_cons in Hst as [Hx Hst].
  cbn [drain fst snd]. rewrite aget_tab by (change buff_longs with 65536; lia). cbn [obind].
  rewrite over_first, decide_True by done. simpl in Hg.
  rewrite take_line_over by (lia || (intros; apply Hg; lia)). cbn [obind fst snd].
  rewrite decide_False in Hend by done. simpl length in Hend.
  replace (s + 4 * Z.of_nat (S (length xs))) with (s + 4 + 4 * Z.of_nat (length xs)) in Hend by lia.
  rewrite (IH (s + 4) xs); [done|lia|lia|simpl in Hfuel; lia|done| | | |].
  - pose proof (next_index_range (s + 3) ltac:(lia)). lia.
  - intros Hne. destruct xs as [|y xs]; [done|]. simpl in Hlen.
    unfold next_index. change BUFD_MAX with 48000. rewrite decide_False; lia.
  - intros j Hj. apply Hg. lia.
  - case_decide as Hnil; [|done]. subst xs. simpl in Hend. rewrite Z.add_0_r in Hend.
    unfold next_index. change BUFD_MAX with 48000. replace (s + 3 + 1) with (s + 4) by lia.
    case_decide; [|by rewrite Z.mod_small in Hend by lia].
    replace (s + 4) with 48000 in Hend by (simpl in Hlen; lia). exact Hend.
Qed.

Lemma find_start_at f s n a :
  0 ≤ a ≤ s → s < a + n → a + n ≤ buff_longs → (∀ k, a ≤ k < s → f k = EMPTY) → to_long (f s) ≠ -1 →
  find_start (seqZ a n) (tab buff_longs f) = Done s.
Proof.
  intros Ha Hn Hb. remember (Z.to_nat (s - a)) as d eqn:Hd. revert a n Ha Hn Hb Hd.
  induction d as [|d IH]; intros a n Ha Hn Hb Hd Hemp Hs; rewrite seqZ_cons by lia; cbn [find_start];
    rewrite aget_tab by lia; cbn [obind].
  - replace a with s by lia. by rewrite decide_True.
  - rewrite Hemp by lia. rewrite decide_False by (intros H; by apply H).
    apply IH; try lia. intros. apply Hemp. lia.
Qed.

Lemma find_start_none f n a :
  0 ≤ a → 0 ≤ n → a + n ≤ buff_longs → (∀ k, a ≤ k < a + n → f k = EMPTY) →
  find_start (seqZ a n) (tab buff_longs f) = Done BUFD_MAX.
Proof.
  intros Ha Hn. remember (Z.to_nat n) as d eqn:Hd. revert a n Ha Hn Hd.
  induction d as [|d IH]; intros a n Ha Hn Hd Hb Hemp.
  - by rewrite seqZ_nil by lia.
  - rewrite seqZ_cons by lia. cbn [find_start]. rewrite aget_tab by lia. cbn [obind].
    rewrite Hemp by lia. rewrite decide_False by (intros H; by apply H).
    apply IH; try lia. intros. apply Hemp. lia.
Qed.

(** Samples written from an index on, up to the end of the ring at most. *)
Lemma put_over g s xs :
  0 ≤ s < 48000 → s mod 4 = 0 → s + 4 * Z.of_nat (length xs) ≤ 48000 →
  mfor xs put_sample (tab buff_longs g, s) =
  Done (tab buff_longs (over g s xs), (s + 4 * Z.of_nat (length xs)) mod 48000).
Proof.
  intros Hs H4 Hlen. pose proof (put_samples g s xs [] ltac:(lia) H4 ltac:(simpl; lia)) as Hp.
  cbn [length app Nat.add Z.of_nat] in Hp. change ring with 48000 in Hp.
  rewrite Z.mul_0_r, Z.add_0_r, (Z.mod_small s) in Hp by lia.
  rewrite (tab_ext _ _ (over g s [])) by (intros; by rewrite over_nil). exact Hp.
Qed.

(** A buffer that holds samples from [s] on over a background that is empty
    before them, under them and right after them. *)
Lemma main_over g s xs :
  0 ≤ s → s + 4 * Z.of_nat (length xs) ≤ 48000 → Forall stamped xs → xs ≠ [] →
  (∀ j, 0 ≤ j < s + 4 * Z.of_nat (length xs) → g j = EMPTY) →
  g ((s + 4 * Z.of_nat (length xs)) mod 48000) = EMPTY →
  main (tab buff_longs (over g s xs)) = Done (line <$> xs, Z.of_nat (length xs), tab buff_longs g).
Proof.
  intros Hs Hlen Hst Hne Hg Hend. unfold main. change BUFD_MAX with 48000.
  rewrite (find_start_at _ s).
  - cbn [obind]. rewrite (drain_over g (Z.to_nat 48001) s xs s Hs Hlen ltac:(lia) Hst ltac:(lia) (λ _, eq_refl)); [|intros; apply Hg; lia|].
    + cbn [obind fst snd]. by rewrite length_fmap.
    + by rewrite decide_False.
  - lia.
  - destruct xs; [done|]. simpl in Hlen. lia.
  - change buff_longs with 65536. lia.
  - intros. rewrite over_before, Hg by lia. done.
  - destruct xs as [|x xs]; [done|]. apply Forall_cons in Hst as [Hx _]. by rewrite over_first.
Qed.

(** What the monitor does with a buffer that holds nothing. *)
Lemma main_empty : main (tab buff_longs (λ _, EMPTY)) = Done ([], 0, tab buff_longs (λ _, EMPTY)).
Proof.
  unfold main. rewrite (find_start_none (λ _, EMPTY) BUFD_MAX 0 ltac:(lia) ltac:(unfold BUFD_MAX; lia)
    ltac:(change buff_longs with 65536; unfold BUFD_MAX; lia) ltac:(intros; reflexivity)).
  cbn [obind]. rewrite <- (tab_ext _ (over (λ _, EMPTY) 0 []) (λ _, EMPTY)) at 1 by (intros; apply over_nil).
  rewrite (drain_over _ _ 0 [] BUFD_MAX); [reflexivity|lia|simpl; lia|simpl; lia|constructor|unfold BUFD_MAX; lia|
    intros H; by destruct (H eq_refl)|intros; reflexivity|reflexivity].
Qed.

Lemma reads_back s xs :
  0 ≤ s < 48000 → s mod 4 = 0 → s + 4 * Z.of_nat (length xs) ≤ 48000 → Forall stamped xs →
  main (tab buff_longs (over (λ _, EMPTY) s xs)) =
  Done (line <$> xs, Z.of_nat (length xs), tab buff_longs (λ _, EMPTY)).
Proof.
  intros Hs H4 Hlen Hst. destruct xs as [|x xs]; [|apply main_over; [lia|exact Hlen|exact Hst|discriminate|reflexivity|reflexivity] ].
  rewrite (tab_ext _ _ (λ _, EMPTY)) by (intros; apply over_nil). apply main_empty.
Qed.

(** Samples [ys] that end where the ring ends, and [zs] that start over at 0
    and stay below them. *)
Lemma wrapped s ys zs :
  0 < s < 48000 → s mod 4 = 0 → s + 4 * Z.of_nat (length ys) = 48000 →
  4 * Z.of_nat (length zs) < s → Forall stamped zs → zs ≠ [] →
  let g := over (λ _, EMPTY) s ys in
  mfor (ys ++ zs) put_sample (tab buff_longs (λ _, EMPTY), s) =
    Done (tab buff_longs (over g 0 zs), 4 * Z.of_nat (length zs)) ∧
  main (tab buff_longs (over g 0 zs)) = Done (line <$> zs, Z.of_nat (length zs), tab buff_longs g).
Proof.
  intros Hs H4 Hys Hzs Hst Hne g. split.
  - rewrite mfor_app, put_over by lia. cbn [obind]. rewrite Hys, Z_mod_same by done.
    rewrite put_over by (done || lia). by rewrite Z.add_0_l, Z.mod_small by lia.
  - apply main_over; [lia|lia|done|done| |]; [intros|rewrite Z.mod_small by lia]; apply over_before; lia.
Qed.

(** C36: what the monitor prints of what the profiler writes.  From an empty
    buffer, with the index at any multiple of four, the profiler writes the
    samples [xs] one after the other.  If they end before the ring does, the
    monitor prints exactly these samples, in order, reports their number, and
    leaves the buffer empty.  If the ring has wrapped without being filled,
    the monitor, which looks for the oldest sample from index 0 on, prints
    only the samples after the wrap, stops at the gap behind them, and leaves
    the older ones unread. *)
Theorem monitor_reads_back s xs :
  0 ≤ s < 48000 → s mod 4 = 0 → 4 * Z.of_nat (length xs) ≤ 48000 → Forall stamped xs →
  ∃ b, mfor xs put_sample (tab buff_longs (λ _, EMPTY), s) =
         Done (b, (s + 4 * Z.of_nat (length xs)) mod 48000) ∧
       (s + 4 * Z.of_nat (length xs) ≤ 48000 →
        main b = Done (line <$> xs, Z.of_nat (length xs), tab buff_longs (λ _, EMPTY))) ∧
       (48000 < s + 4 * Z.of_nat (length xs) → 4 * Z.of_nat (length xs) < 48000 →
        let n := Z.to_nat ((48000 - s) / 4) in
        main b = Done (line <$> drop n xs, Z.of_nat (length xs - n),
                       tab buff_longs (over (λ _, EMPTY) s (take n xs)))).
Proof.
  intros Hs H4 Hlen Hst. destruct (decide (s + 4 * Z.of_nat (length xs) ≤ 48000)) as [Hle|Hgt].
  { eexists. split; [by apply put_over|]. split; [by intros; apply reads_back|lia]. }
  set (n := Z.to_nat ((48000 - s) / 4)).
  assert (s + 4 * Z.of_nat n = 48000) as Hn by (subst n; Z.div_mod_to_equations; lia).
  destruct (decide (4 * Z.of_nat (length xs) < 48000)) as [Hlt|Hge].
  - pose proof (wrapped s (take n xs) (drop n xs)) as Hw. cbv zeta in Hw.
    rewrite take_drop, length_take, length_drop, Nat.min_l in Hw by lia.
    destruct Hw as [Hput Hmain]; [lia|done|lia|lia|by apply Forall_drop| |].
    { intros Hnil%(f_equal length). rewrite length_drop in Hnil. simpl in Hnil. lia. }
    eexists. split_and!; [|lia|intros _ _; exact Hmain]. rewrite Hput. do 2 f_equal.
    Z.div_mod_to_equations. lia.
  - rewrite <- (take_drop n xs), mfor_app, put_over by (rewrite ?length_take; lia). cbn [obind].
    rewrite length_take, Nat.min_l, Hn, Z_mod_same by (done || lia).
    rewrite put_over by (done || rewrite ?length_drop; lia). eexists.
    split_and!; [|rewrite take_drop; lia..]. rewrite take_drop, length_drop. do 2 f_equal.
    Z.div_mod_to_equations. lia.
Qed.

Lemma monitor_reads_back_witness :
  ∃ b, mfor [Sample 5000 3 1 15; Sample 5013 0 0 7] put_sample (tab buff_longs (λ _, EMPTY), 47996) = Done (b, 4) ∧
    main b = Done ([ [5013; 0; 0; 7] ], 1, tab buff_longs (over (λ _, EMPTY) 47996 [Sample 5000 3 1 15])).
Proof.
  destruct (monitor_reads_back 47996 [Sample 5000 3 1 15; Sample 5013 0 0 7]) as (b & Hput & _ & Hmain);
    [lia|done|simpl; lia|repeat (constructor; [done|]); constructor|].
  exists b. split; [exact Hput|]. apply Hmain; simpl; lia.
Defined.
