(* ===== verification/Clients.v ===== *)
(** * The user-space programs (src/CPU_Usage_Tracker/userapp.c,
      src/RMS_Linux_Schedular/userapp.c,
      src/Virtual_Memory_Page_Fault_Profiler/work.c)

    Each program talks to its kernel module through a proc file.  The file
    is an interface, [ProcFile]: what a write and a read do to the state
    behind it.  The programs are written against the interface; the modules
    Mp1, Mp2 and Mp3 are its instances in TrackerClientTheorems.v,
    RmsClientTheorems.v and WorkTheorems.v.  What happens to
    that state between two calls of a program is an argument [others].  An
    [open] that fails is a device whose writes and reads return -1. *)
From S2P Require Import Prelude CInt ProcText.

(** ** The interface to a kernel module *)
Class ProcFile (E St : Type) := {
  pf_write : list Z → St → outcome E (Z * St);
  pf_read : Z → Z → St → outcome E read_reply;      (* length, file offset *)
}.

(** What a module promises to a program that only writes: as long as its
    state satisfies [I], no write makes it fault. *)
Class SafeFile (E St : Type) `{ProcFile E St} (I : St → Prop) := {
  sf_write : ∀ msg st, I st → ∃ r st', pf_write msg st = Done (r, st') ∧ I st';
}.

(** ** C library text functions *)

(** [isspace] in the C locale. *)
Definition is_white (c : Z) : Prop := (9 ≤ c ≤ 13) ∨ c = 32.
#[export] Instance is_white_dec c : Decision (is_white c).
Proof. unfold is_white. apply _. Defined.

Fixpoint skip_white (s : list Z) : list Z :=
  match s with
  | c :: s' => if decide (is_white c) then skip_white s' else s
  | [] => []
  end.

(** [strtol] in base 10, which saturates at the bounds of [long]. *)
Definition strtol (s : list Z) : Z :=
  let s1 := skip_white s in
  let '(neg, s2) :=
    match s1 with
    | c :: s' => if decide (c = 45) then (true, s') else if decide (c = 43) then (false, s') else (false, s1)
    | [] => (false, [])
    end in
  let v := (digits_value 0 s2).1 in
  if neg : bool then Z.max (- 2 ^ 63) (- v) else Z.min (2 ^ 63 - 1) v.

(** [atoi] is [(int)strtol]. *)
Definition atoi (s : list Z) : Z := s32 (strtol s).

(** [strstr(hay, needle) != NULL]. *)
Fixpoint strstr (hay needle : list Z) : bool :=
  bool_decide (needle `prefix_of` hay) ||
  match hay with
  | [] => false
  | _ :: hay' => strstr hay' needle
  end.

(** ** CPU_Usage_Tracker/userapp.c *)
Module App1.
Section Client.
Context {E St : Type} `{ProcFile E St}.

(** What the C library does with the reading stream: [read] calls of
    [bufsiz] bytes until one returns 0 or an error. *)
Fixpoint read_stream (fuel : nat) (bufsiz pos : Z) (st : St) : outcome E (list Z) :=
  match fuel with
  | O => Done []
  | S fuel' =>
      let! r := pf_read bufsiz pos st in
      if decide (rr_ret r ≤ 0) then Done []
      else let! rest := read_stream fuel' bufsiz (rr_pos r) st in Done (rr_out r ++ rest)
  end.

(** [fgets(buffer, 256, p)]: at most 255 characters, up to and including a
    newline; [None] at the end of the stream. *)
Fixpoint get_line (n : nat) (s : list Z) : list Z * list Z :=
  match n, s with
  | S n', c :: s' => if decide (c = 10) then ([c], s') else let '(l, r) := get_line n' s' in (c :: l, r)
  | _, _ => ([], s)
  end.

(** [while(fgets(buffer,sizeof(buffer),p)) fputs(buffer,stdout);] : what is
    printed.  [fputs] stops at a NUL. *)
Fixpoint copy_lines (fuel : nat) (s : list Z) : list Z :=
  match fuel with
  | O => []
  | S fuel' =>
      match s with
      | [] => []
      | _ => let '(l, r) := get_line 255 s in cstring l ++ copy_lines fuel' r
      end
  end.

(** [main]: [open_w] and [open_r] are the outcomes of the two [fopen]; the
    text printed on the standard output (after the line with the pid), and
    the state left.  The line is
    buffered until [fclose], which writes it in one call. *)
Definition main (open_w open_r : bool) (pid bufsiz : Z) (fuel : nat) (others : St → St) (st : St)
  : outcome E (list Z * St) :=
  if open_w then
    let! w := pf_write (fmt_d pid ++ [10]) st in
    let st1 := others w.2 in
    if open_r then
      let! text := read_stream fuel bufsiz 0 st1 in
      Done (copy_lines (S (length text)) text, st1)
    else Done ([], st1)
  else Done ([], st).
End Client.
End App1.

(** ** RMS_Linux_Schedular/userapp.c *)
Module App2.

Record timespec := Timespec {
  tv_sec : Z;
  tv_nsec : Z;
}.

(** Milliseconds from [t0] to [t1]; the division truncates. *)
Definition get_ms (t0 t1 : timespec) : Z :=
  (tv_sec t1 - tv_sec t0) * 1000 + Z.quot (tv_nsec t1 - tv_nsec t0) 1000000.

(** What it prints. *)
Inductive line :=
| Usage
| NotAdmitted (pid : Z)
| Success
| JobStart (pid i ms : Z)
| JobFinish (pid i ms runtime : Z).

(** The commands, as [sprintf] prints them. *)
Definition msg_R (pid period comp : Z) : list Z :=
  [82; 44] ++ fmt_d pid ++ [44] ++ fmt_d period ++ [44] ++ fmt_d comp.
Definition msg_Y (pid : Z) : list Z := [89; 44] ++ fmt_d pid.
Definition msg_D (pid : Z) : list Z := [68; 44] ++ fmt_d pid.

Section Client.
Context {E St : Type} `{ProcFile E St}.

(** The readings of the clock, in the order of the calls; what the rest of
    the system does after each call; whether a process that the call [k] has
    put to sleep is ever woken again; the pid. *)
Variables (clock : Z → timespec) (others : Z → St → St) (woken : Z → St → bool) (pid : Z).

(** How a run goes: it ends, or it stays in the call [k] for ever. *)
Inductive run :=
| Ended (code : Z) (out : list line) (st : St)
| Asleep (k : Z) (out : list line) (st : St).

(** [open], [write], [close] of a command that does not sleep: the result is
    ignored.  [k] numbers the calls on the proc file. *)
Definition send (k : Z) (msg : list Z) (st : St) : outcome E St :=
  let! r := pf_write msg st in Done (others k r.2).

(** The same for a yield: a write that succeeds puts the process to sleep
    before it returns, one that fails returns -1 at once.  [inl]: the state in
    which the program goes on; [inr]: it does not. *)
Definition send_yield (k : Z) (st : St) : outcome E (St + St) :=
  let! r := pf_write (msg_Y pid) st in
  Done (if bool_decide (r.1 < 0) || woken k r.2 then inl (others k r.2) else inr r.2).

(** The test for the pid in what a read of at most 4095 bytes returns. *)
Definition check_admitted (st : St) : outcome E bool :=
  let! r := pf_read 4095 0 st in
  if decide (rr_ret r >= 0) then
    let readbuf := cstring (rr_out r) in
    let pidstr := fmt_d pid ++ [58] in
    Done (strstr readbuf pidstr)
  else Done false.

(** What one iteration of the job loop prints; [do_job] only passes time. *)
Definition job (i : Z) : list line :=
  let t0 := clock 0 in
  let start := clock (1 + 2 * i) in
  let end_ := clock (2 + 2 * i) in
  [JobStart pid i (get_ms t0 start); JobFinish pid i (get_ms t0 end_) (get_ms start end_)].

(** The job loop over the remaining values of [i], and what comes after it. *)
Fixpoint jobs (todo : list Z) (out : list line) (st : St) : outcome E run :=
  match todo with
  | [] => let! st' := send 8 (msg_D pid) st in Done (Ended 0 out st')
  | i :: todo' =>
      let! r := send_yield (3 + i) st in
      match r with
      | inl st' => jobs todo' (out ++ job i) st'
      | inr st' => Done (Asleep (3 + i) (out ++ job i) st')
      end
  end.

(** [main]: how it ends, the lines printed and the state left; [period] and
    [comp] are the arguments. *)
Definition main (argc : Z) (period comp : list Z) (st : St) : outcome E run :=
  if decide (argc ≠ 4) then Done (Ended 1 [Usage] st)
  else
    let period := atoi period in
    let comp := atoi comp in
    let! st1 := send 0 (msg_R pid period comp) st in
    let! admitted := check_admitted st1 in
    let st2 := others 1 st1 in
    if admitted : bool then
      let! r := send_yield 2 st2 in
      match r with
      | inl st3 => jobs (seqZ 0 5) [Success] st3
      | inr st3 => Done (Asleep 2 [Success] st3)
      end
    else Done (Ended 1 [NotAdmitted pid] st2).
End Client.
Arguments Ended {St}.
Arguments Asleep {St}.
End App2.

(** ** Virtual_Memory_Page_Fault_Profiler/work.c *)
Module Work.
Definition N_ITERATION : Z := 20.
Definition MB : Z := 1024 * 1024.
Definition RAND_MAX : Z := 2 ^ 31 - 1.

(** What it prints. *)
Inductive line :=
| Usage
| BadMemsize
| BadNaccess
| Config (msize locality naccess : Z)
| Iteration (pid k : Z)
| OutOfMemory (i : Z).

(** The messages the two shell commands write: "R %u" and "U %u" with a
    newline. *)
Definition msg_R (pid : Z) : list Z := [82; 32] ++ fmt_lu (u32 pid) ++ [10].
Definition msg_U (pid : Z) : list Z := [85; 32] ++ fmt_lu (u32 pid) ++ [10].

Section Program.
Context {E St : Type} `{ProcFile E St}.

(** The values of the successive calls of [rand], and whether the [i]-th
    [malloc] succeeds. *)
Variables (rand : nat → Z) (malloc_ok : Z → bool).

(** The program's own memory: [buffer], an entry being whether the pointer
    is to a live block of 1MB (false: NULL or freed), how many bytes have
    been written, and the number of [rand] calls made. *)
Record mem := Mem {
  buffer : list bool;
  writes : Z;
  rands : nat;
}.

(** An [int] result: overflow is undefined. *)
Definition int (x : Z) : outcome E Z :=
  if decide (- 2 ^ 31 ≤ x < 2 ^ 31) then Done x else Fault.

Definition call_rand (m : mem) : Z * mem := (rand (rands m), Mem (buffer m) (writes m) (S (rands m))).

(** [buffer[blk][off] = '*']. *)
Definition poke (blk off : Z) (m : mem) : outcome E mem :=
  let! live := aget (buffer m) blk in
  if (live : bool) && bool_decide (0 ≤ off < MB) then Done (Mem (buffer m) (writes m + 1) (rands m))
  else Fault.

Definition rand_access (msize : Z) (m : mem) : outcome E mem :=
  let! size := int (msize * 1024 * 1024) in
  let '(r, m1) := call_rand m in
  let! target := if decide (size = 0) then Fault else Done (Z.rem r size) in
  let! target := if decide (target < 0) then int (target * -1) else Done target in
  let blk := Z.quot (Z.quot target 1024) 1024 in
  let! off := int (target - blk * 1024 * 1024) in
  poke blk off m1.

(** The new address; nothing is accessed. *)
Definition local_access (addr : Z) (m : mem) : outcome E (Z * mem) :=
  let '(r, m1) := call_rand m in
  if decide (r < 0) then let! a := int (addr + 1) in Done (a, m1)
  else
    let '(r', m2) := call_rand m1 in
    let! a := int (addr + Z.rem r' 300) in Done (a, m2).

(** The body of the access loop, for locality 0 and 1. *)
Definition access (msize locality : Z) (s : Z * mem) : outcome E (Z * mem) :=
  if decide (locality = 0) then let! m := rand_access msize s.2 in Done (s.1, m)
  else
    let '(r, m1) := call_rand s.2 in
    let pick := Z.rem r 10 in
    if decide (pick > -2 ∧ pick < 2) then let! m := rand_access msize m1 in Done (s.1, m)
    else local_access s.1 m1.

Definition iteration (pid msize locality naccess : Z) (k : Z) (s : Z * mem * list line)
  : outcome E (Z * mem * list line) :=
  let! r := mfor (seqZ 0 naccess) (λ _, access msize locality) s.1 in
  Done (r, s.2 ++ [Iteration pid k]).

(** [free(buffer[i])]. *)
Definition free_block (i : Z) (buf : list bool) : outcome E (list bool) :=
  let! live := aget buf i in
  if live : bool then aset buf i false else Fault.

(** The allocation loop from index [i], [n] blocks to go: the table, and the
    index at which [malloc] failed. *)
Fixpoint allocate (n : nat) (i : Z) (buf : list bool) : outcome E (list bool * option Z) :=
  match n with
  | O => Done (buf, None)
  | S n' =>
      if malloc_ok i then let! b := aset buf i true in allocate n' (i + 1) b
      else Done (buf, Some i)
  end.

(** [for(i--; i>=0; i--) free(buffer[i]);] with [i] at [n]: the value of [i]
    after the loop. *)
Fixpoint free_down (n : nat) (buf : list bool) : outcome E (list bool * Z) :=
  match n with
  | O => Done (buf, -1)
  | S n' => let! b := free_block (Z.of_nat n') buf in free_down n' b
  end.

(** [main]: the exit code, the lines printed, [buffer] at the end and the
    state behind the proc file. *)
Definition main (argc : Z) (a1 a2 a3 : list Z) (pid : Z) (others : St → St) (st : St)
  : outcome E (Z * list line * list bool * St) :=
  let none := replicate 1024 false in
  if decide (argc < 4) then Done (-1, [Usage], none, st)
  else
    let msize := atoi a1 in
    if decide (msize > 1024 ∨ msize < 1) then Done (-1, [BadMemsize], none, st)
    else
      let locality := if decide (head a2 = Some 82) then 0 else 1 in
      let naccess := atoi a3 in
      if decide (naccess < 1) then Done (-1, [BadNaccess], none, st)
      else
        let! w := pf_write (msg_R pid) st in
        let! a := allocate (Z.to_nat msize) 0 none in
        match a.2 with
        | Some i =>
            let! r := free_down (Z.to_nat i) a.1 in
            Done (-1, [Config msize locality naccess; OutOfMemory r.2], r.1, others w.2)
        | None =>
            let! s := mfor (seqZ 0 N_ITERATION) (iteration pid msize locality naccess)
                           (0, Mem a.1 0 0, [Config msize locality naccess]) in
            let! b := mfor (seqZ 0 msize) free_block (buffer s.1.2) in
            let! u := pf_write (msg_U pid) (others w.2) in
            Done (0, s.2, b, u.2)
        end.
End Program.
End Work.
