(* ===== verification/TrackerClientTheorems.v ===== *)
(** * The tracker and its client

    userapp.c of CPU_Usage_Tracker against mp1.c: what the program prints is
    what the kernel module holds. *)
From S2P Require Import Prelude CInt ProcText CpuTracker CpuTrackerTheorems Clients.
Import Mp1.

(** The proc file of the tracker. *)
#[export] Instance tracker_file : ProcFile Empty_set state := {|
  pf_write := my_write true true;
  pf_read := λ len pos st, Done (my_read true true len pos st);
|}.

(** ** Copying a stream line by line *)
Lemma get_line_split n s :
  let r := App1.get_line n s in
  r.1 ++ r.2 = s ∧ ((0 < n)%nat → s ≠ [] → (length r.2 < length s)%nat).
Proof.
  revert s. induction n as [|n IH]; intros [|c s]; simpl; try (split; [done|]; intros; done || lia).
  case_decide as Hc; simpl; [split; [done|lia]|].
  destruct (IH s) as [H1 H2]. destruct (App1.get_line n s) as [l r]. simpl in *. subst s.
  split; [done|]. intros _ _. rewrite length_app. lia.
Qed.

Lemma cstring_nonul l : 0 ∉ l → cstring l = l.
Proof.
  induction l as [|c l IH]; intros Hl; [done|]. simpl. apply not_elem_of_cons in Hl as [? ?].
  rewrite decide_False by done. by rewrite IH.
Qed.

Lemma copy_lines_id fuel s : (length s < fuel)%nat → 0 ∉ s → App1.copy_lines fuel s = s.
Proof.
  revert s. induction fuel as [|fuel IH]; intros s Hf Hs; [lia|]. cbn [App1.copy_lines].
  destruct s as [|c s]; [done|].
  pose proof (get_line_split 255 (c :: s)) as [H1 H2].
  destruct (App1.get_line 255 (c :: s)) as [l r]. cbn [fst snd] in *.
  assert ((0 ∉ l) ∧ (0 ∉ r)) as [Hl Hr] by (rewrite <- H1 in Hs; by apply not_elem_of_app in Hs).
  specialize (H2 ltac:(lia) ltac:(done)). rewrite cstring_nonul, IH by (done || lia). done.
Qed.

(** Reading the stream is the same as reading until the end. *)
Lemma read_stream_all fuel bufsiz pos (st : state) :
  0 < bufsiz → 0 ≤ pos → (length (render (mp1list st)) - Z.to_nat pos < fuel)%nat →
  App1.read_stream (E := Empty_set) fuel bufsiz pos st =
  Done (drop (Z.to_nat pos) (render (mp1list st))).
Proof.
  intros Hb. revert pos. induction fuel as [|fuel IH]; intros pos Hp Hf; [lia|].
  cbn [App1.read_stream pf_read tracker_file obind]. unfold my_read.
  set (text := render (mp1list st)) in *. unfold read_window.
  destruct (decide (pos >= Z.of_nat (length text))) as [Hge|Hge]; simpl.
  { by rewrite drop_ge by lia. }
  set (n := if decide (Z.of_nat (length text) - pos < bufsiz) then Z.of_nat (length text) - pos else bufsiz).
  assert (0 < n ≤ Z.of_nat (length text) - pos) as Hn by (unfold n; case_decide; lia).
  rewrite decide_False by lia. rewrite IH by lia. simpl.
  f_equal. rewrite Z2Nat.inj_add, <- drop_drop by lia. apply take_drop.
Qed.

Lemma fmt_lu_nonul n : 0 ≤ n < 2 ^ 64 → 0 ∉ fmt_lu n.
Proof.
  intros Hn Hin. destruct (fmt_lu_spec n Hn) as (Hd & _ & _).
  rewrite Forall_forall in Hd. apply Hd in Hin. unfold is_digit in Hin. lia.
Qed.

Lemma fmt_d_nonul n : - 2 ^ 31 ≤ n < 2 ^ 31 → 0 ∉ fmt_d n.
Proof.
  intros Hn. unfold fmt_d. case_decide; [|apply fmt_lu_nonul; lia].
  apply not_elem_of_cons. split; [done|]. apply fmt_lu_nonul. lia.
Qed.

(** Values that fit their C types. *)
Definition node_ok (n : listnode) : Prop :=
  - 2 ^ 31 ≤ pid n < 2 ^ 31 ∧ 0 ≤ cpu_time n < 2 ^ 64.

Lemma full_text_nonul l : Forall node_ok l → 0 ∉ full_text l.
Proof.
  induction 1 as [|n l [Hp Ht] _ IH]; [by apply not_elem_of_nil|].
  unfold full_text in *. rewrite fmap_cons, concat_cons. rewrite not_elem_of_app. split; [|done].
  cbn [pe_line mp1_line]. rewrite !not_elem_of_app, !not_elem_of_cons.
  split_and!; try done; auto using fmt_d_nonul, fmt_lu_nonul; apply not_elem_of_nil.
Qed.

Lemma write_result p st :
  wf st → - 2 ^ 31 ≤ p < 2 ^ 31 →
  ∃ r, my_write true true (fmt_d p ++ [10]) st =
       Done (r, if decide (p ∈ pid <$> mp1list st) then st
                else set_list (mp1list st ++ [Node p 0]) (slab_live st + 1) st).
Proof.
  intros Hwf Hp. rewrite my_write_number, idregister_spec by (done || apply Hwf).
  case_decide; cbn [obind]; eexists; [|done]. do 2 f_equal.
  destruct st. unfold set_list. simpl. f_equal. lia.
Qed.

(** C19: the client and the tracker together.  On a loaded tracker the program
    registers itself (at the end of the list with time 0, unless it is there
    already); whatever happens while it computes, what it prints afterwards is
    exactly the list the tracker then holds, one line "pid: time" per process,
    if the lines fit the kernel buffer: no line is lost, cut or repeated by
    the 256-byte buffer of the copy loop, whatever block size the C library
    reads with. *)
Theorem client_prints_list p bufsiz fuel others st :
  wf st → - 2 ^ 31 ≤ p < 2 ^ 31 → 0 < bufsiz → (Z.to_nat 10240 ≤ fuel)%nat →
  let st1 := if decide (p ∈ pid <$> mp1list st) then st
             else set_list (mp1list st ++ [Node p 0]) (slab_live st + 1) st in
  let st2 := others st1 in
  Forall node_ok (mp1list st2) →
  Z.of_nat (length (full_text (mp1list st2))) ≤ 10224 →
  App1.main (E := Empty_set) true true p bufsiz fuel others st =
  Done (full_text (mp1list st2), st2).
Proof.
  intros Hwf Hp Hb Hfuel st1 st2 Hok Hfit. unfold App1.main. cbn [pf_write tracker_file].
  destruct (write_result p st Hwf Hp) as [r ->]. cbn [obind snd]. fold st1. fold st2.
  pose proof (render_complete (mp1list st2)) as Hr. change (pe_cap - pe_margin) with 10224 in Hr.
  rewrite read_stream_all, Hr by (done || lia || (rewrite Hr by done; lia)).
  cbn [obind]. change (Z.to_nat 0) with 0%nat.
  by rewrite drop_0, copy_lines_id by (lia || by apply full_text_nonul).
Qed.

Lemma client_prints_list_witness :
  App1.main (E := Empty_set) true true 1234 1024 (Z.to_nat 10240)
    (λ st, work_func (λ _, Some 77) (timercb 250 1250 st))
    (test_module_init 250 true true true 0).2 =
  Done ([49; 50; 51; 52; 58; 32; 55; 55; 10],
        State true true true 1 [Node 1234 77] false (Some 2500)).
Proof.
  rewrite client_prints_list; [reflexivity|apply wf_init|lia|lia|lia| |vm_compute; done].
  repeat constructor; simpl; lia.
Defined.
