(* ===== verification/RmsClientTheorems.v ===== *)
(** * The scheduler and its client

    userapp.c of RMS_Linux_Schedular against mp2.c.  The program finds out
    whether it has been registered by looking for its pid in the text of the
    proc file; what that test really decides is stated exactly.  Whatever the
    rest of the system does between its calls, the program either ends, and
    then it is stated when it leaves a task behind, or sleeps for ever in a
    yield after which nothing wakes it. *)
From S2P Require Import Prelude CInt ProcText RmsSched RmsTheorems Clients.
Import Mp2.

(** ** Searching in the text *)
Lemma strstr_spec hay needle : strstr hay needle = true ↔ ∃ a b, hay = a ++ needle ++ b.
Proof.
  induction hay as [|c hay IH]; simpl; rewrite orb_true_iff, bool_decide_eq_true.
  - split.
    + intros [[b Hb]|?]; [by exists [], b|done].
    + intros (a & b & Hab). left. symmetry in Hab. apply app_nil in Hab as [-> Hb]. by exists b.
  - rewrite IH. split.
    + intros [[b Hb]|(a & b & ->)]; [by exists [], b|by exists (c :: a), b].
    + intros ([|x a] & b & Hab); [left; by exists b|]. right. simplify_eq/=. eauto.
Qed.

(** A word of digits before a colon is found in a line that starts with
    digits and a colon, has no other colon and ends with a newline, exactly
    when it ends those digits; otherwise it is found after the line. *)
Lemma colon_line (ds D R T a b : list Z) :
  Forall is_digit ds → ds ≠ [] → Forall is_digit D → 58 ∉ R →
  a ++ ds ++ 58 :: b = D ++ 58 :: R ++ 10 :: T →
  ds `suffix_of` D ∨ ∃ a', T = a' ++ ds ++ 58 :: b.
Proof.
  intros Hds Hne HD HR Heq. rewrite app_assoc in Heq.
  apply app_eq_inv in Heq as [(k & H1 & H2)|(k & H1 & H2)].
  - destruct k as [|x k].
    { left. rewrite app_nil_r in H1. subst D. by exists a. }
    injection H2 as <- H2. apply app_eq_inv in H2 as [(k' & H3 & H4)|(k' & H3 & H4)].
    + destruct k' as [|x k']; simplify_eq/=. exfalso. apply HR. set_solver.
    + destruct k' as [|x k']; simplify_eq/=. right.
      assert (∃ a', k' = a' ++ ds) as [a' ->]; [|exists a'; by rewrite <- app_assoc].
      replace (D ++ 58 :: R ++ 10 :: k') with ((D ++ 58 :: R ++ [10]) ++ k') in H1
        by (by rewrite <- !app_assoc; simpl; rewrite <- app_assoc).
      apply app_eq_inv in H1 as [(j & H5 & H6)|(j & H5 & H6)]; [by exists j|].
      destruct j as [|y j _] using rev_ind; [exists []; by rewrite H6|].
      exfalso. rewrite app_comm_cons, !app_assoc in H5. apply app_inj_tail in H5 as [_ <-].
      rewrite H6 in Hds. rewrite !Forall_app, Forall_singleton in Hds. unfold is_digit in Hds. lia.
  - destruct k as [|x k]; simplify_eq/=.
    + left. rewrite app_nil_r. by exists a.
    + exfalso. rewrite !Forall_app, Forall_cons in HD. unfold is_digit in HD. lia.
Qed.

(** Values that fit their C types. *)
Definition pcb_ok (q : mp2pcb) : Prop :=
  0 < pid q < 2 ^ 31 ∧ 0 ≤ period q < 2 ^ 64 ∧ 0 ≤ comp_time q < 2 ^ 64.

Lemma digits_no_colon n : 0 ≤ n < 2 ^ 64 → 58 ∉ fmt_lu n.
Proof.
  intros Hn Hin. destruct (fmt_lu_spec n Hn) as (Hd & _ & _).
  rewrite Forall_forall in Hd. apply Hd in Hin. unfold is_digit in Hin. lia.
Qed.

Lemma pid_digits p : 0 < p < 2 ^ 31 → fmt_d p = fmt_lu p ∧ Forall is_digit (fmt_d p) ∧ fmt_d p ≠ [].
Proof.
  intros Hp. assert (fmt_d p = fmt_lu p) as -> by (unfold fmt_d; by rewrite decide_False by lia).
  destruct (fmt_lu_spec p) as (Hd & _ & c & l & Hcl & _); [lia|]. rewrite Hcl in *. done.
Qed.

(** A line after its first colon, without the newline. *)
Definition line_rest (q : mp2pcb) : list Z :=
  32 :: fmt_lu (period q) ++ [44; 32] ++ fmt_lu (comp_time q).

Lemma pe_line_shape (q : mp2pcb) : pe_line q = fmt_d (pid q) ++ 58 :: line_rest q ++ [10].
Proof. simpl. unfold line_rest. simpl. by rewrite <- app_assoc. Qed.

Lemma line_rest_no_colon q :
  0 ≤ period q < 2 ^ 64 → 0 ≤ comp_time q < 2 ^ 64 → 58 ∉ line_rest q.
Proof.
  intros Hper Hcomp. unfold line_rest. rewrite not_elem_of_cons, !not_elem_of_app, !not_elem_of_cons.
  split_and!; try done; try apply not_elem_of_nil; by apply digits_no_colon.
Qed.

(** The text of the proc file contains "<pid>:" exactly when the pid of
    some task ends in those digits. *)
Lemma pid_in_text p ps : 0 < p < 2 ^ 31 → Forall pcb_ok ps →
  (∃ a b, full_text ps = a ++ (fmt_d p ++ [58]) ++ b) ↔
  ∃ q, q ∈ ps ∧ fmt_d p `suffix_of` fmt_d (pid q).
Proof.
  intros Hp. destruct (pid_digits p Hp) as (_ & Hd & Hne).
  induction 1 as [|q ps (Hq & Hper & Hcomp) _ IH].
  { split; [|by intros (q & ?%not_elem_of_nil & _)].
    intros (a & b & Hab). symmetry in Hab. apply app_nil in Hab as [_ Hab].
    apply app_nil in Hab as [Hab _]. apply app_nil in Hab as [_ ?]. done. }
  destruct (pid_digits (pid q) Hq) as (_ & Hdq & _).
  assert (full_text (q :: ps) =
          fmt_d (pid q) ++ 58 :: line_rest q ++ 10 :: full_text ps) as ->.
  { unfold full_text. rewrite fmap_cons, concat_cons, pe_line_shape.
    by rewrite <- app_assoc; simpl; rewrite <- app_assoc. }
  pose proof (line_rest_no_colon q Hper Hcomp) as HR.
  set (R := line_rest q) in *. set (T := full_text ps) in *. split.
  - intros (a & b & Hab). rewrite <- app_assoc in Hab. symmetry in Hab.
    apply colon_line in Hab as [Hs|[a' Ha]]; [|..|done|done|done|done].
    + exists q. split; [left|done].
    + destruct IH as [IH _]. destruct IH as (q' & ? & ?); [|exists q'; split; [by right|done]].
      exists a', b. by rewrite <- app_assoc.
  - intros (q' & [->|Hq']%elem_of_cons & Hs).
    + destruct Hs as [a ->]. exists a, (R ++ 10 :: T). by rewrite <- !app_assoc.
    + destruct IH as [_ IH]. destruct IH as (a & b & ->); [by exists q'|].
      exists (fmt_d (pid q) ++ 58 :: R ++ 10 :: a), b.
      by rewrite <- (app_assoc (fmt_d (pid q))), <- app_comm_cons, <- (app_assoc R).
Qed.

Lemma deref_all_elem st l ps q :
  deref_all st l = Done ps → q ∈ ps ↔ ∃ x, x ∈ l ∧ heap st !! x = Some q.
Proof.
  revert ps. induction l as [|x l IH]; intros ps; simpl.
  { intros [= <-]. split; [by intros ?%not_elem_of_nil|]. by intros (x & ?%not_elem_of_nil & _). }
  unfold deref. destruct (heap st !! x) as [p|] eqn:Hx; simpl; [|done].
  destruct (deref_all st l) as [ps'| |] eqn:Hl; simpl; [|done..]. intros [= <-].
  rewrite elem_of_cons, (IH ps' eq_refl). split.
  - intros [->|(y & Hy & Hq)]; [exists x; split; [left|done]|exists y; split; [by right|done]].
  - intros (y & [->|Hy]%elem_of_cons & Hq); [left; congruence|right; eauto].
Qed.

(** ** The proc file of the scheduler *)
Section Client.
Variable msecs_to_jiffies : Z → Z.
Variable env : write_env.
Hypothesis Hcopy : copy_ok env = true.

#[local] Instance rms_file : ProcFile Empty_set state := {|
  pf_write := my_write msecs_to_jiffies env;
  pf_read := my_read true true;
|}.

(** A state in which the mutex can be taken. *)
Definition calm (st : state) : Prop := inv_st st ∧ mutex_free st.

Lemma read_start st ps : inv_st st → deref_all st (mp2list st) = Done ps →
  my_read true true 4095 0 st = Done (read_window (-1) true (render ps) 4095 0).
Proof.
  intros HI Hps. unfold my_read. rewrite Hps. cbn [obind].
  pose proof (render_bound ps) as Hb. change pe_cap with 10240 in Hb.
  unfold read_window. rewrite swrap_small by lia.
  destruct (decide (0 >= Z.of_nat (length (render ps)))); [by rewrite decide_True by lia|].
  rewrite decide_False by lia. change pe_cap with 10240.
  destruct (decide (Z.of_nat (length (render ps)) - 0 < 4095)); by rewrite decide_True by lia.
Qed.

Lemma check_admitted_total p st : calm st → ∃ b, App2.check_admitted (E := Empty_set) p st = Done b.
Proof.
  intros [HI _]. destruct (deref_all_spec st (mp2list st)) as (ps & Hps & _).
  { intros x Hx. apply (inv_heap _ _ _ _ _ HI). by apply elem_of_app; left. }
  unfold App2.check_admitted. cbn [pf_read rms_file]. rewrite (read_start st ps HI Hps). cbn [obind].
  case_decide; eauto.
Qed.

Lemma full_text_no_nul ps : Forall pcb_ok ps → cstring (full_text ps) = full_text ps.
Proof.
  assert (∀ n, 0 ≤ n < 2 ^ 64 → Forall (λ c, c ≠ 0) (fmt_lu n)) as Hlu.
  { intros n Hn. destruct (fmt_lu_spec n Hn) as (Hd & _ & _). eapply Forall_impl; [done|].
    intros c Hc. unfold is_digit in Hc. simpl. lia. }
  assert (∀ l, Forall (λ c, c ≠ 0) l → cstring l = l) as Hcs.
  { induction 1; simpl; [done|]. rewrite decide_False by done. by f_equal. }
  intros Hps. apply Hcs. induction Hps as [|q ps (Hq & Hper & Hcomp) _ IH]; [constructor|].
  unfold full_text in *. rewrite fmap_cons, concat_cons, pe_line_shape, (proj1 (pid_digits _ Hq)).
  unfold line_rest. repeat first [apply Forall_app; split|apply Forall_cons; split|apply Forall_nil];
    try done; apply Hlu; lia.
Qed.

Lemma test_exact p st :
  inv_st st → 0 < p < 2 ^ 31 →
  (∀ x q, x ∈ mp2list st → heap st !! x = Some q → pcb_ok q) →
  (∀ ps, deref_all st (mp2list st) = Done ps → Z.of_nat (length (full_text ps)) ≤ 4095) →
  ∃ b, App2.check_admitted (E := Empty_set) p st = Done b ∧
    (b = true ↔ ∃ x q, x ∈ mp2list st ∧ heap st !! x = Some q ∧
                       fmt_d p `suffix_of` fmt_d (pid q)).
Proof.
  intros HI Hp Hok Hfit. destruct (deref_all_spec st (mp2list st)) as (ps & Hps & _).
  { intros x Hx. apply (inv_heap _ _ _ _ _ HI). by apply elem_of_app; left. }
  specialize (Hfit ps Hps).
  assert (Forall pcb_ok ps) as Hall.
  { apply Forall_forall. intros q (x & Hx & Hq)%(deref_all_elem _ _ _ _ Hps). eauto. }
  assert (render ps = full_text ps) as Hr
    by (apply render_complete; change (pe_cap - pe_margin) with 10224; lia).
  assert (rr_ret (read_window (-1) true (full_text ps) 4095 0) >= 0 ∧
          rr_out (read_window (-1) true (full_text ps) 4095 0) = full_text ps) as [Hret Hout].
  { unfold read_window. case_decide.
    - split; [simpl; lia|]. destruct (full_text ps); [done|simpl in *; lia].
    - rewrite Z.sub_0_r. destruct (decide (Z.of_nat (length (full_text ps)) < 4095)); simpl rr_out;
        (split; [simpl; lia|]); rewrite drop_0, take_ge by lia; done. }
  exists (strstr (full_text ps) (fmt_d p ++ [58])). split.
  - unfold App2.check_admitted. cbn [pf_read rms_file]. rewrite (read_start st ps HI Hps), Hr.
    cbn [obind]. rewrite decide_True, Hout, full_text_no_nul by done. done.
  - rewrite strstr_spec, pid_in_text by done. split.
    + intros (q & (x & Hx & Hq)%(deref_all_elem _ _ _ _ Hps) & Hs). eauto.
    + intros (x & q & Hx & Hq & Hs). exists q. split; [|done]. apply (deref_all_elem _ _ _ _ Hps). eauto.
Qed.

(** C30: what the client's test decides.  When the printed list fits the
    buffer of the program (4095 bytes), the test answers whether the decimal
    pid of some registered task ends in the digits of the program's own pid.
    So a registered program is always found, but the answer can be yes for a
    program that was refused. *)
Theorem admission_test_exact p st :
  inv_st st → 0 < p < 2 ^ 31 →
  (∀ x q, x ∈ mp2list st → heap st !! x = Some q → pcb_ok q) →
  (∀ ps, deref_all st (mp2list st) = Done ps → Z.of_nat (length (full_text ps)) ≤ 4095) →
  ∃ b, App2.check_admitted (E := Empty_set) p st = Done b ∧
    (b = true ↔ ∃ x q, x ∈ mp2list st ∧ heap st !! x = Some q ∧
                       fmt_d p `suffix_of` fmt_d (pid q)).
Proof. apply test_exact. Qed.

(** ** A whole run *)
Lemma wakethread_fields st :
  mp2list (wakethread st) = mp2list st ∧ heap (wakethread st) = heap st ∧
  (mutex_free st → mutex_free (wakethread st)).
Proof. unfold wakethread, mutex_free. destruct (dpc st) eqn:Hpc; simpl; by rewrite ?Hpc. Qed.

Lemma wakethread_calm st : calm st → calm (wakethread st).
Proof. intros [HI Hm]. split; [by apply wakethread_inv|]. by apply wakethread_fields. Qed.

Lemma deregister_free_fields l st st' : deregister_free l st = Done st' →
  mp2list st' = mp2list st ∧ heap st' = delete l (heap st) ∧ (mutex_free st → mutex_free st').
Proof.
  destruct (heap st !! l) as [p|] eqn:Hp; [|unfold deregister_free, deref; by rewrite Hp].
  rewrite (deregister_free_eq l p st Hp). cbv zeta. intros [= <-]. destruct (currtask st); [done|].
  match goal with |- context [wakethread ?s] => destruct (wakethread_fields s) as (-> & -> & Hm) end.
  by split_and!.
Qed.

Lemma wakethread_registered st q : registered (wakethread st) q ↔ registered st q.
Proof. unfold registered. by destruct (wakethread_fields st) as (-> & -> & _). Qed.

Lemma calm_yield p st : calm st →
  ∃ b st', taskyield msecs_to_jiffies (current_pid env) (current_task env) p st = Done (b, st') ∧ calm st' ∧
    (b = true → registered st' p).
Proof.
  intros [HI Hm]. unfold taskyield.
  destruct (yield_inv msecs_to_jiffies (current_pid env) (current_task env) p st HI Hm)
    as (b & st1 & Hy & HI1). rewrite Hy. cbn [obind fst snd].
  assert (mutex_free st1 ∧ (b = true → registered st1 p)) as [Hm1 Hreg1].
  { unfold yield_lock in Hy. case_decide; [by simplify_eq/=|].
    destruct (find_pid_spec st (mp2list st) p) as (r & Hr & Hspec).
    { intros x Hx. apply (inv_heap _ _ _ _ _ HI). by apply elem_of_app; left. }
    rewrite Hr in Hy. destruct r as [x|]; simpl in Hy; simplify_eq/=; [|done].
    destruct Hspec as (Hx & q & Hq & Hqp). rewrite (deref_some _ _ _ Hq) in Hy. simpl in Hy. simplify_eq/=.
    split; [by case_decide|]. intros _. eexists x, _. case_decide; simpl; rewrite lookup_insert_eq; done. }
  destruct b; [|by eexists _, _].
  eexists _, _. split; [done|]. unfold yield_sleep, yield_wake, set_runnable, set_yielding. split.
  - exact (wakethread_calm st1 (conj HI1 Hm1)).
  - intros _. exact (proj2 (wakethread_registered st1 p) (Hreg1 eq_refl)).
Qed.

Lemma calm_register p per comp st : calm st → is_int per → is_int comp →
  (∀ x, alloc env = Some x → heap st !! x = None) →
  ∃ b st', run_command msecs_to_jiffies env (CmdR p per comp) st = Done (b, st') ∧ calm st'.
Proof.
  intros [HI Hm] Hper Hcomp Hnew. simpl.
  destruct (find_task_by_pid env p) as [task|]; [|by eexists _, _].
  destruct (register_inv st (alloc env) (jiffies env) task p per comp HI Hm Hper Hcomp Hnew)
    as (r & st1 & Hr & HI1). rewrite Hr. cbn [obind fst snd].
  eexists _, _. split; [done|]. split; [done|].
  unfold taskregister in Hr. destruct (alloc env); simplify_eq/=; [|done].
  case_decide; [by simplify_eq/=|]. destruct (usum_loop _ _ _ _) as [[u|]|e|]; simplify_eq/=; try done.
  case_decide; by simplify_eq/=.
Qed.

Lemma calm_deregister p st : calm st →
  ∃ b st', deregister p st = Done (b, st') ∧ calm st' ∧ ¬ registered st' p.
Proof.
  intros [HI Hm]. unfold deregister, deregister_unlink.
  destruct (find_pid_spec st (mp2list st) p) as (r & Hr & Hspec).
  { intros x Hx. apply (inv_heap _ _ _ _ _ HI). by apply elem_of_app; left. }
  pose proof (unlink_inv p st HI Hm) as (r' & st1 & Hu & HI1).
  unfold deregister_unlink in Hu. rewrite Hr in *. cbn [obind] in *. destruct r as [l|].
  - injection Hu as <- <-. cbn [obind fst snd] in *. destruct Hspec as (Hl & q & Hq & Hqp).
    match type of HI1 with inv_st ?s => set (st1 := s) in * end.
    destruct (free_inv l st1 HI1) as (st2 & Hf & HI2); [left|]. rewrite Hf. cbn [obind].
    apply deregister_free_fields in Hf as (Hlist & Hheap & Hmx).
    eexists true, _. split; [done|]. split; [split; [done|by apply Hmx]|].
    intros (x & q' & Hx & Hq' & Hp). rewrite Hlist in Hx. rewrite Hheap in Hq'. simpl in Hx, Hq'.
    apply list_elem_of_filter in Hx as [Hxl Hx]. rewrite lookup_delete_ne in Hq' by done.
    apply Hxl. apply (inv_pids _ _ _ _ _ HI x l q' q); congruence.
  - injection Hu as <- <-. cbn [obind fst snd]. eexists false, _. split; [done|].
    split; [done|]. intros (x & q & Hx & Hq & Hp). by eapply Hspec.
Qed.

Lemma write_message c st : command_ok c →
  my_write msecs_to_jiffies env (message c) st =
  let! r := run_command msecs_to_jiffies env c st in
  Done (if r.1 then Z.of_nat (length (message c)) else -1, r.2).
Proof.
  intros Hc. pose proof (my_write_message msecs_to_jiffies env c [] st Hc (Forall_nil_2 _) ltac:(simpl; lia) Hcopy) as H.
  cbv zeta in H. by rewrite app_nil_r in H.
Qed.

Section Run.
Variables (clock : Z → App2.timespec) (others : Z → state → state) (woken : Z → state → bool) (p : Z).
Hypothesis Hothers : ∀ k st, calm st → calm (others k st).
Hypothesis Hp : 0 < p < 2 ^ 31.

Lemma pid_int : is_int p.
Proof. unfold is_int. lia. Qed.

(** A yield: the program goes on in a calm state, or sleeps although it is
    registered, and is never woken. *)
Lemma send_yield_spec k st : calm st →
  ∃ r, App2.send_yield (E := Empty_set) others woken p k st = Done r ∧
    match r with
    | inl st' => calm st'
    | inr st' => calm st' ∧ registered st' p ∧ woken k st' = false
    end.
Proof.
  intros Hc. unfold App2.send_yield. cbn [pf_write rms_file]. rewrite (write_message (CmdY p)) by apply pid_int.
  destruct (calm_yield p st Hc) as (b & st' & Hy & Hc' & Hreg). cbn [run_command]. rewrite Hy. cbn [obind fst snd].
  eexists. split; [done|]. destruct (bool_decide _) eqn:Hneg; simpl; [auto|].
  destruct (woken k st') eqn:Hw; [auto|]. split_and!; [done| |done]. apply Hreg.
  apply bool_decide_eq_false in Hneg. by destruct b.
Qed.

(** How a run of the job loop goes: [n] lines are printed. *)
Definition run_ok (n : nat) (r : App2.run (St := state)) : Prop :=
  match r with
  | App2.Ended code out st' =>
      code = 0 ∧ length out = n ∧ ∃ last, st' = others 8 last ∧ calm last ∧ ¬ registered last p
  | App2.Asleep k out st' => calm st' ∧ registered st' p ∧ woken k st' = false
  end.

Lemma jobs_run todo out st : calm st →
  ∃ r, App2.jobs (E := Empty_set) clock others woken p todo out st = Done r ∧
       run_ok (length out + 2 * length todo) r.
Proof.
  revert out st. induction todo as [|i todo IH]; intros out st Hc; cbn [App2.jobs].
  - unfold App2.send. cbn [pf_write rms_file]. rewrite (write_message (CmdD p)) by apply pid_int.
    cbn [run_command]. destruct (calm_deregister p st Hc) as (b & st' & -> & Hc' & Hgone). cbn [obind fst snd].
    eexists. split; [done|]. simpl. split_and!; [done|lia|eauto].
  - destruct (send_yield_spec (3 + i) st Hc) as (r & -> & Hr). cbn [obind]. destruct r as [st'|st']; [|by eexists].
    destruct (IH (out ++ App2.job clock p i) st' Hr) as (r & -> & Hrun). exists r. split; [done|].
    rewrite length_app in Hrun. simpl in Hrun. replace (length out + 2 * length (i :: todo))%nat
      with (length out + 2 + 2 * length todo)%nat by (simpl; lia). done.
Qed.

(** C29: a run of the client.  Started in any state of the scheduler in which
    the mutex is free, with whatever the rest of the system does between its
    calls, the program never makes the kernel fault.  It goes one of three
    ways.  It exits 0 after its five jobs, and then the kernel has no task
    with its pid any more when its last call returns.  It exits 1 because it
    has not found itself in the list; if the list it looked at fits its
    buffer, there was no task with its pid then (otherwise one may stay
    behind).  Or it never comes back from a yield that has put it to sleep
    and after which nothing wakes it, and then it is still registered. *)
Theorem client_cleans_up per comp st :
  calm st → (∀ x, alloc env = Some x → heap st !! x = None) →
  ∃ r, App2.main (E := Empty_set) clock others woken p 4 per comp st = Done r ∧
    match r with
    | App2.Ended code out st' =>
        (code = 0 ∧ length out = 11%nat ∧ ∃ last, st' = others 8 last ∧ calm last ∧ ¬ registered last p) ∨
        (code = 1 ∧ out = [App2.NotAdmitted p] ∧
         ∃ seen, st' = others 1 seen ∧ calm seen ∧
           ((∀ x q, x ∈ mp2list seen → heap seen !! x = Some q → pcb_ok q) →
            (∀ ps, deref_all seen (mp2list seen) = Done ps → Z.of_nat (length (full_text ps)) ≤ 4095) →
            ¬ registered seen p))
    | App2.Asleep k out st' => calm st' ∧ registered st' p ∧ woken k st' = false
    end.
Proof.
  intros Hc Hnew. unfold App2.main. rewrite decide_False by tauto. unfold App2.send at 1.
  cbn [pf_write rms_file].
  assert (∀ s, is_int (atoi s)) as Hat by (intros s; apply (swrap_range 32); lia).
  assert (command_ok (CmdR p (atoi per) (atoi comp))) as Hcmd by exact (conj pid_int (conj (Hat per) (Hat comp))).
  rewrite (write_message _ _ Hcmd).
  destruct (calm_register p (atoi per) (atoi comp) st Hc (Hat _) (Hat _) Hnew) as (b & st1 & -> & Hc1).
  cbn [obind fst snd]. set (seen := others 0 st1). assert (calm seen) as Hseen by exact (Hothers 0 st1 Hc1).
  destruct (check_admitted_total p seen Hseen) as (adm & Hadm). rewrite Hadm. cbn [obind]. destruct adm.
  - destruct (send_yield_spec 2 (others 1 seen)) as (r & -> & Hr); [auto|]. cbn [obind].
    destruct r as [st3|st3]; [|by eexists].
    destruct (jobs_run (seqZ 0 5) [App2.Success] st3 Hr) as (r & -> & Hrun). exists r. split; [done|].
    destruct r; [by left|done].
  - eexists. split; [done|]. right. split_and!; [done|done|]. exists seen. split_and!; [done|done|].
    intros Hok Hfit. destruct (test_exact p seen (proj1 Hseen) Hp Hok Hfit) as (b' & Hb' & Hiff).
    rewrite Hadm in Hb'. injection Hb' as <-. intros (x & q & Hx & Hq & Hqp).
    destruct Hiff as [_ Hiff]. discriminate Hiff. exists x, q. rewrite Hqp. by split_and!.
Qed.
End Run.
End Client.

(** ** A refused client that carries on

    Process 123 is registered with 69% of the processor; process 23 asks for
    50% more. *)
Definition busy_state : state :=
  set_list [3%nat] (store 3 (Pcb 123 69 100 0 SLEEPING 1123 None) empty_state).
Definition env_23 : write_env := WriteEnv true (Some 7%nat) 0 (λ p, Some (1000 + p)) 23 1023.

Lemma busy_calm : calm busy_state.
Proof.
  split; [|done].
  destruct (register_inv empty_state (Some 3%nat) 0 1123 123 100 69) as (r & st' & Hr & HI);
    [apply inv_empty|done|by vm_compute|by vm_compute|done|].
  assert (taskregister (Some 3%nat) 0 1123 123 (u64 100) (u64 69) empty_state =
          Done (Some 3%nat, busy_state)) as Hb by reflexivity.
  rewrite Hb in Hr. by injection Hr as _ <-.
Qed.

Lemma busy_tasks x q : x ∈ mp2list busy_state → heap busy_state !! x = Some q →
  x = 3%nat ∧ q = Pcb 123 69 100 0 SLEEPING 1123 None.
Proof.
  intros ->%list_elem_of_singleton Hq. split; [done|].
  assert (heap busy_state !! 3%nat = Some (Pcb 123 69 100 0 SLEEPING 1123 None)) as H by reflexivity.
  congruence.
Qed.

Lemma admission_test_exact_witness : App2.check_admitted (E := Empty_set) (H := rms_file (λ m, m) env_23) 23 busy_state = Done true.
Proof.
  destruct (admission_test_exact (λ m, m) env_23 23 busy_state) as (b & -> & Hb).
  - apply busy_calm.
  - lia.
  - intros x q Hx Hq. destruct (busy_tasks x q Hx Hq) as [_ ->]. split_and!; simpl; lia.
  - intros ps Hps. vm_compute in Hps. injection Hps as <-. vm_compute. done.
  - destruct Hb as [_ Hb]. rewrite Hb; [done|].
    exists 3%nat, (Pcb 123 69 100 0 SLEEPING 1123 None). split_and!; [left|reflexivity|].
    exists [49]. reflexivity.
Defined.

(** Process 23, refused but misled by its own test, ends with 0; process 23
    alone in an empty module, with nothing to wake it, sleeps for ever in its
    first yield. *)
Lemma client_cleans_up_witness :
  let file := rms_file (λ m, m) env_23 in
  (∃ r, App2.main (E := Empty_set) (H := file) (λ k, App2.Timespec k 0) (λ _ st, st) (λ _ _, true)
          23 4 [49; 48; 48] [53; 48] busy_state = Done r ∧ ∃ out last, r = App2.Ended 0 out last ∧ ¬ registered last 23) ∧
  (∃ out st', App2.main (E := Empty_set) (H := file) (λ k, App2.Timespec k 0) (λ _ st, st) (λ _ _, false)
          23 4 [49; 48; 48] [53; 48] empty_state = Done (App2.Asleep 2 out st') ∧ registered st' 23).
Proof.
  split.
  - destruct (client_cleans_up (λ m, m) env_23 eq_refl (λ k, App2.Timespec k 0) (λ _ st, st) (λ _ _, true) 23
      ltac:(done) ltac:(lia) [49; 48; 48] [53; 48] busy_state busy_calm) as (r & Hrun & Hr).
    { intros x [= <-]. reflexivity. }
    exists r. split; [exact Hrun|]. destruct r as [code out st'|k out st'].
    + destruct Hr as [(-> & _ & last & -> & _ & Hn)|(-> & -> & _)]; [by exists out, last|].
      exfalso. revert Hrun. vm_compute. discriminate.
    + destruct Hr as (_ & _ & Hw). discriminate Hw.
  - destruct (client_cleans_up (λ m, m) env_23 eq_refl (λ k, App2.Timespec k 0) (λ _ st, st) (λ _ _, false) 23
      ltac:(done) ltac:(lia) [49; 48; 48] [53; 48] empty_state) as (r & Hrun & Hr).
    { split; [apply inv_empty|done]. }
    { intros x [= <-]. reflexivity. }
    assert (∃ out st', r = App2.Asleep 2 out st') as (out & st' & ->).
    { revert Hrun. vm_compute. intros [= <-]. eexists _, _. reflexivity. }
    exists out, st'. split; [exact Hrun|]. apply Hr.
Defined.

(** The test of the client accepts a refused registration.  The kernel
    refuses process 23 (its write returns -1 and the list keeps its single
    task, 123); the program nevertheless finds "23:" in the text, announces
    success, runs all its jobs without being scheduled, and exits 0. *)
Lemma refused_client_runs :
  let file := rms_file (λ m, m) env_23 in
  my_write (λ m, m) env_23 (App2.msg_R 23 100 50) busy_state = Done (-1, busy_state) ∧
  ∃ out, App2.main (E := Empty_set) (H := file) (λ k, App2.Timespec k 0) (λ _ st, st) (λ _ _, false)
           23 4 [49; 48; 48] [53; 48] busy_state = Done (App2.Ended 0 (App2.Success :: out) busy_state).
Proof. split; [reflexivity|]. eexists. reflexivity. Qed.
