(* ===== verification/WorkTheorems.v ===== *)
(** * The memory workload and the profiler

    work.c, proved against the interface [SafeFile] and run on mp3.c: its
    memory accesses stay inside the blocks it has allocated, every block is
    freed on every path, and the profiler has it registered while it
    computes and no longer when it has ended, unless memory ran out. *)
From S2P Require Import Prelude CInt ProcText Profiler ProfilerTheorems Clients.
Import Work.

(** ** The program against the interface *)
Section Program.
Context {E St : Type} `{ProcFile E St} (I : St → Prop) `{!SafeFile E St I}.
Variables (rand : nat → Z) (malloc_ok : Z → bool).
Hypothesis Hrand : ∀ n, 0 ≤ rand n ≤ RAND_MAX.
Abbreviation wpt m Q := (wp (E := E) True (λ _, False) m Q).

(** [buffer] with its first [n] blocks allocated. *)
Definition live (n : Z) : list bool := tab 1024 (λ i, bool_decide (i < n)).

Lemma live_none : replicate 1024 false = live 0.
Proof. vm_compute. reflexivity. Qed.

Lemma int_done x : - 2 ^ 31 ≤ x < 2 ^ 31 → int (E := E) x = Done x.
Proof. intros Hx. unfold int. by rewrite decide_True. Qed.

(** A random access hits a byte of an allocated block. *)
Lemma rand_access_done msize m :
  1 ≤ msize ≤ 1024 → buffer m = live msize →
  rand_access (E := E) rand msize m = Done (Mem (buffer m) (writes m + 1) (S (rands m))).
Proof.
  intros Hm Hb. unfold rand_access. rewrite int_done by lia. cbn [obind call_rand].
  rewrite decide_False by lia. cbn [obind].
  pose proof (Hrand (rands m)) as Hr. unfold RAND_MAX in Hr.
  set (t := Z.rem (rand (rands m)) (msize * 1024 * 1024)).
  assert (0 ≤ t < msize * 1024 * 1024) as Ht by (apply Z.rem_bound_pos; lia).
  rewrite decide_False by lia. cbn [obind].
  rewrite (Z.quot_div_nonneg t 1024), Z.quot_div_nonneg by (try apply Z.div_pos; lia).
  rewrite Z.div_div by lia. change (1024 * 1024) with 1048576.
  replace (t - t / 1048576 * 1024 * 1024) with (t mod 1048576) by (Z.div_mod_to_equations; lia).
  pose proof (Z.mod_pos_bound t 1048576 ltac:(lia)) as Hmod.
  rewrite int_done by lia. cbn [obind]. unfold poke. cbn [buffer writes rands]. rewrite Hb. unfold live.
  assert (0 ≤ t / 1048576 < msize) as Hblk by (Z.div_mod_to_equations; lia).
  rewrite aget_tab by lia. cbn [obind]. rewrite (bool_decide_eq_true_2 (_ < msize)) by lia.
  rewrite bool_decide_eq_true_2 by (unfold MB; lia). done.
Qed.

(** The bound on [addr] after [n] accesses. *)
Definition addr_cap (locality n : Z) : Z := if decide (locality = 0) then 0 else 299 * n.

Definition acc_inv (msize locality n : Z) (s : Z * mem) : Prop :=
  buffer s.2 = live msize ∧ 0 ≤ s.1 ≤ addr_cap locality n.

Lemma access_wp msize locality n s :
  1 ≤ msize ≤ 1024 → 0 ≤ n → addr_cap locality (n + 1) < 2 ^ 31 →
  acc_inv msize locality n s →
  wpt (access rand msize locality s) (acc_inv msize locality (n + 1)).
Proof.
  intros Hm Hn Hcap [Hb Ha]. unfold access, acc_inv, addr_cap in *.
  destruct (decide (locality = 0)) as [->|Hl].
  { rewrite rand_access_done by done. split; [done|simpl; lia]. }
  cbn [call_rand]. case_decide.
  { rewrite rand_access_done by done. split; [done|simpl; lia]. }
  unfold local_access. cbn [call_rand buffer writes rands].
  rewrite decide_False by (pose proof (Hrand (S (rands s.2))); lia).
  pose proof (Hrand (S (S (rands s.2)))) as Hr.
  pose proof (Z.rem_bound_pos (rand (S (S (rands s.2)))) 300 ltac:(lia) ltac:(lia)).
  rewrite int_done by lia. split; [done|simpl; lia].
Qed.

Lemma iteration_wp pid msize locality naccess n k s out :
  1 ≤ msize ≤ 1024 → 0 ≤ n → 1 ≤ naccess → addr_cap locality (n + naccess) < 2 ^ 31 →
  acc_inv msize locality n s →
  wpt (iteration rand pid msize locality naccess k (s, out))
      (λ r, acc_inv msize locality (n + naccess) r.1 ∧ r.2 = out ++ [Iteration pid k]).
Proof.
  intros Hm Hn Hna Hcap Hs. unfold iteration. apply wp_bind. cbn [fst snd].
  apply (wp_mfor _ _ (λ l, acc_inv msize locality (n + Z.of_nat (length l)))).
  - by rewrite Z.add_0_r.
  - intros l1 j l2 s1 Hl Hs1. rewrite length_app. cbn [length].
    assert (Z.of_nat (length l1) < naccess) as Hlen.
    { apply (f_equal length) in Hl. rewrite length_seqZ, length_app in Hl. simpl in Hl. lia. }
    replace (n + Z.of_nat (length l1 + 1)) with (n + Z.of_nat (length l1) + 1) by lia.
    apply access_wp; [done|lia| |done]. revert Hcap. unfold addr_cap. case_decide; lia.
  - intros s1 Hs1. rewrite length_seqZ in Hs1. split; [|done].
    by replace (n + naccess) with (n + Z.of_nat (Z.to_nat naccess)) by lia.
Qed.

Lemma iterations_wp pid msize locality naccess m out :
  1 ≤ msize ≤ 1024 → 1 ≤ naccess → addr_cap locality (20 * naccess) < 2 ^ 31 →
  buffer m = live msize →
  wpt (mfor (seqZ 0 N_ITERATION) (iteration rand pid msize locality naccess) (0, m, out))
      (λ r, buffer r.1.2 = live msize ∧ r.2 = out ++ (Iteration pid <$> seqZ 0 N_ITERATION)).
Proof.
  intros Hm Hna Hcap Hb.
  apply (wp_mfor _ _ (λ l r, acc_inv msize locality (naccess * Z.of_nat (length l)) r.1 ∧
                             r.2 = out ++ (Iteration pid <$> l))).
  - split; [|by rewrite app_nil_r]. split; [done|]. unfold addr_cap. simpl. case_decide; lia.
  - intros l1 k l2 [s o] Hl [Hs Ho]. cbn [fst snd] in *. subst o.
    assert (Z.of_nat (length l1) < 20) as Hlen.
    { apply (f_equal length) in Hl. rewrite length_seqZ, length_app in Hl.
      change (Z.to_nat N_ITERATION) with 20%nat in Hl. simpl in Hl. lia. }
    rewrite length_app, fmap_app, app_assoc. cbn [length].
    replace (naccess * Z.of_nat (length l1 + 1)) with (naccess * Z.of_nat (length l1) + naccess) by lia.
    apply iteration_wp; try done; [nia|]. revert Hcap. unfold addr_cap. case_decide; nia.
  - intros r [[Hbr _] Ho]. done.
Qed.

(** Allocating and freeing the blocks. *)
Lemma aset_live i : 0 ≤ i < 1024 → aset (E := E) (live i) i true = Done (live (i + 1)).
Proof.
  intros Hi. unfold live. rewrite aset_tab by done. f_equal. apply tab_ext. intros k Hk.
  case_decide; [symmetry; apply bool_decide_eq_true; lia|]. apply bool_decide_ext. lia.
Qed.

Lemma free_live n : 0 ≤ n < 1024 → free_block (E := E) n (live (n + 1)) = Done (live n).
Proof.
  intros Hn. unfold free_block, live. rewrite aget_tab by done. cbn [obind].
  rewrite bool_decide_eq_true_2 by lia. rewrite aset_tab by done. f_equal. apply tab_ext. intros k Hk.
  case_decide; [symmetry; apply bool_decide_eq_false; lia|]. apply bool_decide_ext. lia.
Qed.

Lemma allocate_spec n i : 0 ≤ i → i + Z.of_nat n ≤ 1024 →
  ((∀ k, i ≤ k < i + Z.of_nat n → malloc_ok k = true) ∧
   allocate (E := E) malloc_ok n i (live i) = Done (live (i + Z.of_nat n), None)) ∨
  ∃ j, i ≤ j < i + Z.of_nat n ∧ malloc_ok j = false ∧
       allocate (E := E) malloc_ok n i (live i) = Done (live j, Some j).
Proof.
  revert i. induction n as [|n IH]; intros i Hi Hn; cbn [allocate].
  { left. rewrite Z.add_0_r. split; [lia|done]. }
  destruct (malloc_ok i) eqn:Hok.
  - rewrite aset_live by lia. cbn [obind]. destruct (IH (i + 1)) as [[Hk ->]|(j & Hj & Hf & ->)]; [lia|lia|..].
    + left. split; [|do 3 f_equal; lia]. intros k Hk'. destruct (decide (k = i)) as [->|]; [done|]. apply Hk. lia.
    + right. exists j. split_and!; [lia|lia|done|done].
  - right. exists i. split_and!; [lia|lia|done|done].
Qed.

Lemma free_down_spec n : (n ≤ 1024)%nat → free_down (E := E) n (live (Z.of_nat n)) = Done (live 0, -1).
Proof.
  induction n as [|n IH]; intros Hn; [done|]. cbn [free_down].
  replace (Z.of_nat (S n)) with (Z.of_nat n + 1) by lia. rewrite free_live by lia.
  cbn [obind]. apply IH. lia.
Qed.

Lemma free_all_spec msize : 0 ≤ msize ≤ 1024 →
  mfor (E := E) (seqZ 0 msize) free_block (live msize) = Done (live 0).
Proof.
  intros Hm.
  assert (wpt (mfor (seqZ 0 msize) free_block (live msize)) (λ b, b = live 0)) as Hw.
  { apply (wp_mfor _ _ (λ l b, b = tab 1024 (λ i, bool_decide (Z.of_nat (length l) ≤ i < msize)))).
    - apply tab_ext. intros k Hk. apply bool_decide_ext. simpl. lia.
    - intros l1 k l2 b Hl ->.
      assert (k = Z.of_nat (length l1) ∧ k < msize) as [-> Hk].
      { assert (seqZ 0 msize !! length l1 = Some k) as Hk%lookup_seqZ
          by (rewrite Hl; by apply list_lookup_middle). lia. }
      unfold free_block. rewrite aget_tab by lia. cbn [obind]. rewrite bool_decide_eq_true_2 by lia.
      rewrite aset_tab by lia. apply tab_ext. intros j Hj. rewrite length_app. cbn [length].
      case_decide; [symmetry; apply bool_decide_eq_false; lia|]. apply bool_decide_ext. lia.
    - intros b ->. apply tab_ext. intros k Hk. rewrite length_seqZ. apply bool_decide_ext. lia. }
  by destruct (mfor _ _ _); simpl in Hw; subst.
Qed.

(** Arguments the program refuses. *)
Definition bad_arguments (argc : Z) (a1 a3 : list Z) : Prop :=
  argc < 4 ∨ ¬ (1 ≤ atoi a1 ≤ 1024) ∨ atoi a3 < 1.

(** The three ways a run can go. *)
Lemma main_cases argc a1 a2 a3 pid others st :
  I st → (∀ st, I st → I (others st)) → atoi a3 ≤ 359101 ∨ head a2 = Some 82 →
  ∃ code out st',
    main (E := E) rand malloc_ok argc a1 a2 a3 pid others st =
      Done (code, out, replicate 1024 false, st') ∧ I st' ∧
    ((bad_arguments argc a1 a3 ∧ code = -1 ∧ st' = st ∧ (out = [Usage] ∨ out = [BadMemsize] ∨ out = [BadNaccess])) ∨
     (¬ bad_arguments argc a1 a3 ∧ ∃ r1 s1, pf_write (msg_R pid) st = Done (r1, s1) ∧
      (((∀ k, 0 ≤ k < atoi a1 → malloc_ok k = true) ∧ code = 0 ∧
        out = Config (atoi a1) (if decide (head a2 = Some 82) then 0 else 1) (atoi a3) :: (Iteration pid <$> seqZ 0 20) ∧
        ∃ r2, pf_write (msg_U pid) (others s1) = Done (r2, st')) ∨
       ((∃ k, 0 ≤ k < atoi a1 ∧ malloc_ok k = false) ∧ code = -1 ∧
        (∃ loc, out = [Config (atoi a1) loc (atoi a3); OutOfMemory (-1)]) ∧ st' = others s1)))).
Proof.
  intros HI Hoth Hna. unfold main, bad_arguments. cbv zeta.
  case_decide; [eexists _, _, _; split_and!; [done|done|left; split_and!; [lia|done|done|tauto]]|].
  case_decide as Hms; [eexists _, _, _; split_and!; [done|done|left; split_and!; [lia|done|done|tauto]]|].
  case_decide as Hn1; [eexists _, _, _; split_and!; [done|done|left; split_and!; [lia|done|done|tauto]]|].
  destruct (sf_write (msg_R pid) st HI) as (r & st1 & Hw1 & HI1). rewrite Hw1. cbn [obind fst snd].
  rewrite live_none.
  destruct (allocate_spec (Z.to_nat (atoi a1)) 0) as [[Hk ->]|(j & Hj & Hfail & ->)]; [lia|lia|..];
    cbn [obind fst snd].
  - replace (0 + Z.of_nat (Z.to_nat (atoi a1))) with (atoi a1) in Hk |- * by lia.
    set (loc := if decide (head a2 = Some 82) then 0 else 1).
    assert (addr_cap loc (20 * atoi a3) < 2 ^ 31) as Hcap
      by (unfold addr_cap, loc; repeat case_decide; naive_solver lia).
    pose proof (iterations_wp pid (atoi a1) loc (atoi a3) (Mem (live (atoi a1)) 0 0)
      [Config (atoi a1) loc (atoi a3)] ltac:(lia) ltac:(lia) Hcap eq_refl) as Hw.
    apply wp_safe in Hw as ([[a m] out] & -> & Hb & Hout); [|done|by intros ? ?].
    cbn [obind fst snd] in *. rewrite Hb, free_all_spec by lia. cbn [obind].
    destruct (sf_write (msg_U pid) (others st1)) as (r' & st2 & Hw2 & HI2); [auto|]. rewrite Hw2.
    eexists _, _, _. split_and!; [done|done|]. right. split; [lia|]. exists r, st1. split; [done|]. left.
    rewrite Hout. split_and!; [done|done|done|]. eauto.
  - pose proof (free_down_spec (Z.to_nat j)) as Hf. rewrite Z2Nat.id in Hf by lia.
    rewrite Hf by lia. cbn [obind fst snd].
    eexists _, _, _. split_and!; [done|auto|]. right. split; [lia|]. exists r, st1. split; [done|]. right.
    split_and!; [exists j; split; [lia|done]|done|eauto|done].
Qed.

Lemma main_run argc a1 a2 a3 pid others st :
  I st → (∀ st, I st → I (others st)) → atoi a3 ≤ 359101 ∨ head a2 = Some 82 →
  ∃ code out st',
    main (E := E) rand malloc_ok argc a1 a2 a3 pid others st =
      Done (code, out, replicate 1024 false, st') ∧ I st' ∧
    ((code = 0 ∧ out = Config (atoi a1) (if decide (head a2 = Some 82) then 0 else 1) (atoi a3) ::
                       (Iteration pid <$> seqZ 0 20) ∧
      ∃ r1 s1 r2, pf_write (msg_R pid) st = Done (r1, s1) ∧
                  pf_write (msg_U pid) (others s1) = Done (r2, st')) ∨
     (code = -1 ∧ st' = st ∧ (out = [Usage] ∨ out = [BadMemsize] ∨ out = [BadNaccess])) ∨
     (code = -1 ∧ (∃ loc, out = [Config (atoi a1) loc (atoi a3); OutOfMemory (-1)]) ∧
      ∃ r1 s1, pf_write (msg_R pid) st = Done (r1, s1) ∧ st' = others s1)).
Proof.
  intros HI Hoth Hna. destruct (main_cases argc a1 a2 a3 pid others st HI Hoth Hna)
    as (code & out & st' & Hrun & HI' & [(_ & -> & -> & Hout)|(_ & r1 & s1 & H1 & [(_ & -> & Hout & r2 & H2)|(_ & -> & Hout & ->)])]);
    eexists _, _, _; (split_and!; [done|done|]).
  - right. left. done.
  - left. split_and!; [done|done|]. eauto.
  - right. right. split_and!; [done|done|]. eauto.
Qed.

(** C39: the workload is memory safe.  For every sequence of random numbers,
    every pattern of allocation failures and all arguments (with at most
    359101 accesses per iteration in the temporal mode), the program
    completes: every access is to a byte of a block it has allocated, no
    integer overflows, and at the end of every path each block has been freed
    exactly once.  It prints its configuration and twenty iterations and
    returns 0, or it returns -1 with one of its messages; the one for a
    failed allocation always shows -1 MB.  A complete run sends the profiler
    its registration and its deregistration, a run that runs out of memory
    only the registration, and one with bad arguments nothing. *)
Theorem work_memory_safe argc a1 a2 a3 pid others st :
  I st → (∀ st, I st → I (others st)) → atoi a3 ≤ 359101 ∨ head a2 = Some 82 →
  ∃ code out st',
    main (E := E) rand malloc_ok argc a1 a2 a3 pid others st =
      Done (code, out, replicate 1024 false, st') ∧ I st' ∧
    ((code = 0 ∧ out = Config (atoi a1) (if decide (head a2 = Some 82) then 0 else 1) (atoi a3) ::
                       (Iteration pid <$> seqZ 0 20) ∧
      ∃ r1 s1 r2, pf_write (msg_R pid) st = Done (r1, s1) ∧
                  pf_write (msg_U pid) (others s1) = Done (r2, st')) ∨
     (code = -1 ∧ st' = st ∧ (out = [Usage] ∨ out = [BadMemsize] ∨ out = [BadNaccess])) ∨
     (code = -1 ∧ (∃ loc, out = [Config (atoi a1) loc (atoi a3); OutOfMemory (-1)]) ∧
      ∃ r1 s1, pf_write (msg_R pid) st = Done (r1, s1) ∧ st' = others s1)).
Proof. apply main_run. Qed.
End Program.

(** ** The profiler as the file behind the program *)
#[export] Instance profiler_file : ProcFile Empty_set Mp3.state := {|
  pf_write := Mp3.my_write true true;
  pf_read := λ len pos st, Done (Mp3.my_read true true len pos st);
|}.

Lemma taskregister_wf p st : wf st → wf (Mp3.taskregister true p st).2.
Proof.
  intros Hwf. unfold Mp3.taskregister, Mp3.register_lock.
  case_decide as Hp; [done|]. case_decide as Hin; [done|].
  assert (wf (Mp3.set_head (Mp3.mp3head st ++ [p]) st)) as Hwf'.
  { destruct Hwf as [Hnd Hpos Hb Hi]. split; simpl; [|..|done|done].
    - apply NoDup_app. split_and!; [done| |apply NoDup_singleton]. by intros x Hx ->%list_elem_of_singleton.
    - intros x [Hx| ->%list_elem_of_singleton]%elem_of_app; [auto|lia]. }
  simpl. case_bool_decide; [by apply wf_work|done].
Qed.

Lemma taskregister_in p st : 0 < p → p ∈ Mp3.mp3head (Mp3.taskregister true p st).2.
Proof.
  intros Hp. unfold Mp3.taskregister, Mp3.register_lock. rewrite decide_False by lia.
  destruct (decide (p ∈ Mp3.mp3head st)); simpl; [done|].
  case_bool_decide; simpl; apply elem_of_app; right; left.
Qed.

Lemma deregister_wf p st : wf st → ∃ b st', Mp3.deregister p st = Done (b, st') ∧ wf st'.
Proof.
  intros Hwf. unfold Mp3.deregister, Mp3.deregister_lock. case_decide as Hin; [|by eexists _, _].
  assert (wf (Mp3.set_head (Mp3.remove_first p (Mp3.mp3head st)) st)) as Hwf'.
  { destruct Hwf as [Hnd Hpos Hb Hi]. split; simpl; [by apply NoDup_remove_first| |done|done].
    intros x Hx%elem_of_remove_first. auto. }
  case_bool_decide; [|by eexists _, _].
  destruct (cancel_sync_spec _ Hwf') as (b & i & -> & Hc). by eexists _, _.
Qed.

#[export] Instance profiler_safe_file : SafeFile Empty_set Mp3.state wf.
Proof.
  split. intros msg st Hwf. cbn [pf_write profiler_file]. unfold Mp3.my_write.
  case_decide; [by eexists _, _|]. destruct (cstring msg) as [|c s] eqn:Hmsg; [by eexists _, _|].
  destruct (decide (c = 82)) as [->|H82].
  - destruct (sscanf _ _) as [[|[|n]] [|p [|]]]; try by eexists _, _.
    eexists _, _. split; [done|]. by apply taskregister_wf.
  - destruct (decide (c = 85)) as [->|H85].
    + destruct (sscanf _ _) as [[|[|n]] [|p [|]]]; try by eexists _, _.
      destruct (deregister_wf p st Hwf) as (b & st' & -> & Hwf'). by eexists _, _.
    + exists (-1), st. split; [|done]. repeat (case_match; try done); lia.
Qed.

(** The profiler parses what the program writes. *)
Lemma message_parsed c p : 0 < p < 2 ^ 31 →
  let msg := c :: 32 :: fmt_lu (u32 p) ++ [10] in
  sscanf [Lit c; Space; ConvD] msg = (1%nat, [p]) ∧ (c ≠ 0 → cstring msg = msg) ∧
  ¬ (Z.of_nat (length msg) >= 25 ∨ Z.of_nat (length msg) = 0).
Proof.
  intros Hp. rewrite wrap_small by lia.
  assert (fmt_lu p = fmt_d p) as -> by (unfold fmt_d; by rewrite decide_False by lia).
  destruct (fmt_d_graph p ltac:(lia)) as [Hg Hne]. pose proof (length_fmt_d p ltac:(lia)) as Hlen.
  cbv zeta. split_and!.
  - cbn [sscanf]. rewrite (decide_True (P := c = c)) by done.
    assert (skip_spaces (32 :: fmt_d p ++ [10]) = fmt_d p ++ [10]) as ->.
    { cbn [skip_spaces]. rewrite decide_True by (by right; left).
      destruct (fmt_d p) as [|d l]; [done|]. apply Forall_cons in Hg as [Hd _]. by apply skip_spaces_graph. }
    rewrite scan_int_fmt_d; [done|lia|]. intros d [= <-]. unfold is_digit. lia.
  - intros Hc. cbn [cstring]. rewrite !decide_False by done. by rewrite cstring_no_nul.
  - simpl. rewrite length_app. simpl. lia.
Qed.

Lemma write_R p st : 0 < p < 2 ^ 31 →
  Mp3.my_write true true (msg_R p) st =
  Done (Z.of_nat (length (msg_R p)), (Mp3.taskregister true p st).2).
Proof.
  intros Hp. destruct (message_parsed 82 p Hp) as (Hscan & Hcs & Hlen).
  unfold Mp3.my_write, msg_R. rewrite decide_False by exact Hlen. simpl app. rewrite Hcs by done.
  cbv beta iota. unfold Mp3.fmt_R. by rewrite Hscan.
Qed.

Lemma write_U p st : 0 < p < 2 ^ 31 →
  Mp3.my_write true true (msg_U p) st =
  let! r := Mp3.deregister p st in Done (Z.of_nat (length (msg_U p)), r.2).
Proof.
  intros Hp. destruct (message_parsed 85 p Hp) as (Hscan & Hcs & Hlen).
  unfold Mp3.my_write, msg_U. rewrite decide_False by exact Hlen. simpl app. rewrite Hcs by done.
  cbv beta iota. unfold Mp3.fmt_U. by rewrite Hscan.
Qed.

Lemma remove_first_gone p l : NoDup l → p ∉ Mp3.remove_first p l.
Proof.
  induction 1 as [|x l Hx Hl IH]; simpl; [by apply not_elem_of_nil|].
  case_decide; [by subst|]. by apply not_elem_of_cons.
Qed.

Lemma deregister_gone p st b st' :
  wf st → Mp3.deregister p st = Done (b, st') → p ∉ Mp3.mp3head st'.
Proof.
  intros Hwf. unfold Mp3.deregister, Mp3.deregister_lock.
  case_decide as Hin; [|by intros [= _ <-]].
  pose proof (remove_first_gone p _ (wf_nodup _ Hwf)) as Hgone.
  case_bool_decide as Hl; [|by intros [= _ <-]].
  unfold Mp3.cancel_sync. cbn [Mp3.running Mp3.set_head].
  destruct (Mp3.running st) as [[x|]|]; cbn [Mp3.work_store obind]; [|by intros [= _ <-]..].
  destruct (Mp3.put_sample _ _); cbn [obind]; [|done..]. by intros [= _ <-].
Qed.


Definition fresh_profiler : Mp3.state :=
  Mp3.empty_state ∅ (tab Mp3.buff_longs (λ _, Mp3.EMPTY)).

Lemma fresh_wf : wf fresh_profiler.
Proof. by apply empty_wf. Qed.

(** "1", "R" or "T", "5": one block, five accesses per iteration. *)
Lemma work_memory_safe_witness :
  ∃ code out st', main (E := Empty_set) (λ n, Z.of_nat n mod 1000) (λ _, true) 4 [49] [84] [53] 77 (λ st, st)
    fresh_profiler = Done (code, out, replicate 1024 false, st') ∧ wf st'.
Proof.
  destruct (work_memory_safe wf (λ n, Z.of_nat n mod 1000) (λ _, true)
    ltac:(intros n; pose proof (Z.mod_pos_bound (Z.of_nat n) 1000); unfold RAND_MAX; lia)
    4 [49] [84] [53] 77 (λ st, st) fresh_profiler fresh_wf) as (code & out & st' & Hrun & Hwf & _);
    [done|left; vm_compute; done|].
  exists code, out, st'. split; [exact Hrun|exact Hwf].
Defined.


(** ** Too many accesses *)

(** When every random number is 299, each access of the temporal mode moves
    [addr] by 299. *)
Lemma local_run {E} (l : list Z) msize a m :
  0 ≤ a < 2 ^ 31 → 2 ^ 31 ≤ a + 299 * Z.of_nat (length l) →
  mfor (E := E) l (λ _, access (λ _, 299) msize 1) (a, m) = Fault.
Proof.
  revert a m. induction l as [|x l IH]; intros a m Ha Hl; simpl length in Hl; [lia|].
  cbn [mfor]. unfold access at 1. rewrite decide_False by done. cbn [call_rand fst snd].
  rewrite decide_False by (by intros [_ H]; vm_compute in H). unfold local_access. cbn [call_rand].
  rewrite decide_False by done. change (Z.rem 299 300) with 299. unfold int.
  destruct (decide (- 2 ^ 31 ≤ a + 299 < 2 ^ 31)); [|done]. cbn [obind]. apply IH; lia.
Qed.

(** The temporal mode has no bound on its address.  With 8388608 accesses
    per iteration, which the argument test allows, there are random numbers
    for which [addr] overflows an [int] in the first iteration. *)
Lemma work_address_overflows pid others :
  main (E := Empty_set) (λ _, 299) (λ _, true) 4 [49] [84] [56; 51; 56; 56; 54; 48; 56] pid others
    fresh_profiler = Fault.
Proof.
  unfold main. cbv zeta. rewrite decide_False by lia.
  change (atoi [49]) with 1. rewrite decide_False by lia.
  change (atoi [56; 51; 56; 56; 54; 48; 56]) with 8388608. rewrite decide_False by lia.
  destruct (sf_write (msg_R pid) fresh_profiler fresh_wf) as (r & st1 & -> & _). cbn [obind fst snd].
  rewrite (decide_False (P := head [84] = Some 82)) by done.
  change (Z.to_nat 1) with 1%nat. cbn [allocate].
  rewrite live_none, aset_live by lia. cbn [obind fst snd].
  assert (∀ k, seqZ 0 N_ITERATION = 0 :: k →
    mfor (E := Empty_set) (seqZ 0 N_ITERATION) (iteration (λ _, 299) pid 1 1 8388608)
      (0, Mem (live (0 + 1)) 0 0, [Config 1 1 8388608]) = Fault) as H.
  { intros k ->. cbn [mfor]. unfold iteration at 1. cbn [fst snd].
    rewrite local_run; [done|lia|]. rewrite length_seqZ. lia. }
  by rewrite (H (seqZ 1 19)).
Qed.
