(* ===== verification/ProfilerSession.v ===== *)
(** * A profiling session, end to end

    The module is loaded, workloads register through the proc entry, the
    delayed work samples them, and the monitor opens the device, maps the
    buffer and prints it: the programs of
    src/Virtual_Memory_Page_Fault_Profiler/ composed the way a user runs
    them. *)
From S2P Require Import Prelude CInt ProcText Profiler ProfilerTheorems Monitor Clients WorkTheorems.

Module Session.
Import Mp3.

(** [mp3_init] where every kernel call succeeds. *)
Definition load (ts : process_table) : Z * module_state := mp3_init true true 0 0 true true ts.

(** The workload of pid [p] writes its registration. *)
Definition register (p : Z) (st : state) : M state :=
  let! r := my_write true true (Work.msg_R p) st in Done r.2.

(** The processes run; at time [t.1], with the process table [t.2], the
    delay is over and the work runs if it is queued. *)
Definition tick (t : Z * process_table) (st : state) : M state :=
  let! st1 := exec (EvProcesses t.2) st in
  if pending st1 then workhandler t.1 st1 else Done st1.

Definition profile (ps : list Z) (ticks : list (Z * process_table)) (m : module_state) : M state :=
  let! st := mfor ps register (prof m) in mfor ticks tick st.

Section Observe.
(** [vmalloc_to_pfn], [remap_pfn_range] and the longs of a page frame. *)
Variable pfn_of : Z → Z.
Variable remap_ok : Z → bool.
Variable frame : Z → list Z.

(** What a user area shows whose pages have been mapped in this order. *)
Definition user_view (mapped : list (Z * Z)) : list Z := concat ((λ m, frame m.2) <$> mapped).

(** The monitor on the device: [fd] is the descriptor [open] hands out and
    [vm_start] the area [mmap] picks. *)
Definition observe (vm_start fd : Z)
  : Mon.MF (Z * (list (list Z) * Z) * option (list Z) * Mon.device) :=
  let ops := myfops pfn_of remap_ok in
  let opened := if decide (fop_open ops = 0) then fd else -1 in
  let r := fop_mmap ops vm_start (vm_start + Mon.NPAGES * PAGE_SIZE) in
  Mon.program PAGE_SIZE opened (if decide (r.1 = 0) then Some (user_view r.2) else None) Mon.device0.

(** Page [k] of a buffer, and that the frames hold a buffer: what
    [vmalloc_to_pfn] promises of the pages of a vmalloc'ed area. *)
Definition page (b : list Z) (k : Z) : list Z := take 512 (drop (Z.to_nat (512 * k)) b).
Definition backed (b : list Z) : Prop := ∀ k, 0 ≤ k < 128 → frame (pfn_of (k * PAGE_SIZE)) = page b k.
End Observe.

(** ** What the session should show *)

(** Of the registered pids, those alive. *)
Definition alive (ts : process_table) (l : list Z) : list Z := filter (λ p, is_Some (ts !! p)) l.

(** The samples: at each tick the sums over the pids that have been alive at
    every tick so far, until none is left. *)
Fixpoint expected (l : list Z) (ticks : list (Z * process_table)) : list sample :=
  match ticks with
  | [] => []
  | t :: ticks' => recorded t.1 t.2 l ++ expected (alive t.2 l) ticks'
  end.
End Session.
Import Mp3 Session.

(** ** Registration *)

(** The work is queued exactly while a pid is registered. *)
Definition armed (st : state) : Prop := pending st = negb (bool_decide (mp3head st = [])).

Lemma register_new p st :
  0 < p < 2 ^ 31 → p ∉ mp3head st → armed st →
  ∃ st', register p st = Done st' ∧ mp3head st' = mp3head st ++ [p] ∧ armed st' ∧
    gbuffer st' = gbuffer st ∧ indx st' = indx st.
Proof.
  intros Hp Hin Ha. unfold register. rewrite write_R by done. cbn [obind snd]. eexists. split; [done|].
  unfold taskregister, register_lock. rewrite !decide_False by (done || lia). unfold armed in *.
  case_bool_decide as Hnil; cbn -[app]; (split_and!; [done| |done..]);
    rewrite (bool_decide_eq_false_2 (mp3head st ++ [p] = [])) by (by destruct (mp3head st)); [done|].
  exact Ha.
Qed.

Lemma register_wf p st st' : 0 < p < 2 ^ 31 → wf st → register p st = Done st' → wf st'.
Proof.
  intros Hp Hwf. unfold register. rewrite write_R by done. cbn [obind snd]. intros [= <-].
  by apply taskregister_wf.
Qed.

Lemma register_all ps st :
  (∀ p, p ∈ ps → 0 < p < 2 ^ 31) → NoDup (mp3head st ++ ps) → wf st → armed st →
  ∃ st', mfor ps register st = Done st' ∧ mp3head st' = mp3head st ++ ps ∧ armed st' ∧ wf st' ∧
    gbuffer st' = gbuffer st ∧ indx st' = indx st.
Proof.
  revert st. induction ps as [|p ps IH]; intros st Hps Hnd Hwf Ha; cbn [mfor].
  { exists st. by rewrite app_nil_r. }
  pose proof (Hps p ltac:(left)) as Hp.
  destruct (register_new p st Hp) as (st1 & Hr & Hh & Ha1 & Hg & Hi); [|done|].
  { apply NoDup_app in Hnd as (_ & Hd & _). intros Hin. by apply (Hd p Hin); left. }
  rewrite Hr. cbn [obind].
  destruct (IH st1) as (st' & -> & Hh' & Ha' & Hwf' & Hg' & Hi').
  - intros q Hq. apply Hps. by right.
  - by rewrite Hh, <- app_assoc.
  - by eapply register_wf.
  - done.
  - exists st'. split; [done|]. by rewrite Hh', Hh, <- app_assoc, Hg', Hg, Hi', Hi.
Qed.

(** ** Sampling *)
Lemma alive_nil ts : alive ts [] = [].
Proof. done. Qed.

Lemma expected_nil ticks : expected [] ticks = [].
Proof. induction ticks as [|t ticks IH]; [done|]. exact IH. Qed.

Lemma tick_spec t st :
  wf st → armed st →
  ∃ st', tick t st = Done st' ∧ wf st' ∧ armed st' ∧ mp3head st' = alive t.2 (mp3head st) ∧
    mfor (recorded t.1 t.2 (mp3head st)) put_sample (gbuffer st, indx st) = Done (gbuffer st', indx st').
Proof.
  intros Hwf Ha. unfold tick. cbn [exec obind]. set (st1 := State t.2 _ _ _ _ _ _ _).
  assert (wf st1) as Hwf1 by (by destruct Hwf). cbn [pending st1]. rewrite Ha. case_bool_decide as Hnil.
  - exists st1. cbn. rewrite Hnil. split_and!; [done|done| |done|done]. unfold armed in *. cbn.
    by rewrite Ha.
  - destruct (work_put t.1 st1 Hwf1) as (st' & Hw & Hwf' & Hh & _ & _ & Hp & Hput). cbn [negb].
    exists st'. unfold armed. rewrite Hh. by split_and!.
Qed.

Lemma ticks_spec ticks st :
  wf st → armed st →
  ∃ st', mfor ticks tick st = Done st' ∧
    mp3head st' = foldl (λ l t, alive t.2 l) (mp3head st) ticks ∧
    mfor (expected (mp3head st) ticks) put_sample (gbuffer st, indx st) = Done (gbuffer st', indx st').
Proof.
  revert st. induction ticks as [|t ticks IH]; intros st Hwf Ha; [by exists st|].
  destruct (tick_spec t st Hwf Ha) as (st1 & Ht & Hwf1 & Ha1 & Hh1 & Hput1).
  destruct (IH st1 Hwf1 Ha1) as (st' & Hts & Hh & Hput). exists st'. cbn [mfor expected foldl].
  rewrite Ht. cbn [obind]. rewrite Hh1 in Hh, Hput. split_and!; [done|done|].
  by rewrite mfor_app, Hput1.
Qed.

Lemma expected_length l ticks : (length (expected l ticks) ≤ length ticks)%nat.
Proof.
  revert l. induction ticks as [|t ticks IH]; intros l; [done|]. cbn [expected length].
  rewrite length_app. specialize (IH (alive t.2 l)). unfold recorded. case_decide; simpl; lia.
Qed.

Lemma expected_stamped l ticks :
  Forall (λ t, Mon.to_long t.1 ≠ -1) ticks → Forall stamped (expected l ticks).
Proof.
  intros Ht. revert l. induction Ht as [|t ticks Hx Ht IH]; intros l; [constructor|]. cbn [expected].
  apply Forall_app. split; [|done]. unfold recorded. case_decide; [constructor|]. by apply Forall_singleton.
Qed.

(** ** The mapping *)
Lemma pages_concat (b : list Z) (n : nat) a :
  0 ≤ a → concat (page b <$> seqZ a (Z.of_nat n)) = take (512 * n) (drop (Z.to_nat (512 * a)) b).
Proof.
  revert a. induction n as [|n IH]; intros a Ha; [done|].
  rewrite Nat2Z.inj_succ, seqZ_cons, Z.pred_succ by lia. cbn [fmap list_fmap concat].
  rewrite IH by lia. unfold page. rewrite Nat.mul_succ_r, Nat.add_comm, <- take_take_drop, drop_drop.
  do 3 f_equal. lia.
Qed.

Lemma view_buffer pfn_of remap_ok frame vm_start b :
  0 ≤ vm_start → vm_start + 128 * PAGE_SIZE < 2 ^ 64 → (∀ a, remap_ok a = true) →
  length b = Z.to_nat buff_longs → backed pfn_of frame b →
  let r := mymmap pfn_of remap_ok vm_start (vm_start + 128 * PAGE_SIZE) in
  r.1 = 0 ∧ user_view frame r.2 = b.
Proof.
  intros Hs Hend Hok Hlen Hback r. subst r. rewrite mymmap_pages by (done || lia). cbn [fst snd].
  split; [done|]. unfold user_view. rewrite <- list_fmap_compose.
  rewrite (list_fmap_ext _ (page b)).
  - change 128 with (Z.of_nat 128). rewrite pages_concat by lia. change (Z.to_nat (512 * 0)) with O. rewrite drop_0.
    apply take_ge. rewrite Hlen. change buff_longs with 65536. lia.
  - intros i k [-> Hi]%lookup_seqZ. cbn. apply Hback. lia.
Qed.

(** C37: a profiling session shows what happened.  The module is loaded,
    workloads with distinct pids register through the proc entry, and the
    work runs up to 12000 times, each time on a process table in which any
    process may have run, started or ended.  The monitor, which then opens
    the device and maps the buffer page by page, prints one line for every
    pass that found a registered process alive, with its time and the sums of
    the counters of those alive since the start, in order; it returns 0, has
    closed the device and leaves the buffer empty.  The pids still
    registered are those alive at every pass. *)
Theorem profiling_session pfn_of remap_ok vm_start fd ts0 ps ticks :
  NoDup ps → (∀ p, p ∈ ps → 0 < p < 2 ^ 31) → Z.of_nat (length ticks) ≤ 12000 →
  Forall (λ t, Mon.to_long t.1 ≠ -1) ticks →
  0 ≤ fd → 0 ≤ vm_start → vm_start + 128 * PAGE_SIZE < 2 ^ 64 → (∀ a, remap_ok a = true) →
  ∃ m st, load ts0 = (0, m) ∧ profile ps ticks m = Done st ∧
    mp3head st = foldl (λ l t, alive t.2 l) ps ticks ∧
    (∀ frame, backed pfn_of frame (gbuffer st) →
     observe pfn_of remap_ok frame vm_start fd =
     Done (0, (line <$> expected ps ticks, Z.of_nat (length (expected ps ticks))),
           Some (tab buff_longs (λ _, EMPTY)), Mon.Device (-1) buff_size)).
Proof.
  intros Hnd Hps Hticks Hst Hfd Hs Hend Hok.
  set (b0 := tab buff_longs (λ _, EMPTY)). set (st0 := empty_state ts0 b0).
  assert (wf st0) as Hwf0 by (apply empty_wf; reflexivity).
  destruct (register_all ps st0) as (st1 & Hr & Hh1 & Ha1 & Hwf1 & Hg1 & Hi1); [done|done|done|reflexivity|].
  destruct (ticks_spec ticks st1 Hwf1 Ha1) as (st & Ht & Hh & Hput).
  rewrite Hh1 in Hh, Hput. rewrite Hg1, Hi1 in Hput. cbn [mp3head st0 empty_state app gbuffer indx] in Hh, Hput.
  pose proof (expected_length ps ticks) as Hlen.
  pose proof (put_over (λ _, EMPTY) 0 (expected ps ticks) ltac:(lia) eq_refl ltac:(lia)) as Hput'.
  fold b0 in Hput'. rewrite Hput in Hput'.
  assert (gbuffer st = tab buff_longs (over (λ _, EMPTY) 0 (expected ps ticks))) as Hg by congruence.
  eexists _, st. split; [reflexivity|]. split; [|split; [exact Hh|]].
  { unfold profile. cbn [prof]. fold b0 st0. rewrite Hr. exact Ht. }
  intros frame Hback. destruct (view_buffer pfn_of remap_ok frame vm_start (gbuffer st)) as [Hr0 Hview]; try done.
  { rewrite Hg. apply length_tab. }
  unfold observe. cbn [fop_open fop_mmap myfops myopen]. rewrite decide_True by reflexivity.
  change (Mon.NPAGES * PAGE_SIZE) with (128 * PAGE_SIZE). rewrite decide_True by exact Hr0.
  rewrite Hview, Hg. unfold Mon.program, Mon.buf_init. rewrite decide_True by reflexivity.
  rewrite decide_False by lia. rewrite bool_decide_eq_true_2 by eauto.
  rewrite reads_back; [|lia|reflexivity|lia|by apply expected_stamped]. cbn [obind fst snd].
  unfold Mon.buf_exit. cbn [Mon.buf_fd Mon.buf_len]. rewrite decide_True by lia. reflexivity.
Qed.

(** Pid 8 has ended before the second pass. *)
Lemma profiling_session_witness :
  let pfn_of off := 1000 + off / PAGE_SIZE in
  let ticks := [(5000, {[7 := Task 3 1 10 5; 8 := Task 2 0 1 1]}); (5013, {[7 := Task 1 0 2 0]})] in
  ∃ m st, load ∅ = (0, m) ∧ profile [7; 8] ticks m = Done st ∧ mp3head st = [7] ∧
    observe pfn_of (λ _, true) (λ pfn, page (gbuffer st) (pfn - 1000)) 65536 3 =
    Done (0, ([ [5000; 5; 1; 17]; [5013; 1; 0; 2] ], 2), Some (tab buff_longs (λ _, EMPTY)),
          Mon.Device (-1) 524288).
Proof.
  intros pfn_of ticks.
  destruct (profiling_session pfn_of (λ _, true) 65536 3 ∅ [7; 8] ticks) as (m & st & Hl & Hp & Hh & Ho).
  - repeat constructor; set_solver.
  - intros p. rewrite !elem_of_cons, elem_of_nil. lia.
  - simpl. lia.
  - repeat (constructor; [done|]). constructor.
  - lia.
  - lia.
  - unfold PAGE_SIZE. lia.
  - reflexivity.
  - exists m, st. split; [exact Hl|]. split; [exact Hp|]. split; [exact Hh|]. apply Ho.
    intros k Hk. unfold pfn_of, PAGE_SIZE. rewrite Z.div_mul by lia. f_equal. lia.
Defined.
